(* ===== verification/_CoqProject ===== *)
-Q . S2P
Prelude.v
Mutex.v
Unicode.v
Utf8.v
GoStrings.v
GoUrl.v
Regex.v
Floats.v
Json.v
JsonEnc.v
Xml.v
XmlSpec.v
Effects.v
GoTime.v
TextChunker.v
TextTools.v
BlockCache.v
Retry.v
FetchSignals.v
Fetcher.v
FetcherSpec.v
Telemetry.v
Results.v
Fusion.v
Dedup.v
Serp.v
Engines.v
RedditOAuth.v
TokenFlight.v
TokenFlightSpec.v
Budget.v
SearchEngines.v
Http.v
KeyedEngines.v
Constructors.v
Fanout.v
FanoutLemmas.v
Collect.v
Direct.v
DirectSpec.v
FanoutSpec.v
DirectRun.v
FactVerify.v
FactNumbers.v
FactTokens.v
FactVerifySpec.v
Llm.v
LlmSpec.v
Prompts.v
ParallelFetch.v
Pipeline.v
PipelineSpec.v
PipelineFanout.v
ApiClient.v
SearXNG.v
SearXNGSpec.v
GoSearch.v
GoSearchSpec.v
Yandex.v
YandexSpec.v
XmlServices.v
Extract.v
ExtractSpec.v
Options.v
WebText.v
WebDirect.v
WebFanout.v
ImageEngines.v
ImageEnginesSpec.v
ImageSearch.v
