(* ===== verification/Prelude.v ===== *)
(** * A verification library for go-engine

    go-engine is a Go library for search programs: it fetches web pages through several tiers of
    clients, asks a dozen search engines in parallel, fuses and cleans their results, and cuts
    texts for a language model. This library models its core as executable Rocq definitions that
    follow the Go code function by function, and proves what the code promises.

    ** Conventions

    Strings and byte slices are lists of bytes ([gostring], numbers 0-255 in [Z]); [lit] writes a
    literal. Integers are [Z]; where a sum or product could leave 64 bits the wrap-around is
    written out ([wrap64], [iadd], [isub]). Floats are IEEE binary64 values ([Floats]). A run-time
    panic, such as a slice out of range, is a value of [outcome], and so is a loop that its fuel
    does not let finish; theorems show that the second never happens, and when the first does,
    such as for a negative chunk size ([TextChunker]), a negative budget of bytes ([TextTools]) or
    a negative number of retries without a proxy ([FetcherSpec]). Errors are trees of wrapped values
    ([Effects.error]) searched as errors.Is and errors.As do. A function with effects is a state
    transformer [M S A]. What lies outside the repository - the network, the clock, the DOM
    library goquery, browsers, the metrics registry - is a parameter: a class or a record of
    operations on a world [W] about which nothing is assumed, unless a theorem names the
    assumption. A method that runs under a mutex is one step, which [TokenFlightSpec] proves for the
    token manager; goroutines are sequences of steps whose order is quantified over. Logging is left out.

    ** Files, in dependency order

    - [Prelude]: outcomes, machine integers, slices, stable sorting, removal of repeated keys,
      with the tactics and hints of the development. [Mutex]: a lock that goroutines share.
    - [Unicode], [Utf8], [GoStrings], [GoUrl], [Floats], [Json], [JsonEnc], [Xml], [XmlSpec],
      [Effects], [GoTime]: the parts of Go's standard library the program uses: rune classes and
      case, UTF-8, strings, net/url with the printing of a parsed URL, math, encoding/json in both
      directions, encoding/xml, errors and contexts, dates, durations and base64, each with the
      lemmas that the components need (decoding gives back what was encoded, escaping what was
      escaped, parsing what was printed).
    - [TextChunker] models text/chunker.go. [Chunk] returns for every text and every size
      that is not negative, its chunks are not empty and within the size, and no text between them
      is lost when the size is positive and the overlap not negative.
    - [BlockCache] models fetch/blockcache.go, the cache of hosts that block direct requests. Every sequence
      of operations keeps it bounded; the operations refine a map from hosts to times; eviction is
      first in, first out while nothing has expired; the order slice leaks on expiry.
    - [Retry], [FetchSignals], [Fetcher], [FetcherSpec] model package fetch: the retry loop and
      the per-URL tracker (of the vendored go-stealth), the classification of block pages, the
      proxy-first domains, and [FetchBody] with its direct and proxy tiers and its fallback
      services. A body comes from a tier that answered, and the one panic is the nil response of a
      plain client with a negative number of retries; a host that blocked a direct attempt is sent
      to the proxy until its time is over; the tracker counts the failures of a URL.
    - [Results], [Fusion], [Dedup] model the result type, reciprocal rank fusion
      (websearch/fusion.go, imagesearch/fusion.go), near-duplicate removal, the filters, the
      formatting and the provider chain of package websearch, each against a reference.
    - [Serp], [Engines], [RedditOAuth] model package websearch: the URL of a result page decodes
      to its query and keeps its host; the block-page markers; the parsers of result pages; the
      five scrapers, which implement one provider contract; the cache of the OAuth token, and the
      OAuth search written against the interface of a token manager. [TokenFlight] and
      [TokenFlightSpec] interleave such searches request by request: the lock of the manager makes
      its calls atomic, one search at a time refreshes the token, and all of them return.
    - [Budget] models the two query budgets: the daily one grants exactly the first calls of a
      day; the monthly one is two atomics whose callers interleave as a step relation,
      exact once the first call of a month has reset the counter, and exceeded when two first calls
      of a month overlap, at its turn or in a new process.
    - [KeyedEngines] models the engines with JSON and XML interfaces (Yep, Stack Overflow, arXiv,
      the Brave API) and the rate-limited provider; Yep, and any provider behind a token bucket,
      keep the contract of [Engines]. [WebDirect] is the first fan-out of package websearch, and
      [WebFanout] its goroutines, which append under a mutex: no result is lost or given twice.
    - [Constructors] models the constructors of the engines with their options, the plain HTTP doer
      with the test for typed nils, and the copies package search keeps of functions of websearch.
    - [Fanout], [FanoutLemmas]: a fan-out over sources with a timeout for each and an early end, as
      a transition system over the interleavings of its goroutines; the invariant, the measure and
      the progress of every such fan-out are proved against the laws of its collection.
      [FanoutSpec] instantiates it with SearchDirect of package search and [PipelineFanout] with
      searchSources of package pipeline: what is collected under every schedule, what is marked
      (nothing for a source that was cancelled, unless the caller gave a cause of its own), and that the fan-out always returns, at once when it is cancelled.
    - [SearchEngines], [Collect], [Direct], [DirectSpec] model package search: the counted
      wrappers, Wikipedia, Mojeek and Marginalia with the redaction of its key; the end of one
      source and the collection of a fan-out; the runners, the tiers of the Reddit search, the
      escalation to a rendering browser, whose renders are one request each for the engines it may
      render, and [SearchDirect], whose fan-out is accounted for.
      [DirectRun] composes them: a search from end to end, under every interleaving.
    - [TextTools] models the rest of package text: token budgets ([TruncateToTokenBudget]
      keeps the longest run of whole runes that fits, and panics exactly when the budget in bytes
      comes out negative), the query classifiers with their patterns, and
      the BM25 filter, which selects the best scored chunks, each once. [Regex] is the matcher of
      the regular expressions that are not written out as functions.
    - [FactVerify], [FactNumbers], [FactTokens], [FactVerifySpec] model llm/factverify.go: a fact
      is verified exactly when its quote is long enough, occurs in a cited source and covers its
      numbers; numerals are compared by value (the canonical form decides the value), and the
      numbers that the expression misses are named.
    - [Llm], [LlmSpec] model the client of package llm over the transport of go-kit, an interface:
      the configuration and its policy of chains, fallback keys and cool-downs, the calls with
      their counters, query rewriting and expansion, and every summary.
    - [Prompts] holds the prompt templates of package llm and the instructions for each kind of
      query; [Options] the functional options of packages llm, pipeline and extract.
    - [ParallelFetch] models pipeline/fetch.go as a transition system whose every schedule is
      bounded, never stuck, and returns one result per URL, in order, from its one call; [Pipeline]
      and [PipelineSpec] model the rest of the package: the collection of the sources, [Run], and
      [FormatOutput] on a store of arrays, which its caller shares.
    - [Http] is the interface of net/http's client; [Telemetry] the metrics of package fetch on a
      Prometheus registry, which the fetcher of [Fetcher] records as events.
    - [GoSearch], [GoSearchSpec] model sources/gosearch: a search goes round to a server that reads the
      call with a decoder of its own, and the availability flag is cleared by failed exchanges and
      set by health checks alone. [Yandex], [YandexSpec] model the asynchronous Yandex
      API: polling always ends, and a finished operation is read back in both wrappings.
      [XmlServices] shows that the answers of Yandex and arXiv are read back from any printing of
      them. [SearXNG], [SearXNGSpec] model the SearXNG clients: a request decodes to what was asked,
      and an answer is read as written.
    - [Extract], [ExtractSpec] model package extract: the order of its tiers, its bound, and when
      the language model is asked.
    - [WebText] models package webtext: its truncation never panics and cuts before a rune.
    - [ApiClient] models the JSON client of package sources: a call goes round, and an object is
      decoded whatever follows it.
    - [ImageEngines], [ImageEnginesSpec], [ImageSearch] model package imagesearch: the five engines
      keep one contract; the search over several of them is a transition system whose goroutines
      may interleave in any way, always returns, and fuses what each engine is heard to say.

    ** How the parts interact

    [SearchDirect] launches the runners of [Direct] for the engines that the block cache does not
    hold, each runner calling a wrapper of [SearchEngines], which calls an engine of [Engines]
    through the browser with a fallback; [Collect] classifies what arrives and marks engines in
    the same cache, which the escalation reads and clears. [Fetcher] uses the cache for hosts.
    The goroutines of the two fan-outs are the legs of [Fanout], and [Collect] and [Pipeline] the
    collections it drains them into. [Pipeline.Run] searches its sources, fetches their URLs through [ParallelFetch] and an
    extractor, and summarises with [Llm], whose structured replies pass through [FactVerify].
    [Yandex] draws on the monthly counter of [Budget].

    ** Fuel and bounds

    Loops that are not structural take fuel: the chunker one more than the length of the text
    ([TextChunker.Chunk_total] shows it is enough), the scan for captchas one more than the length
    of the page ([Serp.isCaptchaInI18nContext_spec]), the JSON reader twice the length of the
    document, the XML reader the length of the document ([XmlSpec]), the retry loop the number of
    attempts, the polling of an operation twenty-one turns ([YandexSpec.yandexPollOperation_ends],
    for a ticker that keeps its interval), the removal of elements the number of runes of the page.
    Dates are exact for years of four digits.

    ** Not modelled

    The texts of errors are modelled up to what the standard library's decoders and the network
    put into them. [Run], [WebSearchDirect] and [SearchDirect] of [Direct] take what their fan-out
    delivers as a parameter, one result per launched job, which every interleaving gives
    ([PipelineFanout], [WebFanout], [DirectRun]; the parallel fetch is the step relation of
    [ParallelFetch]); there the function of one source is one step of an interleaving, so that its
    requests are not interleaved with another's, but for the searches of [TokenFlight]. The checks
    of the cache that decide which sources are launched are one step before the first of them runs,
    and the renders of the escalation run one after the other, in an order that is a parameter.
    Parameters stand for Unicode normalisation, the name tables of encoding/xml beyond ASCII, the
    entity table of package html, the order in which a map is ranged over, sort.Slice, math.Log, the
    HTML libraries, page renderers, go-kit's transport, token buckets, the Prometheus registry and
    the prompt templates, which a consumer may replace (those of the package are in [Prompts]). Of
    the vendored retry loop the parsing of Retry-After headers and the variants with a reset
    function, which the engine does not use, are left out. The metrics package is an alias of a
    third-party registry, and search/errors.go an alias of an error of websearch.

    ** Plan

    The components of the engine are modelled, in the order of the files. What could be refined
    further is the step of an interleaving: the legs of [Fanout] as sequences of requests, as in
    [TokenFlight], to browsers that share the query budgets. *)
From Stdlib Require Export ZArith Lia Bool.
From Stdlib Require Import Ascii String.
From stdpp Require Export prelude list gmap strings sorting.
#[export] Set Warnings "-notation-overridden".

Create HintDb go.

(** ** Proof tactics of the development *)

(** Invert, substitute and clear. *)
Ltac inv_clear H := inversion H; subst; clear H.
(** Destruct every match of the goal, simplifying equations on the way. *)
Ltac cases := repeat (case_match; simplify_eq/=; try done).
(** Turn boolean comparisons into propositions before calling [lia]. *)
Ltac zbool :=
  repeat match goal with
  | H : (_ && _) = true |- _ => apply andb_true_iff in H as [? ?]
  | H : (_ || _) = false |- _ => apply orb_false_iff in H as [? ?]
  | H : (_ <=? _)%Z = true |- _ => apply Z.leb_le in H
  | H : (_ <=? _)%Z = false |- _ => apply Z.leb_gt in H
  | H : (_ <? _)%Z = true |- _ => apply Z.ltb_lt in H
  | H : (_ <? _)%Z = false |- _ => apply Z.ltb_ge in H
  | H : (_ =? _)%Z = true |- _ => apply Z.eqb_eq in H
  | H : (_ =? _)%Z = false |- _ => apply Z.eqb_neq in H
  end.

(** ** Fallible computations: a Go run-time panic is a value, and so is a loop that its fuel
    does not let finish *)
Inductive outcome (A : Type) : Type :=
| Ok (a : A)
| Panic
| OutOfFuel.
Arguments Ok {A} _.
Arguments Panic {A}.
Arguments OutOfFuel {A}.

Definition obind {A B} (m : outcome A) (f : A → outcome B) : outcome B :=
  match m with Ok a => f a | Panic => Panic | OutOfFuel => OutOfFuel end.
Notation "'let*' x ':=' m 'in' k" := (obind m (λ x, k))
  (at level 10, x pattern, m at level 100, k at level 200).
Definition of_opt {A} (o : option A) : outcome A :=
  match o with Some a => Ok a | None => Panic end.
Definition omap_list {A B} (f : A → outcome B) : list A → outcome (list B) :=
  fix go l := match l with
  | [] => Ok []
  | x :: l => obind (f x) (λ y, obind (go l) (λ ys, Ok (y :: ys)))
  end.

Lemma foldl_ext_eq {A S} (f g : S → A → S) s l : (∀ s a, f s a = g s a) → foldl f s l = foldl g s l.
Proof. intros Hfg. revert s. induction l as [|a l IH]; intros s; [done|]. simpl. by rewrite Hfg. Qed.
Lemma omap_list_cons {A B} (f : A → outcome B) x l :
  omap_list f (x :: l) = obind (f x) (λ y, obind (omap_list f l) (λ ys, Ok (y :: ys))).
Proof. done. Qed.
Lemma obind_Ok {A B} (m : outcome A) (f : A → outcome B) b :
  obind m f = Ok b ↔ ∃ a, m = Ok a ∧ f a = Ok b.
Proof. destruct m; simpl; naive_solver. Qed.

(** ** Machine integers: Go's [int] and [int64] are 64-bit two's complement *)
Definition wrap64 (z : Z) : Z := ((z + 2 ^ 63) mod 2 ^ 64 - 2 ^ 63)%Z.
Definition int64_range (z : Z) : Prop := (- 2 ^ 63 <= z < 2 ^ 63)%Z.
(** Addition and subtraction of [int]s. *)
Definition iadd (a b : Z) : Z := wrap64 (a + b).
Definition isub (a b : Z) : Z := wrap64 (a - b).
(** Go's integer division truncates toward zero. *)
Definition idiv (a b : Z) : Z := wrap64 (Z.quot a b).

Lemma wrap64_small z : int64_range z → wrap64 z = z.
Proof. unfold wrap64, int64_range. intros. rewrite Z.mod_small; lia. Qed.
Lemma wrap64_range z : int64_range (wrap64 z).
Proof.
  unfold wrap64, int64_range.
  pose proof (Z.mod_pos_bound (z + 2 ^ 63) (2 ^ 64)). lia.
Qed.
Lemma wrap64_idemp z : wrap64 (wrap64 z) = wrap64 z.
Proof. apply wrap64_small, wrap64_range. Qed.
#[export] Hint Resolve wrap64_range : go.
#[export] Hint Rewrite wrap64_idemp : go.

(** ** Slices as lists, indexed by Go's signed integers *)
Definition zlen {A} (l : list A) : Z := Z.of_nat (length l).
(** [l[i]], which panics out of range. *)
Definition index {A} (l : list A) (i : Z) : outcome A :=
  if (i <? 0)%Z then Panic else of_opt (l !! Z.to_nat i).
(** [l[a:b]], which panics unless [0 <= a <= b <= len(l)]. *)
Definition slice {A} (l : list A) (a b : Z) : outcome (list A) :=
  if ((0 <=? a) && (a <=? b) && (b <=? zlen l))%Z
  then Ok (take (Z.to_nat (b - a)) (drop (Z.to_nat a) l)) else Panic.

Lemma zlen_nonneg {A} (l : list A) : (0 <= zlen l)%Z.
Proof. unfold zlen. lia. Qed.
Lemma zlen_nil {A} : zlen (@nil A) = 0%Z.
Proof. done. Qed.
Lemma zlen_cons {A} (x : A) l : zlen (x :: l) = (zlen l + 1)%Z.
Proof. unfold zlen. simpl. lia. Qed.
Lemma zlen_app {A} (l k : list A) : zlen (l ++ k) = (zlen l + zlen k)%Z.
Proof. unfold zlen. rewrite length_app. lia. Qed.
Lemma zlen_0_inv {A} (l : list A) : zlen l = 0%Z → l = [].
Proof. destruct l; [done | unfold zlen; simpl; lia]. Qed.
#[export] Hint Resolve zlen_nonneg : go.
#[export] Hint Rewrite @zlen_nil @zlen_cons @zlen_app : go.

Lemma slice_Ok {A} (l : list A) a b :
  (0 <= a <= b)%Z → (b <= zlen l)%Z →
  slice l a b = Ok (take (Z.to_nat (b - a)) (drop (Z.to_nat a) l)).
Proof.
  intros. unfold slice.
  by rewrite !(proj2 (Z.leb_le _ _)) by lia.
Qed.
Lemma slice_inv {A} (l k : list A) a b :
  slice l a b = Ok k →
  (0 <= a <= b ∧ b <= zlen l)%Z ∧ k = take (Z.to_nat (b - a)) (drop (Z.to_nat a) l).
Proof. unfold slice. case_match; intros; simplify_eq. zbool. split; [lia | done]. Qed.
Lemma slice_prefix {A} (l : list A) b :
  (0 <= b <= zlen l)%Z → slice l 0 b = Ok (take (Z.to_nat b) l).
Proof. intros. rewrite slice_Ok by lia. by rewrite Z.sub_0_r, drop_0. Qed.
Lemma slice_suffix {A} (l : list A) a :
  (0 <= a <= zlen l)%Z → slice l a (zlen l) = Ok (drop (Z.to_nat a) l).
Proof.
  intros. rewrite slice_Ok by lia. f_equal. apply take_ge.
  rewrite length_drop. unfold zlen in *. lia.
Qed.
Lemma index_Ok {A} (l : list A) i x :
  index l i = Ok x ↔ (0 <= i)%Z ∧ l !! Z.to_nat i = Some x.
Proof.
  unfold index, of_opt. destruct (Z.ltb_spec i 0); [naive_solver lia|].
  case_match; naive_solver.
Qed.
Lemma index_in_range {A} (l : list A) i :
  (0 <= i < zlen l)%Z → ∃ x, index l i = Ok x ∧ l !! Z.to_nat i = Some x.
Proof.
  intros. destruct (lookup_lt_is_Some_2 l (Z.to_nat i)) as [x Hx].
  { unfold zlen in *. lia. }
  exists x. rewrite index_Ok. naive_solver lia.
Qed.
(** Replacing an element in a sum over a list. *)
Lemma sum_list_with_insert {A} (f : A → nat) l i x y : l !! i = Some x →
  (sum_list_with f (<[i := y]> l) + f x = sum_list_with f l + f y)%nat.
Proof.
  revert i. induction l as [|z l IH]; intros [|i] Hi; simplify_eq/=; [lia|]. specialize (IH i Hi). lia.
Qed.
(** ** Stable sorting by a boolean [less], as [sort.SliceStable] promises *)
Section StableSort.
Context {A : Type} (less : A → A → bool).

Fixpoint sinsert (x : A) (l : list A) : list A :=
  match l with
  | [] => [x]
  | y :: l' => if less y x then y :: sinsert x l' else x :: l
  end.
Definition stable_sort (l : list A) : list A := foldr sinsert [] l.

Lemma sinsert_perm x l : sinsert x l ≡ₚ x :: l.
Proof.
  induction l as [|y l IH]; simpl; [done|].
  case_match; [|done]. rewrite IH. apply Permutation_swap.
Qed.
Lemma stable_sort_perm l : stable_sort l ≡ₚ l.
Proof. induction l as [|x l IH]; simpl; [done|]. by rewrite sinsert_perm, IH. Qed.
Lemma length_stable_sort l : length (stable_sort l) = length l.
Proof. by rewrite stable_sort_perm. Qed.

(** Elements satisfying [P] that [less] does not separate keep their order. *)
Lemma sinsert_stable (P : A → Prop) `{!∀ x, Decision (P x)} x l :
  (∀ y, y ∈ l → P x → P y → less y x = false) →
  filter P (sinsert x l) = filter P (x :: l).
Proof.
  induction l as [|y l IH]; intros Hl; [done|]. cbn [sinsert].
  destruct (less y x) eqn:Hyx; [|done].
  rewrite !filter_cons, IH, filter_cons by set_solver.
  repeat case_decide; try done.
  rewrite Hl in Hyx; [done|set_solver|done|done].
Qed.
Lemma stable_sort_stable (P : A → Prop) `{!∀ x, Decision (P x)} l :
  (∀ x y, x ∈ l → y ∈ l → P x → P y → less y x = false) →
  filter P (stable_sort l) = filter P l.
Proof.
  induction l as [|x l IH]; intros Hl; [done|]. simpl.
  rewrite sinsert_stable.
  - rewrite !filter_cons, IH by set_solver. done.
  - intros y Hy. rewrite stable_sort_perm in Hy. apply Hl; set_solver.
Qed.

(** With a strict weak order on the elements, the result is sorted. *)
Definition ordered (x y : A) : Prop := less y x = false.
Lemma sinsert_sorted x l :
  (∀ y z, y ∈ x :: l → z ∈ x :: l → less y z = true → less z y = false) →
  (∀ y z w, y ∈ x :: l → z ∈ x :: l → w ∈ x :: l →
     ordered y z → ordered z w → ordered y w) →
  StronglySorted ordered l → StronglySorted ordered (sinsert x l).
Proof.
  intros Has Htr. induction l as [|y l IH]; simpl; intros Hs.
  { repeat constructor. }
  apply StronglySorted_inv in Hs as [Hs Hy].
  destruct (less y x) eqn:Hyx.
  - constructor.
    + apply IH; [..|done]; intros; [by apply Has; set_solver|].
      eapply Htr; [..|done|done]; set_solver.
    + rewrite Forall_forall in *. intros z. rewrite sinsert_perm.
      intros [->|Hz]%elem_of_cons; [|by apply Hy].
      apply Has; set_solver.
  - constructor; [by constructor|]. constructor; [done|].
    rewrite Forall_forall in *. intros z Hz.
    eapply (Htr x y z); set_solver.
Qed.
Lemma stable_sort_sorted l :
  (∀ y z, y ∈ l → z ∈ l → less y z = true → less z y = false) →
  (∀ y z w, y ∈ l → z ∈ l → w ∈ l → ordered y z → ordered z w → ordered y w) →
  StronglySorted ordered (stable_sort l).
Proof.
  induction l as [|x l IH]; simpl; intros Has Htr; [constructor|].
  apply sinsert_sorted.
  - intros y z. rewrite stable_sort_perm. apply Has.
  - intros y z w. rewrite stable_sort_perm. apply Htr.
  - apply IH; intros; [by apply Has; set_solver|].
    eapply Htr; [..|done|done]; set_solver.
Qed.
End StableSort.
#[export] Hint Resolve stable_sort_perm : go.
Lemma sinsert_ext {A} (f g : A → A → bool) x l :
  (∀ y, y ∈ l → f y x = g y x) → sinsert f x l = sinsert g x l.
Proof.
  induction l as [|y l IH]; intros Hfg; [done|]. simpl.
  rewrite Hfg, IH by set_solver. done.
Qed.
Lemma stable_sort_ext {A} (f g : A → A → bool) l :
  (∀ x y, x ∈ l → y ∈ l → f x y = g x y) → stable_sort f l = stable_sort g l.
Proof.
  induction l as [|x l IH]; intros Hfg; [done|]. simpl. rewrite IH by set_solver.
  apply sinsert_ext. intros y. rewrite stable_sort_perm. set_solver.
Qed.

(** ** Filters and maps *)
Lemma filter_all {A} (P : A → Prop) `{∀ x, Decision (P x)} l : Forall P l → filter P l = l.
Proof. induction 1 as [|x l Hx _ IH]; [done|]. by rewrite filter_cons_True, IH. Qed.
Lemma omap_insert_perm {A B} (f : A → option B) (l : list A) i x y b :
  l !! i = Some x → f x = None → f y = Some b → omap f (<[i:=y]> l) ≡ₚ b :: omap f l.
Proof.
  intros Hi Hx Hy. pose proof (lookup_lt_Some _ _ _ Hi) as Hlt.
  rewrite insert_take_drop by done. rewrite <- (take_drop_middle _ _ _ Hi) at 3.
  rewrite !omap_app. simpl. rewrite Hx, Hy. by rewrite Permutation_middle.
Qed.
Lemma omap_insert_out {A B} (f : A → option B) (l : list A) i x y b :
  l !! i = Some x → f x = Some b → f y = None → omap f l ≡ₚ b :: omap f (<[i:=y]> l).
Proof.
  intros Hi Hx Hy. pose proof (lookup_lt_Some _ _ _ Hi). rewrite <- (list_insert_id l i x Hi) at 1.
  rewrite <- (list_insert_insert_eq l i x y). eapply omap_insert_perm; [|done..].
  by apply list_lookup_insert_eq.
Qed.
Lemma omap_insert_same {A B} (f : A → option B) (l : list A) i x y :
  l !! i = Some x → f y = f x → omap f (<[i:=y]> l) = omap f l.
Proof.
  intros Hi Hxy. pose proof (lookup_lt_Some _ _ _ Hi) as Hlt.
  rewrite insert_take_drop by done. rewrite <- (take_drop_middle _ _ _ Hi) at 3.
  rewrite !omap_app. simpl. by rewrite Hxy.
Qed.
Lemma sum_list_insert {A} (f : A → nat) (l : list A) i x y :
  l !! i = Some x → (sum_list_with f (<[i:=y]> l) + f x = sum_list_with f l + f y)%nat.
Proof.
  intros Hi. pose proof (lookup_lt_Some _ _ _ Hi). rewrite insert_take_drop by done.
  rewrite <- (take_drop_middle _ _ _ Hi) at 3. rewrite !sum_list_with_app. simpl. lia.
Qed.
Lemma length_omap_le {A B} (f : A → option B) (k : list A) : (length (omap f k) <= length k)%nat.
Proof. induction k as [|x k IH]; [done|]. cbn [omap list_omap length]. destruct (f x); [apply le_n_S, IH|apply le_S, IH]. Qed.
Lemma forallb_false {A} (f : A → bool) (l : list A) :
  forallb f l = false → ∃ i x, l !! i = Some x ∧ f x = false.
Proof.
  induction l as [|x l IH]; [done|]. simpl. intros [Hx|Hl]%andb_false_iff; [by exists O, x|].
  destruct (IH Hl) as (i & y & Hi & Hy). by exists (S i), y.
Qed.
Lemma filter_fmap_list {A B} (f : A → B) (P : B → Prop) `{!∀ b, Decision (P b)} (l : list A) :
  filter P (f <$> l) = f <$> filter (λ a, P (f a)) l.
Proof.
  induction l as [|a l IH]; [done|]. rewrite fmap_cons, !filter_cons.
  case_decide; by rewrite IH.
Qed.
Lemma omap_fmap_list {A B C} (f : A → B) (g : B → option C) (l : list A) :
  omap g (f <$> l) = omap (λ a, g (f a)) l.
Proof. induction l as [|a l IH]; [done|]. rewrite fmap_cons. simpl. destruct (g (f a)); [f_equal|]; exact IH. Qed.

(** ** Order-preserving removal of repeated keys *)
Section DedupBy.
Context {A K : Type} `{Countable K} (key : A → K).

(** Keep the first element of each key not in [seen]. *)
Fixpoint dedup_by (seen : gset K) (l : list A) : list A :=
  match l with
  | [] => []
  | x :: l =>
      if decide (key x ∈ seen) then dedup_by seen l
      else x :: dedup_by ({[key x]} ∪ seen) l
  end.

Lemma elem_of_dedup_by_key seen l k :
  k ∈ key <$> dedup_by seen l ↔ k ∈ key <$> l ∧ k ∉ seen.
Proof.
  revert seen. induction l as [|x l IH]; intros seen; simpl; [set_solver|].
  case_decide as Hx.
  - rewrite IH. set_solver.
  - rewrite fmap_cons, !elem_of_cons, IH.
    destruct (decide (k = key x)); set_solver.
Qed.
Lemma NoDup_dedup_by seen l : NoDup (key <$> dedup_by seen l).
Proof.
  revert seen. induction l as [|x l IH]; intros seen; simpl; [constructor|].
  case_decide; [done|]. constructor; [|done].
  rewrite elem_of_dedup_by_key. set_solver.
Qed.
Lemma dedup_by_sublist seen l : dedup_by seen l `sublist_of` l.
Proof.
  revert seen. induction l as [|x l IH]; intros seen; simpl; [done|].
  case_decide; by constructor.
Qed.
Lemma dedup_by_snoc seen l x :
  dedup_by seen (l ++ [x]) =
  dedup_by seen l ++ (if decide (key x ∈ seen ∨ key x ∈ key <$> l) then [] else [x]).
Proof.
  revert seen. induction l as [|y l IH]; intros seen; simpl.
  - rewrite (decide_ext (key x ∈ seen ∨ key x ∈ []) (key x ∈ seen)); [done|].
    rewrite elem_of_nil. tauto.
  - destruct (decide (key y ∈ seen)) as [Hy|Hy]; rewrite IH; simpl;
      [f_equal|do 2 f_equal]; apply decide_ext;
      rewrite elem_of_cons; [|set_solver].
    split; [tauto|]. intros [?|[->|?]]; tauto.
Qed.
End DedupBy.
