(* ===== verification/Mutex.v ===== *)
(** A mutex shared by the goroutines of a transition system: the lock names the one goroutine that
    is inside, and a step of one goroutine keeps that so. *)
From S2P Require Import Prelude.

Section Mutex.
Context {A : Type} (inside : A → Prop).
Implicit Types (gs : list A) (lock : option nat).

Definition lock_ok lock gs : Prop :=
  (∀ i g, gs !! i = Some g → (inside g ↔ lock = Some i)) ∧
  (∀ i, lock = Some i → (i < length gs)%nat).
Lemma lock_ok_free gs : Forall (λ g, ¬ inside g) gs → lock_ok None gs.
Proof. intros Hg. split; [|done]. intros i g Hi. by pose proof (Forall_lookup_1 _ _ _ _ Hg Hi). Qed.
Lemma lookup_moved {B} (l : list B) i j x y :
  <[i := x]> l !! j = Some y → (i = j ∧ y = x) ∨ (i ≠ j ∧ l !! j = Some y).
Proof. intros Hj%list_lookup_insert_Some. naive_solver. Qed.
Lemma lock_ok_move lock lock' gs i g g' :
  lock_ok lock gs → gs !! i = Some g → (inside g' ↔ lock' = Some i) →
  (∀ j, i ≠ j → lock = Some j ↔ lock' = Some j) → lock_ok lock' (<[i := g']> gs).
Proof.
  intros [Hl Ho] Hi Hg Hj. split.
  - intros j g1 [[<- ->]|[Hne Hg1]]%lookup_moved; [done|]. rewrite (Hl _ _ Hg1). by apply Hj.
  - intros j Hlk. rewrite length_insert. destruct (decide (i = j)) as [<-|Hne].
    + by eapply lookup_lt_Some.
    + apply Ho. by apply Hj.
Qed.
(** Going in, coming out, and any other step. *)
Lemma lock_ok_enter gs i g g' :
  lock_ok None gs → gs !! i = Some g → inside g' → lock_ok (Some i) (<[i := g']> gs).
Proof. intros Hl Hi Hg. eapply lock_ok_move; [done..|]. intros j Hne. split; congruence. Qed.
Lemma lock_ok_leave gs i g g' :
  lock_ok (Some i) gs → gs !! i = Some g → ¬ inside g' → lock_ok None (<[i := g']> gs).
Proof. intros Hl Hi Hg. eapply lock_ok_move; [done..|split; [done|congruence]|]. intros j Hne. split; congruence. Qed.
Lemma lock_ok_aside lock gs i g g' :
  lock_ok lock gs → gs !! i = Some g → ¬ inside g → ¬ inside g' → lock_ok lock (<[i := g']> gs).
Proof.
  intros Hl Hi Hg Hg'. eapply lock_ok_move; [done..| |done]. split; [done|].
  intros Hk%(proj1 Hl _ _ Hi). done.
Qed.
Lemma lock_ok_inside lock gs i g : lock_ok lock gs → gs !! i = Some g → inside g → lock = Some i.
Proof. intros [Hl _] Hi. by apply Hl. Qed.
End Mutex.
