(* ===== verification/Utf8.v ===== *)
(** Go strings as byte lists, and UTF-8: [utf8.DecodeRune], [utf8.DecodeLastRune],
    [utf8.AppendRune], [[]rune(s)] and [string(runes)], with the round trips the components
    rely on. *)
From Stdlib Require Import Ascii String.
From S2P Require Import Prelude Unicode.
Local Open Scope Z_scope.

(** A Go string is a sequence of bytes; each byte is a [Z] in [0, 256). *)
Abbreviation gostring := (list Z).
(** String literals of the source. *)
Definition lit (s : string) : gostring :=
  map (λ a, Z.of_N (N_of_ascii a)) (list_ascii_of_string s).

(** ** Decoding *)
Definition cont (b : Z) : bool := (128 <=? b) && (b <=? 191).
Definition between (lo hi b : Z) : bool := (lo <=? b) && (b <=? hi).

(** The first rune of [s] and its width; an invalid sequence is [(RuneError, 1)]. *)
Definition DecodeRune (s : gostring) : rune * nat :=
  match s with
  | [] => (RuneError, 0%nat)
  | b0 :: s1 =>
    if between 0 127 b0 then (b0, 1%nat)
    else if between 194 223 b0 then
      match s1 with
      | b1 :: _ => if cont b1 then ((b0 - 192) * 64 + (b1 - 128), 2%nat) else (RuneError, 1%nat)
      | _ => (RuneError, 1%nat)
      end
    else if between 224 239 b0 then
      match s1 with
      | b1 :: b2 :: _ =>
        if between (if b0 =? 224 then 160 else 128) (if b0 =? 237 then 159 else 191) b1
           && cont b2
        then ((b0 - 224) * 4096 + (b1 - 128) * 64 + (b2 - 128), 3%nat) else (RuneError, 1%nat)
      | _ => (RuneError, 1%nat)
      end
    else if between 240 244 b0 then
      match s1 with
      | b1 :: b2 :: b3 :: _ =>
        if between (if b0 =? 240 then 144 else 128) (if b0 =? 244 then 143 else 191) b1
           && cont b2 && cont b3
        then ((b0 - 240) * 262144 + (b1 - 128) * 4096 + (b2 - 128) * 64 + (b3 - 128), 4%nat)
        else (RuneError, 1%nat)
      | _ => (RuneError, 1%nat)
      end
    else (RuneError, 1%nat)
  end.

(** [utf8.RuneStart]: not a continuation byte. *)
Definition RuneStart (b : Z) : bool := negb (cont b).

(** [[]rune(s)]; [fuel] at least the length of [s] is enough. *)
Fixpoint runes_go (fuel : nat) (s : gostring) : list rune :=
  match fuel, s with
  | S fuel, _ :: _ => let '(r, w) := DecodeRune s in r :: runes_go fuel (drop w s)
  | _, _ => []
  end.
Definition runes (s : gostring) : list rune := runes_go (length s) s.
(** [utf8.RuneCountInString]. *)
Definition RuneCount (s : gostring) : Z := zlen (runes s).

(** ** Encoding *)
Definition EncodeRune (r : rune) : gostring :=
  if negb (valid_rune r) then [239; 191; 189]
  else if r <? 128 then [r]
  else if r <? 2048 then [192 + r / 64; 128 + r mod 64]
  else if r <? 65536 then [224 + r / 4096; 128 + (r / 64) mod 64; 128 + r mod 64]
  else [240 + r / 262144; 128 + (r / 4096) mod 64; 128 + (r / 64) mod 64; 128 + r mod 64].
(** [string(runes)]. *)
Definition of_runes (rs : list rune) : gostring := rs ≫= EncodeRune.

(** ** Decoding from the end, as [utf8.DecodeLastRune] does *)
(** The start of the last rune among the last four bytes. *)
Fixpoint last_start (n : nat) (s : gostring) (start : nat) : option nat :=
  match n with
  | O => None
  | S n =>
      match s !! start with
      | Some b => if RuneStart b then Some start
                  else match start with O => None | S st => last_start n s st end
      | None => None
      end
  end.
Definition DecodeLastRune (s : gostring) : rune * nat :=
  match s with
  | [] => (RuneError, 0%nat)
  | _ =>
      let e := length s in
      match last_start 4 s (e - 1) with
      | Some st => let '(r, w) := DecodeRune (drop st s) in
                   if (st + w =? e)%nat then (r, w) else (RuneError, 1%nat)
      | None => (RuneError, 1%nat)
      end
  end.

Arguments DecodeRune : simpl never.
Arguments EncodeRune : simpl never.
Arguments DecodeLastRune : simpl never.

(** ** Well-formed bytes and round trips *)
Definition bytes_ok (s : gostring) : Prop := Forall (λ b, 0 <= b < 256) s.

Lemma valid_rune_bounds r :
  valid_rune r = true ↔ 0 <= r <= 55295 ∨ 57344 <= r <= 1114111.
Proof.
  unfold valid_rune. rewrite orb_true_iff, !andb_true_iff, !Z.leb_le. lia.
Qed.

Ltac Zify.zify_post_hook ::= Z.to_euclidean_division_equations.

Lemma between_in lo hi b : lo <= b <= hi → between lo hi b = true.
Proof. unfold between. intros. by rewrite !(proj2 (Z.leb_le _ _)) by lia. Qed.
Lemma between_out lo hi b : b < lo ∨ hi < b → between lo hi b = false.
Proof. unfold between. rewrite andb_false_iff, !Z.leb_gt. lia. Qed.
Lemma cont_in b : 128 <= b <= 191 → cont b = true.
Proof. apply between_in. Qed.
Lemma cont_out b : b < 128 ∨ 191 < b → cont b = false.
Proof. apply between_out. Qed.

(** Decide the byte-range tests of the decoder by arithmetic. *)
Ltac utf8_bool :=
  repeat match goal with
  | |- context [(?a =? ?b)%Z] => destruct (Z.eqb_spec a b); try lia
  | |- context [between ?l ?h ?b] =>
      first [rewrite (between_in l h b) by lia | rewrite (between_out l h b) by lia]
  | |- context [cont ?b] => first [rewrite (cont_in b) by lia | rewrite (cont_out b) by lia]
  end; cbn [andb].

Lemma EncodeRune_length r : (1 <= length (EncodeRune r) <= 4)%nat.
Proof. unfold EncodeRune. cases; simpl; lia. Qed.
Lemma EncodeRune_nonempty r : EncodeRune r ≠ [].
Proof. pose proof (EncodeRune_length r). by destruct (EncodeRune r); simpl in *; [lia|]. Qed.

(** The four shapes of an encoded rune. *)
Lemma EncodeRune_cases r : valid_rune r = true →
  (EncodeRune r = [r] ∧ 0 <= r < 128) ∨
  (EncodeRune r = [192 + r / 64; 128 + r mod 64] ∧ 128 <= r < 2048) ∨
  (EncodeRune r = [224 + r / 4096; 128 + (r / 64) mod 64; 128 + r mod 64] ∧
     2048 <= r < 65536 ∧ ¬ (55296 <= r <= 57343)) ∨
  (EncodeRune r = [240 + r / 262144; 128 + (r / 4096) mod 64; 128 + (r / 64) mod 64;
                   128 + r mod 64] ∧ 65536 <= r <= 1114111).
Proof.
  intros Hv. unfold EncodeRune. rewrite Hv. simpl.
  apply valid_rune_bounds in Hv. repeat case_match; zbool; naive_solver lia.
Qed.

Lemma DecodeRune_encode r s : valid_rune r = true →
  DecodeRune (EncodeRune r ++ s) = (r, length (EncodeRune r)).
Proof.
  intros Hv. destruct (EncodeRune_cases r Hv) as [[-> H]|[[-> H]|[[-> H]|[-> H]]]];
    unfold DecodeRune; cbn [app length]; utf8_bool; f_equal; lia.
Qed.

Lemma DecodeRune_width s : s ≠ [] → (1 <= (DecodeRune s).2 <= length s)%nat.
Proof.
  intros Hs. unfold DecodeRune. repeat (case_match; simplify_eq/=); simpl; lia.
Qed.
Lemma DecodeRune_valid s : valid_rune (DecodeRune s).1 = true.
Proof.
  apply valid_rune_bounds.
  unfold DecodeRune, RuneError, between, cont.
  repeat (case_match; simplify_eq/=; zbool; try lia).
Qed.

Lemma runes_go_fuel n m s : (length s <= n)%nat → (length s <= m)%nat →
  runes_go n s = runes_go m s.
Proof.
  revert m s. induction n as [|n IH]; intros m s Hn Hm.
  { destruct s; simpl in *; [by destruct m|lia]. }
  destruct s as [|b s]; [by destruct m|]. destruct m as [|m]; [simpl in *; lia|].
  pose proof (DecodeRune_width (b :: s)) as Hw. simpl runes_go.
  destruct (DecodeRune (b :: s)) as [r w]. simpl in Hw.
  f_equal. apply IH; rewrite length_drop; simpl in *; specialize (Hw ltac:(done)); lia.
Qed.
Lemma runes_unfold s : s ≠ [] →
  runes s = (DecodeRune s).1 :: runes (drop (DecodeRune s).2 s).
Proof.
  intros Hs. destruct s as [|b s]; [done|]. unfold runes at 1. cbn [length runes_go].
  pose proof (DecodeRune_width (b :: s)) as Hw.
  destruct (DecodeRune (b :: s)) as [r w] eqn:E. simpl in Hw.
  cbn [fst snd]. f_equal. apply runes_go_fuel; rewrite length_drop; simpl;
    specialize (Hw ltac:(done)); lia.
Qed.
Lemma runes_nil : runes [] = [].
Proof. done. Qed.
Lemma runes_ind (P : gostring → Prop) :
  P [] → (∀ s, s ≠ [] → P (drop (DecodeRune s).2 s) → P s) → ∀ s, P s.
Proof.
  intros H0 HS s. remember (length s) as n eqn:Hn. revert s Hn.
  induction (lt_wf n) as [n _ IH]. intros s ->.
  destruct (decide (s = [])) as [->|Hs]; [done|]. apply HS; [done|].
  eapply IH; [|done]. pose proof (DecodeRune_width s Hs). rewrite length_drop. lia.
Qed.
Lemma runes_valid s : Forall (λ r, valid_rune r = true) (runes s).
Proof.
  induction s as [|s Hs IH] using runes_ind; [constructor|].
  rewrite runes_unfold by done. constructor; [apply DecodeRune_valid|done].
Qed.
Lemma runes_encode r s : valid_rune r = true → runes (EncodeRune r ++ s) = r :: runes s.
Proof.
  intros Hv. rewrite runes_unfold.
  - rewrite DecodeRune_encode by done. simpl. by rewrite drop_app_length.
  - pose proof (EncodeRune_nonempty r). by destruct (EncodeRune r).
Qed.
Lemma of_runes_cons r rs : of_runes (r :: rs) = EncodeRune r ++ of_runes rs.
Proof. done. Qed.
Lemma of_runes_app rs ks : of_runes (rs ++ ks) = of_runes rs ++ of_runes ks.
Proof. apply bind_app. Qed.
(** [[]rune(string(rs))] gives [rs] back when every rune is valid. *)
Lemma runes_of_runes rs :
  Forall (λ r, valid_rune r = true) rs → runes (of_runes rs) = rs.
Proof.
  induction 1 as [|r rs Hr _ IH]; [done|]. by rewrite of_runes_cons, runes_encode, IH.
Qed.
Lemma runes_app_encoded rs s :
  Forall (λ r, valid_rune r = true) rs → runes (of_runes rs ++ s) = rs ++ runes s.
Proof.
  induction 1 as [|r rs Hr _ IH]; [done|].
  by rewrite of_runes_cons, <- app_assoc, runes_encode, IH.
Qed.
Lemma of_runes_nil_inv rs : of_runes rs = [] → rs = [].
Proof.
  destruct rs as [|r rs]; [done|]. rewrite of_runes_cons.
  pose proof (EncodeRune_nonempty r). by destruct (EncodeRune r).
Qed.
Lemma length_runes_le s : (length (runes s) <= length s)%nat.
Proof.
  induction s as [|s Hs IH] using runes_ind; [done|].
  rewrite runes_unfold by done. pose proof (DecodeRune_width s Hs).
  rewrite length_drop in IH. simpl. lia.
Qed.

Lemma last_start_found n s e st k :
  (k < n)%nat → e = (st + k)%nat →
  (∀ i, (st < i <= e)%nat → ∃ b, s !! i = Some b ∧ cont b = true) →
  (∃ b, s !! st = Some b ∧ cont b = false) →
  last_start n s e = Some st.
Proof.
  revert e k. induction n as [|n IH]; intros e k Hk -> Hc [b [Hb Hs]]; [lia|].
  destruct k as [|k].
  - rewrite Nat.add_0_r. simpl. unfold RuneStart. by rewrite Hb, Hs.
  - destruct (Hc (st + S k)%nat) as (c & Hl & Hcc); [lia|].
    cbn [last_start]. rewrite Hl. unfold RuneStart. rewrite Hcc. simpl.
    replace (st + S k)%nat with (S (st + k)) by lia.
    apply (IH _ k); [lia|done| |by eauto]. intros i Hi. apply Hc. lia.
Qed.
(** The first byte of an encoded rune starts it, the others continue it. *)
Lemma EncodeRune_starts r : valid_rune r = true →
  (∃ b, EncodeRune r !! 0%nat = Some b ∧ cont b = false) ∧
  (∀ i, (0 < i < length (EncodeRune r))%nat →
     ∃ b, EncodeRune r !! i = Some b ∧ cont b = true).
Proof.
  intros Hv. destruct (EncodeRune_cases r Hv) as [[-> H]|[[-> H]|[[-> H]|[-> H]]]];
    (split; [eexists; split; [done|]; apply cont_out; lia|]);
    simpl; intros i Hi; destruct i as [|[|[|[|i]]]]; try lia;
    (eexists; split; [done|apply cont_in; lia]).
Qed.
Lemma DecodeLastRune_encode r s : valid_rune r = true →
  DecodeLastRune (s ++ EncodeRune r) = (r, length (EncodeRune r)).
Proof.
  intros Hv. pose proof (EncodeRune_length r) as Hl.
  destruct (EncodeRune_starts r Hv) as [[b0 [Hb0 Hs]] Hc].
  unfold DecodeLastRune. destruct (s ++ EncodeRune r) as [|b t] eqn:E.
  { apply app_eq_nil in E as [_ E]. rewrite E in Hl. simpl in Hl. lia. }
  rewrite <- E. clear E b t.
  rewrite (last_start_found 4 _ _ (length s) (length (EncodeRune r) - 1)); [|lia| | |].
  - rewrite drop_app_length. rewrite <- (app_nil_r (EncodeRune r)) at 1.
    rewrite DecodeRune_encode by done. rewrite length_app, Nat.eqb_refl. done.
  - rewrite length_app. lia.
  - intros i Hi. rewrite length_app in Hi. rewrite lookup_app_r by lia. apply Hc. lia.
  - exists b0. rewrite lookup_app_r, Nat.sub_diag by lia. done.
Qed.
Lemma last_start_lt n s e st : last_start n s e = Some st → (st < length s)%nat.
Proof.
  revert e. induction n as [|n IH]; intros e; simpl; [done|].
  destruct (s !! e) as [b|] eqn:He; [|done]. apply lookup_lt_Some in He.
  destruct (RuneStart b); [naive_solver|]. destruct e; [done|]. apply IH.
Qed.
Lemma DecodeLastRune_width s : s ≠ [] → (1 <= (DecodeLastRune s).2 <= length s)%nat.
Proof.
  intros Hs. unfold DecodeLastRune. destruct s as [|b s]; [done|].
  case_match; [|simpl; lia]. destruct (DecodeRune _) as [r w] eqn:E.
  destruct (Nat.eqb_spec (n + w) (length (b :: s))) as [Hn|Hn]; [|simpl; lia].
  assert (drop n (b :: s) ≠ []) as Hd.
  { intros Hd. rewrite Hd in E. unfold DecodeRune in E. simplify_eq.
    match goal with H : last_start _ _ _ = Some _ |- _ => apply last_start_lt in H end.
    lia. }
  pose proof (DecodeRune_width _ Hd) as Hw. rewrite E in Hw. simpl in *. lia.
Qed.
