(* ===== verification/GoStrings.v ===== *)
(** The parts of Go's [strings], [bytes] and [strconv] packages the components use, over byte
    lists: prefixes and suffixes, substring search, splitting and joining, white-space trimming,
    case mapping, replacement and decimal printing. *)
From stdpp Require Import pretty.
From S2P Require Import Prelude Unicode Utf8.
Local Open Scope Z_scope.

(** ** Prefixes and suffixes *)
Fixpoint HasPrefix (s p : gostring) : bool :=
  match p, s with
  | [], _ => true
  | b :: p, c :: s => (b =? c) && HasPrefix s p
  | _ :: _, [] => false
  end.
Definition HasSuffix (s p : gostring) : bool := HasPrefix (reverse s) (reverse p).
Definition TrimPrefix (s p : gostring) : gostring :=
  if HasPrefix s p then drop (length p) s else s.
Definition TrimSuffix (s p : gostring) : gostring :=
  if HasSuffix s p then take (length s - length p) s else s.
Definition CutPrefix (s p : gostring) : option gostring :=
  if HasPrefix s p then Some (drop (length p) s) else None.

Lemma HasPrefix_spec s p : HasPrefix s p = true ↔ ∃ k, s = p ++ k.
Proof.
  revert p. induction s as [|c s IH]; intros [|b p]; simpl; try by split; eauto.
  { split; [done|by intros [k Hk]]. }
  rewrite andb_true_iff, Z.eqb_eq, IH. split.
  - intros [-> [k ->]]. by exists k.
  - intros [k [= -> ->]]. eauto.
Qed.
Lemma HasPrefix_app p k : HasPrefix (p ++ k) p = true.
Proof. apply HasPrefix_spec. eauto. Qed.
Lemma HasSuffix_spec s p : HasSuffix s p = true ↔ ∃ k, s = k ++ p.
Proof.
  unfold HasSuffix. rewrite HasPrefix_spec. split; intros [k Hk].
  - exists (reverse k). rewrite <- (reverse_involutive s), Hk, reverse_app.
    by rewrite reverse_involutive.
  - exists (reverse k). by rewrite Hk, reverse_app.
Qed.
#[export] Hint Rewrite HasPrefix_app : go.

(** ** Searching *)
(** [strings.Index], as an option. *)
Fixpoint find_sub (s sub : gostring) : option nat :=
  if HasPrefix s sub then Some 0%nat
  else match s with [] => None | _ :: s => S <$> find_sub s sub end.
Definition Index (s sub : gostring) : Z :=
  match find_sub s sub with Some n => Z.of_nat n | None => -1 end.
Definition Contains (s sub : gostring) : bool :=
  match find_sub s sub with Some _ => true | None => false end.
(** [strings.LastIndex], as an option. *)
Fixpoint find_last (s sub : gostring) : option nat :=
  match s with
  | [] => if HasPrefix [] sub then Some 0%nat else None
  | _ :: s' => match find_last s' sub with
               | Some n => Some (S n)
               | None => if HasPrefix s sub then Some 0%nat else None
               end
  end.
Definition LastIndex (s sub : gostring) : Z :=
  match find_last s sub with Some n => Z.of_nat n | None => -1 end.

Lemma find_sub_Some s sub n : find_sub s sub = Some n →
  ∃ a b, s = a ++ sub ++ b ∧ length a = n.
Proof.
  revert n. induction s as [|c s IH]; intros n; cbn [find_sub]; case_match; try done.
  - intros [= <-]. apply HasPrefix_spec in H as [k ->]. by exists [], k.
  - intros [= <-]. apply HasPrefix_spec in H as [k ->]. by exists [], k.
  - destruct (find_sub s sub) as [m|]; [|done]. intros [= <-].
    destruct (IH m eq_refl) as (a & b & -> & <-). by exists (c :: a), b.
Qed.
Lemma find_sub_prefix s sub : HasPrefix s sub = true → find_sub s sub = Some 0%nat.
Proof. intros H. destruct s; cbn [find_sub]; by rewrite H. Qed.
Lemma find_sub_first s sub n a k : find_sub s sub = Some n → s = a ++ sub ++ k → (n <= length a)%nat.
Proof.
  revert n a. induction s as [|c s IH]; intros n a; cbn [find_sub].
  - case_match; [intros [= <-]; lia|done].
  - destruct (HasPrefix (c :: s) sub) eqn:Hp; [intros [= <-]; lia|].
    destruct (find_sub s sub) as [m|] eqn:E; [|done]. intros [= <-] Hs. destruct a as [|c' a]; simpl.
    + simpl in Hs. rewrite Hs, HasPrefix_app in Hp. done.
    + injection Hs as -> Hs. pose proof (IH m a eq_refl Hs). lia.
Qed.
Lemma Contains_spec s sub : Contains s sub = true ↔ ∃ a b, s = a ++ sub ++ b.
Proof.
  unfold Contains. split.
  - destruct (find_sub s sub) eqn:E; [|done]. intros _.
    apply find_sub_Some in E as (a & b & -> & _). eauto.
  - intros (a & b & ->). induction a as [|c a IH]; cbn [app find_sub].
    + by rewrite find_sub_prefix by apply HasPrefix_app.
    + destruct (HasPrefix _ _); [done|].
      by destruct (find_sub (a ++ sub ++ b) sub).
Qed.
Lemma find_sub_None s sub a k : find_sub s sub = None → s ≠ a ++ sub ++ k.
Proof.
  intros E ->. destruct (Contains (a ++ sub ++ k) sub) eqn:Hc.
  - unfold Contains in Hc. by rewrite E in Hc.
  - by rewrite (proj2 (Contains_spec _ sub)) in Hc by eauto.
Qed.
Lemma Contains_app_l s k sub : Contains s sub = true → Contains (s ++ k) sub = true.
Proof.
  rewrite !Contains_spec. intros (a & b & ->). exists a, (b ++ k). by rewrite <- !app_assoc.
Qed.
Lemma Contains_app_r s k sub : Contains s sub = true → Contains (k ++ s) sub = true.
Proof. rewrite !Contains_spec. intros (a & b & ->). exists (k ++ a), b. by rewrite <- app_assoc. Qed.
#[export] Hint Resolve Contains_app_l Contains_app_r : go.

(** ** Splitting and joining *)
(** [strings.Split] for a one-byte separator. *)
Fixpoint split_go (sep : Z) (cur : gostring) (s : gostring) : list gostring :=
  match s with
  | [] => [cur]
  | b :: s => if b =? sep then cur :: split_go sep [] s else split_go sep (cur ++ [b]) s
  end.
Definition Split (s : gostring) (sep : Z) : list gostring := split_go sep [] s.
Fixpoint Join (l : list gostring) (sep : gostring) : gostring :=
  match l with
  | [] => []
  | [s] => s
  | s :: l => s ++ sep ++ Join l sep
  end.
(** [strings.Cut]: before, after, found. *)
Definition Cut (s sep : gostring) : gostring * gostring * bool :=
  match find_sub s sep with
  | Some n => (take n s, drop (n + length sep) s, true)
  | None => (s, [], false)
  end.

Lemma Join_cons s l sep : l ≠ [] → Join (s :: l) sep = s ++ sep ++ Join l sep.
Proof. by destruct l. Qed.
Lemma split_go_nonempty sep cur s : split_go sep cur s ≠ [].
Proof. revert cur. induction s as [|b s IH]; intros cur; simpl; [done|by case_match]. Qed.
Lemma Join_split_go sep cur s : Join (split_go sep cur s) [sep] = cur ++ s.
Proof.
  revert cur. induction s as [|b s IH]; intros cur; cbn [split_go]; [by rewrite app_nil_r|].
  destruct (Z.eqb_spec b sep) as [->|]; [|by rewrite IH, <- app_assoc].
  rewrite Join_cons by apply split_go_nonempty. by rewrite IH.
Qed.
(** Joining the pieces of a split with the separator gives the string back. *)
Lemma Join_Split s sep : Join (Split s sep) [sep] = s.
Proof. apply Join_split_go. Qed.

(** ** Decoded pieces: each rune with the bytes it was read from *)
Fixpoint pieces_go (fuel : nat) (s : gostring) : list (rune * gostring) :=
  match fuel, s with
  | S fuel, _ :: _ =>
      let '(r, w) := DecodeRune s in (r, take w s) :: pieces_go fuel (drop w s)
  | _, _ => []
  end.
Definition pieces (s : gostring) : list (rune * gostring) := pieces_go (length s) s.

(** [strings.FieldsFunc] and [strings.Fields]. *)
Fixpoint fields_go (f : rune → bool) (cur : gostring) (ps : list (rune * gostring))
    : list gostring :=
  match ps with
  | [] => match cur with [] => [] | _ => [cur] end
  | (r, bs) :: ps =>
      if f r then match cur with [] => fields_go f [] ps | _ => cur :: fields_go f [] ps end
      else fields_go f (cur ++ bs) ps
  end.
Definition FieldsFunc (s : gostring) (f : rune → bool) : list gostring :=
  fields_go f [] (pieces s).
Definition Fields (s : gostring) : list gostring := FieldsFunc s IsSpace.

Lemma fields_go_nonempty f cur ps : Forall (λ p, p.2 ≠ []) ps →
  Forall (λ w, w ≠ []) (fields_go f cur ps).
Proof.
  intros H. revert cur. induction H as [|[r bs] ps Hbs _ IH]; intros cur; simpl.
  - destruct cur; by repeat constructor.
  - destruct (f r); [|apply IH]. destruct cur; [apply IH|constructor; [done|apply IH]].
Qed.
Lemma pieces_go_nonempty n s : Forall (λ p, p.2 ≠ []) (pieces_go n s).
Proof.
  revert s. induction n as [|n IH]; intros [|b s]; try by constructor. simpl.
  pose proof (DecodeRune_width (b :: s) ltac:(done)) as Hw.
  destruct (DecodeRune (b :: s)) as [r w]. simpl in Hw.
  constructor; [|apply IH]. destruct w; [lia|done].
Qed.
(** No field is empty. *)
Lemma Fields_nonempty s : Forall (λ w, w ≠ []) (Fields s).
Proof. apply fields_go_nonempty, pieces_go_nonempty. Qed.

(** ** Case mapping and rune mapping *)
Definition StringsToLower (s : gostring) : gostring := of_runes (ToLower <$> runes s).
(** [strings.Map]: a negative image deletes the rune. *)
Definition StringsMap (f : rune → rune) (s : gostring) : gostring :=
  of_runes (filter (λ r, 0 <= r) (f <$> runes s)).

(** ** Trimming white space *)
Fixpoint trim_left_go (fuel : nat) (s : gostring) : gostring :=
  match fuel, s with
  | S fuel, _ :: _ =>
      let '(r, w) := DecodeRune s in
      if IsSpace r then trim_left_go fuel (drop w s) else s
  | _, _ => s
  end.
Fixpoint trim_right_go (fuel : nat) (s : gostring) : gostring :=
  match fuel, s with
  | S fuel, _ :: _ =>
      let '(r, w) := DecodeLastRune s in
      if IsSpace r then trim_right_go fuel (take (length s - w) s) else s
  | _, _ => s
  end.
Definition TrimSpace (s : gostring) : gostring :=
  let l := trim_left_go (length s) s in trim_right_go (length l) l.

(** Trimming an encoded rune sequence removes the white-space runes at both ends. *)
Fixpoint drop_space (rs : list rune) : list rune :=
  match rs with
  | [] => []
  | r :: rs' => if IsSpace r then drop_space rs' else rs
  end.
Definition trim_runes (rs : list rune) : list rune :=
  reverse (drop_space (reverse (drop_space rs))).
Notation valid_runes rs := (Forall (λ r, valid_rune r = true) rs).

Lemma drop_space_split rs : ∃ k, rs = k ++ drop_space rs ∧ Forall (λ r, IsSpace r = true) k.
Proof.
  induction rs as [|r rs (k & Hk & Hs)]; simpl; [by exists []|].
  destruct (IsSpace r) eqn:E; [|by exists []].
  exists (r :: k). split; [simpl; by f_equal|by constructor].
Qed.
Lemma trim_runes_split rs : ∃ a b, rs = a ++ trim_runes rs ++ b ∧
  Forall (λ r, IsSpace r = true) a ∧ Forall (λ r, IsSpace r = true) b.
Proof.
  destruct (drop_space_split rs) as (a & Ha & Hsa).
  destruct (drop_space_split (reverse (drop_space rs))) as (b & Hb & Hsb).
  exists a, (reverse b). split_and!; [|done|by apply Forall_reverse].
  unfold trim_runes. rewrite <- reverse_app, <- Hb, reverse_involutive. done.
Qed.
Lemma length_trim_runes rs : (length (trim_runes rs) <= length rs)%nat.
Proof.
  destruct (trim_runes_split rs) as (a & b & E & _). rewrite E at 2.
  rewrite !length_app. lia.
Qed.
Lemma trim_left_of_runes n rs : valid_runes rs → (length (of_runes rs) <= n)%nat →
  trim_left_go n (of_runes rs) = of_runes (drop_space rs).
Proof.
  revert n. induction rs as [|r rs IH]; intros n Hv Hn; [by destruct n|].
  inv_clear Hv. rewrite of_runes_cons in *. rewrite length_app in Hn.
  pose proof (EncodeRune_length r) as Hl. destruct n as [|n]; [lia|].
  cbn [drop_space trim_left_go]. destruct (EncodeRune r ++ of_runes rs) eqn:E.
  { apply app_eq_nil in E as [E _]. rewrite E in Hl. simpl in Hl. lia. }
  rewrite <- E, DecodeRune_encode by done. destruct (IsSpace r).
  - rewrite drop_app_length. apply IH; [done|lia].
  - by rewrite of_runes_cons.
Qed.
Lemma trim_right_of_runes n rs : valid_runes rs → (length (of_runes (reverse rs)) <= n)%nat →
  trim_right_go n (of_runes (reverse rs)) = of_runes (reverse (drop_space rs)).
Proof.
  revert n. induction rs as [|r rs IH]; intros n Hv Hn; [by destruct n|].
  inv_clear Hv. rewrite reverse_cons, of_runes_app in *.
  replace (of_runes [r]) with (EncodeRune r) in *
    by (by rewrite of_runes_cons, app_nil_r).
  rewrite length_app in Hn. pose proof (EncodeRune_length r) as Hl.
  destruct n as [|n]; [lia|]. cbn [drop_space trim_right_go].
  destruct (of_runes (reverse rs) ++ EncodeRune r) eqn:E.
  { apply app_eq_nil in E as [_ E]. rewrite E in Hl. simpl in Hl. lia. }
  rewrite <- E, DecodeLastRune_encode by done. destruct (IsSpace r).
  - rewrite length_app, Nat.add_sub, take_app_length. apply IH; [done|lia].
  - rewrite reverse_cons, of_runes_app, of_runes_cons, app_nil_r. done.
Qed.
Lemma drop_space_valid rs : valid_runes rs → valid_runes (drop_space rs).
Proof. destruct (drop_space_split rs) as (k & E & _). rewrite E at 1. by intros [_ ?]%Forall_app. Qed.
Lemma trim_runes_valid rs : valid_runes rs → valid_runes (trim_runes rs).
Proof. intros. by apply Forall_reverse, drop_space_valid, Forall_reverse, drop_space_valid. Qed.
Lemma TrimSpace_of_runes rs : valid_runes rs → TrimSpace (of_runes rs) = of_runes (trim_runes rs).
Proof.
  intros Hv. unfold TrimSpace. rewrite trim_left_of_runes by done.
  rewrite <- (reverse_involutive (drop_space rs)).
  rewrite trim_right_of_runes; [done| |done]. by apply Forall_reverse, drop_space_valid.
Qed.
Lemma RuneCount_of_runes rs : valid_runes rs → RuneCount (of_runes rs) = zlen rs.
Proof. intros. unfold RuneCount. by rewrite runes_of_runes. Qed.
(** A non-space rune survives trimming. *)
Lemma elem_of_trim_runes r rs : r ∈ rs → IsSpace r = false → r ∈ trim_runes rs.
Proof.
  destruct (trim_runes_split rs) as (a & b & E & Ha & Hb). rewrite E at 1.
  rewrite !elem_of_app. intros [H|[H|H]] Hr; [|done|];
    eapply Forall_forall in H; try done; simpl in H; congruence.
Qed.
(** Trimming keeps a contiguous part of the string. *)
Lemma trim_left_suffix n s : ∃ k, s = k ++ trim_left_go n s.
Proof.
  revert s. induction n as [|n IH]; intros s; [by exists []|].
  destruct s as [|b s]; [by exists []|]. cbn [trim_left_go].
  destruct (DecodeRune (b :: s)) as [r w]. destruct (IsSpace r); [|by exists []].
  destruct (IH (drop w (b :: s))) as [k Hk]. exists (take w (b :: s) ++ k).
  by rewrite <- app_assoc, <- Hk, take_drop.
Qed.
Lemma trim_right_prefix n s : ∃ k, s = trim_right_go n s ++ k.
Proof.
  revert s. induction n as [|n IH]; intros s; [exists []; by rewrite app_nil_r|].
  destruct s as [|b s]; [by exists []|]. cbn [trim_right_go].
  destruct (DecodeLastRune (b :: s)) as [r w].
  destruct (IsSpace r); [|exists []; by rewrite app_nil_r].
  destruct (IH (take (length (b :: s) - w) (b :: s))) as [k Hk].
  exists (k ++ drop (length (b :: s) - w) (b :: s)).
  by rewrite app_assoc, <- Hk, take_drop.
Qed.
Lemma TrimSpace_part s : ∃ a b, s = a ++ TrimSpace s ++ b.
Proof.
  unfold TrimSpace. destruct (trim_left_suffix (length s) s) as [a Ha].
  destruct (trim_right_prefix (length (trim_left_go (length s) s)) (trim_left_go (length s) s))
    as [b Hb].
  exists a, b. by rewrite <- Hb.
Qed.
Lemma zlen_TrimSpace s : zlen (TrimSpace s) <= zlen s.
Proof.
  destruct (TrimSpace_part s) as (a & b & E). rewrite E at 2. rewrite !zlen_app.
  pose proof (zlen_nonneg a). pose proof (zlen_nonneg b). lia.
Qed.

(** [strings.TrimLeft]/[TrimRight] with a one-byte cut set. *)
Fixpoint TrimLeftByte (s : gostring) (c : Z) : gostring :=
  match s with
  | b :: s' => if b =? c then TrimLeftByte s' c else s
  | [] => []
  end.
Definition TrimRightByte (s : gostring) (c : Z) : gostring :=
  reverse (TrimLeftByte (reverse s) c).

(** ** Replacement *)
Fixpoint replace_go (old new : gostring) (skip : nat) (s : gostring) : gostring :=
  match s with
  | [] => []
  | b :: s' =>
      match skip with
      | S skip => replace_go old new skip s'
      | O => if HasPrefix s old then new ++ replace_go old new (length old - 1) s'
             else b :: replace_go old new 0 s'
      end
  end.
(** [strings.ReplaceAll] for a non-empty [old]. *)
Definition ReplaceAll (s old new : gostring) : gostring := replace_go old new 0 s.

Lemma replace_skip old new n s : replace_go old new n s = replace_go old new 0 (drop n s).
Proof.
  revert n. induction s as [|b s IH]; intros [|n]; try done. cbn [replace_go drop]. apply IH.
Qed.
Lemma ReplaceAll_first s old new : old ≠ [] →
  ReplaceAll s old new =
  match find_sub s old with
  | Some n => take n s ++ new ++ ReplaceAll (drop (n + length old) s) old new
  | None => s
  end.
Proof.
  intros Ho. unfold ReplaceAll. induction s as [|b s IH]; cbn [find_sub].
  - by destruct old.
  - cbn [replace_go]. destruct (HasPrefix (b :: s) old) eqn:Hp.
    + cbn [take app Nat.add]. rewrite replace_skip. do 2 f_equal.
      destruct old as [|o old]; [done|]. simpl. by rewrite Nat.sub_0_r.
    + rewrite IH. by destruct (find_sub s old).
Qed.
(** Replacement cuts the string at occurrences, between which there is none. *)
Lemma ReplaceAll_segments s old new : old ≠ [] →
  ∃ segs, s = Join segs old ∧ ReplaceAll s old new = Join segs new ∧
          Forall (λ seg, Contains seg old = false) segs ∧ segs ≠ [].
Proof.
  intros Ho. remember (length s) as n eqn:Hn. revert s Hn.
  induction n as [n IH] using lt_wf_ind. intros s ->. rewrite ReplaceAll_first by done.
  destruct (find_sub s old) as [k|] eqn:E.
  - destruct (find_sub_Some _ _ _ E) as (a & b & Hs & Hk).
    assert (drop (k + length old) s = b) as Hd.
    { rewrite Hs, app_assoc, <- Hk, <- length_app. by rewrite drop_app_length. }
    assert (take k s = a) as Ht by (rewrite Hs, <- Hk; by rewrite take_app_length).
    rewrite Hd, Ht. destruct (IH (length b)) with b as (segs & Hb & Hr & Hf & Hne); [|done|].
    { rewrite Hs, !length_app. destruct old; [done|simpl; lia]. }
    exists (a :: segs). rewrite !Join_cons by done. split_and!; [by rewrite <- Hb|by rewrite <- Hr| |done].
    constructor; [|done]. apply not_true_iff_false. intros (x & y & Ha)%Contains_spec.
    assert (k <= length x)%nat as Hle.
    { eapply find_sub_first; [done|]. rewrite Hs, Ha. rewrite <- !app_assoc. done. }
    rewrite <- Hk, Ha, !length_app in Hle. destruct old; [done|simpl in Hle; lia].
  - exists [s]. split_and!; [done..| |done]. constructor; [|done].
    unfold Contains. by rewrite E.
Qed.
(** A string without the byte [c] does not straddle it. *)
Lemma Contains_sep a c b k : c ∉ k → Contains (a ++ c :: b) k = true →
  Contains a k = true ∨ Contains b k = true.
Proof.
  rewrite !Contains_spec. intros Hc (x & y & E). revert x E. induction a as [|a0 a IH]; intros x E.
  - destruct x as [|x0 x]; simpl in E.
    + destruct k as [|k0 k]; [left; by exists [], []|]. injection E as -> _. set_solver.
    + injection E as _ E. right. by exists x, y.
  - destruct x as [|x0 x]; simpl in E.
    + clear IH. destruct (decide (length k <= length (a0 :: a))%nat) as [Hl|Hl].
      * left. exists [], (drop (length k) (a0 :: a)). simpl. rewrite <- (take_drop (length k) (a0 :: a)) at 1.
        f_equal. assert (take (length k) ((a0 :: a) ++ c :: b) = k) as Hk by (simpl; rewrite E; apply take_app_length).
        by rewrite take_app_le in Hk by done.
      * exfalso. apply Hc. assert ((k ++ y) !! length (a0 :: a) = Some c) as Hk.
        { rewrite <- E. change (a0 :: a ++ c :: b) with ((a0 :: a) ++ c :: b). by rewrite list_lookup_middle. }
        rewrite lookup_app_l in Hk by lia. by eapply list_elem_of_lookup_2.
    + injection E as -> E. destruct (IH x E) as [(p & q & ->)|?]; [|by right].
      left. exists (x0 :: p), q. done.
Qed.
(** Joined with [c1 :: mid ++ [c2]], strings without [k] make a string without [k]. *)
Lemma Join_not_contains segs c1 mid c2 k : c1 ∉ k → c2 ∉ k → k ≠ [] →
  Contains mid k = false → Forall (λ seg, Contains seg k = false) segs →
  Contains (Join segs (c1 :: mid ++ [c2])) k = false.
Proof.
  intros H1 H2 Hk Hm Hf. apply not_true_iff_false. revert Hf. induction segs as [|s segs IH]; intros Hf.
  - cbn [Join]. intros (x & y & E)%Contains_spec. by destruct x, k.
  - apply Forall_cons_1 in Hf as [Hs Hf]. destruct segs as [|s' segs]; [cbn [Join]; congruence|].
    rewrite Join_cons by done. simpl. intros [?|Hc]%Contains_sep; [congruence| |done].
    rewrite <- app_assoc in Hc. apply Contains_sep in Hc as [?|Hc]; [congruence| |done].
    by apply IH.
Qed.
Lemma Join_seg_infix segs sep seg : seg ∈ segs → ∃ a b, Join segs sep = a ++ seg ++ b.
Proof.
  induction segs as [|s segs IH]; [by intros ?%elem_of_nil|]. destruct segs as [|s' segs].
  - intros ->%list_elem_of_singleton. exists [], []. by rewrite app_nil_r.
  - rewrite Join_cons by done. intros [->|(a & b & ->)%IH]%elem_of_cons.
    + by exists [], (sep ++ Join (s' :: segs) sep).
    + exists (s ++ sep ++ a), b. by rewrite <- !app_assoc.
Qed.

(** ** Decimal integers, as [%d] and [strconv.Itoa] print them *)
Definition Itoa (z : Z) : gostring := lit (pretty z).

(** [strconv.Atoi] on a decimal string with an optional sign; [None] is an error. *)
Fixpoint digits_go (acc : Z) (s : gostring) : option Z :=
  match s with
  | [] => Some acc
  | b :: s => if between 48 57 b then digits_go (acc * 10 + (b - 48)) s else None
  end.
Definition Atoi (s : gostring) : option Z :=
  let '(neg, ds) := match s with
                    | 45 :: s => (true, s) | 43 :: s => (false, s) | _ => (false, s) end in
  match ds with
  | [] => None
  | _ => match digits_go 0 ds with
         | Some n => let v := if neg : bool then - n else n in
                     if bool_decide (int64_range v) then Some v else None
         | None => None
         end
  end.
