(* ===== verification/GoUrl.v ===== *)
(** The parts of Go's [net/url] package the components use: escaping, [Parse] with the host name,
    and query strings. *)
From S2P Require Import Prelude Unicode Utf8 GoStrings.
Local Open Scope Z_scope.

Inductive encoding := encodePath | encodePathSegment | encodeHost | encodeUserPassword
                    | encodeQueryComponent | encodeFragment.
#[export] Instance encoding_eq_dec : EqDecision encoding.
Proof. solve_decision. Defined.

Definition one_of (s : gostring) (c : Z) : bool := bool_decide (c ∈ s).
Definition is_alnum (c : Z) : bool :=
  between 97 122 c || between 65 90 c || between 48 57 c.

Definition shouldEscape (c : Z) (mode : encoding) : bool :=
  if is_alnum c then false
  else if bool_decide (mode = encodeHost) && (one_of (lit "!$&'()*+,;=:[]<>") c || (c =? 34))
  then false
  else if one_of (lit "-_.~") c then false
  else if one_of (lit "$&+,/:;=?@") c then
    match mode with
    | encodePath => c =? 63
    | encodePathSegment => one_of (lit "/;,?") c
    | encodeUserPassword => one_of (lit "@/?:") c
    | encodeQueryComponent => true
    | encodeFragment => false
    | encodeHost => true
    end
  else if bool_decide (mode = encodeFragment) && one_of (lit "!()*") c then false
  else true.

Definition hex_digit (n : Z) : Z := if n <? 10 then 48 + n else 55 + n.
Definition ishex (c : Z) : bool := between 48 57 c || between 97 102 c || between 65 70 c.
Definition unhex (c : Z) : Z :=
  if between 48 57 c then c - 48 else if between 97 102 c then c - 87 else c - 55.

Definition escape_byte (mode : encoding) (c : Z) : gostring :=
  if (c =? 32) && bool_decide (mode = encodeQueryComponent) then [43]
  else if shouldEscape c mode then [37; hex_digit (c / 16); hex_digit (c mod 16)]
  else [c].
Definition escape (s : gostring) (mode : encoding) : gostring := s ≫= escape_byte mode.
Definition QueryEscape (s : gostring) : gostring := escape s encodeQueryComponent.
Definition PathEscape (s : gostring) : gostring := escape s encodePathSegment.

(** [unescape]; [None] is an error. *)
Fixpoint unescape (s : gostring) (mode : encoding) : option gostring :=
  match s with
  | [] => Some []
  | c :: s1 =>
      if c =? 37 then
        match s1 with
        | a :: b :: s2 =>
            if negb (ishex a && ishex b) then None
            else if bool_decide (mode = encodeHost) && (unhex a <? 8) &&
                    negb (bool_decide ([c; a; b] = lit "%25")) then None
            else cons (unhex a * 16 + unhex b) <$> unescape s2 mode
        | _ => None
        end
      else if (c =? 43) && bool_decide (mode = encodeQueryComponent)
      then cons 32 <$> unescape s1 mode
      else if bool_decide (mode = encodeHost) && (c <? 128) && shouldEscape c mode then None
      else cons c <$> unescape s1 mode
  end.
Definition QueryUnescape (s : gostring) : option gostring := unescape s encodeQueryComponent.

(** ** Parsing *)
(** [url.Userinfo]: a name and, if one was given, a password. *)
Record Userinfo := { username : gostring; password : option gostring }.
Record URL := {
  Scheme : gostring; Opaque : gostring; User : option Userinfo; Host : gostring;
  Path : gostring; RawPath : gostring; OmitHost : bool;
  ForceQuery : bool; RawQuery : gostring;
  Fragment : gostring; RawFragment : gostring
}.
(** A URL with nothing but these parts. *)
Definition simple_url (scheme host path query : gostring) : URL :=
  {| Scheme := scheme; Opaque := []; User := None; Host := host; Path := path; RawPath := [];
     OmitHost := false; ForceQuery := false; RawQuery := query; Fragment := []; RawFragment := [] |}.
Definition set_RawQuery (u : URL) (q : gostring) : URL :=
  {| Scheme := Scheme u; Opaque := Opaque u; User := User u; Host := Host u; Path := Path u;
     RawPath := RawPath u; OmitHost := OmitHost u; ForceQuery := ForceQuery u; RawQuery := q;
     Fragment := Fragment u; RawFragment := RawFragment u |}.
Definition set_fragment (u : URL) (frag raw : gostring) : URL :=
  {| Scheme := Scheme u; Opaque := Opaque u; User := User u; Host := Host u; Path := Path u;
     RawPath := RawPath u; OmitHost := OmitHost u; ForceQuery := ForceQuery u;
     RawQuery := RawQuery u; Fragment := frag; RawFragment := raw |}.

(** [getScheme]: the scheme and the rest; [None] is an error. [n] counts the bytes read. *)
Fixpoint scheme_go (n : nat) (raw s : gostring) : option (gostring * gostring) :=
  match s with
  | [] => Some ([], raw)
  | c :: s =>
      if between 97 122 c || between 65 90 c then scheme_go (S n) raw s
      else if between 48 57 c || one_of (lit "+-.") c then
        match n with O => Some ([], raw) | _ => scheme_go (S n) raw s end
      else if c =? 58 then
        match n with O => None | _ => Some (take n raw, s) end
      else Some ([], raw)
  end.
Definition getScheme (raw : gostring) : option (gostring * gostring) := scheme_go 0 raw raw.

Definition validOptionalPort (port : gostring) : bool :=
  match port with
  | [] => true
  | c :: ds => (c =? 58) && forallb (between 48 57) ds
  end.
Definition validUserinfo (s : gostring) : bool :=
  forallb (λ c, is_alnum c || one_of (lit "-._:~!$&'()*+,;=%@") c) s.

(** What [netip.ParseAddr] accepts as an IPv6 address with an optional zone. *)
Definition ipv4_field (f : gostring) : bool :=
  match f with
  | [] => false
  | c :: r => forallb (between 48 57) f && (negb (c =? 48) || bool_decide (r = [])) &&
              match Atoi f with Some n => n <=? 255 | None => false end
  end.
Definition ipv4_ok (s : gostring) : bool :=
  (length (Split s 46) =? 4)%nat && forallb ipv4_field (Split s 46).
Definition hex_group (g : gostring) : bool :=
  between 1 4 (zlen g) && forallb ishex g.
(** The number of 16-bit fields of a colon-separated list, if it is well formed. *)
Fixpoint ipv6_fields (gs : list gostring) : option Z :=
  match gs with
  | [] => Some 0
  | [g] => if hex_group g then Some 1 else if ipv4_ok g then Some 2 else None
  | g :: gs => if hex_group g then Z.add 1 <$> ipv6_fields gs else None
  end.
Definition ipv6_part (s : gostring) : option Z :=
  if decide (s = []) then Some 0 else ipv6_fields (Split s 58).
Definition ipv6_ok (s : gostring) : bool :=
  let '(addr, zone, found) := Cut s (lit "%") in
  negb (found && bool_decide (zone = [])) &&
  match find_sub addr (lit "::") with
  | Some i =>
      match ipv6_part (take i addr), ipv6_part (drop (i + 2) addr) with
      | Some a, Some b => a + b <=? 7
      | _, _ => false
      end
  | None => match ipv6_part addr with Some n => n =? 8 | None => false end
  end.

(** [parseHost]. *)
Definition parseHost (host : gostring) : option gostring :=
  match find_last host (lit "[") with
  | Some opn =>
      match find_last host (lit "]") with
      | None => None
      | Some cls =>
          let colonPort := drop (S cls) host in
          if negb (validOptionalPort colonPort) then None
          else
            let hostname := take (cls - S opn) (drop (S opn) host) in
            name ← match find_sub hostname (lit "%25") with
                   | Some z =>
                       h ← unescape (take z hostname) encodeHost;
                       zone ← unescape (drop z hostname) encodePathSegment;
                       Some (h ++ zone)
                   | None => unescape hostname encodeHost
                   end;
            if ipv6_ok name then Some (lit "[" ++ name ++ lit "]" ++ colonPort) else None
      end
  | None =>
      match find_sub host (lit ":") with
      | Some i => if negb (validOptionalPort (drop i host)) then None else unescape host encodeHost
      | None => unescape host encodeHost
      end
  end.

Definition parseAuthority (authority : gostring) : option (option Userinfo * gostring) :=
  match find_last authority (lit "@") with
  | None => host ← parseHost authority; Some (None, host)
  | Some i =>
      host ← parseHost (drop (S i) authority);
      let userinfo := take i authority in
      if negb (validUserinfo userinfo) then None
      else
        let '(name, pass, found) := Cut userinfo (lit ":") in
        name ← unescape name encodeUserPassword;
        pass ← unescape pass encodeUserPassword;
        Some (Some {| username := name; password := if found : bool then Some pass else None |}, host)
  end.
(** [setPath] and [setFragment]: what a text decodes to, and the text itself when it is not the
    canonical encoding of that. *)
Definition decoded_part (s : gostring) (mode : encoding) : option (gostring * gostring) :=
  p ← unescape s mode; Some (p, if decide (escape p mode = s) then [] else s).

Definition has_ctl (s : gostring) : bool := existsb (λ b, (b <? 32) || (b =? 127)) s.
Definition count_byte (c : Z) (s : gostring) : nat := length (filter (λ b, b = c) s).

(** [parse] after the scheme and the query are cut off. *)
Definition parse_tail (scheme rest : gostring) (force : bool) (query : gostring) : option URL :=
  if negb (HasPrefix rest (lit "/")) && bool_decide (scheme ≠ []) then
    Some {| Scheme := scheme; Opaque := rest; User := None; Host := []; Path := []; RawPath := [];
            OmitHost := false; ForceQuery := force; RawQuery := query; Fragment := []; RawFragment := [] |}
  else if negb (HasPrefix rest (lit "/")) &&
          (let '(segment, _, _) := Cut rest (lit "/") in Contains segment (lit ":")) then None
  else
  '(user, host, omit, rest) ←
    (if (bool_decide (scheme ≠ []) || negb (HasPrefix rest (lit "///"))) &&
        HasPrefix rest (lit "//") then
       let authority := drop 2 rest in
       let '(authority, rest) :=
         match find_sub authority (lit "/") with
         | Some i => (take i authority, drop i authority)
         | None => (authority, [])
         end in
       '(user, host) ← parseAuthority authority; Some (user, host, false, rest)
     else Some (None, [], bool_decide (scheme ≠ []) && HasPrefix rest (lit "/"), rest));
  '(path, raw) ← decoded_part rest encodePath;
  Some {| Scheme := scheme; Opaque := []; User := user; Host := host; Path := path; RawPath := raw;
          OmitHost := omit; ForceQuery := force; RawQuery := query; Fragment := []; RawFragment := [] |}.
(** [parse] without the fragment. *)
Definition parse (raw : gostring) : option URL :=
  if has_ctl raw then None else
  if decide (raw = lit "*") then Some (simple_url [] [] (lit "*") [])
  else
  '(scheme, rest) ← getScheme raw;
  let scheme := StringsToLower scheme in
  if HasSuffix rest (lit "?") && (count_byte 63 rest =? 1)%nat then
    parse_tail scheme (take (length rest - 1) rest) true []
  else let '(a, b, _) := Cut rest (lit "?") in parse_tail scheme a false b.

(** [url.Parse]: [None] is an error. *)
Definition Parse (rawURL : gostring) : option URL :=
  let '(u, frag, _) := Cut rawURL (lit "#") in
  url ← parse u;
  '(frag, raw) ← decoded_part frag encodeFragment;
  Some (set_fragment url frag raw).

(** ** Printing *)
(** [validEncoded]: the bytes an encoded path or fragment may have. *)
Definition validEncoded (s : gostring) (mode : encoding) : bool :=
  forallb (λ c, one_of (lit "!$&'()*+,;=:@[]%") c || negb (shouldEscape c mode)) s.
(** [EscapedPath] and [EscapedFragment]: the text of the URL as it was, when it still fits. *)
Definition escaped_part (p raw : gostring) (mode : encoding) : gostring :=
  if negb (bool_decide (raw = [])) && validEncoded raw mode &&
     bool_decide (unescape raw mode = Some p) then raw
  else if bool_decide (mode = encodePath) && bool_decide (p = lit "*") then lit "*"
  else escape p mode.
Definition userinfo_string (ui : Userinfo) : gostring :=
  if bool_decide (username ui ≠ []) || bool_decide (password ui ≠ None) then
    escape (username ui) encodeUserPassword ++
    match password ui with Some p => 58 :: escape p encodeUserPassword | None => [] end
  else [].
(** What comes before the path: [scheme://user@host]. *)
Definition url_head (u : URL) : gostring :=
  (if decide (Scheme u = []) then [] else Scheme u ++ [58]) ++
  (if bool_decide (Scheme u ≠ []) || bool_decide (Host u ≠ []) || match User u with Some _ => true | None => false end then
     if OmitHost u && bool_decide (Host u = []) && match User u with Some _ => false | None => true end then []
     else
       (if bool_decide (Host u ≠ []) || bool_decide (Path u ≠ []) || match User u with Some _ => true | None => false end
        then lit "//" else []) ++
       (match User u with Some ui => userinfo_string ui ++ [64] | None => [] end) ++
       escape (Host u) encodeHost
   else []).
(** [URL.String]. *)
Definition URLString (u : URL) : gostring :=
  (if bool_decide (Opaque u ≠ []) then
     (if decide (Scheme u = []) then [] else Scheme u ++ [58]) ++ Opaque u
   else
     let path := escaped_part (Path u) (RawPath u) encodePath in
     let head := url_head u ++ (if bool_decide (path ≠ []) && negb (HasPrefix path [47]) &&
                                   bool_decide (Host u ≠ []) then [47] else []) in
     head ++ (if bool_decide (head = []) &&
                 (let '(segment, _, _) := Cut path (lit "/") in Contains segment (lit ":"))
              then lit "./" else []) ++ path) ++
  (if ForceQuery u || bool_decide (RawQuery u ≠ []) then 63 :: RawQuery u else []) ++
  (if bool_decide (Fragment u ≠ []) then 35 :: escaped_part (Fragment u) (RawFragment u) encodeFragment
   else []).

(** [URL.Hostname]: the host without port and brackets. *)
Definition Hostname (u : URL) : gostring :=
  let host := Host u in
  let host := match find_last host (lit ":") with
              | Some i => if validOptionalPort (drop i host) then take i host else host
              | None => host
              end in
  if HasPrefix host (lit "[") && HasSuffix host (lit "]")
  then take (length host - 2) (drop 1 host) else host.

(** ** Query strings *)
Definition parse_pair (kv : gostring) : option (gostring * gostring) :=
  if Contains kv (lit ";") || bool_decide (kv = []) then None
  else let '(k, v, _) := Cut kv (lit "=") in
       k ← QueryUnescape k; v ← QueryUnescape v; Some (k, v).
(** [u.Query()], as the pairs in order. *)
Definition Query (u : URL) : list (gostring * gostring) := omap parse_pair (Split (RawQuery u) 38).
(** [Values.Get]: the first value of a key, or the empty string. *)
Definition Get (q : list (gostring * gostring)) (key : gostring) : gostring :=
  match list_find (λ kv, kv.1 = key) q with Some (_, kv) => kv.2 | None => [] end.

(** Byte-wise order of strings, as [sort.Strings] uses it. *)
Fixpoint string_ltb (s t : gostring) : bool :=
  match s, t with
  | [], [] => false
  | [], _ :: _ => true
  | _ :: _, [] => false
  | a :: s, b :: t => (a <? b) || ((a =? b) && string_ltb s t)
  end.
(** [Values.Encode], for values with one string per key. *)
Definition EncodeQuery (vs : list (gostring * gostring)) : gostring :=
  Join ((λ kv, QueryEscape kv.1 ++ lit "=" ++ QueryEscape kv.2) <$>
        stable_sort (λ a b, string_ltb a.1 b.1) vs) (lit "&").

(** ** Unescaping gives back what was escaped *)
Lemma escape_byte_unescape mode c s :
  0 <= c < 256 → mode ≠ encodeHost →
  unescape (escape_byte mode c ++ s) mode = cons c <$> unescape s mode.
Proof.
  intros Hc Hm. unfold escape_byte.
  destruct (Z.eqb_spec c 32) as [->|Hsp]; simpl.
  { destruct (decide (mode = encodeQueryComponent)) as [->|Hq].
    - by rewrite bool_decide_true.
    - rewrite bool_decide_false by done. by destruct mode. }
  destruct (shouldEscape c mode) eqn:Hs; simpl.
  - assert (ishex (hex_digit (c / 16)) = true ∧ ishex (hex_digit (c mod 16)) = true ∧
            unhex (hex_digit (c / 16)) * 16 + unhex (hex_digit (c mod 16)) = c) as (-> & -> & ->).
    { assert (∀ n, 0 <= n < 16 → ishex (hex_digit n) = true ∧ unhex (hex_digit n) = n) as H.
      { intros n Hn. unfold ishex, unhex, hex_digit, between.
        destruct (Z.ltb_spec n 10); split; repeat case_match; zbool;
          rewrite ?orb_true_iff, ?andb_true_iff, ?Z.leb_le; lia. }
      destruct (H (c / 16)) as [-> ->]; [lia|]. destruct (H (c mod 16)) as [-> ->]; [lia|].
      split_and!; [done..|lia]. }
    simpl. by rewrite bool_decide_false.
  - destruct (Z.eqb_spec c 37) as [->|]; [by destruct mode|].
    destruct ((c =? 43) && bool_decide (mode = encodeQueryComponent)) eqn:E.
    { apply andb_true_iff in E as [E1 E2]. apply Z.eqb_eq in E1. apply bool_decide_eq_true in E2.
      subst. done. }
    by rewrite bool_decide_false.
Qed.
Lemma unescape_escape mode s :
  bytes_ok s → mode ≠ encodeHost → unescape (escape s mode) mode = Some s.
Proof.
  intros Hs Hm. induction Hs as [|c s Hc _ IH]; [done|].
  unfold escape in *. rewrite bind_cons. rewrite escape_byte_unescape by done. by rewrite IH.
Qed.
(** An escaped path segment has no slash, no query and no fragment. *)
Lemma PathEscape_safe s c : bytes_ok s → c ∈ PathEscape s → c ∉ lit "/?#".
Proof.
  change (lit "/?#") with [47; 63; 35].
  intros Hs. unfold PathEscape, escape. rewrite list_elem_of_bind. intros (b & Hc & Hb).
  unfold bytes_ok in Hs. rewrite Forall_forall in Hs. specialize (Hs b Hb). revert Hc.
  unfold escape_byte. rewrite andb_comm, bool_decide_false by done. simpl.
  destruct (shouldEscape b encodePathSegment) eqn:E.
  - rewrite !elem_of_cons, elem_of_nil. unfold hex_digit. intros Hc Hin.
    destruct (Z.ltb_spec (b / 16) 10), (Z.ltb_spec (b mod 16) 10); lia.
  - intros ->%list_elem_of_singleton Hin. rewrite !elem_of_cons, elem_of_nil in Hin.
    destruct Hin as [->|[->|[->|[]]]]; done.
Qed.

(** ** Query strings *)
Lemma has_ctl_false s : has_ctl s = false ↔ ∀ c, c ∈ s → 32 <= c ∧ c ≠ 127.
Proof.
  unfold has_ctl. rewrite <- not_true_iff_false, existsb_exists. split.
  - intros Hn c Hc. destruct (Z.ltb_spec c 32), (Z.eqb_spec c 127); [exfalso..|lia];
      apply Hn; exists c; (split; [by apply list_elem_of_In|]); apply orb_true_iff; lia.
  - intros Hs (c & Hc%list_elem_of_In & [?%Z.ltb_lt|?%Z.eqb_eq]%orb_true_iff);
      destruct (Hs c Hc); lia.
Qed.
(** What a query-escaped string is made of. *)
Definition query_char (c : Z) : bool := is_alnum c || one_of (lit "-_.~%+") c.
Lemma query_char_bounds c : query_char c = true →
  32 <= c ∧ c ∉ [127; 35; 38; 59; 61; 63; 39; 34].
Proof.
  unfold query_char, is_alnum, between, one_of. change (lit "-_.~%+") with [45; 95; 46; 126; 37; 43].
  intros Hc. assert (between 97 122 c = true ∨ between 65 90 c = true ∨ between 48 57 c = true ∨
    c ∈ [45; 95; 46; 126; 37; 43]) as Hcs.
  { rewrite !orb_true_iff, bool_decide_eq_true in Hc. unfold between. tauto. }
  unfold between in Hcs. rewrite !andb_true_iff, !Z.leb_le, !elem_of_cons, elem_of_nil in Hcs.
  rewrite !elem_of_cons, elem_of_nil. lia.
Qed.
Lemma QueryEscape_char s c : bytes_ok s → c ∈ QueryEscape s → query_char c = true.
Proof.
  intros Hs. unfold QueryEscape, escape. rewrite list_elem_of_bind. intros (b & Hc & Hb).
  unfold bytes_ok in Hs. rewrite Forall_forall in Hs. specialize (Hs b Hb). revert Hc.
  unfold escape_byte. rewrite andb_comm, bool_decide_true by done. simpl.
  destruct (Z.eqb_spec b 32); [by intros ->%list_elem_of_singleton|].
  destruct (shouldEscape b encodeQueryComponent) eqn:E.
  - unfold query_char. rewrite !elem_of_cons, elem_of_nil.
    intros [->|Hc]; [vm_compute; done|].
    assert (∀ n, 0 <= n < 16 → hex_digit n = c → is_alnum c = true) as Hh.
    { unfold hex_digit, is_alnum, between. intros m Hm <-. destruct (Z.ltb_spec m 10).
      - rewrite !orb_true_iff, !andb_true_iff, !Z.leb_le. lia.
      - rewrite !orb_true_iff, !andb_true_iff, !Z.leb_le. lia. }
    apply orb_true_iff; left. destruct Hc as [Hc|[Hc|[]]]; (eapply Hh; [|done]); lia.
  - intros ->%list_elem_of_singleton. revert E. unfold shouldEscape, query_char.
    destruct (is_alnum b); [done|]. cbn [andb bool_decide decide].
    rewrite bool_decide_false by done. cbn [andb].
    destruct (one_of (lit "-_.~") b) eqn:E1.
    + intros _. unfold one_of in *. apply bool_decide_eq_true in E1. apply bool_decide_eq_true.
      revert E1. change (lit "-_.~") with [45; 95; 46; 126].
      change (lit "-_.~%+") with [45; 95; 46; 126; 37; 43]. set_solver.
    + destruct (one_of (lit "$&+,/:;=?@") b); [done|]. by rewrite bool_decide_false.
Qed.
Lemma find_sub_byte a b c : c ∉ a → find_sub (a ++ c :: b) [c] = Some (length a).
Proof.
  intros Ha. induction a as [|x a IH]; cbn [app find_sub HasPrefix].
  - rewrite Z.eqb_refl. by destruct b.
  - destruct (Z.eqb_spec c x); [set_solver|]. cbn [andb]. by rewrite IH by set_solver.
Qed.
Lemma find_sub_no_byte a c : c ∉ a → find_sub a [c] = None.
Proof.
  intros Ha. induction a as [|x a IH]; cbn [find_sub HasPrefix]; [done|].
  destruct (Z.eqb_spec c x); [set_solver|]. cbn [andb]. by rewrite IH by set_solver.
Qed.
Lemma Cut_byte a b c : c ∉ a → Cut (a ++ c :: b) [c] = (a, b, true).
Proof.
  intros Ha. unfold Cut. rewrite find_sub_byte by done.
  rewrite take_app_length, <- drop_drop, drop_app_length. done.
Qed.
Lemma Cut_no_byte a c : c ∉ a → Cut a [c] = (a, [], false).
Proof. intros Ha. unfold Cut. by rewrite find_sub_no_byte. Qed.
(** A URL whose query has no [?], [#] or control byte. *)
Lemma Parse_query base q sc rest scheme host path :
  getScheme (base ++ 63 :: q) = Some (sc, rest ++ 63 :: q) →
  63 ∉ rest → has_ctl base = false → 35 ∉ base →
  q ≠ [] → (∀ c, c ∈ q → query_char c = true ∨ c = 38 ∨ c = 61) →
  parse_tail (StringsToLower sc) rest false q = Some (simple_url scheme host path q) →
  Parse (base ++ 63 :: q) = Some (simple_url scheme host path q).
Proof.
  intros Hs Hr Hb Hh Hq Hc Hu.
  assert (∀ c, c ∈ q → 32 <= c ∧ c ∉ [127; 35; 63]) as Hqc.
  { intros c [Hcc| [->| ->]]%Hc; [|set_solver by lia..].
    apply query_char_bounds in Hcc. set_solver. }
  unfold Parse. change (lit "#") with [35]. rewrite Cut_no_byte.
  2:{ rewrite elem_of_app, elem_of_cons. intros [?|[?|[_ Hn]%Hqc]]; [done..|set_solver]. }
  assert (parse (base ++ 63 :: q) = Some (simple_url scheme host path q)) as ->; [|done].
  unfold parse. rewrite (proj2 (has_ctl_false _)).
  2:{ rewrite has_ctl_false in Hb. intros c [?|[->|[? Hn]%Hqc]%elem_of_cons]%elem_of_app;
      [by apply Hb|done|]. split; [done|]. set_solver. }
  rewrite decide_False.
  2:{ intros E%(f_equal length). rewrite length_app in E. simpl in E. destruct q; simpl in E; [done|lia]. }
  rewrite Hs. simpl. change (lit "?") with [63].
  destruct (HasSuffix (rest ++ 63 :: q) [63]) eqn:E.
  { apply HasSuffix_spec in E as [k Hk]. exfalso.
    destruct q as [|x q _] using rev_ind; [done|].
    change (63 :: q ++ [x]) with ((63 :: q) ++ [x]) in Hk. rewrite app_assoc in Hk.
    apply app_inj_tail in Hk as [_ ->]. destruct (Hqc 63); set_solver. }
  simpl. rewrite Cut_byte by done. done.
Qed.
Lemma Split_app a b c : c ∉ a → Split (a ++ c :: b) c = a :: Split b c.
Proof.
  intros Ha. unfold Split. assert (∀ cur, split_go c cur (a ++ c :: b) = (cur ++ a) :: split_go c [] b) as H.
  { induction a as [|x a IH]; intros cur; cbn [app split_go].
    - by rewrite Z.eqb_refl, app_nil_r.
    - destruct (Z.eqb_spec x c); [set_solver|]. rewrite IH by set_solver. by rewrite <- app_assoc. }
  by rewrite H.
Qed.
Lemma Split_no a c : c ∉ a → Split a c = [a].
Proof.
  intros Ha. unfold Split. assert (∀ cur, split_go c cur a = [cur ++ a]) as H.
  { induction a as [|x a IH]; intros cur; cbn [split_go].
    - by rewrite app_nil_r.
    - destruct (Z.eqb_spec x c); [set_solver|]. rewrite IH by set_solver. by rewrite <- app_assoc. }
  by rewrite H.
Qed.
(** The pair written as [k=v] with [v] escaped is read back. *)
Lemma parse_pair_escape k v : bytes_ok v → k ≠ [] → (∀ c, c ∈ k → is_alnum c = true) →
  parse_pair (k ++ 61 :: QueryEscape v) = Some (k, v).
Proof.
  intros Hv Hk Hc.
  assert (∀ c, c ∈ k → query_char c = true) as Hq.
  { intros c ?%Hc. unfold query_char. by apply orb_true_iff; left. }
  assert (∀ c, c ∈ k ++ 61 :: QueryEscape v → c ≠ 59) as H59.
  { intros c [Hc'%Hq|[->|Hc'%QueryEscape_char]%elem_of_cons]%elem_of_app; [|done| |done];
      apply query_char_bounds in Hc' as [_ Hn]; set_solver. }
  unfold parse_pair.
  replace (Contains _ (lit ";")) with false.
  2:{ symmetry. apply not_true_iff_false. intros (a & b & E)%Contains_spec.
      apply (H59 59); [|done]. rewrite E. set_solver. }
  rewrite bool_decide_false by (by destruct k). cbn [orb]. change (lit "=") with [61].
  rewrite Cut_byte. 2:{ intros Hin%Hq%query_char_bounds. set_solver. }
  assert (QueryUnescape k = Some k) as ->.
  { clear - Hc. induction k as [|c k IH]; [done|]. unfold QueryUnescape in *. cbn [unescape].
    assert (is_alnum c = true) as Ha by (apply Hc; set_solver).
    assert (c ≠ 37 ∧ c ≠ 43) as [? ?].
    { unfold is_alnum, between in Ha. rewrite !orb_true_iff, !andb_true_iff, !Z.leb_le in Ha. lia. }
    rewrite (proj2 (Z.eqb_neq _ _)), (proj2 (Z.eqb_neq c 43)) by done. cbn [andb].
    rewrite bool_decide_false by done. cbn [andb]. rewrite IH by set_solver. done. }
  simpl. unfold QueryUnescape, QueryEscape. by rewrite unescape_escape.
Qed.

(** ** What is encoded is read back *)
Lemma parse_pair_encoded k v : bytes_ok k → bytes_ok v →
  parse_pair (QueryEscape k ++ lit "=" ++ QueryEscape v) = Some (k, v).
Proof.
  intros Hk Hv. unfold parse_pair. change (lit "=") with [61]. cbn [app].
  replace (Contains _ (lit ";")) with false.
  2:{ symmetry. apply not_true_iff_false. intros (a & b & E)%Contains_spec.
      assert (59 ∈ QueryEscape k ++ 61 :: QueryEscape v) as Hin by (rewrite E; set_solver).
      apply elem_of_app in Hin as [Hin|[|Hin]%elem_of_cons]; [|done|];
        (apply QueryEscape_char in Hin; [|done]); by apply query_char_bounds in Hin as [_ Hn]; set_solver. }
  rewrite bool_decide_false by (by destruct (QueryEscape k)). cbn [orb].
  rewrite Cut_byte by (intros Hin%QueryEscape_char; [apply query_char_bounds in Hin; set_solver|done]).
  unfold QueryUnescape, QueryEscape. by rewrite !unescape_escape.
Qed.
Lemma Split_Join segs c : segs ≠ [] → Forall (λ s, c ∉ s) segs → Split (Join segs [c]) c = segs.
Proof.
  intros Hne Hs. induction Hs as [|s segs Hc Hs IH]; [done|].
  destruct segs as [|s' segs]; [by apply Split_no|].
  rewrite Join_cons by done. cbn [app]. rewrite Split_app by done. by rewrite IH.
Qed.
Definition pairs_ok (vs : list (gostring * gostring)) : Prop :=
  Forall (λ kv, bytes_ok kv.1 ∧ bytes_ok kv.2) vs.
Lemma omap_encoded vs : pairs_ok vs →
  omap parse_pair ((λ kv, QueryEscape kv.1 ++ lit "=" ++ QueryEscape kv.2) <$> vs) = vs.
Proof.
  induction 1 as [|[k v] vs [Hk Hv] _ IH]; [done|]. rewrite fmap_cons.
  change (omap parse_pair (?x :: ?l)) with (match parse_pair x with Some y => y :: omap parse_pair l
    | None => omap parse_pair l end). cbn [fst snd] in *. rewrite parse_pair_encoded by done. by rewrite IH.
Qed.
(** The query of a URL that was given encoded values has these values, by key. *)
Lemma Query_encoded u vs : vs ≠ [] → pairs_ok vs → RawQuery u = EncodeQuery vs →
  Query u = stable_sort (λ a b, string_ltb a.1 b.1) vs.
Proof.
  intros Hne Hok Hq. unfold Query. rewrite Hq. unfold EncodeQuery. change (lit "&") with [38].
  assert (pairs_ok (stable_sort (λ a b, string_ltb a.1 b.1) vs)) as Hs.
  { unfold pairs_ok. by rewrite stable_sort_perm. }
  rewrite Split_Join; [by apply omap_encoded| |].
  - intros E%(f_equal length). rewrite length_fmap, length_stable_sort in E. by destruct vs.
  - apply Forall_fmap. eapply Forall_impl; [exact Hs|]. intros [k v] [Hk Hv]. unfold compose. cbn [fst snd] in *.
    change (lit "=") with [61]. cbn [app].
    intros [Hin|[|Hin]%elem_of_cons]%elem_of_app; [|done|];
      (apply QueryEscape_char in Hin; [|done]); apply query_char_bounds in Hin; set_solver.
Qed.
Lemma EncodeQuery_char vs c : pairs_ok vs → c ∈ EncodeQuery vs → query_char c = true ∨ c = 38 ∨ c = 61.
Proof.
  intros Hok. unfold EncodeQuery. change (lit "&") with [38].
  assert (pairs_ok (stable_sort (λ a b, string_ltb a.1 b.1) vs)) as Hs.
  { unfold pairs_ok. by rewrite stable_sort_perm. }
  induction Hs as [|[k v] l [Hk Hv] _ IH]; [by intros ?%elem_of_nil|].
  assert (c ∈ QueryEscape k ++ lit "=" ++ QueryEscape v → query_char c = true ∨ c = 38 ∨ c = 61) as Hseg.
  { change (lit "=") with [61]. cbn [app].
    intros [Hin|[->|Hin]%elem_of_cons]%elem_of_app;
      [left; by apply (QueryEscape_char k)|by auto|left; by apply (QueryEscape_char v)]. }
  rewrite fmap_cons. destruct l as [|kv l]; [exact Hseg|]. rewrite Join_cons by done. cbn [app fst snd].
  intros [Hin|[->|Hin]%elem_of_cons]%elem_of_app; [by apply Hseg|by auto|by apply IH].
Qed.
Lemma EncodeQuery_nonempty vs : vs ≠ [] → EncodeQuery vs ≠ [].
Proof.
  intros Hne. unfold EncodeQuery. destruct (stable_sort _ vs) as [|kv l] eqn:E.
  { apply (f_equal length) in E. rewrite length_stable_sort in E. by destruct vs. }
  rewrite fmap_cons. destruct l as [|kv' l]; [|rewrite Join_cons by done]; by destruct (QueryEscape kv.1).
Qed.
(** A URL without query and fragment. *)
Lemma Parse_plain raw sc rest scheme host path :
  getScheme raw = Some (sc, rest) → 63 ∉ rest → has_ctl raw = false → 35 ∉ raw → raw ≠ lit "*" →
  parse_tail (StringsToLower sc) rest false [] = Some (simple_url scheme host path []) →
  Parse raw = Some (simple_url scheme host path []).
Proof.
  intros Hs Hr Hc Hh Hne Ht. unfold Parse. change (lit "#") with [35]. rewrite Cut_no_byte by done.
  assert (parse raw = Some (simple_url scheme host path [])) as ->; [|done].
  unfold parse. rewrite Hc, decide_False, Hs by done. cbn [mbind option_bind]. change (lit "?") with [63].
  destruct (HasSuffix rest [63]) eqn:E.
  { apply HasSuffix_spec in E as [k ->]. set_solver. }
  cbn [andb]. by rewrite Cut_no_byte.
Qed.
(** A host of letters, digits and the marks of a name. *)
Definition host_char (c : Z) : bool := is_alnum c || one_of (lit "-_.~") c.
Lemma host_char_spec c : host_char c = true →
  32 < c ∧ c < 127 ∧ c ∉ [35; 37; 43; 47; 58; 63; 64; 91; 93] ∧ shouldEscape c encodeHost = false.
Proof.
  intros Hc. split_and!; [..|].
  4:{ unfold shouldEscape. unfold host_char in Hc. destruct (is_alnum c); [done|]. cbn [orb] in Hc.
      rewrite Hc. by destruct (_ && _). }
  all: unfold host_char, is_alnum, between, one_of in Hc; change (lit "-_.~") with [45; 95; 46; 126] in Hc;
    rewrite !orb_true_iff, !andb_true_iff, !Z.leb_le, bool_decide_eq_true in Hc;
    rewrite !elem_of_cons, elem_of_nil in *; lia.
Qed.
