(* ===== verification/Regex.v ===== *)
(** Go's [regexp] as the components use it: leftmost-first matching of a pattern over the bytes of
    a string. The patterns use ASCII classes only, so bytes stand for runes. *)
From S2P Require Import Prelude Unicode Utf8 GoStrings.
Local Open Scope Z_scope.

Inductive re :=
| RClass (f : Z → bool)        (* one byte of a class *)
| RSeq (a b : re)
| RStar (a : re)               (* greedy; the body never matches the empty string *)
| ROpt (a : re)                (* greedy *)
| RWordB.                      (* \b *)

(** A word character of [\b]. *)
Definition word_byte (c : Z) : bool :=
  between 48 57 c || between 65 90 c || between 97 122 c || (c =? 95).
Definition is_word (o : option Z) : bool := match o with Some c => word_byte c | None => false end.

(** Backtracking with a continuation: [prev] is the byte before the position, [s] what follows
    it. The loop of a star runs at most once per byte, since its body consumes. *)
Section Match.
Context {A : Type}.
Fixpoint match_re (r : re) (prev : option Z) (s : gostring)
    (k : option Z → gostring → option A) {struct r} : option A :=
  match r with
  | RClass f => match s with c :: s => if f c then k (Some c) s else None | [] => None end
  | RSeq a b => match_re a prev s (λ p s, match_re b p s k)
  | ROpt a => match match_re a prev s k with Some x => Some x | None => k prev s end
  | RWordB => if xorb (is_word prev) (is_word (head s)) then k prev s else None
  | RStar a =>
      (fix star (n : nat) (prev : option Z) (s : gostring) : option A :=
         match n with
         | O => k prev s
         | S n =>
             match match_re a prev s (star n) with Some x => Some x | None => k prev s end
         end) (length s) prev s
  end.
End Match.

(** The match at a position: what follows it. *)
Definition match_at (r : re) (prev : option Z) (s : gostring) : option gostring :=
  match_re r prev s (λ _ s, Some s).

(** [FindAllStringIndex(s, -1)] for a pattern that matches no empty string: the start and the end
    of the matches, from left to right. [pos] is the position of [s]. *)
Fixpoint find_all (fuel : nat) (r : re) (prev : option Z) (pos : nat) (s : gostring)
    : list (nat * nat) :=
  match fuel with
  | O => []
  | S fuel =>
      match match_at r prev s with
      | Some rest =>
          let n := (length s - length rest)%nat in
          (pos, (pos + n)%nat) ::
          find_all fuel r (last (take n s)) (pos + n) rest
      | None =>
          match s with
          | [] => []
          | c :: s => find_all fuel r (Some c) (S pos) s
          end
      end
  end.
Definition FindAllStringIndex (r : re) (s : gostring) : list (nat * nat) :=
  find_all (S (length s)) r None 0 s.

(** ** Literals of patterns *)
Definition digit_byte : Z → bool := between 48 57.
Definition RChar (c : Z) : re := RClass (λ b, b =? c).
Definition RPlus (a : re) : re := RSeq a (RStar a).
Fixpoint RRepeat (n : nat) (a : re) : re :=
  match n with O | S O => a | S n => RSeq a (RRepeat n a) end.

(** ** What a match is *)
(** [matches r p s p' s']: the pattern takes the position before [s] to the one before [s']. The
    relation allows every way to match, the matcher chooses one. *)
Inductive matches : re → option Z → gostring → option Z → gostring → Prop :=
| m_class (f : Z → bool) c s p : f c = true → matches (RClass f) p (c :: s) (Some c) s
| m_seq a b p s p1 s1 p2 s2 :
    matches a p s p1 s1 → matches b p1 s1 p2 s2 → matches (RSeq a b) p s p2 s2
| m_star_nil a p s : matches (RStar a) p s p s
| m_star_cons a p s p1 s1 p2 s2 :
    matches a p s p1 s1 → matches (RStar a) p1 s1 p2 s2 → matches (RStar a) p s p2 s2
| m_opt_none a p s : matches (ROpt a) p s p s
| m_opt_some a p s p1 s1 : matches a p s p1 s1 → matches (ROpt a) p s p1 s1
| m_wordb p s : xorb (is_word p) (is_word (head s)) = true → matches RWordB p s p s.
#[export] Hint Constructors matches : go.

Lemma match_re_matches {A} r p s (k : option Z → gostring → option A) x :
  match_re r p s k = Some x → ∃ p' s', matches r p s p' s' ∧ k p' s' = Some x.
Proof.
  revert p s k. induction r as [f|a IHa b IHb|a IHa|a IHa|]; intros p s k; simpl.
  - destruct s as [|c s]; [done|]. destruct (f c) eqn:E; [|done]. eauto with go.
  - intros (p1 & s1 & H1 & (p2 & s2 & H2 & Hk)%IHb)%IHa. eauto with go.
  - generalize (length s) as n. intros n. revert p s. induction n as [|n IH]; intros p s.
    { eauto with go. }
    destruct (match_re a p s _) eqn:E; [|eauto with go].
    intros [= ->]. apply IHa in E as (p1 & s1 & H1 & (p2 & s2 & H2 & Hk)%IH). eauto with go.
  - destruct (match_re a p s k) eqn:E; [|eauto with go].
    intros [= ->]. apply IHa in E as (p1 & s1 & H1 & Hk). eauto with go.
  - destruct (xorb _ _) eqn:E; [eauto with go|done].
Qed.
(** Inversion. *)
Lemma matches_seq_inv a b p s p2 s2 : matches (RSeq a b) p s p2 s2 →
  ∃ p1 s1, matches a p s p1 s1 ∧ matches b p1 s1 p2 s2.
Proof. inversion 1; subst; eauto. Qed.
Lemma matches_class_inv f p s p1 s1 : matches (RClass f) p s p1 s1 →
  ∃ c, s = c :: s1 ∧ p1 = Some c ∧ f c = true.
Proof. inversion 1; subst; eauto. Qed.
Lemma matches_star_inv a p s p2 s2 : matches (RStar a) p s p2 s2 →
  (p2 = p ∧ s2 = s) ∨ ∃ p1 s1, matches a p s p1 s1 ∧ matches (RStar a) p1 s1 p2 s2.
Proof. inversion 1; subst; eauto 6. Qed.
Lemma matches_wordb_inv p s p1 s1 : matches RWordB p s p1 s1 →
  p1 = p ∧ s1 = s ∧ xorb (is_word p) (is_word (head s)) = true.
Proof. inversion 1; subst; eauto. Qed.
Lemma match_at_matches r p s rest : match_at r p s = Some rest → ∃ p', matches r p s p' rest.
Proof. intros (p' & s' & Hm & [= ->])%match_re_matches. eauto. Qed.

(** The strings a pattern consumes, \b aside. *)
Inductive lang : re → gostring → Prop :=
| l_class (f : Z → bool) c : f c = true → lang (RClass f) [c]
| l_seq a b v w : lang a v → lang b w → lang (RSeq a b) (v ++ w)
| l_star_nil a : lang (RStar a) []
| l_star_cons a v w : lang a v → lang (RStar a) w → lang (RStar a) (v ++ w)
| l_opt_none a : lang (ROpt a) []
| l_opt_some a v : lang a v → lang (ROpt a) v
| l_wordb : lang RWordB [].
#[export] Hint Constructors lang : go.

Lemma matches_lang r p s p' s' : matches r p s p' s' → ∃ w, s = w ++ s' ∧ lang r w.
Proof.
  induction 1; repeat match goal with H : ∃ _, _ ∧ _ |- _ => destruct H as (? & -> & ?) end.
  all: try (eexists []; by auto with go).
  - eexists [_]. auto with go.
  - eexists. rewrite app_assoc. auto with go.
  - eexists. rewrite app_assoc. auto with go.
  - eauto with go.
Qed.

Lemma lang_seq a b w : lang (RSeq a b) w → ∃ v k, w = v ++ k ∧ lang a v ∧ lang b k.
Proof. inversion 1; subst. eauto. Qed.
Lemma lang_opt a w : lang (ROpt a) w → w = [] ∨ lang a w.
Proof. inversion 1; subst; auto. Qed.
Lemma lang_wordb w : lang RWordB w → w = [].
Proof. by inversion 1. Qed.
Lemma lang_plus a w : lang (RPlus a) w → ∃ v k, w = v ++ k ∧ lang a v ∧ lang (RStar a) k.
Proof. inversion 1; subst. eauto. Qed.
(** What holds of the strings of the body lifts to those of a star. *)
Lemma lang_star_ind a (P : gostring → Prop) :
  P [] → (∀ v w, lang a v → P w → P (v ++ w)) → ∀ w, lang (RStar a) w → P w.
Proof.
  intros H0 Hc w Hw. remember (RStar a) as r eqn:E. induction Hw; simplify_eq; auto.
Qed.

(** Each match found is a part of the string that the pattern consumes. *)
Lemma find_all_lang fuel r pre prev s :
  Forall (λ m, lang r (take (m.2 - m.1) (drop m.1 (pre ++ s)))) (find_all fuel r prev (length pre) s).
Proof.
  revert pre prev s. induction fuel as [|fuel IH]; intros pre prev s; cbn [find_all]; [constructor|].
  destruct (match_at r prev s) as [rest|] eqn:E.
  - apply match_at_matches in E as (p' & (w & -> & Hw)%matches_lang).
    assert (length (w ++ rest) - length rest = length w)%nat as ->
      by (rewrite length_app; lia).
    constructor.
    + simpl. rewrite drop_app_length. replace (_ - _)%nat with (length w) by lia.
      by rewrite take_app_length.
    + rewrite <- length_app, (app_assoc pre w rest). apply IH.
  - destruct s as [|c s]; [constructor|].
    replace (S (length pre)) with (length (pre ++ [c])) by (rewrite length_app; simpl; lia).
    change (c :: s) with ([c] ++ s). rewrite (app_assoc pre [c] s). apply IH.
Qed.
Lemma FindAll_lang r s :
  Forall (λ m, lang r (take (m.2 - m.1) (drop m.1 s))) (FindAllStringIndex r s).
Proof. apply (find_all_lang (S (length s)) r [] None s). Qed.

(** No match anywhere in the string. *)
Lemma FindAll_nil r s :
  (∀ a b p, s = a ++ b → match_at r p b = None) → FindAllStringIndex r s = [].
Proof.
  unfold FindAllStringIndex. generalize (S (length s)), (@None Z), 0%nat. intros n p k Hn.
  revert p k s Hn. induction n as [|n IH]; intros p k s Hn; [done|]. cbn [find_all].
  rewrite (Hn [] s) by done. destruct s as [|c s]; [done|]. apply IH.
  intros a b p' ->. by apply (Hn (c :: a) b).
Qed.
