(* ===== verification/Floats.v ===== *)
(** Go's [float64] as IEEE binary64 values of the Standard Library's [SpecFloat], with the order
    lemmas sorting by a score needs: comparison of floats that are not NaN is a strict weak
    order. *)
From Stdlib Require Export SpecFloat.
From S2P Require Import Prelude.
Local Open Scope Z_scope.

Notation float := spec_float.
Definition fadd : float → float → float := SFadd 53 1024.
Definition fsub : float → float → float := SFsub 53 1024.
Definition fmul : float → float → float := SFmul 53 1024.
Definition fdiv : float → float → float := SFdiv 53 1024.
Definition fsqrt : float → float := SFsqrt 53 1024.
Definition flt : float → float → bool := SFltb.
Definition fle : float → float → bool := SFleb.
Definition feq : float → float → bool := SFeqb.
(** The conversion of an [int]. *)
Definition of_int (z : Z) : float := binary_normalize 53 1024 z 0 false.
Definition fzero : float := S754_zero false.
Definition fone : float := of_int 1.
(** The decimal literal [n / 10^k], correctly rounded. *)
Definition flit (n : Z) (k : nat) : float :=
  match n, 10 ^ Z.of_nat k with
  | 0, _ => fzero
  | Zpos p, Zpos d => fdiv (S754_finite false p 0) (S754_finite false d 0)
  | Zneg p, Zpos d => fdiv (S754_finite true p 0) (S754_finite false d 0)
  | _, _ => S754_nan
  end.
Definition not_nan (x : float) : bool := match x with S754_nan => false | _ => true end.
#[export] Instance float_eq_dec : EqDecision spec_float.
Proof. solve_decision. Defined.

(** The conversion to [int64]: truncation toward zero; out of range, the smallest integer, as the
    amd64 instruction gives. *)
Definition to_int (x : float) : Z :=
  match x with
  | S754_finite s m e =>
      let a := if 0 <=? e then Z.pos m * 2 ^ e else Z.pos m / 2 ^ (- e) in
      let v := if s then - a else a in
      if bool_decide (int64_range v) then v else - 2 ^ 63
  | S754_zero _ => 0
  | _ => - 2 ^ 63
  end.

(** [math.Pow] for a finite base and an exponent that is a natural number: the repeated squaring
    of the mantissa with a separate binary exponent. [n] is the exponent, [fuel] its bits. *)
Fixpoint pow_go (fuel : nat) (n : Z) (a1 : float) (ae : Z) (x1 : float) (xe : Z) : float :=
  match fuel with
  | O => SFldexp 53 1024 a1 ae
  | S fuel =>
      if n =? 0 then SFldexp 53 1024 a1 ae else
      let '(a1, ae) := if Z.odd n then (fmul a1 x1, ae + xe) else (a1, ae) in
      let x1 := fmul x1 x1 in
      let xe := 2 * xe in
      let '(x1, xe) := if flt x1 (flit 5 1) then (fadd x1 x1, xe - 1) else (x1, xe) in
      pow_go fuel (n / 2) a1 ae x1 xe
  end.
Definition Pow (x : float) (n : Z) : float :=
  if n =? 0 then fone else if n =? 1 then x
  else let '(x1, xe) := SFfrexp 53 1024 x in pow_go 64 n fone 0 x1 xe.

Example flit_tenth : flit 1 1 = S754_finite false 7205759403792794 (-56).
Proof. vm_compute. done. Qed.
Example Pow_two : Pow (of_int 2) 3 = of_int 8.
Proof. vm_compute. done. Qed.

(** ** The order *)
(** The position of a float that is not NaN, compared lexicographically. *)
Definition fkey (x : float) : Z * Z * Z :=
  match x with
  | S754_infinity true => (-2, 0, 0)
  | S754_finite true m e => (-1, - e, - Z.pos m)
  | S754_zero _ => (0, 0, 0)
  | S754_finite false m e => (1, e, Z.pos m)
  | S754_infinity false => (2, 0, 0)
  | S754_nan => (3, 0, 0)
  end.
Definition key_lt (x y : Z * Z * Z) : Prop :=
  let '(a, b, c) := x in let '(a', b', c') := y in
  a < a' ∨ a = a' ∧ (b < b' ∨ b = b' ∧ c < c').

Lemma flt_key x y : not_nan x = true → not_nan y = true → flt x y = true ↔ key_lt (fkey x) (fkey y).
Proof.
  intros Hx Hy. unfold flt, SFltb, SFcompare.
  destruct x as [[]|[]| |[] m e], y as [[]|[]| |[] m' e']; try done; simpl;
    try (split; [done|lia]); try (split; [lia|done]);
    change (Pos.compare_cont Eq m m') with (Pos.compare m m');
    (destruct (Z.compare_spec e e') as [->| |]; [|split; intros; (done || lia)..]);
    destruct (Pos.compare_spec m m') as [->| |]; simpl; split; intros; (done || lia).
Qed.
Lemma flt_asym x y : flt x y = true → flt y x = false.
Proof.
  intros H. destruct (not_nan x) eqn:Hx; [|by destruct x as [[]|[]| |[]], y as [[]|[]| |[]]].
  destruct (not_nan y) eqn:Hy; [|by destruct x as [[]|[]| |[]], y as [[]|[]| |[]]].
  apply not_true_is_false. intros H'. rewrite flt_key in H, H' by done.
  destruct (fkey x) as [[a b] c], (fkey y) as [[a' b'] c']. simpl in *. lia.
Qed.
(** [x >= y], for floats that are not NaN. *)
Lemma flt_false_trans x y z :
  not_nan x = true → not_nan y = true → not_nan z = true →
  flt x y = false → flt y z = false → flt x z = false.
Proof.
  intros Hx Hy Hz H1 H2. apply not_true_iff_false. intros H3.
  apply not_true_iff_false in H1, H2. rewrite flt_key in H1, H2, H3 by done.
  destruct (fkey x) as [[a b] c], (fkey y) as [[a' b'] c'], (fkey z) as [[a2 b2] c2].
  simpl in *. lia.
Qed.
Lemma flt_fle_neg x y : not_nan x = true → not_nan y = true → flt x y = negb (fle y x).
Proof.
  unfold flt, fle, SFltb, SFleb, SFcompare. intros Hx Hy.
  destruct x as [[]|[]| |[] m e], y as [[]|[]| |[] m' e']; try done; simpl;
    change (Pos.compare_cont Eq m m') with (Pos.compare m m');
    change (Pos.compare_cont Eq m' m) with (Pos.compare m' m);
    rewrite (Z.compare_antisym e' e), (Pos.compare_antisym m' m);
    destruct (e' ?= e); simpl; try done; by destruct (m' ?= m)%positive.
Qed.
