(* ===== verification/Json.v ===== *)
(** Go's [encoding/json] as the components use it: the syntax of a document, the decoding of its
    strings and numbers, and the decoding of a document into a struct whose fields are looked up
    by case-insensitive name. *)
From S2P Require Import Prelude Unicode Utf8 GoStrings GoUrl Floats.
Local Open Scope Z_scope.

Inductive json :=
| JNull
| JBool (b : bool)
| JNum (raw : gostring)
| JStr (s : gostring)
| JArr (l : list json)
| JObj (kvs : list (gostring * json)).

(** ** The reader *)
Definition json_space (c : Z) : bool := bool_decide (c ∈ [32; 9; 10; 13]).
Fixpoint skip_ws (s : gostring) : gostring :=
  match s with
  | c :: s' => if json_space c then skip_ws s' else s
  | [] => []
  end.

Definition hex4 (s : gostring) : option (Z * gostring) :=
  match s with
  | a :: b :: c :: d :: s =>
      if ishex a && ishex b && ishex c && ishex d
      then Some (((unhex a * 16 + unhex b) * 16 + unhex c) * 16 + unhex d, s) else None
  | _ => None
  end.
Definition assoc_escape (e : Z) : option Z :=
  if e =? 34 then Some 34 else if e =? 92 then Some 92 else if e =? 47 then Some 47
  else if e =? 98 then Some 8 else if e =? 102 then Some 12 else if e =? 110 then Some 10
  else if e =? 114 then Some 13 else if e =? 116 then Some 9 else None.
(** The body of a string literal after the opening quote: the decoded value and the rest. *)
Fixpoint read_string (fuel : nat) (acc s : gostring) : option (gostring * gostring) :=
  match fuel, s with
  | S fuel, c :: s1 =>
      if c =? 34 then Some (acc, s1)
      else if c <? 32 then None
      else if c =? 92 then
        match s1 with
        | e :: s2 =>
            if e =? 117 then
              '(u, s3) ← hex4 s2;
              if between 55296 57343 u then
                (* a surrogate: with its low half, or U+FFFD *)
                match (if between 55296 56319 u then
                         match s3 with
                         | 92 :: 117 :: s4 =>
                             '(v, s5) ← hex4 s4;
                             if between 56320 57343 v
                             then Some ((u - 55296) * 1024 + (v - 56320) + 65536, s5) else None
                         | _ => None
                         end
                       else None) with
                | Some (r, s5) => read_string fuel (acc ++ EncodeRune r) s5
                | None => read_string fuel (acc ++ EncodeRune RuneError) s3
                end
              else read_string fuel (acc ++ EncodeRune u) s3
            else
              match assoc_escape e with
              | Some b => read_string fuel (acc ++ [b]) s2
              | None => None
              end
        | [] => None
        end
      else
        let '(r, w) := DecodeRune s in
        read_string fuel (acc ++ EncodeRune r) (drop w s)
  | _, _ => None
  end.

Fixpoint read_digits (s : gostring) : gostring * gostring :=
  match s with
  | c :: s' => if between 48 57 c then let '(d, r) := read_digits s' in (c :: d, r) else ([], s)
  | [] => ([], [])
  end.
(** A number literal, as it is written. *)
Definition read_number (s : gostring) : option (gostring * gostring) :=
  let '(sign, s) := match s with 45 :: s' => ([45], s') | _ => ([], s) end in
  let '(ds, s) := read_digits s in
  if match ds with [] => true | 48 :: _ :: _ => true | _ => false end then None else
  '(frac, s) ← match s with
               | 46 :: s' => let '(f, r) := read_digits s' in
                             if decide (f = []) then None else Some (46 :: f, r)
               | _ => Some ([], s)
               end;
  '(ex, s) ← match s with
             | c :: s' =>
                 if (c =? 101) || (c =? 69) then
                   let '(sg, s'') := match s' with
                                     | 45 :: r => ([45], r) | 43 :: r => ([43], r)
                                     | _ => ([], s') end in
                   let '(e, r) := read_digits s'' in
                   if decide (e = []) then None else Some (c :: sg ++ e, r)
                 else Some ([], s)
             | [] => Some ([], s)
             end;
  Some (sign ++ ds ++ frac ++ ex, s).

(** A value, then what follows it; the fuel bounds the bytes read. *)
Fixpoint read_value (fuel : nat) (s : gostring) : option (json * gostring) :=
  match fuel with
  | O => None
  | S fuel =>
      match skip_ws s with
      | 123 :: s =>
          match skip_ws s with
          | 125 :: s => Some (JObj [], s)
          | s => '(kvs, s) ← read_members fuel s; Some (JObj kvs, s)
          end
      | 91 :: s =>
          match skip_ws s with
          | 93 :: s => Some (JArr [], s)
          | s => '(l, s) ← read_elements fuel s; Some (JArr l, s)
          end
      | 34 :: s => '(v, s) ← read_string (S (length s)) [] s; Some (JStr v, s)
      | s =>
          match CutPrefix s (lit "null"), CutPrefix s (lit "true"), CutPrefix s (lit "false") with
          | Some s, _, _ => Some (JNull, s)
          | _, Some s, _ => Some (JBool true, s)
          | _, _, Some s => Some (JBool false, s)
          | _, _, _ => '(n, s) ← read_number s; Some (JNum n, s)
          end
      end
  end
with read_members (fuel : nat) (s : gostring) : option (list (gostring * json) * gostring) :=
  match fuel with
  | O => None
  | S fuel =>
      match skip_ws s with
      | 34 :: s =>
          '(k, s) ← read_string (S (length s)) [] s;
          match skip_ws s with
          | 58 :: s =>
              '(v, s) ← read_value fuel s;
              match skip_ws s with
              | 44 :: s => '(kvs, s) ← read_members fuel s; Some ((k, v) :: kvs, s)
              | 125 :: s => Some ([(k, v)], s)
              | _ => None
              end
          | _ => None
          end
      | _ => None
      end
  end
with read_elements (fuel : nat) (s : gostring) : option (list json * gostring) :=
  match fuel with
  | O => None
  | S fuel =>
      '(v, s) ← read_value fuel s;
      match skip_ws s with
      | 44 :: s => '(l, s) ← read_elements fuel s; Some (v :: l, s)
      | 93 :: s => Some ([v], s)
      | _ => None
      end
  end.
(** A whole document. Every call reads a byte or is paid for by the previous one, so twice the
    length is enough fuel. *)
Definition parse_json (s : gostring) : option json :=
  '(v, r) ← read_value (2 * length s + 2) s;
  if decide (skip_ws r = []) then Some v else None.

(** ** Numbers *)
Definition read_int (s : gostring) : option Z :=
  match s with
  | 45 :: ds => if forallb (between 48 57) ds then Atoi s else None
  | _ => if forallb (between 48 57) s then Atoi s else None
  end.
(** [strconv.ParseFloat] on a number literal: correctly rounded; [None] when out of range. *)
Definition read_float (s : gostring) : option float :=
  let '(neg, s) := match s with 45 :: s' => (true, s') | _ => (false, s) end in
  let '(ds, s) := read_digits s in
  let '(fs, s) := match s with 46 :: s' => read_digits s' | _ => ([], s) end in
  let '(eneg, es) := match s with
                     | _ :: 45 :: e => (true, e) | _ :: 43 :: e => (false, e)
                     | _ :: e => (false, e) | [] => (false, []) end in
  let mant := default 0 (digits_go 0 (ds ++ fs)) in
  let e := default 0 (digits_go 0 es) in
  let e10 := (if eneg : bool then - e else e) - zlen fs in
  let digits := zlen (ds ++ fs) in
  match mant with
  | Zpos m =>
      if 400 <? e10 + digits then None
      else if e10 + digits <? -400 then Some (S754_zero neg)
      else
        let r := if 0 <=? e10 then binary_normalize 53 1024 (Zpos m * 10 ^ e10) 0 false
                 else match 10 ^ (- e10) with
                      | Zpos d => fdiv (S754_finite false m 0) (S754_finite false d 0)
                      | _ => S754_nan
                      end in
        match r with
        | S754_infinity _ => None
        | _ => Some (if neg : bool then SFopp r else r)
        end
  | _ => Some (S754_zero neg)
  end.

(** ** Decoding into Go values. A decoder takes the value already there, which [null] keeps. *)
Definition dec (A : Type) : Type := A → json → option A.
Definition dec_string : dec gostring := λ prev j,
  match j with JStr s => Some s | JNull => Some prev | _ => None end.
Definition dec_int : dec Z := λ prev j,
  match j with JNum s => read_int s | JNull => Some prev | _ => None end.
Definition dec_float : dec float := λ prev j,
  match j with JNum s => read_float s | JNull => Some prev | _ => None end.
Definition dec_bool : dec bool := λ prev j,
  match j with JBool b => Some b | JNull => Some prev | _ => None end.
Definition dec_list {A} (zero : A) (d : dec A) : dec (list A) := λ _ j,
  match j with JArr l => mapM (d zero) l | JNull => Some [] | _ => None end.
Definition dec_ptr {A} (zero : A) (d : dec A) : dec (option A) := λ prev j,
  match j with JNull => Some None | _ => Some <$> d (default zero prev) j end.
(** [map[string]T]: the values of equal keys replace each other. *)
Definition dec_map {A} (zero : A) (d : dec A) : dec (gmap gostring A) := λ prev j,
  match j with
  | JObj kvs => foldl (λ acc kv, m ← acc; v ← d zero kv.2; Some (<[kv.1 := v]> m)) (Some prev) kvs
  | JNull => Some ∅
  | _ => None
  end.
(** A struct field: every member whose name matches is decoded into it, in order. *)
Definition field {A} (name : gostring) (d : dec A) (prev : A) (kvs : list (gostring * json))
    : option A :=
  foldl (λ acc kv, a ← acc;
           if decide (StringsToLower kv.1 = StringsToLower name) then d a kv.2 else Some a)
        (Some prev) kvs.
Definition dec_struct {A} (f : A → list (gostring * json) → option A) : dec A := λ prev j,
  match j with JObj kvs => f prev kvs | JNull => Some prev | _ => None end.
(** [json.Unmarshal] into a variable holding [zero]. *)
Definition Unmarshal {A} (zero : A) (d : dec A) (s : gostring) : option A :=
  j ← parse_json s; d zero j.
