(* ===== verification/JsonEnc.v ===== *)
(** [json.Marshal]: the text of a value, with Go's escapes (quotes, control characters, the HTML
    characters, the line separators, and U+FFFD for bytes that are not UTF-8), and the proof that
    the reader of [Json] gives the value back. Objects list their members in the order Go writes
    them: a struct's fields as declared, a map's keys sorted. *)
From S2P Require Import Prelude Unicode Utf8 GoStrings GoUrl Floats Json.
Local Open Scope Z_scope.

Definition lower_hex (n : Z) : Z := if n <? 10 then 48 + n else 87 + n.
Definition u_escape (r : rune) : gostring :=
  [92; 117; lower_hex (r / 4096); lower_hex (r / 256 mod 16); lower_hex (r / 16 mod 16);
   lower_hex (r mod 16)].
Definition escape_rune (r : rune) : gostring :=
  if r =? 34 then [92; 34] else if r =? 92 then [92; 92] else if r =? 8 then [92; 98]
  else if r =? 12 then [92; 102] else if r =? 10 then [92; 110] else if r =? 13 then [92; 114]
  else if r =? 9 then [92; 116]
  else if (r <? 32) || bool_decide (r ∈ [60; 62; 38; 8232; 8233]) then u_escape r
  else EncodeRune r.
Fixpoint escape_go (fuel : nat) (s : gostring) : gostring :=
  match fuel, s with
  | S fuel, _ :: _ =>
      let '(r, w) := DecodeRune s in
      (if (r =? RuneError) && (w =? 1)%nat then u_escape RuneError else escape_rune r) ++
      escape_go fuel (drop w s)
  | _, _ => []
  end.
Definition quote (s : gostring) : gostring := 34 :: escape_go (length s) s ++ [34].
Fixpoint Marshal (j : json) : gostring :=
  match j with
  | JNull => lit "null"
  | JBool b => if b then lit "true" else lit "false"
  | JNum raw => raw
  | JStr s => quote s
  | JArr l => 91 :: Join (map Marshal l) [44] ++ [93]
  | JObj kvs => 123 :: Join (map (λ kv, quote kv.1 ++ 58 :: Marshal kv.2) kvs) [44] ++ [125]
  end.

(** What reading back gives: each byte that is not UTF-8 has become U+FFFD. *)
Definition sanitize (s : gostring) : gostring := of_runes (runes s).
Fixpoint sanitized (j : json) : json :=
  match j with
  | JStr s => JStr (sanitize s)
  | JArr l => JArr (map sanitized l)
  | JObj kvs => JObj (map (λ kv, (sanitize kv.1, sanitized kv.2)) kvs)
  | _ => j
  end.

Section Json_ind.
Variable P : json → Prop.
Hypotheses (Pnull : P JNull) (Pbool : ∀ b, P (JBool b)) (Pnum : ∀ raw, P (JNum raw))
  (Pstr : ∀ s, P (JStr s)) (Parr : ∀ l, Forall P l → P (JArr l))
  (Pobj : ∀ kvs, Forall (λ kv, P kv.2) kvs → P (JObj kvs)).
Fixpoint json_induction (j : json) : P j :=
  match j with
  | JNull => Pnull
  | JBool b => Pbool b
  | JNum raw => Pnum raw
  | JStr s => Pstr s
  | JArr l => Parr l ((fix go l : Forall P l :=
      match l with [] => Forall_nil_2 _ | x :: l => Forall_cons_2 _ _ _ (json_induction x) (go l) end) l)
  | JObj kvs => Pobj kvs ((fix go l : Forall (λ kv, P kv.2) l :=
      match l with
      | [] => Forall_nil_2 _
      | x :: l => Forall_cons_2 _ _ _ (json_induction x.2) (go l)
      end) kvs)
  end.
End Json_ind.

(** ** Strings *)
Lemma read_escaped_rune n acc r s : valid_rune r = true →
  read_string (S n) acc (escape_rune r ++ s) = read_string n (acc ++ EncodeRune r) s.
Proof.
  intros Hv. pose proof (proj1 (valid_rune_bounds r) Hv) as Hb.
  destruct (decide (r < 128)) as [Hr|Hr].
  - assert (∃ k, (k < 128)%nat ∧ r = Z.of_nat k) as (k & Hk & ->) by (exists (Z.to_nat r); lia).
    clear Hv Hb Hr. do 128 (destruct k as [|k]; [reflexivity|]). lia.
  - destruct (decide (r = 8232)) as [->|]; [reflexivity|].
    destruct (decide (r = 8233)) as [->|]; [reflexivity|].
    assert (escape_rune r = EncodeRune r) as ->.
    { unfold escape_rune. rewrite bool_decide_false
        by (rewrite !elem_of_cons, elem_of_nil; lia).
      repeat (rewrite (proj2 (Z.eqb_neq r _)) by lia). by rewrite (proj2 (Z.ltb_ge r 32)) by lia. }
    pose proof (DecodeRune_encode r s Hv) as Hd.
    assert (∃ c bs, EncodeRune r = c :: bs ∧ 128 <= c) as (c & bs & E & Hc).
    { destruct (EncodeRune_cases r Hv) as [[-> H]|[[-> H]|[[-> H]|[-> H]]]]; eexists _, _;
        (split; [reflexivity|lia]). }
    rewrite E in Hd |- *. cbn [read_string app] in *.
    rewrite (proj2 (Z.eqb_neq c 34)), (proj2 (Z.ltb_ge c 32)), (proj2 (Z.eqb_neq c 92)), Hd by lia.
    by rewrite E, (drop_app_length (c :: bs) s : drop _ (c :: bs ++ s) = s).
Qed.
Lemma read_u_escape n acc s :
  read_string (S n) acc (u_escape RuneError ++ s) = read_string n (acc ++ EncodeRune RuneError) s.
Proof. reflexivity. Qed.
Lemma read_escaped n m s acc rest : (length s <= m)%nat → (length (runes s) < n)%nat →
  read_string n acc (escape_go m s ++ 34 :: rest) = Some (acc ++ sanitize s, rest).
Proof.
  revert n m acc. induction s as [|s Hs IH] using runes_ind; intros n m acc Hm Hn.
  { destruct n as [|n]; [lia|]. destruct m; cbn; by rewrite app_nil_r. }
  pose proof (DecodeRune_width s Hs) as Hw. pose proof (DecodeRune_valid s) as Hv.
  unfold sanitize in *. rewrite runes_unfold in Hn |- * by done.
  destruct s as [|b s]; [done|]. destruct m as [|m]; [simpl in Hm; lia|].
  destruct n as [|n]; [lia|]. cbn [escape_go].
  destruct (DecodeRune (b :: s)) as [r w] eqn:E. simpl in Hw, Hv, IH, Hn.
  rewrite <- app_assoc.
  assert (∀ acc', read_string n acc' (escape_go m (drop w (b :: s)) ++ 34 :: rest) =
    Some (acc' ++ of_runes (runes (drop w (b :: s))), rest)) as IH'.
  { intros acc'. apply IH; [rewrite length_drop; simpl in *; lia|lia]. }
  destruct (_ && _) eqn:Herr.
  - apply andb_true_iff in Herr as [->%Z.eqb_eq _].
    by rewrite read_u_escape, IH', of_runes_cons, <- app_assoc.
  - by rewrite read_escaped_rune, IH', of_runes_cons, <- app_assoc.
Qed.
Lemma escape_rune_nonempty r : (1 <= length (escape_rune r))%nat.
Proof.
  unfold escape_rune. pose proof (EncodeRune_length r). repeat case_match; simpl; lia.
Qed.
Lemma length_escape_go m s : (length s <= m)%nat → (length (runes s) <= length (escape_go m s))%nat.
Proof.
  revert m. induction s as [|s Hs IH] using runes_ind; intros m Hm; [simpl; lia|].
  pose proof (DecodeRune_width s Hs) as Hw. rewrite runes_unfold by done.
  destruct s as [|b s]; [done|]. destruct m as [|m]; [simpl in Hm; lia|]. cbn [escape_go].
  destruct (DecodeRune (b :: s)) as [r w]. simpl in Hw, IH. rewrite length_app.
  assert (length (drop w (b :: s)) <= m)%nat as Hd by (rewrite length_drop; simpl in *; lia).
  specialize (IH m Hd). cbn [length fst snd]. pose proof (escape_rune_nonempty r).
  destruct (_ && _); simpl in *; lia.
Qed.
Lemma read_quoted s rest :
  ∃ body, quote s ++ rest = 34 :: body ∧
    read_string (S (length body)) [] body = Some (sanitize s, rest).
Proof.
  exists (escape_go (length s) s ++ 34 :: rest). split.
  { unfold quote. simpl. by rewrite <- app_assoc. }
  rewrite read_escaped; [done|done|]. rewrite length_app.
  pose proof (length_escape_go (length s) s). lia.
Qed.

(** ** Values *)
(** What may follow a value. *)
Definition closes (rest : gostring) : Prop :=
  match rest with [] => True | c :: _ => c ∈ [44; 93; 125] end.
Definition digits (raw : gostring) : Prop :=
  raw ≠ [] ∧ Forall (λ c, between 48 57 c = true) raw ∧ match raw with 48 :: _ :: _ => False | _ => True end.
Fixpoint plain (j : json) : Prop :=
  match j with
  | JNum raw => digits raw
  | JArr l => (fix go l := match l with [] => True | x :: l => plain x ∧ go l end) l
  | JObj kvs => (fix go l := match l with [] => True | x :: l => plain x.2 ∧ go l end) kvs
  | _ => True
  end.
Lemma read_digits_app ds rest : Forall (λ c, between 48 57 c = true) ds → closes rest →
  read_digits (ds ++ rest) = (ds, rest).
Proof.
  intros Hd Hr. induction Hd as [|c ds Hc _ IH]; simpl.
  - destruct rest as [|c rest]; [done|]. simpl in *.
    rewrite !elem_of_cons, elem_of_nil in Hr. by destruct Hr as [->|[->|[->|[]]]].
  - by rewrite Hc, IH.
Qed.
Lemma read_number_app ds rest : digits ds → closes rest →
  read_number (ds ++ rest) = Some (ds, rest).
Proof.
  intros (Hn & Hd & Hz) Hr. unfold read_number.
  destruct ds as [|c ds]; [done|]. pose proof (Forall_inv Hd) as Hc. simpl in Hc.
  assert (c ≠ 45) as H45 by (intros ->; done).
  replace (match (c :: ds) ++ rest with 45 :: s' => ([45], s') | _ => ([], (c :: ds) ++ rest) end)
    with (([] : gostring), (c :: ds) ++ rest).
  2:{ simpl. destruct c as [|p|p]; try done. do 6 (destruct p as [p|p|]; try done). }
  rewrite read_digits_app by done.
  replace (match c :: ds with [] => true | 48 :: _ :: _ => true | _ => false end) with false.
  2:{ symmetry. destruct c as [|p|p]; try done. do 6 (destruct p as [p|p|]; try done).
      by destruct ds. }
  destruct rest as [|x rest]; simpl in Hr |- *; [by rewrite app_nil_r|].
  rewrite !elem_of_cons, elem_of_nil in Hr.
  destruct Hr as [->|[->|[->|[]]]]; simpl; by rewrite app_nil_r.
Qed.

(** The text of a value starts with no space and no closing mark. *)
Lemma Marshal_head j : plain j → ∃ c s, Marshal j = c :: s ∧ json_space c = false ∧ c ∉ [44; 93; 125].
Proof.
  destruct j as [|[]|raw| | |]; simpl; intros Hp;
    try (eexists _, _; split; [reflexivity|]; split; [done|set_solver by lia]).
  destruct Hp as (Hn & Hd & _). destruct raw as [|c raw]; [done|]. exists c, raw.
  split; [done|]. pose proof (Forall_inv Hd) as Hc. simpl in Hc.
  unfold between in Hc. apply andb_true_iff in Hc as [H1 H2]. zbool.
  unfold json_space. rewrite bool_decide_eq_false, !elem_of_cons, !elem_of_nil. lia.
Qed.
Lemma skip_ws_Marshal j rest : plain j → skip_ws (Marshal j ++ rest) = Marshal j ++ rest.
Proof. intros (c & s & E & H & _)%Marshal_head. by rewrite E; simpl; rewrite H. Qed.
Local Notation joined l := (Join l [44]).
Definition reads (j : json) : Prop := ∀ fuel rest, plain j → closes rest →
  (length (Marshal j) <= fuel)%nat → read_value fuel (Marshal j ++ rest) = Some (sanitized j, rest).
Lemma read_elements_Marshal l fuel rest :
  Forall reads l → Forall plain l → l ≠ [] →
  (length (joined (map Marshal l)) < fuel)%nat →
  read_elements fuel (joined (map Marshal l) ++ 93 :: rest) = Some (map sanitized l, rest).
Proof.
  intros HR. revert fuel. induction HR as [|j l Hj HR IH]; intros fuel Hp Hn Hf; [done|].
  inv_clear Hp. destruct fuel as [|fuel]; [lia|]. cbn [read_elements map] in Hf |- *.
  destruct l as [|j' l].
  - cbn [map Join] in *. rewrite Hj; [|done|set_solver|lia]. cbn. done.
  - rewrite Join_cons in Hf |- * by done. rewrite !length_app in Hf. cbn [length] in Hf.
    rewrite <- !app_assoc. rewrite Hj; [|done|set_solver|lia]. cbn [mbind option_bind skip_ws app].
    change (json_space 44) with false. cbv iota. rewrite IH; [done|done|done|lia].
Qed.

Notation member kv := (quote kv.1 ++ 58 :: Marshal kv.2).
Notation sanitized_member := (λ kv : gostring * json, (sanitize kv.1, sanitized kv.2)).
Lemma read_members_Marshal kvs fuel rest :
  Forall (λ kv, reads kv.2) kvs → Forall (λ kv, plain kv.2) kvs → kvs ≠ [] →
  (length (joined (map (λ kv, member kv) kvs)) < fuel)%nat →
  read_members fuel (joined (map (λ kv, member kv) kvs) ++ 125 :: rest) =
  Some (map sanitized_member kvs, rest).
Proof.
  intros HR. revert fuel. induction HR as [|[k v] kvs Hj HR IH]; intros fuel Hp Hn Hf; [done|].
  inv_clear Hp. destruct fuel as [|fuel]; [lia|].
  assert (∀ tail, closes tail → (length (Marshal v) <= fuel)%nat →
    read_members (S fuel) (quote k ++ 58 :: Marshal v ++ tail) =
    match skip_ws tail with
    | 44 :: s => '(kvs, s) ← read_members fuel s; Some ((sanitize k, sanitized v) :: kvs, s)
    | 125 :: s => Some ([(sanitize k, sanitized v)], s)
    | _ => None
    end) as Hone.
  { intros tail Ht Hl. destruct (read_quoted k (58 :: Marshal v ++ tail)) as (body & -> & Hb).
    cbn [read_members skip_ws]. change (json_space 34) with false. cbv iota. rewrite Hb.
    cbn [mbind option_bind skip_ws]. change (json_space 58) with false. cbv iota.
    by rewrite Hj by done. }
  cbn [map]. destruct kvs as [|kv kvs].
  - cbn [map joined] in *. cbn [map Join fst snd] in Hf |- *.
    rewrite length_app in Hf. cbn [length] in Hf. rewrite <- app_assoc, <- app_comm_cons.
    by rewrite Hone; [|set_solver|lia].
  - cbn [map] in Hf. rewrite Join_cons in Hf |- * by done. cbn [fst snd] in Hf |- *.
    rewrite !length_app in Hf. cbn [length] in Hf.
    rewrite <- !app_assoc, <- !app_comm_cons.
    rewrite Hone; [|set_solver|lia]. cbn [skip_ws app]. change (json_space 44) with false. cbv iota.
    rewrite IH; [done|done|done|cbn [map]; lia].
Qed.

Lemma plain_arr l : plain (JArr l) ↔ Forall plain l.
Proof. induction l as [|x l IH]; [done|]. rewrite Forall_cons, <- IH. done. Qed.
Lemma plain_obj kvs : plain (JObj kvs) ↔ Forall (λ kv, plain kv.2) kvs.
Proof. induction kvs as [|x l IH]; [done|]. rewrite Forall_cons, <- IH. done. Qed.
(** A digit starts a number and nothing else. *)
Lemma read_value_digit fuel c s : between 48 57 c = true →
  read_value (S fuel) (c :: s) = '(n, r) ← read_number (c :: s); Some (JNum n, r).
Proof.
  intros Hc. unfold between in Hc. apply andb_true_iff in Hc as [H1 H2]. zbool.
  assert (∃ k, (k < 10)%nat ∧ c = 48 + Z.of_nat k) as (k & Hk & ->)
    by (exists (Z.to_nat (c - 48)); lia).
  do 10 (destruct k as [|k]; [reflexivity|]). lia.
Qed.
Lemma not_close_bracket fuel c k l rest : c ≠ 93 →
  read_elements fuel (c :: k) = Some (l, rest) →
  match c :: k with
  | 93 :: s => Some (JArr [], s)
  | s => '(l, s) ← read_elements fuel s; Some (JArr l, s)
  end = Some (JArr l, rest).
Proof.
  intros Hc He. destruct c as [|p|p]; try by rewrite He.
  do 7 (destruct p as [p|p|]; try by rewrite He). done.
Qed.
(** An object ends itself, whatever follows it. *)
Lemma reads_object kvs fuel rest : Forall (λ kv, reads kv.2) kvs → plain (JObj kvs) →
  (length (Marshal (JObj kvs)) <= S fuel)%nat →
  read_value (S fuel) (Marshal (JObj kvs) ++ rest) = Some (sanitized (JObj kvs), rest).
Proof.
  intros IH Hp Hf.
  apply plain_obj in Hp. cbn [Marshal sanitized length] in Hf |- *. rewrite length_app in Hf.
  cbn [read_value skip_ws app length] in Hf |- *. change (json_space 123) with false. cbv iota.
  destruct kvs as [|kv kvs]; [done|]. rewrite <- (app_assoc (joined _)). cbn [app].
  pose proof (read_members_Marshal (kv :: kvs) fuel rest IH Hp ltac:(done) ltac:(cbn in *; lia)) as He.
  assert (∃ k, joined (map (λ kv, member kv) (kv :: kvs)) ++ 125 :: rest = 34 :: k) as (k & Ek).
  { cbn [map]. destruct (map _ kvs); [cbn [Join]|rewrite Join_cons by done]; eexists; reflexivity. }
  rewrite Ek in He |- *. cbn [skip_ws]. change (json_space 34) with false. cbv iota. by rewrite He.
Qed.
Lemma reads_all j : reads j.
Proof.
  induction j as [|b|raw|s|l IH|kvs IH] using json_induction; intros fuel rest Hp Hr Hf;
    (destruct fuel as [|fuel]; [destruct (Marshal_head _ Hp) as (? & ? & E & _); rewrite E in Hf;
                                simpl in Hf; lia|]).
  - by destruct rest.
  - by destruct b, rest.
  - cbn [Marshal sanitized plain] in *. destruct Hp as (Hn & Hd & Hz). destruct raw as [|c raw]; [done|].
    rewrite <- app_comm_cons, read_value_digit by exact (Forall_inv Hd).
    by rewrite app_comm_cons, read_number_app.
  - cbn [Marshal sanitized]. destruct (read_quoted s rest) as (body & -> & Hb).
    cbn [read_value skip_ws]. change (json_space 34) with false. cbv iota. by rewrite Hb.
  - apply plain_arr in Hp. cbn [Marshal sanitized length] in Hf |- *. rewrite length_app in Hf.
    cbn [read_value skip_ws app length] in Hf |- *. change (json_space 91) with false. cbv iota.
    destruct l as [|j l]; [done|]. rewrite <- (app_assoc (joined _)). cbn [app].
    pose proof (read_elements_Marshal (j :: l) fuel rest IH Hp ltac:(done) ltac:(cbn in *; lia)) as He.
    assert (∃ c k, joined (map Marshal (j :: l)) ++ 93 :: rest = c :: k ∧
              json_space c = false ∧ c ≠ 93) as (c & k & Ek & Hs & Hc).
    { apply Forall_cons in Hp as [Hp _]. destruct (Marshal_head j Hp) as (c & k & Ek & Hs & Hc).
      exists c. cbn [map]. destruct (map Marshal l); [cbn [Join]|rewrite Join_cons by done];
        rewrite Ek; eexists; (split; [reflexivity|set_solver]). }
    rewrite Ek in He |- *. cbn [skip_ws]. rewrite Hs. by apply not_close_bracket.
  - by apply reads_object.
Qed.
(** Reading back what [json.Marshal] writes. *)
Lemma parse_Marshal j : plain j → parse_json (Marshal j) = Some (sanitized j).
Proof.
  intros Hp. unfold parse_json. rewrite <- (app_nil_r (Marshal j)) at 2.
  rewrite reads_all; [done|done|done|lia].
Qed.
Lemma Unmarshal_Marshal {A} (zero : A) (d : dec A) j :
  plain j → Unmarshal zero d (Marshal j) = d zero (sanitized j).
Proof. intros Hp. unfold Unmarshal. by rewrite parse_Marshal. Qed.
Lemma sanitize_valid rs : valid_runes rs → sanitize (of_runes rs) = of_runes rs.
Proof. intros. unfold sanitize. by rewrite runes_of_runes. Qed.

(** ** The bytes of a document *)
(** The text the writer produces has no control character. *)
Definition printable (s : gostring) : Prop := Forall (λ c, 32 <= c) s.
Lemma printable_app a b : printable (a ++ b) ↔ printable a ∧ printable b.
Proof. apply Forall_app. Qed.
Lemma lower_hex_printable n : 0 <= n → 32 <= lower_hex n.
Proof. unfold lower_hex. destruct (n <? 10); lia. Qed.
Lemma escape_rune_printable r : valid_rune r = true → printable (escape_rune r).
Proof.
  intros Hv. pose proof (proj1 (valid_rune_bounds r) Hv) as Hb. unfold escape_rune, printable.
  assert (printable (u_escape r)) as Hu.
  { unfold u_escape, printable. repeat (constructor; [try lia|]); [..|constructor];
      apply lower_hex_printable; lia. }
  repeat (case_match; [solve [assumption|repeat (constructor; [lia|]); constructor]|]).
  match goal with E : _ || _ = false |- _ => apply orb_false_iff in E as [Hlt _] end. zbool.
  destruct (EncodeRune_cases r Hv) as [[-> Hc]|[[-> Hc]|[[-> Hc]|[-> Hc]]]];
    repeat (constructor; [lia|]); constructor.
Qed.
Lemma quote_printable s : printable (quote s).
Proof.
  unfold quote. constructor; [lia|]. apply printable_app. split; [|by repeat constructor].
  generalize (length s) as n. intros n. revert s. induction n as [|n IH]; intros [|b s]; try constructor.
  cbn [escape_go]. pose proof (DecodeRune_valid (b :: s)) as Hv.
  destruct (DecodeRune (b :: s)) as [r w]. apply printable_app. split; [|apply IH].
  destruct (_ && _); [|by apply escape_rune_printable]. by repeat (constructor; [vm_compute; discriminate|]).
Qed.
Lemma joined_printable l : Forall printable l → printable (Join l [44]).
Proof.
  induction 1 as [|x l Hx Hl IH]; [constructor|]. destruct l; [done|].
  rewrite Join_cons by done. rewrite !printable_app. split_and!; [done|by repeat constructor|done].
Qed.
Lemma Marshal_printable j : plain j → printable (Marshal j).
Proof.
  induction j as [|b|raw|s|l IH|kvs IH] using json_induction; intros Hp.
  - by repeat constructor.
  - destruct b; by repeat constructor.
  - destruct Hp as (_ & Hd & _). eapply Forall_impl; [exact Hd|]. simpl. intros c Hc.
    unfold between in Hc. apply andb_true_iff in Hc as [H1 _]. zbool. lia.
  - apply quote_printable.
  - apply plain_arr in Hp. simpl. constructor; [lia|]. apply printable_app.
    split; [|by repeat constructor]. apply joined_printable, Forall_fmap.
    rewrite Forall_forall in IH, Hp |- *. intros x Hx. by apply IH, Hp.
  - apply plain_obj in Hp. simpl. constructor; [lia|]. apply printable_app.
    split; [|by repeat constructor]. apply joined_printable, Forall_fmap.
    rewrite Forall_forall in IH, Hp |- *. intros x Hx.
    change (printable (quote x.1 ++ 58 :: Marshal x.2)). apply printable_app.
    split; [apply quote_printable|]. constructor; [lia|]. by apply IH, Hp.
Qed.


(** ** Valid text *)
Definition utf8 (s : gostring) : Prop := ∃ rs, valid_runes rs ∧ s = of_runes rs.
Lemma utf8_sanitize s : utf8 s → sanitize s = s.
Proof. intros (rs & Hv & ->). by apply sanitize_valid. Qed.
Lemma utf8_app a b : utf8 a → utf8 b → utf8 (a ++ b).
Proof.
  intros (rs & Hr & ->) (ks & Hk & ->). exists (rs ++ ks). split; [by apply Forall_app|].
  by rewrite of_runes_app.
Qed.
Lemma utf8_ascii s : Forall (λ c, 0 <= c < 128) s → utf8 s.
Proof.
  intros Hs. exists s. induction Hs as [|c s Hc _ [Hv IH]]; [by split; [constructor|]|].
  assert (valid_rune c = true) as Hvc by (apply valid_rune_bounds; lia). split; [by constructor|].
  rewrite of_runes_cons, <- IH. destruct (EncodeRune_cases c Hvc) as [[-> _]|H]; [done|]. lia.
Qed.
Lemma utf8_escape_rune r : valid_rune r = true → utf8 (escape_rune r).
Proof.
  intros Hv. pose proof (proj1 (valid_rune_bounds r) Hv) as Hb. unfold escape_rune.
  repeat (case_match; [solve [apply utf8_ascii; repeat (constructor; [lia|]); constructor]|]).
  destruct ((r <? 32) || _) eqn:Hc; [|exists [r]; split; [by repeat constructor|by rewrite of_runes_cons, app_nil_r]].
  assert (0 <= r < 16384) as Hr.
  { apply orb_true_iff in Hc as [Hc|Hc]; [zbool; lia|].
    apply bool_decide_eq_true in Hc. rewrite !elem_of_cons, elem_of_nil in Hc. lia. }
  apply utf8_ascii. assert (∀ n, 0 <= n < 16 → 0 <= lower_hex n < 128) as Hh.
  { intros n Hn. unfold lower_hex. destruct (n <? 10); lia. }
  unfold u_escape. do 2 (constructor; [lia|]).
  repeat (constructor; [apply Hh; lia|]). constructor.
Qed.
Lemma utf8_quote s : utf8 (quote s).
Proof.
  unfold quote. change (34 :: escape_go (length s) s ++ [34]) with ([34] ++ escape_go (length s) s ++ [34]).
  apply utf8_app; [|apply utf8_app]; try (apply utf8_ascii; constructor; [lia|constructor]).
  generalize (length s) as n. intros n. revert s.
  induction n as [|n IH]; intros [|b s]; try (exists []; by split).
  cbn [escape_go]. pose proof (DecodeRune_valid (b :: s)) as Hv.
  destruct (DecodeRune (b :: s)) as [r w]. apply utf8_app; [|apply IH].
  destruct (_ && _); [|by apply utf8_escape_rune].
  apply utf8_ascii. repeat (constructor; [by vm_compute|]). constructor.
Qed.
Lemma utf8_joined l : Forall utf8 l → utf8 (Join l [44]).
Proof.
  induction 1 as [|x l Hx Hl IH]; [exists []; by split|]. destruct l; [done|].
  rewrite Join_cons by done. apply utf8_app; [done|]. apply utf8_app; [|done].
  apply utf8_ascii. by repeat constructor.
Qed.
Lemma utf8_bracketed a s b : 0 <= a < 128 → 0 <= b < 128 → utf8 s → utf8 (a :: s ++ [b]).
Proof.
  intros Ha Hb Hs. apply (utf8_app [a]); [by apply utf8_ascii; constructor|].
  apply utf8_app; [done|]. by apply utf8_ascii; constructor.
Qed.
Lemma Marshal_utf8 j : plain j → utf8 (Marshal j).
Proof.
  induction j as [|b|raw|s|l IH|kvs IH] using json_induction; intros Hp.
  - apply utf8_ascii. by repeat constructor.
  - apply utf8_ascii. destruct b; by repeat constructor.
  - destruct Hp as (_ & Hd & _). apply utf8_ascii. eapply Forall_impl; [exact Hd|]. simpl.
    intros c Hc. unfold between in Hc. apply andb_true_iff in Hc as [H1 H2]. zbool. lia.
  - apply utf8_quote.
  - apply plain_arr in Hp. apply utf8_bracketed; [lia..|]. apply utf8_joined, Forall_fmap.
    rewrite Forall_forall in IH, Hp |- *. intros x Hx. by apply IH, Hp.
  - apply plain_obj in Hp. apply utf8_bracketed; [lia..|]. apply utf8_joined, Forall_fmap.
    rewrite Forall_forall in IH, Hp |- *. intros x Hx.
    change (utf8 (quote x.1 ++ [58] ++ Marshal x.2)). apply utf8_app; [apply utf8_quote|].
    apply utf8_app; [by apply utf8_ascii; repeat constructor|]. by apply IH, Hp.
Qed.
Lemma Marshal_nonempty j : plain j → Marshal j ≠ [].
Proof. intros (c & s & -> & _)%Marshal_head. done. Qed.
