(* ===== verification/Xml.v ===== *)
(** Package encoding/xml, as far as [xml.Unmarshal] into the structures of the program needs it:
    the strict tokenizer (tags, attributes, character data with its entities, CDATA, comments,
    processing instructions and directives), the matching of tags, the element tree a decoder
    walks, and how a field takes its value from that tree. *)
From S2P Require Import Prelude Unicode Utf8 GoStrings.
Local Open Scope Z_scope.

(** The tables of the name characters outside ASCII: those that may start a name, and the others
    that may occur in one. *)
Class XmlNames := { name_first : rune → bool; name_second : rune → bool }.

(** ** Characters and names *)
Definition isInCharacterRange (r : rune) : bool :=
  (r =? 9) || (r =? 10) || (r =? 13) || between 32 55295 r || between 57344 65533 r ||
  between 65536 1114111 r.
(** A rune that [utf8.DecodeRune] finds in valid text. *)
Definition decoded (p : rune * gostring) : bool := negb ((p.1 =? RuneError) && (length p.2 =? 1)%nat).
Definition chars_ok (s : gostring) : bool :=
  forallb (λ p, decoded p && isInCharacterRange p.1) (pieces s).
Definition is_letter (c : Z) : bool := between 65 90 c || between 97 122 c.
Definition isNameByte (c : Z) : bool :=
  is_letter c || between 48 57 c || bool_decide (c ∈ [95; 58; 46; 45]).
(** A byte that ends neither a name nor, being of several bytes, what may be in one. *)
Definition name_byte (c : Z) : bool := (128 <=? c) || isNameByte c.
Definition xml_space (c : Z) : bool := bool_decide (c ∈ [32; 13; 10; 9]).
Fixpoint space (s : gostring) : gostring :=
  match s with c :: s' => if xml_space c then space s' else s | [] => [] end.
Fixpoint span_name (s : gostring) : gostring * gostring :=
  match s with
  | c :: s' => if name_byte c then let '(n, r) := span_name s' in (c :: n, r) else ([], s)
  | [] => ([], [])
  end.

(** ** Entities: what follows an ampersand gives its text and how many bytes it takes *)
Definition digit_value (base c : Z) : option Z :=
  if between 48 57 c then Some (c - 48)
  else if (base =? 16) && between 97 102 c then Some (c - 87)
  else if (base =? 16) && between 65 70 c then Some (c - 55)
  else None.
Fixpoint read_digits (base : Z) (s : gostring) : list Z * gostring :=
  match s with
  | c :: s' => match digit_value base c with
               | Some d => let '(ds, r) := read_digits base s' in (d :: ds, r)
               | None => ([], s)
               end
  | [] => ([], [])
  end.
Definition char_ref (base : Z) (s : gostring) : option (gostring * nat) :=
  match read_digits base s with
  | (d :: ds, 59 :: _) =>
      let n := foldl (λ acc d, acc * base + d) 0 (d :: ds) in
      if n <=? 1114111 then Some (EncodeRune n, S (length (d :: ds))) else None
  | _ => None
  end.
Definition entity (name : gostring) : option Z :=
  if decide (name = lit "lt") then Some 60 else if decide (name = lit "gt") then Some 62
  else if decide (name = lit "amp") then Some 38 else if decide (name = lit "apos") then Some 39
  else if decide (name = lit "quot") then Some 34 else None.
Definition read_entity (s : gostring) : option (gostring * nat) :=
  match s with
  | 35 :: 120 :: s => prod_map id (λ n, S (S n)) <$> char_ref 16 s
  | 35 :: s => prod_map id S <$> char_ref 10 s
  | _ =>
      match span_name s with
      | (name, 59 :: _) => c ← entity name; Some ([c], S (length name))
      | _ => None
      end
  end.

(** ** Text *)
(** Where a text ends: at a tag, at a quote, or at the end of its CDATA section. *)
Inductive text_mode := CData | Quoted (q : Z) | Plain.
(** [text]: [b0] and [b1] are the two bytes before, [skip] the bytes of an entity still to skip. *)
Fixpoint text_loop (mode : text_mode) (skip : nat) (b0 b1 : Z) (s : gostring)
    : option (gostring * gostring) :=
  let add bs := fmap (M := option) (λ p : gostring * gostring, (bs ++ p.1, p.2)) in
  match s with
  | [] => match mode with CData => None | _ => Some ([], []) end
  | b :: s' =>
      match skip with
      | S skip => text_loop mode skip b0 b1 s'
      | O =>
          let quoted := match mode with Quoted _ => true | _ => false end in
          let cdata := match mode with CData => true | _ => false end in
          if negb quoted && (b0 =? 93) && (b1 =? 93) && (b =? 62) then
            if cdata then Some ([], s') else None
          else if (b =? 60) && negb cdata then
            if quoted then None else Some ([], s)
          else if match mode with Quoted q => b =? q | _ => false end then Some ([], s')
          else if (b =? 38) && negb cdata then
            match read_entity s' with
            | Some (txt, n) => add txt (text_loop mode n 0 0 s')
            | None => None
            end
          else
            add (if b =? 13 then [10] else if (b1 =? 13) && (b =? 10) then [] else [b])
                (text_loop mode 0 b1 b s')
      end
  end.
Definition text (mode : text_mode) (s : gostring) : option (gostring * gostring) :=
  '(data, rest) ← text_loop mode 0 0 0 s;
  let data := match mode with CData => take (length data - 2) data | _ => data end in
  if chars_ok data then Some (data, rest) else None.

(** ** Names *)
Definition xname : Type := gostring * gostring.        (* prefix, local name *)
Section Xml.
Context `{XmlNames}.
Definition first_char (r : rune) : bool :=
  if r <? 128 then is_letter r || bool_decide (r ∈ [58; 95]) else name_first r.
Definition second_char (r : rune) : bool :=
  if r <? 128 then between 48 57 r || bool_decide (r ∈ [45; 46]) else name_second r.
Definition isName (s : gostring) : bool :=
  match pieces s with
  | [] => false
  | p :: ps => decoded p && first_char p.1 &&
               forallb (λ p, decoded p && (first_char p.1 || second_char p.1)) ps
  end.
(** [name]: a name is not the last thing in the input. *)
Definition name (s : gostring) : option (gostring * gostring) :=
  match span_name s with
  | (n, (_ :: _) as rest) => if isName n then Some (n, rest) else None
  | _ => None
  end.
Definition nsname (s : gostring) : option (xname * gostring) :=
  '(n, rest) ← name s;
  match filter (λ c, c = 58) n with
  | _ :: _ :: _ => None
  | _ =>
      let '(space, local, found) := Cut n [58] in
      Some (if (found : bool) && negb (bool_decide (space = [])) && negb (bool_decide (local = []))
            then (space, local) else ([], n), rest)
  end.

(** ** Markup *)
Definition attr : Type := xname * gostring.
Definition read_attr (s : gostring) : option (attr * gostring) :=
  '(n, s) ← nsname s;
  match space s with
  | c :: s =>
      if c =? 61 then
        match space s with
        | q :: s => if (q =? 34) || (q =? 39) then '(v, s) ← text (Quoted q) s; Some ((n, v), s)
                    else None
        | [] => None
        end
      else None
  | [] => None
  end.
(** The attributes of a tag up to its end, and whether the element is empty. *)
Fixpoint read_attrs (fuel : nat) (s : gostring) : option (list attr * bool * gostring) :=
  match fuel with
  | O => None
  | S fuel =>
      match space s with
      | c :: s1 =>
          if c =? 47 then
            match s1 with d :: s => if d =? 62 then Some ([], true, s) else None | [] => None end
          else if c =? 62 then Some ([], false, s1)
          else '(a, s) ← read_attr (c :: s1); '(l, e, s) ← read_attrs fuel s; Some (a :: l, e, s)
      | [] => None
      end
  end.
(** The rest of a comment after its opening. *)
Fixpoint comment (b0 b1 : Z) (s : gostring) : option gostring :=
  match s with
  | [] => None
  | b :: s => if (b0 =? 45) && (b1 =? 45) then (if b =? 62 then Some s else None)
              else comment b1 b s
  end.
(** The data of a processing instruction up to the question mark that ends it. *)
Fixpoint procinst (b0 : Z) (s : gostring) : option (gostring * gostring) :=
  match s with
  | [] => None
  | b :: s => if (b0 =? 63) && (b =? 62) then Some ([], s)
              else prod_map (cons b) id <$> procinst b s
  end.
(** [procInst]: a pseudo-attribute of the XML declaration. *)
Fixpoint procInst (fuel : nat) (param s : gostring) : gostring :=
  match fuel with
  | O => []
  | S fuel =>
      match find_sub s param with
      | Some k =>
          match drop (k + length param) s with
          | c :: s => if (c =? 34) || (c =? 39)
                      then match find_sub s [c] with Some j => take j s | None => [] end
                      else procInst fuel param s
          | [] => []
          end
      | None => []
      end
  end.
Definition declaration_ok (content : gostring) : bool :=
  let get p := procInst (S (length content)) p content in
  let ver := get (lit "version=") in
  let enc := get (lit "encoding=") in
  bool_decide (ver = [] ∨ ver = lit "1.0") &&
  bool_decide (enc = [] ∨ StringsToLower enc = lit "utf-8").
(** A directive: nested angle brackets, quotes and comments. [chk] is false for a byte that was
    already looked at; [com] is the state inside a comment. *)
Fixpoint directive (chk : bool) (inquote depth : Z) (com : option (Z * Z)) (s : gostring)
    : option gostring :=
  match s with
  | [] => None
  | b :: s =>
      match com with
      | Some (b0, b1) =>
          directive true inquote depth
            (if (b0 =? 45) && (b1 =? 45) && (b =? 62) then None else Some (b1, b)) s
      | None =>
          if chk && (inquote =? 0) && (b =? 62) && (depth =? 0) then Some s
          else if b =? inquote then directive true 0 depth None s
          else if negb (inquote =? 0) then directive true inquote depth None s
          else if (b =? 39) || (b =? 34) then directive true b depth None s
          else if b =? 62 then directive true 0 (depth - 1) None s
          else if b =? 60 then
            match s with
            | 33 :: 45 :: 45 :: s => directive true 0 depth (Some (0, 0)) s
            | 33 :: 45 :: ((_ :: _) as s) => directive false 0 (depth + 1) None s
            | 33 :: s => directive false 0 (depth + 1) None s
            | s => directive false 0 (depth + 1) None s
            end
          else directive true 0 depth None s
      end
  end.

(** ** Tokens *)
Inductive token := TStart (n : xname) (attrs : list attr) (empty : bool) | TEnd (n : xname)
                 | TText (s : gostring) | TOther.
(** After [</], [<?], [<!] and [<]. *)
Definition end_tag (s : gostring) : option (token * gostring) :=
  '(n, s) ← nsname s;
  match space s with c :: s => if c =? 62 then Some (TEnd n, s) else None | [] => None end.
Definition instruction (s : gostring) : option (token * gostring) :=
  '(target, s) ← name s;
  '(data, s) ← procinst 0 (space s);
  let content := take (length data - 1) data in
  if decide (target = lit "xml") then if declaration_ok content then Some (TOther, s) else None
  else Some (TOther, s).
Definition bang (s : gostring) : option (token * gostring) :=
  match s with
  | [] => None
  | b :: s =>
      if b =? 45 then
        match s with
        | c :: s => if c =? 45 then s ← comment 0 0 s; Some (TOther, s) else None
        | [] => None
        end
      else if b =? 91 then
        s ← CutPrefix s (lit "CDATA["); '(t, s) ← text CData s; Some (TText t, s)
      else s ← directive true 0 0 None s; Some (TOther, s)
  end.
Definition start_tag (s : gostring) : option (token * gostring) :=
  '(n, s) ← nsname s;
  '(l, e, s) ← read_attrs (S (length s)) s;
  Some (TStart n l e, s).
Definition rawToken (s : gostring) : option (token * gostring) :=
  match s with
  | [] => None
  | c :: s' =>
      if c =? 60 then
        match s' with
        | [] => None
        | b :: s2 => if b =? 47 then end_tag s2 else if b =? 63 then instruction s2
                     else if b =? 33 then bang s2 else start_tag s'
        end
      else '(t, s) ← text Plain s; Some (TText t, s)
  end.

(** ** The tree of an element *)
Inductive node := Elem (n : xname) (attrs : list attr) (children : list node) | Text (s : gostring).
(** The content of an open element up to its end tag, which has its name. *)
Fixpoint content (fuel : nat) (open : xname) (s : gostring) : option (list node * gostring) :=
  match fuel with
  | O => None
  | S fuel =>
      '(t, s) ← rawToken s;
      match t with
      | TEnd n => if decide (n = open) then Some ([], s) else None
      | TStart n l true => prod_map (cons (Elem n l [])) id <$> content fuel open s
      | TStart n l false => '(kids, s) ← content fuel n s;
                            prod_map (cons (Elem n l kids)) id <$> content fuel open s
      | TText t => prod_map (cons (Text t)) id <$> content fuel open s
      | TOther => content fuel open s
      end
  end.
(** The first element of a document; what follows it is not read. *)
Fixpoint document (fuel : nat) (s : gostring) : option node :=
  match fuel with
  | O => None
  | S fuel =>
      '(t, s) ← rawToken s;
      match t with
      | TStart n l true => Some (Elem n l [])
      | TStart n l false => '(kids, _) ← content fuel n s; Some (Elem n l kids)
      | TEnd _ => None
      | _ => document fuel s
      end
  end.
Definition parse_xml (s : gostring) : option node := document (S (length s)) s.

(** ** Fields: an element's own text, its children of a name, the last value that was set *)
Definition texts (ns : list node) : gostring := ns ≫= λ n, match n with Text t => t | _ => [] end.
Definition local_name (n : node) : option gostring :=
  match n with Elem (_, l) _ _ => Some l | Text _ => None end.
Definition kids (n : node) : list node := match n with Elem _ _ ks => ks | Text _ => [] end.
Definition named (l : gostring) (ns : list node) : list node := filter (λ n, local_name n = Some l) ns.
(** A slice of structures or of strings: one element per child. *)
Definition children_of (l : gostring) (n : node) : list node := named l (kids n).
Definition below (l : gostring) (ns : list node) : list node := ns ≫= children_of l.
Definition inner_text (n : node) : gostring := texts (kids n).
(** A string field. *)
Definition string_field (l : gostring) (n : node) : gostring := from_option inner_text [] (last (children_of l n)).
(** An integer attribute, from the value already there; [None] is an error. *)
Definition int_attr (l : gostring) (prev : Z) (n : node) : option Z :=
  match n with
  | Elem _ attrs _ =>
      foldl (λ acc a, p ← acc;
               if decide (a.1.2 = l) then
                 if decide (a.2 = []) then Some 0 else Atoi (TrimSpace a.2)
               else Some p) (Some prev) attrs
  | Text _ => Some prev
  end.
(** [xml.Unmarshal]: [None] is an error. *)
Definition xml_Unmarshal {A} (dec : node → option A) (data : gostring) : option A :=
  parse_xml data ≫= dec.
End Xml.
