(* ===== verification/XmlSpec.v ===== *)
(** The properties of the XML reader ([Xml]): it uses its fuel for nothing but termination, and it
    reads back every tree that is written. *)
From S2P Require Import Prelude Unicode Utf8 GoStrings GoUrl Xml.
Local Open Scope Z_scope.

(** ** Every token takes part of the input *)
Lemma space_length s : (length (space s) <= length s)%nat.
Proof. induction s as [|c s IH]; simpl; [done|]. destruct (xml_space c); simpl; lia. Qed.
Lemma span_name_app s : (span_name s).1 ++ (span_name s).2 = s.
Proof.
  induction s as [|c s IH]; [done|]. simpl. destruct (name_byte c); [|done].
  destruct (span_name s). simpl in *. by rewrite IH.
Qed.
Lemma text_loop_length mode k b0 b1 s d rest :
  text_loop mode k b0 b1 s = Some (d, rest) → (length rest <= length s)%nat.
Proof.
  revert k b0 b1 d rest. induction s as [|b s IH]; intros k b0 b1 d rest; simpl.
  { destruct mode; intros [= <- <-]; done. }
  destruct k as [|k]; [|intros Hk%IH; lia].
  assert (∀ (bs : gostring) k b0 b1,
    (λ p : gostring * gostring, (bs ++ p.1, p.2)) <$> text_loop mode k b0 b1 s = Some (d, rest) →
    (length rest <= length s)%nat) as Hadd.
  { intros bs k c0 c1. destruct (text_loop mode k c0 c1 s) as [[d' r']|] eqn:E; [|done].
    simpl. intros [= <- <-]. by eapply IH. }
  repeat case_match; intros Hx; simplify_eq; simpl; try lia;
    (eapply Nat.le_trans; [by eapply Hadd|lia]).
Qed.
Lemma text_length mode s d rest : text mode s = Some (d, rest) → (length rest <= length s)%nat.
Proof.
  unfold text. destruct (text_loop mode 0 0 0 s) as [[d' r']|] eqn:E; [|done]. simpl.
  destruct (chars_ok _); intros [= _ <-]. by eapply text_loop_length.
Qed.
Lemma plain_shorter b s d rest :
  b ≠ 60 → text Plain (b :: s) = Some (d, rest) → (length rest <= length s)%nat.
Proof.
  intros Hb. unfold text. destruct (text_loop Plain 0 0 0 (b :: s)) as [[d' r']|] eqn:E; [|done]. simpl.
  destruct (chars_ok _); intros [= _ <-]. revert E. simpl. rewrite (proj2 (Z.eqb_neq b 60) Hb). simpl.
  destruct ((b =? 38) && true).
  - destruct (read_entity s) as [[txt n]|]; [|done].
    destruct (text_loop Plain n 0 0 s) as [[d2 r2]|] eqn:E; [|done]. intros [= <- <-]. by eapply text_loop_length.
  - destruct (text_loop Plain 0 0 b s) as [[d2 r2]|] eqn:E; [|done]. intros [= <- <-]. by eapply text_loop_length.
Qed.
Section Shorter.
Context `{XmlNames}.
Lemma name_shorter s n rest : name s = Some (n, rest) → (length rest < length s)%nat.
Proof.
  unfold name. pose proof (span_name_app s) as Ha. destruct (span_name s) as [n' [|c r]]; [done|].
  simpl in Ha. destruct n' as [|x n']; [done|]. destruct (isName _); [|done]. intros [= <- <-].
  rewrite <- Ha. simpl. rewrite length_app. simpl. lia.
Qed.
Lemma nsname_shorter s n rest : nsname s = Some (n, rest) → (length rest < length s)%nat.
Proof.
  unfold nsname. destruct (name s) as [[n' r]|] eqn:E; [|done]. apply name_shorter in E. simpl.
  destruct (Cut n' [58]) as [[a b] f]. repeat case_match; intros; by simplify_eq.
Qed.
Lemma read_attr_shorter s a rest : read_attr s = Some (a, rest) → (length rest < length s)%nat.
Proof.
  unfold read_attr. destruct (nsname s) as [[n r]|] eqn:E; [|done]. apply nsname_shorter in E. simpl.
  pose proof (space_length r) as Hs. destruct (space r) as [|c1 r1]; [done|].
  destruct (c1 =? 61); [|done]. pose proof (space_length r1) as Hs1. destruct (space r1) as [|q r2]; [done|].
  destruct (_ || _); [|done]. destruct (text (Quoted q) r2) as [[v r3]|] eqn:Et; [|done].
  simpl. intros [= <- <-]. apply text_length in Et. simpl in *. lia.
Qed.
Lemma read_attrs_length f s l e rest : read_attrs f s = Some (l, e, rest) → (length rest < length s)%nat.
Proof.
  revert s l e rest. induction f as [|f IH]; intros s l e rest; [done|]. simpl.
  pose proof (space_length s) as Hs. destruct (space s) as [|c s1]; [done|]. simpl in Hs.
  destruct (c =? 47); [|destruct (c =? 62); [intros [= _ _ <-]; lia|]].
  - destruct s1 as [|d s2]; [done|]. destruct (d =? 62); [|done]. intros [= _ _ <-]. simpl in *. lia.
  - destruct (read_attr (c :: s1)) as [[a s2]|] eqn:Ea; [|done]. apply read_attr_shorter in Ea. simpl.
    destruct (read_attrs f s2) as [[[l' e'] s3]|] eqn:El; [|done]. apply IH in El. simpl.
    intros [= _ _ <-]. simpl in *. lia.
Qed.
(** A tag has at most as many attributes as bytes. *)
Lemma read_attrs_fuel f g s :
  (length s < f)%nat → (length s < g)%nat → read_attrs f s = read_attrs g s.
Proof.
  revert g s. induction f as [|f IH]; intros [|g] s Hf Hg; try lia. simpl.
  pose proof (space_length s) as Hs. destruct (space s) as [|c s1]; [done|].
  destruct (c =? 47); [done|]. destruct (c =? 62); [done|].
  destruct (read_attr (c :: s1)) as [[a s2]|] eqn:Ea; [|done]. apply read_attr_shorter in Ea. simpl.
  rewrite (IH g s2); [done|simpl in *; lia..].
Qed.
Lemma comment_length b0 b1 s rest : comment b0 b1 s = Some rest → (length rest <= length s)%nat.
Proof.
  revert b0 b1. induction s as [|b s IH]; intros b0 b1; [done|]. simpl.
  destruct (_ && _); [destruct (b =? 62); [intros [= <-]; lia|done]|]. intros Hr%IH. lia.
Qed.
Lemma procinst_length b0 s d rest : procinst b0 s = Some (d, rest) → (length rest <= length s)%nat.
Proof.
  revert b0 d. induction s as [|b s IH]; intros b0 d; [done|]. simpl.
  destruct (_ && _); [intros [= _ <-]; lia|]. destruct (procinst b s) as [[d' r]|] eqn:E; [|done].
  simpl. intros [= _ <-]. apply IH in E. lia.
Qed.
Lemma directive_length f s rest : ∀ chk q d c, (length s <= f)%nat →
  directive chk q d c s = Some rest → (length rest <= length s)%nat.
Proof.
  revert s. induction f as [|f IH]; intros s chk q d c Hf; [destruct s; [done|simpl in *; lia]|].
  destruct s as [|b s]; [done|]. simpl in *.
  assert (∀ chk q d c s', (length s' <= length s)%nat → directive chk q d c s' = Some rest →
            (length rest <= S (length s))%nat) as Hrec.
  { intros chk' q' d' c' s' Hs' Hd. apply IH in Hd; lia. }
  destruct c as [[b0 b1]|]; [by apply Hrec|].
  destruct (_ && _); [intros [= <-]; lia|].
  repeat (match goal with |- (if ?x then _ else _) = _ → _ => destruct x end; try (apply Hrec; simpl; lia)).
  repeat (case_match; simplify_eq; try done; try (apply Hrec; simpl; lia)).
Qed.
Lemma CutPrefix_length s p r : CutPrefix s p = Some r → (length r <= length s)%nat.
Proof. unfold CutPrefix. destruct (HasPrefix s p); [|done]. intros [= <-]. rewrite length_drop. lia. Qed.
Lemma rawToken_shorter s t rest : rawToken s = Some (t, rest) → (length rest < length s)%nat.
Proof.
  destruct s as [|c s]; [done|]. simpl. destruct (Z.eqb_spec c 60) as [|Hc].
  2: { destruct (text Plain (c :: s)) as [[d r]|] eqn:E; [|done]. simpl. intros [= _ <-].
       apply plain_shorter in E; [lia|done]. }
  destruct s as [|b s]; [done|].
  destruct (b =? 47); [|destruct (b =? 63); [|destruct (b =? 33)]].
  - unfold end_tag. destruct (nsname s) as [[n r]|] eqn:E; [|done]. apply nsname_shorter in E. simpl.
    pose proof (space_length r) as Hs. destruct (space r) as [|d r']; [done|].
    destruct (d =? 62); [|done]. intros [= _ <-]. simpl in *. lia.
  - unfold instruction. destruct (name s) as [[n r]|] eqn:E; [|done]. apply name_shorter in E. simpl.
    destruct (procinst 0 (space r)) as [[d r']|] eqn:Ep; [|done]. apply procinst_length in Ep. simpl.
    pose proof (space_length r). repeat case_match; intros; simplify_eq; simpl; lia.
  - unfold bang. destruct s as [|d s]; [done|]. destruct (d =? 45); [|destruct (d =? 91)].
    + destruct s as [|e' s]; [done|]. destruct (e' =? 45); [|done].
      destruct (comment 0 0 s) as [r|] eqn:E; [|done]. apply comment_length in E. intros [= _ <-]. simpl. lia.
    + destruct (CutPrefix s _) as [r|] eqn:E; [|done]. apply CutPrefix_length in E. simpl.
      destruct (text CData r) as [[t' r']|] eqn:Et; [|done]. apply text_length in Et. intros [= _ <-]. simpl. lia.
    + destruct (directive _ _ _ _ s) as [r|] eqn:E; [|done]. apply directive_length with (f := length s) in E; [|done].
      intros [= _ <-]. simpl. lia.
  - unfold start_tag. destruct (nsname (b :: s)) as [[n r]|] eqn:E; [|done]. apply nsname_shorter in E. cbn [mbind option_bind].
    destruct (read_attrs (S (length r)) r) as [[[al em] r']|] eqn:El; [|done]. apply read_attrs_length in El.
    intros [= _ <-]. simpl in *. lia.
Qed.

(** ** The fuel of the reader is enough *)
Lemma content_length f open s l rest : content f open s = Some (l, rest) → (length rest < length s)%nat.
Proof.
  revert open s l rest. induction f as [|f IH]; intros open s l rest; [done|]. simpl.
  destruct (rawToken s) as [[t s1]|] eqn:E; [|done]. apply rawToken_shorter in E. simpl.
  assert (∀ (g : list node → list node) open s', (length s' <= length s1)%nat →
    prod_map g id <$> content f open s' = Some (l, rest) → (length rest < length s)%nat) as Hrec.
  { intros g o s' Hs'. destruct (content f o s') as [[l' r']|] eqn:Ec; [|done]. apply IH in Ec.
    intros [= _ <-]. simpl. lia. }
  destruct t as [n a e|n|t|].
  - destruct e; [by apply Hrec|]. destruct (content f n s1) as [[ks s2]|] eqn:Ec; [|done]. simpl.
    apply IH in Ec. apply Hrec. lia.
  - case_decide; [|done]. intros [= _ <-]. lia.
  - by apply Hrec.
  - intros Ec%IH. lia.
Qed.
Lemma content_fuel f g open s :
  (length s < f)%nat → (length s < g)%nat → content f open s = content g open s.
Proof.
  revert g open s. induction f as [|f IH]; intros [|g] open s Hf Hg; try lia. simpl.
  destruct (rawToken s) as [[t s1]|] eqn:E; [|done]. apply rawToken_shorter in E. simpl.
  destruct t as [n a e|n|t|]; [|done|by rewrite (IH g) by lia|apply IH; lia].
  destruct e; [by rewrite (IH g) by lia|]. rewrite (IH g) by lia.
  destruct (content g n s1) as [[ks s2]|] eqn:Ec; [|done]. simpl. apply content_length in Ec.
  by rewrite (IH g) by lia.
Qed.
Lemma document_fuel f g s :
  (length s < f)%nat → (length s < g)%nat → document f s = document g s.
Proof.
  revert g s. induction f as [|f IH]; intros [|g] s Hf Hg; try lia. simpl.
  destruct (rawToken s) as [[t s1]|] eqn:E; [|done]. apply rawToken_shorter in E. simpl.
  destruct t as [n a e|n|t|]; [|done|apply IH; lia..].
  destruct e; [done|]. by rewrite (content_fuel f g) by lia.
Qed.
End Shorter.

(** ** Writing a tree *)
(** [xml.EscapeText] on text of the character range. *)
Definition escape_char (c : Z) : gostring :=
  if c =? 34 then lit "&#34;" else if c =? 39 then lit "&#39;" else if c =? 38 then lit "&amp;"
  else if c =? 60 then lit "&lt;" else if c =? 62 then lit "&gt;" else if c =? 9 then lit "&#x9;"
  else if c =? 10 then lit "&#xA;" else if c =? 13 then lit "&#xD;" else [c].
Definition EscapeText (s : gostring) : gostring := s ≫= escape_char.
Definition print_attr (a : attr) : gostring := 32 :: a.1.2 ++ 61 :: 34 :: EscapeText a.2 ++ [34].
Definition close_tag (n : xname) : gostring := 60 :: 47 :: n.2 ++ [62].
Fixpoint print_node (n : node) : gostring :=
  match n with
  | Text t => EscapeText t
  | Elem n l ks => 60 :: n.2 ++ (l ≫= print_attr) ++ 62 :: (ks ≫= print_node) ++ close_tag n
  end.
Definition print_nodes (ks : list node) : gostring := ks ≫= print_node.
Definition declaration : gostring :=
  lit "<?xml version=" ++ [34] ++ lit "1.0" ++ [34] ++ lit " encoding=" ++ [34] ++ lit "UTF-8" ++ [34] ++ lit "?>".
Definition print_document (t : node) (after : gostring) : gostring :=
  declaration ++ 10 :: print_node t ++ after.

Section RoundTrip.
Context `{XmlNames}.
(** A name without prefix, and the trees a document can have: texts are not empty, and no two are
    next to each other. *)
Definition name_ok (n : xname) : bool :=
  bool_decide (n.1 = []) && isName n.2 && bool_decide (Forall (λ c, name_byte c = true) n.2) && bool_decide (58 ∉ n.2).
Definition attr_ok (a : attr) : bool := name_ok a.1 && chars_ok a.2.
Definition starts_with_text (ks : list node) : bool := match ks with Text _ :: _ => true | _ => false end.
Inductive wf_nodes : list node → Prop :=
| wf_nil : wf_nodes []
| wf_text t ks : t ≠ [] → chars_ok t = true → starts_with_text ks = false → wf_nodes ks →
    wf_nodes (Text t :: ks)
| wf_elem n l kids ks : name_ok n = true → forallb attr_ok l = true → wf_nodes kids → wf_nodes ks →
    wf_nodes (Elem n l kids :: ks).

Lemma text_loop_skip mode k b0 b1 s : text_loop mode k b0 b1 s = text_loop mode 0 b0 b1 (drop k s).
Proof. revert k. induction s as [|b s IH]; intros [|k]; try done. simpl. apply IH. Qed.
(** A mode that ends a text at [stop], leaving [rest]. *)
Definition stops (mode : text_mode) (stop : Z) (s rest : gostring) : Prop :=
  match mode with
  | CData => False
  | Plain => stop = 60 ∧ rest = stop :: s
  | Quoted q => q = 34 ∧ stop = 34 ∧ rest = s
  end.
Lemma text_loop_stop mode stop s rest b0 b1 :
  stops mode stop s rest → text_loop mode 0 b0 b1 (stop :: s) = Some ([], rest).
Proof.
  destruct mode; simpl; [done|intros (-> & -> & ->)|intros [-> ->]]; simpl; [done|].
  by destruct (b0 =? 93), (b1 =? 93).
Qed.
Lemma text_loop_entity mode b0 b1 e txt s :
  mode ≠ CData → (∀ s, read_entity (e ++ s) = Some (txt, length e)) →
  (match mode with Quoted q => q = 34 | _ => True end) →
  text_loop mode 0 b0 b1 (38 :: e ++ s) =
  (λ p : gostring * gostring, (txt ++ p.1, p.2)) <$> text_loop mode 0 0 0 s.
Proof.
  intros Hm He Hq. simpl. rewrite !andb_false_r. rewrite He, text_loop_skip, drop_app_length.
  by destruct mode; subst.
Qed.
Lemma text_loop_escape mode stop t s rest b0 b1 :
  stops mode stop s rest →
  text_loop mode 0 b0 b1 (EscapeText t ++ stop :: s) = Some (t, rest).
Proof.
  intros Hstop. revert b0 b1. induction t as [|c t IH]; intros b0 b1; [by apply text_loop_stop|].
  change (EscapeText (c :: t)) with (escape_char c ++ EscapeText t). rewrite <- (assoc_L (++)).
  assert (∀ e txt, (∀ s, read_entity (e ++ s) = Some (txt, length e)) →
    text_loop mode 0 b0 b1 ((38 :: e) ++ EscapeText t ++ stop :: s) = Some (txt ++ t, rest)) as Hent.
  { intros e txt He. cbn [app]. rewrite (text_loop_entity _ _ _ _ txt); [by rewrite IH| |done|].
    - by destruct mode.
    - by destruct mode; simpl in *; intuition. }
  unfold escape_char.
  repeat match goal with |- context [if c =? ?k then _ else _] =>
    destruct (Z.eqb_spec c k) as [->|?];
      [apply (Hent (tail (escape_char k)) [k]); intros; reflexivity|] end.
  cbn [app text_loop]. rewrite (proj2 (Z.eqb_neq c 62)), !andb_false_r by done.
  rewrite (proj2 (Z.eqb_neq c 60)), (proj2 (Z.eqb_neq c 38)), (proj2 (Z.eqb_neq c 13)), (proj2 (Z.eqb_neq c 10)) by done.
  rewrite andb_false_r. cbn [andb].
  assert (match mode with Quoted q => c =? q | _ => false end = false) as ->.
  { destruct mode; simpl in *; try done. apply Z.eqb_neq. intuition congruence. }
  by rewrite IH.
Qed.
Lemma text_escape mode stop t s rest :
  stops mode stop s rest → chars_ok t = true → text mode (EscapeText t ++ stop :: s) = Some (t, rest).
Proof.
  intros Hs Ht. unfold text. rewrite (text_loop_escape _ _ _ _ rest) by done. simpl.
  destruct mode; [by destruct Hs|by rewrite Ht..].
Qed.

Lemma name_ok_inv n : name_ok n = true →
  n = ([], n.2) ∧ isName n.2 = true ∧ Forall (λ c, name_byte c = true) n.2 ∧ 58 ∉ n.2 ∧
  ∃ c r, n.2 = c :: r ∧ name_byte c = true.
Proof.
  unfold name_ok. rewrite !andb_true_iff, !bool_decide_eq_true. intros [[[H1 H2] H3] H4].
  destruct n as [p l]; simpl in *. subst.
  split_and!; try done. destruct l as [|c r]; [done|]. exists c, r. by apply Forall_inv in H3.
Qed.
Lemma span_name_stop n c r :
  Forall (λ c, name_byte c = true) n → name_byte c = false → span_name (n ++ c :: r) = (n, c :: r).
Proof. intros Hn Hc. induction Hn as [|x n Hx _ IH]; simpl; [by rewrite Hc|]. by rewrite Hx, IH. Qed.
Lemma nsname_print n c r :
  name_ok n = true → name_byte c = false → nsname (n.2 ++ c :: r) = Some (n, c :: r).
Proof.
  intros (Hn & Hi & Hf & Hc & _)%name_ok_inv Hb. unfold nsname, name. rewrite span_name_stop, Hi by done.
  simpl. assert (filter (λ c, c = 58) n.2 = []) as ->.
  { clear -Hc. induction n.2 as [|x l IH]; [done|]. rewrite filter_cons_False by set_solver. apply IH. set_solver. }
  rewrite Cut_no_byte by done. simpl. by rewrite <- Hn.
Qed.
Lemma name_byte_space c : name_byte c = true → xml_space c = false ∧ c ≠ 47 ∧ c ≠ 62 ∧ c ≠ 63 ∧ c ≠ 33.
Proof.
  intros Hc. split_and!; [|by intros ->..]. unfold xml_space. apply bool_decide_false.
  intros Hin. rewrite !elem_of_cons, elem_of_nil in Hin. by destruct Hin as [->|[->|[->|[->|[]]]]].
Qed.
Lemma space_name n s : name_ok n = true → space (n.2 ++ s) = n.2 ++ s.
Proof.
  intros (_ & _ & _ & _ & c & r & -> & Hc)%name_ok_inv. simpl.
  by rewrite (proj1 (name_byte_space c Hc)).
Qed.
Lemma read_attr_print a s : attr_ok a = true →
  read_attr (a.1.2 ++ 61 :: 34 :: EscapeText a.2 ++ 34 :: s) = Some (a, s).
Proof.
  intros [Hn Hv]%andb_true_iff. unfold read_attr. rewrite nsname_print by done. simpl.
  rewrite (text_escape _ 34 _ s s) by done. simpl. by destruct a.
Qed.
Lemma read_attrs_print f l s :
  forallb attr_ok l = true → (length l < f)%nat →
  read_attrs f ((l ≫= print_attr) ++ 62 :: s) = Some (l, false, s).
Proof.
  revert f. induction l as [|a l IH]; intros [|f] Hl Hf; simpl in Hf; try lia; [done|].
  apply andb_true_iff in Hl as [Ha Hl]. rewrite bind_cons. unfold print_attr at 1.
  cbn [app read_attrs space]. change (xml_space 32) with true. cbv iota.
  rewrite <- !(assoc_L (++)), space_name by (by apply andb_true_iff in Ha as []).
  pose proof (andb_prop _ _ Ha) as [Hn _]. destruct (name_ok_inv _ Hn) as (_ & _ & _ & _ & c & r & Hc & Hb).
  destruct (name_byte_space c Hb) as (_ & H1 & H2 & _).
  rewrite Hc. cbn [app]. rewrite (proj2 (Z.eqb_neq c 47)), (proj2 (Z.eqb_neq c 62)) by done.
  rewrite (app_comm_cons r), <- Hc. cbn [app]. rewrite <- !(assoc_L (++)).
  cbn [app]. rewrite read_attr_print by done. simpl. rewrite IH by (done || lia). done.
Qed.
Lemma rawToken_open n l s :
  name_ok n = true → forallb attr_ok l = true →
  rawToken (60 :: n.2 ++ (l ≫= print_attr) ++ 62 :: s) = Some (TStart n l false, s).
Proof.
  intros Hn Hl. destruct (name_ok_inv _ Hn) as (_ & _ & _ & _ & c & r & Hc & Hb).
  destruct (name_byte_space c Hb) as (_ & H1 & _ & H2 & H3).
  cbn [rawToken]. change (60 =? 60) with true. cbv iota.
  destruct (n.2 ++ (l ≫= print_attr) ++ 62 :: s) as [|b x] eqn:E; [by rewrite Hc in E|].
  assert (b = c) as -> by (rewrite Hc in E; by injection E).
  rewrite (proj2 (Z.eqb_neq c 47)), (proj2 (Z.eqb_neq c 63)), (proj2 (Z.eqb_neq c 33)) by done.
  unfold start_tag. rewrite <- E.
  assert (∃ d y, (l ≫= print_attr) ++ 62 :: s = d :: y ∧ name_byte d = false) as (d & y & Hd & Hdn).
  { destruct l as [|a l]; [by exists 62, s|]. rewrite bind_cons. unfold print_attr at 1. by do 2 eexists. }
  rewrite Hd, nsname_print by done. cbn [mbind option_bind]. rewrite <- Hd, read_attrs_print; [done..|].
  rewrite length_app. assert (length l <= length (l ≫= print_attr))%nat; [|simpl; lia].
  clear. induction l as [|a l IH]; [done|]. rewrite bind_cons, length_app. simpl. lia.
Qed.
Lemma rawToken_close n s : name_ok n = true → rawToken (close_tag n ++ s) = Some (TEnd n, s).
Proof.
  intros Hn. unfold close_tag. cbn [app rawToken]. change (60 =? 60) with true. cbv iota.
  change (47 =? 47) with true. cbv iota. unfold end_tag. rewrite <- (assoc_L (++)). simpl.
  by rewrite nsname_print by done.
Qed.
Lemma rawToken_text t s :
  t ≠ [] → chars_ok t = true → rawToken (EscapeText t ++ 60 :: s) = Some (TText t, 60 :: s).
Proof.
  intros Ht Hc. destruct (EscapeText t ++ 60 :: s) as [|b x] eqn:E; [by destruct (EscapeText t)|].
  cbn [rawToken]. assert (b ≠ 60) as Hb.
  { destruct t as [|c t]; [done|]. change (EscapeText (c :: t)) with (escape_char c ++ EscapeText t) in E.
    unfold escape_char in E.
    repeat match type of E with context [if c =? ?k then _ else _] =>
      destruct (Z.eqb_spec c k); [injection E as <- _; done|] end.
    injection E as <- _. done. }
  rewrite (proj2 (Z.eqb_neq b 60) Hb), <- E. by rewrite (text_escape _ 60 _ s (60 :: s)) by done.
Qed.

Lemma print_elem n l ks s :
  print_node (Elem n l ks) ++ s =
  60 :: n.2 ++ (l ≫= print_attr) ++ 62 :: print_nodes ks ++ close_tag n ++ s.
Proof. cbn [print_node app]. unfold print_nodes. by rewrite <- !(assoc_L (++)), <- app_comm_cons, <- (assoc_L (++)). Qed.
Lemma length_elem n l ks :
  (2 + length (print_nodes ks ++ close_tag n) <= length (print_node (Elem n l ks)))%nat.
Proof.
  pose proof (print_elem n l ks []) as Hp. rewrite !app_nil_r in Hp. rewrite Hp.
  cbn [length]. rewrite !length_app. cbn [length]. rewrite !length_app. lia.
Qed.
(** After a text comes a tag. *)
Lemma opens_or_closes ks open rest :
  starts_with_text ks = false → ∃ s, print_nodes ks ++ close_tag open ++ rest = 60 :: s.
Proof.
  destruct ks as [|[n l k|t] ks]; intros Hs; [by eexists| |done].
  change (print_nodes (Elem n l k :: ks)) with (print_node (Elem n l k) ++ print_nodes ks).
  rewrite <- (assoc_L (++)), print_elem. by eexists.
Qed.
(** Content that is written and followed by its end tag. *)
Lemma content_print f ks open rest :
  wf_nodes ks → name_ok open = true → (length (print_nodes ks ++ close_tag open) < f)%nat →
  content f open (print_nodes ks ++ close_tag open ++ rest) = Some (ks, rest).
Proof.
  revert ks open rest. induction f as [|f IH]; intros ks open rest Hwf Hopen Hf; [lia|].
  destruct Hwf as [|t ks Ht Hc Hst Hwf|n l kids ks Hn Hl Hk Hwf]; cbn [content].
  - change (print_nodes [] ++ close_tag open ++ rest) with (close_tag open ++ rest).
    rewrite rawToken_close by done. cbn [mbind option_bind]. by rewrite decide_True.
  - change (print_nodes (Text t :: ks)) with (EscapeText t ++ print_nodes ks) in *.
    rewrite <- (assoc_L (++)). destruct (opens_or_closes ks open rest Hst) as [s Hs].
    rewrite Hs, rawToken_text, <- Hs by done. cbn [mbind option_bind].
    rewrite !length_app in Hf. rewrite IH; [done..|]. rewrite length_app.
    destruct (EscapeText t) as [|b x] eqn:E; [|simpl in *; lia].
    exfalso. destruct t as [|c t]; [done|]. revert E.
    change (EscapeText (c :: t)) with (escape_char c ++ EscapeText t). unfold escape_char.
    by repeat case_match.
  - change (print_nodes (Elem n l kids :: ks)) with (print_node (Elem n l kids) ++ print_nodes ks) in *.
    rewrite <- (assoc_L (++)), print_elem, rawToken_open by done. cbn [mbind option_bind].
    rewrite !length_app in Hf. pose proof (length_elem n l kids) as Hle.
    rewrite IH; [|done|done|lia]. cbn [mbind option_bind]. rewrite IH; [done..|].
    rewrite length_app. lia.
Qed.
Lemma rawToken_declaration s : rawToken (declaration ++ 10 :: s) = Some (TOther, 10 :: s).
Proof. reflexivity. Qed.
Lemma rawToken_newline s : rawToken (10 :: 60 :: s) = Some (TText [10], 60 :: s).
Proof. reflexivity. Qed.
Lemma document_skip f s t s' :
  rawToken s = Some (t, s') → match t with TOther | TText _ => True | _ => False end →
  document (S f) s = document f s'.
Proof. intros Ht Hk. cbn [document]. rewrite Ht. by destruct t. Qed.
Lemma document_open f s n l s' :
  rawToken s = Some (TStart n l false, s') →
  document (S f) s = '(ks, _) ← content f n s'; Some (Elem n l ks).
Proof. intros Ht. cbn [document]. by rewrite Ht. Qed.
(** What the XML decoder reads is what was written: a document that is printed as encoding/xml
    escapes its texts and attribute values - an XML declaration, a root element with any
    well-formed content, and anything after it - is parsed to the very same tree, to any depth. *)
Lemma parse_printed n l ks after :
  name_ok n = true → forallb attr_ok l = true → wf_nodes ks →
  parse_xml (print_document (Elem n l ks) after) = Some (Elem n l ks).
Proof.
  intros Hn Hl Hk. unfold parse_xml.
  assert (∃ k, length (print_document (Elem n l ks) after) < k)%nat as [k Hlt] by (eexists; apply Nat.lt_succ_diag_r).
  rewrite (document_fuel _ (S (S (S k)))) by lia.
  unfold print_document in *. rewrite print_elem in *.
  rewrite (document_skip _ _ TOther _ (rawToken_declaration _)) by done.
  rewrite (document_skip _ _ _ _ (rawToken_newline _)) by done.
  rewrite (document_open _ _ n l _ (rawToken_open n l _ Hn Hl)). rewrite content_print; [done..|].
  revert Hlt. rewrite !length_app. cbn [length]. rewrite !length_app. cbn [length]. rewrite !length_app. lia.
Qed.
End RoundTrip.
