(* ===== verification/Effects.v ===== *)
(** Error values and effects. A Go [error] is a tree of wrapped values, searched by [errors.Is]
    and [errors.As]; a function with side effects is a state transformer; a [context.Context] is
    its deadline, and whether it is done depends on the state. *)
From S2P Require Import Prelude Unicode Utf8 GoStrings.
Local Open Scope Z_scope.

(** ** Errors *)
Inductive netkind := NetOp | NetDNS | NetUrl | NetOther.
#[export] Instance netkind_eq_dec : EqDecision netkind.
Proof. solve_decision. Defined.

Inductive error :=
| ErrVar (name : gostring)                  (* a package-level errors.New value *)
| ErrMsg (msg : gostring)                   (* errors.New / fmt.Errorf without %w *)
| CtxCanceled
| CtxDeadlineExceeded
| HttpStatusError (StatusCode : Z)
| ErrRateLimited (Engine : gostring) (RetryAfter : Z)
| NetErr (kind : netkind) (timeout : bool) (inner : error) (* net.OpError, url.Error, ... *)
| Wrapped (prefix : gostring) (inner : error) (* fmt.Errorf("prefix: %w", inner) *)
| Redacted (msg : gostring) (inner : error) (* a type with its own message that unwraps to another *)
| Joined (errs : list error).               (* errors.Join *)

(** The preorder walk of the wrapped values shared by [errors.Is] and [errors.As]: the first
    value on which [f] is defined. *)
Section FindErr.
Context {A : Type} (f : error → option A).
Fixpoint find_err (e : error) : option A :=
  match f e with
  | Some a => Some a
  | None =>
      match e with
      | NetErr _ _ i | Wrapped _ i | Redacted _ i => find_err i
      | Joined es => (fix go es := match es with
                      | [] => None
                      | e :: es => match find_err e with Some a => Some a | None => go es end
                      end) es
      | _ => None
      end
  end.
End FindErr.

(** [errors.Is] against the sentinels the code compares with. *)
Definition is_var (name : gostring) (e : error) : bool :=
  match find_err (λ e, match e with ErrVar n => if decide (n = name) then Some () else None
                       | _ => None end) e with Some _ => true | None => false end.
Definition is_canceled (e : error) : bool :=
  match find_err (λ e, match e with CtxCanceled => Some () | _ => None end) e with
  | Some _ => true | None => false end.
Definition is_deadline (e : error) : bool :=
  match find_err (λ e, match e with CtxDeadlineExceeded => Some () | _ => None end) e with
  | Some _ => true | None => false end.
(** [errors.As] for the error types the code looks for. *)
Definition as_http_status (e : error) : option Z :=
  find_err (λ e, match e with HttpStatusError c => Some c | _ => None end) e.
Definition as_rate_limited (e : error) : option (gostring * Z) :=
  find_err (λ e, match e with ErrRateLimited n r => Some (n, r) | _ => None end) e.
Definition as_net_kind (k : netkind) (e : error) : bool :=
  match find_err (λ e, match e with
                       | NetErr k' _ _ => if decide (k' = k) then Some () else None
                       | _ => None end) e with Some _ => true | None => false end.
(** [net.Error]: every network error, and [context.DeadlineExceeded], which has a [Timeout]
    method; the value found is what [Timeout] returns. *)
Definition as_net_error (e : error) : option bool :=
  find_err (λ e, match e with
                 | NetErr _ t _ => Some t | CtxDeadlineExceeded => Some true
                 | _ => None end) e.

Lemma find_err_wrapped {A} (f : error → option A) p e :
  f (Wrapped p e) = None → find_err f (Wrapped p e) = find_err f e.
Proof. simpl. by intros ->. Qed.

(** ** Results *)
Inductive result (A : Type) : Type :=
| Val (a : A)
| Err (e : error).
Arguments Val {A} _.
Arguments Err {A} _.
Definition is_ok {A} (r : result A) : bool := match r with Val _ => true | Err _ => false end.

(** ** State transformers *)
Definition M (S A : Type) : Type := S → A * S.
#[export] Instance M_ret {S} : MRet (M S) := λ A a s, (a, s).
#[export] Instance M_bind {S} : MBind (M S) := λ A B f m s, let '(a, s) := m s in f a s.
Definition get {S} : M S S := λ s, (s, s).
Definition put {S} (s : S) : M S () := λ _, ((), s).
Definition modify {S} (f : S → S) : M S () := λ s, ((), f s).
Definition gets {S A} (f : S → A) : M S A := λ s, (f s, s).

(** A loop body run on each element in order. *)
Fixpoint mapM_ {S A} (f : A → M S ()) (l : list A) : M S () :=
  match l with [] => mret () | x :: l => f x ≫= λ _, mapM_ f l end.
Fixpoint traverse {S A B} (f : A → M S B) (l : list A) : M S (list B) :=
  match l with
  | [] => mret []
  | x :: l => y ← f x; ys ← traverse f l; mret (y :: ys)
  end.

Lemma bind_eq {S A B} (m : M S A) (f : A → M S B) s a s' :
  m s = (a, s') → (m ≫= f) s = f a s'.
Proof. unfold mbind, M_bind. by intros ->. Qed.

(** ** Contexts: the deadline, if there is one, in nanoseconds *)
Record ctx := Ctx { ctx_deadline : option Z; ctx_id : nat }.
(** [context.WithTimeout]: never later than the parent. *)
Definition WithTimeout (parent : ctx) (now d : Z) : ctx :=
  {| ctx_deadline := Some match ctx_deadline parent with
                          | Some p => Z.min p (now + d)
                          | None => now + d
                          end;
     ctx_id := ctx_id parent |}.

(** Durations, in nanoseconds. *)
Definition Millisecond : Z := 1000000.
Definition Second : Z := 1000000000.
Definition Minute : Z := 60 * Second.
Definition Hour : Z := 60 * Minute.
