(* ===== verification/GoTime.v ===== *)
(** Calendar dates and durations as Go's [time] package writes and reads them, and the base64
    codecs of [encoding/base64]. *)
From S2P Require Import Prelude Unicode Utf8 GoStrings Floats Effects.
Local Open Scope Z_scope.

(** ** Dates: a day is its number since 1970-01-01 *)
(** The proleptic Gregorian date of a day. *)
Definition civil (day : Z) : Z * Z * Z :=
  let z := day + 719468 in
  let era := z / 146097 in
  let doe := z - era * 146097 in
  let yoe := (doe - doe / 1460 + doe / 36524 - doe / 146096) / 365 in
  let doy := doe - (365 * yoe + yoe / 4 - yoe / 100) in
  let mp := (5 * doy + 2) / 153 in
  let d := doy - (153 * mp + 2) / 5 + 1 in
  let m := if mp <? 10 then mp + 3 else mp - 9 in
  (yoe + era * 400 + (if m <=? 2 then 1 else 0), m, d).
Definition Month (day : Z) : Z := (civil day).1.2.
Definition pad2 (n : Z) : gostring := [48 + n / 10; 48 + n mod 10].
Definition pad4 (n : Z) : gostring :=
  [48 + n / 1000; 48 + n / 100 mod 10; 48 + n / 10 mod 10; 48 + n mod 10].
(** [Format("2006-01-02")] and [Format("20060102")], for years of four digits. *)
Definition format_date (sep : gostring) (day : Z) : gostring :=
  let '(y, m, d) := civil day in pad4 y ++ sep ++ pad2 m ++ sep ++ pad2 d.

Example civil_leap : (civil 0, civil 19782, civil 19783) = ((1970, 1, 1), (2024, 2, 29), (2024, 3, 1)).
Proof. vm_compute. done. Qed.
Example format_date_ex : format_date (lit "-") 19782 = lit "2024-02-29".
Proof. vm_compute. done. Qed.

(** ** [time.ParseDuration], in nanoseconds; [None] is an error *)
Fixpoint leading_int (acc : Z) (s : gostring) : option (Z * gostring) :=
  match s with
  | c :: s' =>
      if between 48 57 c then
        if 2 ^ 63 / 10 <? acc then None
        else let acc := acc * 10 + (c - 48) in
             if 2 ^ 63 <? acc then None else leading_int acc s'
      else Some (acc, s)
  | [] => Some (acc, [])
  end.
(** Digits that would overflow are read and ignored. *)
Fixpoint leading_fraction (acc : Z) (scale : float) (full : bool) (s : gostring)
    : Z * float * gostring :=
  match s with
  | c :: s' =>
      if between 48 57 c then
        if full then leading_fraction acc scale true s'
        else if (2 ^ 63 - 1) / 10 <? acc then leading_fraction acc scale true s'
        else let acc' := acc * 10 + (c - 48) in
             if 2 ^ 63 <? acc' then leading_fraction acc scale true s'
             else leading_fraction acc' (fmul scale (of_int 10)) false s'
      else (acc, scale, s)
  | [] => (acc, scale, [])
  end.
Fixpoint read_unit (s : gostring) : gostring * gostring :=
  match s with
  | c :: s' => if (c =? 46) || between 48 57 c then ([], s)
               else let '(u, r) := read_unit s' in (c :: u, r)
  | [] => ([], [])
  end.
Definition unit_of (u : gostring) : option Z :=
  if decide (u = lit "ns") then Some 1
  else if decide (u = lit "us") then Some 1000
  else if decide (u = lit "µs") then Some 1000
  else if decide (u = lit "μs") then Some 1000
  else if decide (u = lit "ms") then Some Millisecond
  else if decide (u = lit "s") then Some Second
  else if decide (u = lit "m") then Some Minute
  else if decide (u = lit "h") then Some Hour else None.
Fixpoint duration_loop (fuel : nat) (d : Z) (s : gostring) : option Z :=
  match s, fuel with
  | [], _ => Some d
  | _, O => None
  | c :: _, S fuel =>
      if negb ((c =? 46) || between 48 57 c) then None else
      '(v, s1) ← leading_int 0 s;
      let pre := negb (length s1 =? length s)%nat in
      let '(f, scale, s2, post) :=
        match s1 with
        | 46 :: r => let '(f, scale, r') := leading_fraction 0 fone false r in
                     (f, scale, r', negb (length r' =? length r)%nat)
        | _ => (0, fone, s1, false)
        end in
      if negb pre && negb post then None else
      let '(u, s3) := read_unit s2 in
      if decide (u = []) then None else
      unit ← unit_of u;
      if 2 ^ 63 / unit <? v then None else
      let v := v * unit in
      let v := if 0 <? f then v + to_int (fmul (of_int f) (fdiv (of_int unit) scale)) else v in
      if 2 ^ 63 <? v then None else
      if 2 ^ 63 <? d + v then None else duration_loop fuel (d + v) s3
  end.
Definition ParseDuration (s : gostring) : option Z :=
  let '(neg, s) := match s with
                   | 45 :: r => (true, r) | 43 :: r => (false, r) | _ => (false, s) end in
  if decide (s = lit "0") then Some 0 else
  if decide (s = []) then None else
  d ← duration_loop (length s) 0 s;
  if neg : bool then Some (- d) else if 2 ^ 63 - 1 <? d then None else Some d.

Example ParseDuration_ex :
  (ParseDuration (lit "120s"), ParseDuration (lit "1h1.5s"), ParseDuration (lit "Wed, 21 Octs")) =
  (Some (120 * Second), Some (Hour + 1500 * Millisecond), None).
Proof. vm_compute. done. Qed.

(** ** Base64 *)
(** The six-bit value of a character; [url] selects the URL-safe alphabet. *)
Definition b64_value (url : bool) (c : Z) : option Z :=
  if between 65 90 c then Some (c - 65)
  else if between 97 122 c then Some (c - 71)
  else if between 48 57 c then Some (c + 4)
  else if c =? (if url then 45 else 43) then Some 62
  else if c =? (if url then 95 else 47) then Some 63 else None.
Definition b64_char (url : bool) (v : Z) : Z :=
  if v <? 26 then v + 65 else if v <? 52 then v + 71 else if v <? 62 then v - 4
  else if v =? 62 then (if url then 45 else 43) else (if url then 95 else 47).
Fixpoint b64_encode (s : gostring) : gostring :=
  match s with
  | a :: b :: c :: s =>
      [b64_char false (a / 4); b64_char false (a mod 4 * 16 + b / 16);
       b64_char false (b mod 16 * 4 + c / 64); b64_char false (c mod 64)] ++ b64_encode s
  | [a; b] => [b64_char false (a / 4); b64_char false (a mod 4 * 16 + b / 16);
               b64_char false (b mod 16 * 4); 61]
  | [a] => [b64_char false (a / 4); b64_char false (a mod 4 * 16); 61; 61]
  | [] => []
  end.
(** Groups of four values; a final group may have two or three. *)
Fixpoint b64_groups (vs : list Z) : option gostring :=
  match vs with
  | a :: b :: c :: d :: vs =>
      app [a * 4 + b / 16; b mod 16 * 16 + c / 4; c mod 4 * 64 + d] <$> b64_groups vs
  | [a; b; c] => Some [a * 4 + b / 16; b mod 16 * 16 + c / 4]
  | [a; b] => Some [a * 4 + b / 16]
  | [_] => None
  | [] => Some []
  end.
Definition b64_skip (s : gostring) : gostring := filter (λ c, c ≠ 10 ∧ c ≠ 13) s.
(** [base64.RawURLEncoding.DecodeString]. *)
Definition RawURLDecode (s : gostring) : option gostring :=
  vs ← mapM (b64_value true) (b64_skip s); b64_groups vs.
(** [base64.StdEncoding.DecodeString]: with padding. *)
Definition StdDecode (s : gostring) : option gostring :=
  let s := b64_skip s in
  if negb (zlen s mod 4 =? 0) then None else
  let body := if HasSuffix s (lit "==") then take (length s - 2) s
              else if HasSuffix s (lit "=") then take (length s - 1) s else s in
  vs ← mapM (b64_value false) body; b64_groups vs.
Definition StdEncode (s : gostring) : gostring := b64_encode s.

Example b64_ex : (StdEncode (lit "id:secret"), StdDecode (lit "aWQ6c2VjcmV0"), RawURLDecode (lit "aWQ6cw")) =
  (lit "aWQ6c2VjcmV0", Some (lit "id:secret"), Some (lit "id:s")).
Proof. vm_compute. done. Qed.

(** Up to the year 100000 the date is made of bytes. *)
Lemma civil_bounds day : 0 <= day <= 36500000 →
  0 <= (civil day).1.1 < 200000 ∧ -50 <= (civil day).1.2 <= 50 ∧ -50 <= (civil day).2 <= 50.
Proof.
  intros Hd. unfold civil. cbn [fst snd].
  set (z := day + 719468). set (era := z / 146097). set (doe := z - era * 146097).
  assert (0 <= doe < 146097) as Hdoe by (subst doe era; lia).
  assert (0 <= era <= 300) as Hera by (subst era z; lia).
  clearbody doe era. set (yoe := (doe - doe / 1460 + doe / 36524 - doe / 146096) / 365).
  assert (0 <= yoe <= 400) as Hyoe by (subst yoe; lia).
  assert (-200 <= doe - (365 * yoe + yoe / 4 - yoe / 100) <= 600) as Hdoy.
  { assert (365 * yoe <= doe - doe / 1460 + doe / 36524 - doe / 146096 < 365 * yoe + 365)
      by (subst yoe; lia).
    assert (0 <= doe / 1460 <= 101 ∧ 0 <= doe / 36524 <= 4 ∧ 0 <= doe / 146096 <= 1 ∧
            0 <= yoe / 4 <= 100 ∧ 0 <= yoe / 100 <= 4) by lia. lia. }
  clearbody yoe. set (doy := doe - (365 * yoe + yoe / 4 - yoe / 100)) in *. clearbody doy.
  set (mp := (5 * doy + 2) / 153). assert (-10 <= mp <= 20) as Hmp by (subst mp; lia).
  destruct (mp <? 10), (_ <=? 2); split_and!; subst mp; lia.
Qed.
Lemma format_date_bytes sep day : bytes_ok sep → 0 <= day <= 36500000 →
  bytes_ok (format_date sep day).
Proof.
  intros Hs [Hy [Hm Hd]]%civil_bounds. unfold format_date.
  destruct (civil day) as [[y m] d]. cbn [fst snd] in *. unfold bytes_ok in *.
  rewrite !Forall_app. unfold pad4, pad2. split_and!; try done; repeat constructor; lia.
Qed.
