(* ===== verification/TextChunker.v ===== *)
(** Package [text], [chunker.go]: splitting text into overlapping chunks of at most [chunkSize]
    runes. Rune positions are Go [int]s; a slice out of range is a panic; the loop of [Chunk] is
    bounded by fuel, which [Chunk_total] shows to be enough. *)
From S2P Require Import Prelude Unicode Utf8 GoStrings.
Local Open Scope Z_scope.

Record CharacterChunker := { chunkSize : Z; overlap : Z }.

Definition NewCharacterChunker (chunkSize overlap : Z) : CharacterChunker :=
  let overlap := if chunkSize <=? overlap then idiv chunkSize 4 else overlap in
  {| chunkSize := chunkSize; overlap := overlap |}.

(** [findWordBoundary]: the backward scan; [n] is the number of positions left to look at. *)
Fixpoint find_boundary_go (n : nat) (rs : list rune) (i half : Z) : outcome Z :=
  if half <=? i then
    match n with
    | O => OutOfFuel
    | S n => let* r := index rs i in
             if r =? 32 then Ok i else find_boundary_go n rs (isub i 1) half
    end
  else Ok (-1).
Definition findWordBoundary (c : CharacterChunker) (rs : list rune) (pos e : Z) : outcome Z :=
  let halfPoint := iadd pos (idiv (chunkSize c) 2) in
  find_boundary_go (Z.to_nat (e - halfPoint)) rs (isub e 1) halfPoint.

(** [nextChunk]: the chunk and the position to continue from. *)
Definition nextChunk (c : CharacterChunker) (rs : list rune) (pos : Z)
    : outcome (gostring * Z) :=
  let e := iadd pos (chunkSize c) in
  if zlen rs <=? e then
    let* w := slice rs pos (zlen rs) in Ok (TrimSpace (of_runes w), zlen rs)
  else
    let* splitAt := findWordBoundary c rs pos e in
    if 0 <=? splitAt then
      let* w := slice rs pos splitAt in
      let next := isub (iadd splitAt 1) (overlap c) in
      Ok (TrimSpace (of_runes w), if next <=? pos then iadd pos 1 else next)
    else
      let* w := slice rs pos e in
      let next := isub e (overlap c) in
      Ok (TrimSpace (of_runes w), if next <=? pos then iadd pos 1 else next).

Fixpoint chunk_loop (fuel : nat) (c : CharacterChunker) (rs : list rune) (pos : Z)
    (chunks : list gostring) : outcome (list gostring) :=
  if pos <? zlen rs then
    match fuel with
    | O => OutOfFuel
    | S fuel =>
        let* (chunk, next) := nextChunk c rs pos in
        chunk_loop fuel c rs next
          (if decide (chunk = []) then chunks else chunks ++ [chunk])
    end
  else Ok chunks.

Definition Chunk (c : CharacterChunker) (text : gostring) : outcome (list gostring) :=
  let text := TrimSpace text in
  if decide (text = []) then Ok [] else
  let rs := runes text in
  if zlen rs <=? chunkSize c then Ok [text]
  else chunk_loop (length rs) c rs 0 [].

Definition NeedsChunking (c : CharacterChunker) (text : gostring) : bool :=
  chunkSize c <? RuneCount text.

(** ** What a step of the loop does *)
Definition sized (rs : list rune) : Prop := zlen rs < 2 ^ 62.

Lemma find_boundary_spec n rs i half :
  0 <= half → i < zlen rs → sized rs → (Z.to_nat (i + 1 - half) <= n)%nat →
  ∃ j, find_boundary_go n rs i half = Ok j ∧ (j = -1 ∨ half <= j <= i ∧ rs !! Z.to_nat j = Some 32).
Proof.
  unfold sized. revert i. induction n as [|n IH]; intros i Hh Hi Hs Hn; simpl;
    (destruct (Z.leb_spec half i); [|by eauto]); [lia|].
  destruct (index_in_range rs i) as (r & -> & Hr); [lia|]. simpl.
  destruct (Z.eqb_spec r 32) as [->|]; [naive_solver lia|].
  unfold isub. rewrite wrap64_small by (unfold int64_range; lia).
  destruct (IH (i - 1)) as (j & -> & Hj); [lia..|]. exists j. naive_solver lia.
Qed.

(** The window of runes one step emits and the position it continues from. *)
Record step (c : CharacterChunker) (rs : list rune) (pos a next : Z) : Prop := {
  step_window : pos <= a <= zlen rs;
  step_size : a - pos <= chunkSize c;
  step_next : pos < next;
  step_cover : 1 <= chunkSize c → 0 <= overlap c →
                 next <= a ∨ next = a + 1 ∧ rs !! Z.to_nat a = Some 32
}.

Lemma nextChunk_step c rs pos :
  0 <= chunkSize c < 2 ^ 62 → int64_range (overlap c) → sized rs → 0 <= pos < zlen rs →
  ∃ a next, step c rs pos a next ∧
    nextChunk c rs pos =
      Ok (TrimSpace (of_runes (take (Z.to_nat (a - pos)) (drop (Z.to_nat pos) rs))), next).
Proof.
  unfold int64_range, sized. intros Hc Ho Hs Hp. unfold nextChunk, iadd at 1 2.
  rewrite (wrap64_small (pos + _)) by (unfold int64_range; lia).
  destruct (Z.leb_spec (zlen rs) (pos + chunkSize c)) as [He|He].
  { rewrite slice_Ok by lia. exists (zlen rs), (zlen rs). split; [split; lia|done]. }
  unfold findWordBoundary, idiv.
  assert (0 <= Z.quot (chunkSize c) 2 <= chunkSize c) as Hq.
  { split; [apply Z.quot_pos; lia|]. apply Z.quot_le_upper_bound; lia. }
  rewrite (wrap64_small (Z.quot _ _)) by (unfold int64_range; lia).
  unfold iadd, isub. rewrite !(wrap64_small (pos + _)), (wrap64_small (_ - 1))
    by (unfold int64_range; lia).
  destruct (find_boundary_spec (Z.to_nat (pos + chunkSize c - (pos + Z.quot (chunkSize c) 2)))
    rs (pos + chunkSize c - 1) (pos + Z.quot (chunkSize c) 2)) as (j & -> & Hj);
    [unfold sized; lia..|].
  cbn [obind]. destruct Hj as [->|[Hj Hsp]].
  - rewrite (proj2 (Z.leb_gt 0 (-1))) by lia. rewrite slice_Ok by lia. cbn [obind].
    eexists _, _; split; [|done]. split; [lia..| |].
    + destruct (Z.leb_spec (wrap64 (pos + chunkSize c - overlap c)) pos); lia.
    + intros. rewrite wrap64_small by (unfold int64_range; lia).
      destruct (Z.leb_spec (pos + chunkSize c - overlap c) pos); lia.
  - rewrite (proj2 (Z.leb_le 0 j)) by lia. rewrite slice_Ok by lia. cbn [obind].
    eexists _, _; split; [|done]. rewrite (wrap64_small (j + 1)) by (unfold int64_range; lia).
    split; [lia..| |].
    + destruct (Z.leb_spec (wrap64 (j + 1 - overlap c)) pos); lia.
    + intros. rewrite wrap64_small by (unfold int64_range; lia).
      destruct (Z.leb_spec (j + 1 - overlap c) pos).
      * destruct (decide (j = pos)) as [->|]; [right; by split; [lia|]|left; lia].
      * destruct (decide (overlap c = 0)); [right; by split; [lia|]|left; lia].
Qed.

(** ** The windows of runes the loop goes through *)
Inductive windows (c : CharacterChunker) (rs : list rune) : Z → list (Z * Z) → Prop :=
| windows_done pos : zlen rs <= pos → windows c rs pos []
| windows_step pos a next ws :
    pos < zlen rs → step c rs pos a next → windows c rs next ws →
    windows c rs pos ((pos, a) :: ws).

Definition window_runes (rs : list rune) (w : Z * Z) : list rune :=
  take (Z.to_nat (w.2 - w.1)) (drop (Z.to_nat w.1) rs).
Definition window_text (rs : list rune) (w : Z * Z) : gostring :=
  TrimSpace (of_runes (window_runes rs w)).

Lemma chunk_loop_windows c rs fuel pos chunks :
  0 <= chunkSize c < 2 ^ 62 → int64_range (overlap c) → sized rs → 0 <= pos →
  (Z.to_nat (zlen rs - pos) <= fuel)%nat →
  ∃ ws, windows c rs pos ws ∧
    chunk_loop fuel c rs pos chunks = Ok (chunks ++ filter (λ s, s ≠ []) (window_text rs <$> ws)).
Proof.
  intros Hc Ho Hs. revert pos chunks. induction fuel as [|fuel IH]; intros pos chunks Hp Hf;
    simpl; (destruct (Z.ltb_spec pos (zlen rs)) as [Hl|Hl];
            [|exists []; split; [by constructor|by rewrite app_nil_r]]); [lia|].
  destruct (nextChunk_step c rs pos) as (a & next & Hst & ->); [done..|lia|]. simpl.
  pose proof (step_next _ _ _ _ _ Hst).
  destruct (IH next (if decide (window_text rs (pos, a) = []) then chunks
                     else chunks ++ [window_text rs (pos, a)])) as (ws & Hws & E); [lia..|].
  exists ((pos, a) :: ws). split; [by econstructor|]. unfold window_text, window_runes in *.
  cbn [fst snd] in *. rewrite E, fmap_cons, filter_cons.
  destruct (decide (TrimSpace _ = [])); [by rewrite decide_False by tauto|].
  rewrite decide_True by done. by rewrite <- app_assoc.
Qed.

(** A window's text is the trimmed window. *)
Lemma window_text_runes rs w : valid_runes rs →
  runes (window_text rs w) = trim_runes (window_runes rs w).
Proof.
  intros Hv. assert (valid_runes (window_runes rs w)) as Hw.
  { by apply Forall_take, Forall_drop. }
  unfold window_text. rewrite TrimSpace_of_runes by done.
  by rewrite runes_of_runes by by apply trim_runes_valid.
Qed.

(** The trimmed window is a part of the text around every non-space rune of the window. *)
Lemma window_trim_position rs w i r :
  0 <= w.1 → w.1 <= Z.of_nat i < w.2 → rs !! i = Some r → IsSpace r = false →
  ∃ start k, trim_runes (window_runes rs w) = take k (drop start rs) ∧
    (start <= i < start + k)%nat ∧ (start + k <= length rs)%nat.
Proof.
  intros H0 Hi Hr Hs. destruct (trim_runes_split (window_runes rs w)) as (a & b & E & Ha & Hb).
  set (t := trim_runes _) in *.
  assert (window_runes rs w !! (i - Z.to_nat w.1)%nat = Some r) as Hw.
  { unfold window_runes. rewrite lookup_take_lt, lookup_drop by lia. rewrite <- Hr. f_equal. lia. }
  assert (∀ l j, Forall (λ r, IsSpace r = true) l → l !! j ≠ Some r) as Hsp.
  { intros l j Hl Hj. eapply Forall_lookup in Hl; [|done]. simpl in Hl. congruence. }
  rewrite E in Hw. rewrite !lookup_app in Hw.
  exists (Z.to_nat w.1 + length a)%nat, (length t).
  assert (length (window_runes rs w) <= length rs - Z.to_nat w.1)%nat as Hlen.
  { unfold window_runes. rewrite length_take, length_drop. lia. }
  assert (t = take (length t) (drop (length a) (window_runes rs w))) as Ht.
  { by rewrite E, drop_app_length, take_app_length. }
  rewrite E, !length_app in Hlen.
  destruct (a !! _) eqn:Hai; [simplify_eq; by apply Hsp in Hai|].
  apply lookup_ge_None in Hai.
  destruct (t !! _) eqn:Hti; [|by apply Hsp in Hw].
  apply lookup_lt_Some in Hti. split_and!; [|lia..]. rewrite Ht at 1.
  unfold window_runes. rewrite skipn_firstn_comm, take_take, drop_drop. f_equal.
  pose proof (f_equal length E) as El. unfold window_runes in El.
  rewrite length_take, length_drop, !length_app in El. lia.
Qed.

Lemma windows_size c rs pos ws : windows c rs pos ws →
  Forall (λ w, w.2 - w.1 <= chunkSize c) ws.
Proof. induction 1 as [|pos a next ws Hl Hst _ IH]; constructor; [apply Hst|done]. Qed.

Lemma windows_nonneg c rs pos ws : windows c rs pos ws → 0 <= pos → Forall (λ w, 0 <= w.1) ws.
Proof.
  induction 1 as [|pos a next ws Hl [_ _ Hst _] _ IH]; intros Hp; constructor; [done|].
  apply IH. lia.
Qed.
(** Every position that does not hold a blank lies in a window. *)
Lemma windows_cover c rs pos ws i : windows c rs pos ws →
  1 <= chunkSize c → 0 <= overlap c → pos <= i < zlen rs → rs !! Z.to_nat i ≠ Some 32 →
  ∃ w, w ∈ ws ∧ w.1 <= i < w.2.
Proof.
  induction 1 as [|pos a next ws Hl Hst _ IH]; intros Hc Ho Hi Hn; [lia|].
  destruct Hst as [_ _ _ Hcov]. specialize (Hcov Hc Ho).
  destruct (decide (i < next)) as [Hlt|].
  - exists (pos, a). split; [set_solver|]. simpl. destruct (decide (i = a)) as [->|]; [|lia].
    destruct Hcov as [|[_ ?]]; [lia|done].
  - destruct IH as (w & ? & ?); [done..|lia|done|]. exists w. set_solver.
Qed.
Lemma window_runes_lookup rs w i r :
  0 <= w.1 <= i → i < w.2 → rs !! Z.to_nat i = Some r → r ∈ window_runes rs w.
Proof.
  intros Hi Hw Hr. apply list_elem_of_lookup. exists (Z.to_nat (i - w.1)).
  unfold window_runes. rewrite lookup_take_lt, lookup_drop by lia.
  by replace (Z.to_nat w.1 + Z.to_nat (i - w.1))%nat with (Z.to_nat i) by lia.
Qed.

Lemma Chunk_windows c text :
  0 <= chunkSize c < 2 ^ 63 → int64_range (overlap c) → zlen text < 2 ^ 62 →
  chunkSize c < zlen (runes (TrimSpace text)) → TrimSpace text ≠ [] →
  ∃ ws, windows c (runes (TrimSpace text)) 0 ws ∧
    Chunk c text = Ok (filter (λ s, s ≠ []) (window_text (runes (TrimSpace text)) <$> ws)).
Proof.
  intros Hc Ho Ht Hl Hne. unfold Chunk. rewrite decide_False by done.
  rewrite (proj2 (Z.leb_gt _ _)) by done.
  pose proof (length_runes_le (TrimSpace text)). pose proof (zlen_TrimSpace text).
  apply (chunk_loop_windows _ _ _ 0 []); unfold sized, zlen in *; [lia|done|lia..].
Qed.

Lemma Chunk_negative c text :
  - 2 ^ 62 <= chunkSize c < 0 → TrimSpace text ≠ [] → Chunk c text = Panic.
Proof.
  intros Hc Hne. unfold Chunk. rewrite decide_False by done.
  pose proof (zlen_nonneg (runes (TrimSpace text))) as Hz.
  rewrite (proj2 (Z.leb_gt _ _)) by lia.
  destruct (runes (TrimSpace text)) as [|r rs] eqn:E.
  { apply (f_equal length) in E. rewrite runes_unfold in E by done. by destruct (DecodeRune _). }
  set (l := r :: rs) in *. assert (0 < zlen l) by (subst l; rewrite zlen_cons; pose proof (zlen_nonneg rs); lia).
  change (length l) with (S (length rs)). cbn [chunk_loop].
  rewrite (proj2 (Z.ltb_lt 0 _)) by done. unfold nextChunk, findWordBoundary.
  assert (chunkSize c <= Z.quot (chunkSize c) 2 <= 0).
  { pose proof (Z.quot_rem' (chunkSize c) 2). pose proof (Z.rem_bound_abs (chunkSize c) 2).
    split; [|apply Z.quot_le_upper_bound]; lia. }
  unfold iadd, isub, idiv. rewrite !(wrap64_small (0 + _)) by (unfold int64_range; lia).
  rewrite !Z.add_0_l. rewrite !(wrap64_small (Z.quot _ _)), (wrap64_small (_ - 1))
    by (unfold int64_range; lia).
  rewrite (proj2 (Z.leb_gt _ _)) by lia.
  assert (∀ n, find_boundary_go n l (chunkSize c - 1) (Z.quot (chunkSize c) 2) = Ok (-1)) as ->.
  { intros [|n]; cbn [find_boundary_go];
      by rewrite (proj2 (Z.leb_gt (Z.quot (chunkSize c) 2) (chunkSize c - 1))) by lia. }
  cbn [obind]. rewrite (proj2 (Z.leb_gt 0 (-1))) by lia. unfold slice.
  by rewrite (proj2 (Z.leb_gt 0 (chunkSize c))), andb_false_r by lia.
Qed.

(** ** Properties *)
(** C39: [Chunk] terminates on every text: it returns a list of non-empty chunks of at most
    [chunkSize] runes each, except that a negative [chunkSize] makes it panic on a text that is
    not blank. *)
Theorem Chunk_total c text :
  - 2 ^ 62 <= chunkSize c < 2 ^ 63 → int64_range (overlap c) → zlen text < 2 ^ 62 →
  (chunkSize c < 0 ∧ TrimSpace text ≠ [] ∧ Chunk c text = Panic) ∨
  ((0 <= chunkSize c ∨ TrimSpace text = []) ∧ ∃ l, Chunk c text = Ok l ∧
     Forall (λ ch, ch ≠ [] ∧ RuneCount ch <= chunkSize c) l).
Proof.
  intros Hc Ho Ht. destruct (decide (TrimSpace text = [])) as [He|He].
  { right. split; [by right|]. exists []. unfold Chunk. by rewrite decide_True. }
  destruct (decide (chunkSize c < 0)); [left; split_and!; [done..|apply Chunk_negative; [lia|done]]|].
  right. split; [left; lia|].
  destruct (decide (zlen (runes (TrimSpace text)) <= chunkSize c)) as [Hl|Hl].
  { exists [TrimSpace text]. unfold Chunk. rewrite decide_False by done.
    rewrite (proj2 (Z.leb_le _ _)) by done. split; [done|by apply Forall_singleton]. }
  destruct (Chunk_windows c text) as (ws & Hws & ->); [lia|done|done|lia|done|].
  eexists; split; [done|]. apply Forall_forall. intros ch [Hch Hin]%list_elem_of_filter.
  split; [done|]. apply list_elem_of_fmap in Hin as (w & -> & Hw). unfold RuneCount.
  rewrite window_text_runes by apply runes_valid.
  apply windows_size, Forall_forall with (x := w) in Hws; [|done].
  pose proof (length_trim_runes (window_runes (runes (TrimSpace text)) w)).
  pose proof (length_take (drop (Z.to_nat w.1) (runes (TrimSpace text))) (Z.to_nat (w.2 - w.1))).
  unfold zlen, window_runes in *. lia.
Qed.
Lemma Chunk_total_witness :
  ∃ l, Chunk (NewCharacterChunker 5 2) (lit "alpha beta gamma") = Ok l ∧
     Forall (λ ch, ch ≠ [] ∧ RuneCount ch <= 5) l.
Proof.
  destruct (Chunk_total (NewCharacterChunker 5 2) (lit "alpha beta gamma"))
    as [(H & _)|(_ & H)]; [vm_compute; by split|vm_compute; by split|vm_compute; done| |exact H].
  vm_compute in H. done.
Defined.

(** C40: when the chunk size is positive and the overlap is not negative, both integers of the machine,
    no text of less than 2^62 bytes is lost: every rune of the trimmed text that is not white space
    lies inside a chunk, at its own position. With a chunk size of zero all of it can be lost ([zero_chunks]). *)
Theorem Chunk_cover c text l i r :
  1 <= chunkSize c < 2 ^ 63 → 0 <= overlap c < 2 ^ 63 → zlen text < 2 ^ 62 →
  Chunk c text = Ok l →
  runes (TrimSpace text) !! i = Some r → IsSpace r = false →
  ∃ ch start, ch ∈ l ∧ (start <= i < start + length (runes ch))%nat ∧
    runes ch = take (length (runes ch)) (drop start (runes (TrimSpace text))).
Proof.
  intros Hc Ho Ht Hl Hi Hr. set (rs := runes (TrimSpace text)) in *.
  assert (TrimSpace text ≠ []) as Hne.
  { intros E. subst rs. rewrite E in Hi. done. }
  pose proof (lookup_lt_Some _ _ _ Hi) as Hlt.
  destruct (decide (zlen rs <= chunkSize c)) as [Hle|Hle].
  { unfold Chunk in Hl. rewrite decide_False, (proj2 (Z.leb_le _ _)) in Hl by done.
    simplify_eq. exists (TrimSpace text), 0%nat. fold rs. rewrite drop_0, take_ge by done.
    split_and!; [set_solver|lia..|done]. }
  destruct (Chunk_windows c text) as (ws & Hws & E); fold rs; [lia|unfold int64_range; lia|done|lia|done|].
  rewrite Hl in E. simplify_eq. fold rs in Hws |- *.
  assert (∀ w, w ∈ ws → 0 <= w.1) as Hpos.
  { by apply Forall_forall, (windows_nonneg _ _ _ _ Hws). }
  destruct (windows_cover _ _ _ _ (Z.of_nat i) Hws) as (w & Hw & Hwi).
  { lia. } { lia. } { unfold zlen. lia. }
  { rewrite Nat2Z.id, Hi. intros [= ->]. done. }
  specialize (Hpos w Hw).
  destruct (window_trim_position rs w i r) as (start & k & Hk & E); [done..|].
  exists (window_text rs w), start. rewrite window_text_runes by apply runes_valid. fold rs.
  rewrite Hk. rewrite length_take, length_drop. split_and!; [|lia|lia|].
  - apply list_elem_of_filter. split; [|by apply list_elem_of_fmap_2].
    intros Hnil. apply (f_equal runes) in Hnil. rewrite window_text_runes in Hnil by apply runes_valid.
    fold rs in Hnil. rewrite Hk in Hnil. apply (f_equal length) in Hnil.
    rewrite length_take, length_drop in Hnil. simpl in Hnil. lia.
  - f_equal. lia.
Qed.
Example zero_chunks : Chunk (NewCharacterChunker 0 0) (lit "alpha beta") = Ok [].
Proof. vm_compute. reflexivity. Qed.
Lemma Chunk_cover_witness :
  ∃ ch start, ch ∈ [lit "alpha"; lit "a beta"] ∧ (start <= 7 < start + length (runes ch))%nat ∧
    runes ch = take (length (runes ch)) (drop start (runes (TrimSpace (lit " alpha beta")))).
Proof.
  apply (Chunk_cover (NewCharacterChunker 7 2) (lit " alpha beta") _ 7 101);
    [vm_compute; by split|vm_compute; by split|vm_compute; done|by vm_compute|done|done].
Defined.

(** [NeedsChunking] is a sound early-out: on a valid UTF-8 text for which it says no, [Chunk]
    returns the trimmed text as its only chunk, or no chunk when the text is blank. *)
Theorem NeedsChunking_false c rs :
  valid_runes rs → NeedsChunking c (of_runes rs) = false →
  Chunk c (of_runes rs) =
    Ok (if decide (TrimSpace (of_runes rs) = []) then [] else [TrimSpace (of_runes rs)]).
Proof.
  unfold NeedsChunking, Chunk. intros Hv Hn. zbool. rewrite RuneCount_of_runes in Hn by done.
  case_decide as He; [done|]. rewrite (proj2 (Z.leb_le _ _)); [done|].
  rewrite TrimSpace_of_runes, runes_of_runes by (done || by apply trim_runes_valid).
  pose proof (length_trim_runes rs). unfold zlen in *. lia.
Qed.
Lemma NeedsChunking_false_witness :
  valid_runes [32; 104; 233; 8195] ∧
  Chunk (NewCharacterChunker 4 1) (of_runes [32; 104; 233; 8195]) = Ok [of_runes [104; 233]].
Proof.
  split; [repeat constructor|].
  refine (eq_trans (NeedsChunking_false (NewCharacterChunker 4 1) [32; 104; 233; 8195] _ _) _);
    [repeat constructor|reflexivity|reflexivity].
Defined.
