(* ===== verification/TextTools.v ===== *)
(** Package [text]: truncation to a token budget ([token.go]), clean-up ([clean.go]), the query
    classifiers ([classify.go]) and the BM25 filter ([filter.go]). *)
From S2P Require Import Prelude Unicode Utf8 GoStrings Floats.
Local Open Scope Z_scope.

(** ** Tokens *)
Definition DefaultCharsPerToken : float := flit 35 1.
(** [math.Ceil]; the value of a float with a fractional part is below 2^53, so the conversion of
    its ceiling is exact. *)
Definition Ceil (x : float) : float :=
  match x with
  | S754_finite s m e =>
      if 0 <=? e then x else
      let d := 2 ^ (- e) in
      if s then (if Z.pos m <? d then S754_zero true else of_int (- (Z.pos m / d)))
      else of_int ((Z.pos m + d - 1) / d)
  | _ => x
  end.
Definition EstimateTokens (text : gostring) (charsPerToken : float) : Z :=
  if bool_decide (text = []) || fle charsPerToken fzero then 0
  else to_int (Ceil (fdiv (of_int (zlen text)) charsPerToken)).

(** The backward walk to a rune boundary. *)
Fixpoint boundary_loop (text : gostring) (n : nat) : outcome nat :=
  match n with
  | O => Ok O
  | S n' => let* b := index text (Z.of_nat n) in
            if RuneStart b then Ok n else boundary_loop text n'
  end.
Definition TruncateToTokenBudget (text : gostring) (maxTokens : Z) (charsPerToken : float)
    : outcome gostring :=
  if (maxTokens <=? 0) || bool_decide (text = []) then Ok [] else
  let maxBytes := to_int (fmul (of_int maxTokens) charsPerToken) in
  if zlen text <=? maxBytes then Ok text
  else if maxBytes <? 0 then slice text 0 maxBytes
  else let* n := boundary_loop text (Z.to_nat maxBytes) in slice text 0 (Z.of_nat n).

(** ** Clean-up *)
Definition CleanLines (s : gostring) : gostring :=
  Join (filter (λ l, l ≠ []) (TrimSpace <$> Split s 10)) [10].
Definition Truncate (s : gostring) (n : Z) : outcome gostring :=
  if zlen s <=? n then Ok s else slice s 0 n.
Definition TruncateRunes (s : gostring) (limit : Z) (suffix : gostring) : outcome gostring :=
  if zlen (runes s) <=? limit then Ok s
  else let* rs := slice (runes s) 0 limit in Ok (of_runes rs ++ suffix).
Definition TruncateAtWord (s : gostring) (maxLen : Z) : outcome gostring :=
  if zlen (runes s) <=? maxLen then Ok s else
  let* rs := slice (runes s) 0 maxLen in
  let truncated := of_runes rs in
  let cut := LastIndex truncated [32] in
  if cut <? Z.quot (zlen truncated) 2 then Ok (truncated ++ lit "...")
  else let* t := slice truncated 0 cut in Ok (t ++ lit "...").

(** ** Classification *)
Inductive QueryType := QtGeneral | QtFact | QtComparison | QtList | QtHowTo.
Definition any_of (q : gostring) (patterns : list gostring) : bool := existsb (Contains q) patterns.
Definition factPatterns : list gostring :=
  [lit "курс"; lit "цена"; lit "стоимость"; lit "сколько стоит"; lit "price"; lit "когда";
   lit "какой год"; lit "дата"; lit "who is"; lit "кто такой"; lit "кто это";
   lit "what is the"; lit "какой размер"; lit "население"].
Definition compPatterns : list gostring :=
  [lit " vs "; lit " versus "; lit " или "; lit "сравнение"; lit "сравни"; lit "отличи";
   lit "разниц"; lit "лучше"; lit "compare"; lit "difference"; lit "чем отличается";
   lit "что лучше"; lit "что выбрать"].
Definition listPatterns : list gostring :=
  [lit "какие"; lit "перечисли"; lit "список"; lit "назови"; lit "топ-"; lit "top ";
   lit "лучшие"; lit "best"; lit "list"; lit "enumerate"; lit "фреймворки"; lit "frameworks";
   lit "инструменты"; lit "tools"; lit "альтернативы"; lit "alternatives"].
Definition howtoPatterns : list gostring :=
  [lit "как "; lit "how to"; lit "how do"; lit "настроить"; lit "установить"; lit "сделать";
   lit "создать"; lit "setup"; lit "install"; lit "configure"; lit "пошагово";
   lit "step by step"; lit "guide"; lit "tutorial"].
Definition DetectQueryType (query : gostring) : QueryType :=
  let q := StringsToLower query in
  if any_of q factPatterns then QtFact
  else if any_of q compPatterns then QtComparison
  else if any_of q listPatterns then QtList
  else if any_of q howtoPatterns then QtHowTo
  else QtGeneral.

Inductive QueryDomain :=
| QdGeneral | QdWordPress | QdClaudeCode | QdGitHubRepo | QdLibDocs | QdHuggingFace.
Definition wpPatterns : list gostring :=
  [lit "wordpress"; lit "wp_"; lit "wp-cli"; lit "add_action"; lit "add_filter";
   lit "do_action"; lit "apply_filters"; lit "gutenberg"; lit "woocommerce"; lit "wp_enqueue";
   lit "wp_query"; lit "the_content"; lit "the_title"; lit "get_post"; lit "shortcode";
   lit "wp rest api"; lit "wp-json"; lit "wp_hook"; lit "wp_register";
   lit "register_post_type"; lit "register_taxonomy"; lit "have_posts"; lit "the_loop"].
Definition ccPatterns : list gostring :=
  [lit "claude code"; lit "claude-code"; lit "anthropic plugin"; lit "pretooluse";
   lit "posttooluse"; lit "claude.md"; lit "claude hook"; lit "claude skill";
   lit "claude command"; lit "knowledge-work-plugins"; lit "claude code plugin"].
Definition ghPatterns : list gostring :=
  [lit "library for"; lit "package for"; lit "github repo"; lit "find repo";
   lit "recommend library"; lit "best library"; lit "suggest package"; lit "npm package for";
   lit "go module for"; lit "pip package for"; lit "crate for"; lit "найди репо";
   lit "альтернативы"; lit "alternatives to"].
Definition hfPatterns : list gostring :=
  [lit "huggingface"; lit "hugging face"; lit "hf model"; lit "hf dataset"; lit "найди модель";
   lit "найти модель"; lit "модель для"; lit "лучшую модель"; lit "model for ";
   lit "best model for"; lit "find model"; lit "речевая модель"; lit "speech model";
   lit "vision model"; lit "language model for"; lit "gguf model"; lit "quantized model";
   lit "локальная llm"; lit "local llm"; lit "hf hub"; lit "hub model";
   lit "open source model"].
Definition libraries : list (gostring * gostring) :=
  [(lit "next.js", lit "next.js"); (lit "nextjs", lit "next.js");
   (lit "react native", lit "react-native"); (lit "react", lit "react");
   (lit "vue.js", lit "vue"); (lit "vuejs", lit "vue"); (lit "vue", lit "vue");
   (lit "angular", lit "angular"); (lit "svelte", lit "svelte"); (lit "solid.js", lit "solid");
   (lit "express.js", lit "express"); (lit "express", lit "express");
   (lit "nestjs", lit "nestjs"); (lit "nuxt", lit "nuxt"); (lit "remix", lit "remix");
   (lit "tailwindcss", lit "tailwindcss"); (lit "tailwind", lit "tailwindcss");
   (lit "prisma", lit "prisma"); (lit "drizzle", lit "drizzle-orm"); (lit "zod", lit "zod");
   (lit "trpc", lit "trpc"); (lit "playwright", lit "playwright");
   (lit "puppeteer", lit "puppeteer"); (lit "jest", lit "jest"); (lit "vitest", lit "vitest");
   (lit "cypress", lit "cypress"); (lit "webpack", lit "webpack"); (lit "vite", lit "vite");
   (lit "esbuild", lit "esbuild"); (lit "three.js", lit "three.js");
   (lit "threejs", lit "three.js"); (lit "d3.js", lit "d3"); (lit "d3", lit "d3");
   (lit "socket.io", lit "socket.io"); (lit "axios", lit "axios");
   (lit "tanstack", lit "tanstack-query"); (lit "react-query", lit "tanstack-query");
   (lit "zustand", lit "zustand"); (lit "jotai", lit "jotai"); (lit "redux", lit "redux");
   (lit "shadcn", lit "shadcn-ui"); (lit "radix", lit "radix-ui"); (lit "astro", lit "astro");
   (lit "gatsby", lit "gatsby"); (lit "deno", lit "deno"); (lit "bun", lit "bun");
   (lit "hono", lit "hono"); (lit "fastify", lit "fastify"); (lit "koa", lit "koa");
   (lit "fastapi", lit "fastapi"); (lit "django", lit "django"); (lit "flask", lit "flask");
   (lit "sqlalchemy", lit "sqlalchemy"); (lit "pydantic", lit "pydantic");
   (lit "celery", lit "celery"); (lit "pytest", lit "pytest");
   (lit "langchain", lit "langchain"); (lit "llamaindex", lit "llama-index");
   (lit "pandas", lit "pandas"); (lit "numpy", lit "numpy"); (lit "scipy", lit "scipy");
   (lit "pytorch", lit "pytorch"); (lit "tensorflow", lit "tensorflow");
   (lit "scikit-learn", lit "scikit-learn"); (lit "sklearn", lit "scikit-learn");
   (lit "matplotlib", lit "matplotlib"); (lit "streamlit", lit "streamlit");
   (lit "httpx", lit "httpx"); (lit "aiohttp", lit "aiohttp");
   (lit "beautifulsoup", lit "beautifulsoup4"); (lit "scrapy", lit "scrapy");
   (lit "gin ", lit "gin-gonic"); (lit "gin-gonic", lit "gin-gonic");
   (lit "echo ", lit "echo"); (lit "fiber ", lit "fiber"); (lit "gorm", lit "gorm");
   (lit "ent ", lit "ent"); (lit "cobra", lit "cobra"); (lit "viper", lit "viper");
   (lit "tokio", lit "tokio"); (lit "actix", lit "actix-web"); (lit "axum", lit "axum");
   (lit "serde", lit "serde"); (lit "reqwest", lit "reqwest");
   (lit "supabase", lit "supabase"); (lit "firebase", lit "firebase");
   (lit "mongodb", lit "mongodb"); (lit "mongoose", lit "mongoose");
   (lit "redis", lit "redis"); (lit "elasticsearch", lit "elasticsearch");
   (lit "docker", lit "docker"); (lit "kubernetes", lit "kubernetes");
   (lit "k8s", lit "kubernetes"); (lit "terraform", lit "terraform");
   (lit "pulumi", lit "pulumi"); (lit "htmx", lit "htmx"); (lit "alpine.js", lit "alpinejs");
   (lit "alpinejs", lit "alpinejs"); (lit "graphql", lit "graphql");
   (lit "apollo", lit "apollo-client"); (lit "stripe", lit "stripe");
   (lit "auth0", lit "auth0")].
Definition ExtractLibraryName (query : gostring) : gostring :=
  let q := StringsToLower query in
  match list_find (λ lib, Contains q lib.1 = true) libraries with
  | Some (_, lib) => lib.2
  | None => []
  end.
Definition DetectQueryDomain (query : gostring) : QueryDomain :=
  let q := StringsToLower query in
  if any_of q wpPatterns then QdWordPress
  else if any_of q ccPatterns then QdClaudeCode
  else if any_of q ghPatterns then QdGitHubRepo
  else if any_of q hfPatterns then QdHuggingFace
  else if decide (ExtractLibraryName query ≠ []) then QdLibDocs
  else QdGeneral.

(** ** The BM25 filter *)
Definition tokenize (s : gostring) : list gostring := Fields (StringsToLower s).
Definition termFreq (tokens : list gostring) (term : gostring) : Z :=
  zlen (filter (λ t, t = term) tokens).
Record BM25Filter := { topK : Z; k1 : float; b : float }.
Definition NewBM25Filter (topK : Z) : BM25Filter :=
  {| topK := topK; k1 := flit 15 1; b := flit 75 2 |}.

Section Filter.
(** [math.Log], whose last bit depends on the platform, and [sort.Slice], which is not stable. *)
Variable Log : float → float.
Variable SortSlice : ∀ A : Type, (A → A → bool) → list A → list A.

(** The score of one document; [n] is the number of documents. The count of documents with a term
    adds one per document for every time the query repeats the term. *)
Definition doc_freq (queryTerms : list gostring) (docs : list (list gostring)) (term : gostring) : Z :=
  zlen (filter (λ p, p.1 = term ∧ 0 < termFreq p.2 term)
          (queryTerms ≫= λ t, (λ doc, (t, doc)) <$> docs)).
Definition bm25_score (f : BM25Filter) (queryTerms : list gostring) (docs : list (list gostring))
    (avgDL : float) (doc : list gostring) : float :=
  let n := of_int (zlen docs) in
  let dl := of_int (zlen doc) in
  foldl (λ score term,
    let tf := of_int (termFreq doc term) in
    let d := of_int (doc_freq queryTerms docs term) in
    let half := flit 5 1 in
    let idf := Log (fadd fone (fdiv (fadd (fsub n d) half) (fadd d half))) in
    fadd score
      (fdiv (fmul idf (fmul tf (fadd (k1 f) fone)))
            (fadd tf (fmul (k1 f) (fadd (fsub fone (b f)) (fdiv (fmul (b f) dl) avgDL))))))
    fzero queryTerms.
Definition by_score_desc (a b : nat * float) : bool := flt b.2 a.2.
Definition Filter (f : BM25Filter) (chunks : list gostring) (query : gostring)
    : outcome (list gostring) :=
  if decide (chunks = []) then Ok [] else
  let queryTerms := tokenize query in
  if decide (queryTerms = []) then
    if zlen chunks <=? topK f then Ok chunks else slice chunks 0 (topK f)
  else
    let docs := tokenize <$> chunks in
    let n := zlen chunks in
    let totalLen := foldl (λ t d, t + zlen d) 0 docs in
    let avgDL := fdiv (of_int totalLen) (of_int n) in
    let results := imap (λ i doc, (i, bm25_score f queryTerms docs avgDL doc)) docs in
    let results := SortSlice _ by_score_desc results in
    let k := if n <? topK f then n else topK f in
    (* make([]string, 0, k) panics on a negative k *)
    if k <? 0 then Panic else
    let* rs := slice results 0 k in
    omap_list (λ r, of_opt (chunks !! r.1)) rs.
End Filter.

(** ** Truncation keeps whole runes *)
Lemma of_runes_split rs k : (k < length (of_runes rs))%nat →
  ∃ a r b, rs = a ++ r :: b ∧ (length (of_runes a) <= k < length (of_runes a) + length (EncodeRune r))%nat.
Proof.
  revert k. induction rs as [|r rs IH]; intros k Hk; [simpl in Hk; lia|].
  rewrite of_runes_cons, length_app in Hk. destruct (decide (k < length (EncodeRune r))%nat).
  - exists [], r, rs. split; [done|]. simpl. lia.
  - destruct (IH (k - length (EncodeRune r))%nat) as (a & x & b & -> & Hb); [lia|].
    exists (r :: a), x, b. split; [done|]. rewrite of_runes_cons, length_app. lia.
Qed.
Lemma boundary_loop_spec a r b k : valid_runes (a ++ r :: b) →
  (length (of_runes a) <= k < length (of_runes a) + length (EncodeRune r))%nat →
  boundary_loop (of_runes (a ++ r :: b)) k = Ok (length (of_runes a)).
Proof.
  intros Hv Hk. assert (valid_rune r = true) as Hr by (rewrite Forall_app, Forall_cons in Hv; naive_solver).
  destruct (EncodeRune_starts r Hr) as [(b0 & Hb0 & Hs) Hc].
  assert (∀ i, (i < length (EncodeRune r))%nat →
    of_runes (a ++ r :: b) !! (length (of_runes a) + i)%nat = EncodeRune r !! i) as Hl.
  { intros i Hi. rewrite of_runes_app, of_runes_cons, lookup_app_r by lia.
    rewrite lookup_app_l by lia. f_equal. lia. }
  remember (k - length (of_runes a))%nat as d eqn:Ed. revert k Hk Ed.
  induction d as [|d IH]; intros k Hk Ed.
  - assert (k = length (of_runes a)) as -> by lia.
    specialize (Hl 0%nat ltac:(pose proof (EncodeRune_length r); lia)). rewrite Nat.add_0_r in Hl.
    destruct (length (of_runes a)) as [|n] eqn:E; [done|]. cbn [boundary_loop].
    rewrite (proj2 (index_Ok _ (Z.of_nat (S n)) b0)) by (split; [lia|by rewrite Nat2Z.id, Hl]).
    simpl. unfold RuneStart. by rewrite Hs.
  - destruct k as [|k]; [lia|]. cbn [boundary_loop].
    destruct (Hc (S d)) as (c & Hcl & Hcc); [lia|]. rewrite <- Hl in Hcl by lia.
    replace (length (of_runes a) + S d)%nat with (S k) in Hcl by lia.
    rewrite (proj2 (index_Ok _ (Z.of_nat (S k)) c)) by (split; [lia|by rewrite Nat2Z.id]).
    simpl. unfold RuneStart. rewrite Hcc. simpl. apply IH; lia.
Qed.

(** A text of no bytes has no runes. *)
Lemma of_runes_nil rs : of_runes rs = [] → rs = [].
Proof.
  destruct rs as [|r rs]; [done|]. rewrite of_runes_cons. by intros [?%EncodeRune_nonempty _]%app_eq_nil.
Qed.
(** The longest run of leading runes whose bytes fit. *)
Definition longest_fit (rs : list rune) (n : nat) (maxBytes : Z) : Prop :=
  zlen (of_runes (take n rs)) <= maxBytes ∧
  ((n < length rs)%nat → maxBytes < zlen (of_runes (take (S n) rs))).
Lemma cut_at_boundary rs maxBytes :
  valid_runes rs → 0 <= maxBytes < zlen (of_runes rs) →
  ∃ n, (let* k := boundary_loop (of_runes rs) (Z.to_nat maxBytes) in slice (of_runes rs) 0 (Z.of_nat k)) =
         Ok (of_runes (take n rs)) ∧ longest_fit rs n maxBytes.
Proof.
  intros Hv Hl. destruct (of_runes_split rs (Z.to_nat maxBytes)) as (a & r & b & -> & Hk).
  { unfold zlen in Hl. lia. }
  rewrite (boundary_loop_spec a r b) by done. simpl. exists (length a). unfold longest_fit.
  rewrite take_app_length, slice_prefix, Nat2Z.id.
  - rewrite of_runes_app at 1. rewrite take_app_length. split; [done|].
    split; [unfold zlen; lia|]. intros _.
    replace (S (length a)) with (length (a ++ [r])) by (rewrite length_app; simpl; lia).
    change (a ++ r :: b) with (a ++ [r] ++ b). rewrite app_assoc, take_app_length, of_runes_app.
    unfold zlen. rewrite length_app, of_runes_cons, length_app. lia.
  - unfold zlen. rewrite of_runes_app, length_app. lia.
Qed.
(** C25: truncating valid UTF-8 text to a token budget panics exactly when there is text and a positive
    number of tokens whose budget in bytes comes out negative, as it does for a negative number of
    characters per token. Otherwise it keeps whole runes: the result is the longest run of
    leading runes whose bytes fit the budget, which is nothing without tokens. *)
Theorem TruncateToTokenBudget_spec rs maxTokens charsPerToken :
  valid_runes rs →
  let budget := if 0 <? maxTokens then to_int (fmul (of_int maxTokens) charsPerToken) else 0 in
  let r := TruncateToTokenBudget (of_runes rs) maxTokens charsPerToken in
  if decide (rs ≠ [] ∧ budget < 0) then r = Panic
  else ∃ n, r = Ok (of_runes (take n rs)) ∧ longest_fit rs n (Z.max 0 budget).
Proof.
  intros Hv budget r. subst r. unfold TruncateToTokenBudget. subst budget.
  destruct (Z.ltb_spec 0 maxTokens) as [Ht|Ht].
  2:{ rewrite (proj2 (Z.leb_le _ _)) by done. rewrite decide_False by lia. exists 0%nat. split; [done|].
      split; [done|]. intros Hn. destruct rs as [|r rs]; [simpl in Hn; lia|].
      change (take 1 (r :: rs)) with [r]. rewrite of_runes_cons. pose proof (EncodeRune_nonempty r).
      unfold zlen. destruct (EncodeRune r); [done|]. cbn [app length]. lia. }
  rewrite (proj2 (Z.leb_gt _ _)) by done. cbn [orb]. cbv zeta.
  set (maxBytes := to_int _). destruct (decide (rs = [])) as [->|Hne].
  { rewrite decide_False by (intros []; done). exists 0%nat. split; [done|]. split; [simpl; unfold zlen; simpl; lia|].
    simpl. lia. }
  rewrite bool_decide_false by (intros ?%of_runes_nil; done).
  pose proof (Zle_0_nat (length (of_runes rs))) as Hz. fold (zlen (of_runes rs)) in Hz.
  destruct (decide (maxBytes < 0)) as [Hm|Hm].
  - rewrite decide_True by done. rewrite (proj2 (Z.leb_gt _ _)) by lia.
    rewrite (proj2 (Z.ltb_lt _ _)) by done. unfold slice. by rewrite (proj2 (Z.leb_gt 0 maxBytes)) by lia.
  - rewrite decide_False by lia. rewrite Z.max_r by lia.
    destruct (Z.leb_spec (zlen (of_runes rs)) maxBytes) as [Hl|Hl].
    { exists (length rs). unfold longest_fit. rewrite take_ge by lia. split; [done|]. split; [done|]. lia. }
    rewrite (proj2 (Z.ltb_ge _ _)) by lia. apply cut_at_boundary; [done|lia].
Qed.
Lemma TruncateToTokenBudget_spec_witness :
  TruncateToTokenBudget (of_runes [1103; 1103; 8364; 97]) 2 (flit 35 1) = Ok (of_runes [1103; 1103; 8364]) ∧
  ∃ n, TruncateToTokenBudget (of_runes [1103; 1103; 8364; 97]) 2 (flit 35 1) =
       Ok (of_runes (take n [1103; 1103; 8364; 97])).
Proof.
  split; [vm_compute; reflexivity|].
  destruct (TruncateToTokenBudget_spec [1103; 1103; 8364; 97] 2 (flit 35 1)) as (n & E & _).
  - repeat constructor.
  - exists n. exact E.
Defined.

(** ** The documents with a term *)
(** The frequency the filter uses is the number of documents with the term times the number of
    times the query has the term. *)
Lemma doc_freq_repeats queryTerms docs term :
  doc_freq queryTerms docs term =
  zlen (filter (λ t, t = term) queryTerms) * zlen (filter (λ d, 0 < termFreq d term) docs).
Proof.
  unfold doc_freq. induction queryTerms as [|t ts IH]; [done|].
  rewrite bind_cons, filter_app, zlen_app, IH, filter_cons.
  assert (zlen (filter (λ p, p.1 = term ∧ 0 < termFreq p.2 term) ((λ doc, (t, doc)) <$> docs)) =
    if decide (t = term) then zlen (filter (λ d, 0 < termFreq d term) docs) else 0) as ->.
  { rewrite filter_fmap_list. unfold zlen at 1. rewrite length_fmap. simpl.
    case_decide as Ht.
    - unfold zlen. do 2 f_equal. apply list_filter_iff. naive_solver.
    - replace (filter _ docs) with (@nil (list gostring)); [done|].
      clear IH. symmetry. induction docs as [|d ds IHd]; [done|]. rewrite filter_cons_False; [done|naive_solver]. }
  case_decide; rewrite ?zlen_cons; lia.
Qed.

(** ** The filter selects the best chunks *)
Section FilterSpec.
Variable Log : float → float.
Variable SortSlice : ∀ A : Type, (A → A → bool) → list A → list A.
(** What [sort.Slice] promises: a permutation, sorted when the comparison is a strict weak order on
    the elements. *)
Hypothesis sort_perm : ∀ A less (l : list A), SortSlice A less l ≡ₚ l.
Hypothesis sort_sorted : ∀ A (less : A → A → bool) l,
  (∀ x y, x ∈ l → y ∈ l → less x y = true → less y x = false) →
  (∀ x y z, x ∈ l → y ∈ l → z ∈ l → less y x = false → less z y = false → less z x = false) →
  StronglySorted (λ x y, less y x = false) (SortSlice A less l).

Definition chunk_scores (f : BM25Filter) (chunks : list gostring) (query : gostring)
    : list float :=
  let docs := tokenize <$> chunks in
  let avgDL := fdiv (of_int (foldl (λ t d, t + zlen d) 0 docs)) (of_int (zlen chunks)) in
  bm25_score Log f (tokenize query) docs avgDL <$> docs.

Lemma omap_list_lookup {A} (l : list A) (ps : list nat) : Forall (λ i, (i < length l)%nat) ps →
  ∃ out, omap_list (λ i, of_opt (l !! i)) ps = Ok out ∧ Forall2 (λ i x, l !! i = Some x) ps out.
Proof.
  induction 1 as [|i ps Hi _ (out & E & Ho)]; [by exists []; split; [|constructor]|].
  apply lookup_lt_is_Some_2 in Hi as [x Hx]. exists (x :: out). rewrite omap_list_cons, Hx. simpl.
  rewrite E. split; [done|by constructor].
Qed.
Lemma omap_list_fst {A B} (f : nat → outcome B) (l : list (nat * A)) :
  omap_list (λ r, f r.1) l = omap_list f (fst <$> l).
Proof. induction l as [|x l IH]; [done|]. rewrite fmap_cons, !omap_list_cons. by rewrite IH. Qed.
Lemma StronglySorted_fst {A} (R : nat * A → nat * A → Prop) (Q : nat → nat → Prop)
    (P : nat * A → Prop) l :
  (∀ x y, P x → P y → R x y → Q x.1 y.1) → Forall P l → StronglySorted R l →
  StronglySorted Q (fst <$> l).
Proof.
  intros HQ HP Hs. induction Hs as [|x l Hs IH Hx]; [constructor|]. inversion HP; subst.
  rewrite fmap_cons. constructor; [by apply IH|]. apply Forall_fmap.
  rewrite Forall_forall in *. naive_solver.
Qed.
Lemma fst_imap {A B} (f : nat → A → B) (l : list A) :
  fst <$> imap (λ i x, (i, f i x)) l = seq 0 (length l).
Proof.
  apply list_eq. intros i. rewrite list_lookup_fmap, list_lookup_imap.
  destruct (l !! i) eqn:E; simpl.
  - symmetry. apply lookup_seq. split; [done|]. by eapply lookup_lt_Some.
  - symmetry. apply lookup_seq_ge. by apply lookup_ge_None.
Qed.
(** C24: a filter with a natural [topK] never fails and selects [topK] of the chunks, or all of them
    when there are fewer, each position at most once; without query terms the first ones; with
    them, when no score is NaN, in descending score order, and no chunk left out scores higher
    than one that is selected. *)
Theorem Filter_top f chunks query :
  0 <= topK f →
  ∃ out chosen rest,
    Filter Log SortSlice f chunks query = Ok out ∧
    Forall2 (λ i c, chunks !! i = Some c) chosen out ∧
    chosen ++ rest ≡ₚ seq 0 (length chunks) ∧ zlen out = Z.min (topK f) (zlen chunks) ∧
    (tokenize query = [] → chosen = seq 0 (length out)) ∧
    (tokenize query ≠ [] → Forall (λ s, not_nan s = true) (chunk_scores f chunks query) →
     StronglySorted (λ i j, ∀ x y, chunk_scores f chunks query !! i = Some x →
                                   chunk_scores f chunks query !! j = Some y → flt x y = false)
       (chosen ++ rest)).
Proof.
  intros Hk. unfold Filter. pose proof (zlen_nonneg chunks).
  assert (∀ k, 0 <= k <= zlen chunks → Forall2 (λ i c, chunks !! i = Some c)
    (seq 0 (Z.to_nat k)) (take (Z.to_nat k) chunks)) as Hseq.
  { intros k Hkl. apply Forall2_same_length_lookup_2; [rewrite length_seq, length_take;
      unfold zlen in *; lia|].
    intros i j c [-> Hi]%lookup_seq Hc. by rewrite lookup_take_lt in Hc by lia. }
  case_decide as E.
  { subst. exists [], [], []. split_and!; [done|constructor|done| |done|constructor].
    change (zlen (@nil gostring)) with 0. lia. }
  case_decide as Et.
  - set (k := Z.min (topK f) (zlen chunks)).
    exists (take (Z.to_nat k) chunks), (seq 0 (Z.to_nat k)),
           (seq (Z.to_nat k) (length chunks - Z.to_nat k)). split_and!.
    + case_match eqn:El; zbool.
      * rewrite take_ge by (unfold zlen in *; lia). done.
      * rewrite slice_prefix by lia. do 2 f_equal. lia.
    + apply Hseq. lia.
    + rewrite <- seq_app. replace (_ + _)%nat with (length chunks); [done|unfold zlen in *; lia].
    + unfold zlen. rewrite length_take. unfold zlen in *. lia.
    + intros _. f_equal. rewrite length_take. unfold zlen in *. lia.
    + done.
  - fold (chunk_scores f chunks query). cbv zeta.
    set (docs := tokenize <$> chunks). set (avg := fdiv _ _).
    set (res := imap _ docs). set (sorted := SortSlice _ _ res).
    assert (zlen sorted = zlen chunks) as Hlen.
    { unfold zlen, sorted. rewrite sort_perm. unfold res, docs. by rewrite length_imap, length_fmap. }
    assert (fst <$> sorted ≡ₚ seq 0 (length chunks)) as Hperm.
    { unfold sorted. rewrite sort_perm. unfold res. rewrite fst_imap. unfold docs.
      by rewrite length_fmap. }
    set (k := if zlen chunks <? topK f then zlen chunks else topK f).
    assert (0 <= k <= zlen chunks ∧ k = Z.min (topK f) (zlen chunks)) as [Hk' Hkm].
    { subst k. destruct (Z.ltb_spec (zlen chunks) (topK f)); lia. }
    rewrite (proj2 (Z.ltb_ge k 0)), slice_prefix by lia. simpl.
    rewrite (omap_list_fst (λ i, of_opt (chunks !! i))).
    destruct (omap_list_lookup chunks (fst <$> take (Z.to_nat k) sorted)) as (out & Eo & Ho).
    { apply Forall_forall. intros i Hi.
      assert (i ∈ seq 0 (length chunks)) as Hs%elem_of_seq; [|lia].
      rewrite <- Hperm, <- (take_drop (Z.to_nat k) sorted), fmap_app. set_solver. }
    exists out, (fst <$> take (Z.to_nat k) sorted), (fst <$> drop (Z.to_nat k) sorted).
    rewrite <- fmap_app, take_drop. split_and!; [done..| |done|].
    + apply Forall2_length in Ho. unfold zlen in *. rewrite <- Ho, length_fmap, length_take. lia.
    + intros _ Hn.
      assert (Forall (λ p, chunk_scores f chunks query !! p.1 = Some p.2) res) as Hres.
      { apply Forall_lookup. intros i p. unfold res. rewrite list_lookup_imap.
        unfold chunk_scores. fold docs avg. destruct (docs !! i) eqn:Ed; [|done].
        intros [= <-]. simpl. by rewrite list_lookup_fmap, Ed. }
      apply (StronglySorted_fst (λ x y, by_score_desc y x = false) _
        (λ p, chunk_scores f chunks query !! p.1 = Some p.2)).
      * intros x y Hx Hy Hxy sx sy. rewrite Hx, Hy. by intros [= <-] [= <-].
      * unfold sorted. by rewrite sort_perm.
      * assert (∀ p, p ∈ res → not_nan p.2 = true) as Hnn.
        { intros p Hp. rewrite Forall_forall in Hres. rewrite Forall_forall in Hn.
          eapply Hn, list_elem_of_lookup_2. by apply Hres. }
        apply sort_sorted; unfold by_score_desc.
        -- intros x y _ _. apply flt_asym.
        -- intros x y z Hx Hy Hz. apply flt_false_trans; auto.
Qed.
End FilterSpec.
Lemma Filter_top_witness :
  let f := NewBM25Filter 1 in
  let chunks := [lit "red fox"; lit "blue whale sings"] in
  ∃ out, Filter (λ x, x) (λ _, stable_sort) f chunks (lit "whale") = Ok out ∧
    out = [lit "blue whale sings"] ∧ zlen out = 1.
Proof.
  intros f chunks. exists [lit "blue whale sings"]. split; [vm_compute; reflexivity|]. split; [done|].
  destruct (Filter_top (λ x, x) (λ _, stable_sort) (λ _, stable_sort_perm)) with (f := f)
    (chunks := chunks) (query := lit "whale") as (out & ? & ? & E & _ & _ & Hz & _).
  - intros A less l H1 H2. apply (stable_sort_sorted less); [done|].
    intros y z w Hy Hz Hw. unfold ordered. intros Hyz Hzw. by apply (H2 y z w).
  - done.
  - assert (Ok out = Ok [lit "blue whale sings"]) as [= ->] by (rewrite <- E; vm_compute; reflexivity).
    exact Hz.
Defined.

