(* ===== verification/BlockCache.v ===== *)
(** Package [fetch], [blockcache.go]: the cache of hosts that block direct requests. The map
    [items] is a finite map, [order] the insertion-order slice; the clock is an argument of the
    operations that read it. Every method runs under the cache's mutex, so an execution is a
    sequence of operations. *)
From S2P Require Import Prelude Unicode Utf8 GoStrings Effects.
Local Open Scope Z_scope.

Definition defaultBlockTTL : Z := 10 * Minute.
Definition defaultBlockCacheCap : Z := 1024.

Record DirectBlockCache := {
  items : gmap gostring Z;   (* host → unblock-at *)
  order : list gostring;     (* insertion order for eviction *)
  ttl : Z;
  cap : Z
}.
Definition set_items (c : DirectBlockCache) m : DirectBlockCache :=
  {| items := m; order := order c; ttl := ttl c; cap := cap c |}.
Definition set_order (c : DirectBlockCache) l : DirectBlockCache :=
  {| items := items c; order := l; ttl := ttl c; cap := cap c |}.

Definition NewDirectBlockCache (ttl cap : Z) : DirectBlockCache :=
  let ttl := if ttl <=? 0 then defaultBlockTTL else ttl in
  let cap := if cap <=? 0 then defaultBlockCacheCap else cap in
  {| items := ∅; order := []; ttl := ttl; cap := cap |}.

Definition IsBlocked (host : gostring) (now : Z) (c : DirectBlockCache)
    : bool * DirectBlockCache :=
  match items c !! host with
  | None => (false, c)
  | Some unblockAt =>
      if unblockAt <? now then (false, set_items c (delete host (items c))) else (true, c)
  end.

(** [evictOldest]: the loop of the method, on [order]. *)
Fixpoint evict_loop (l : list gostring) (m : gmap gostring Z)
    : list gostring * gmap gostring Z :=
  match l with
  | [] => ([], m)
  | oldest :: l =>
      match m !! oldest with
      | Some _ => (l, delete oldest m)
      | None => evict_loop l m
      end
  end.
Definition evictOldest (c : DirectBlockCache) : DirectBlockCache :=
  let '(l, m) := evict_loop (order c) (items c) in
  {| items := m; order := l; ttl := ttl c; cap := cap c |}.

Definition Len (c : DirectBlockCache) : Z := Z.of_nat (size (items c)).

Definition Mark (host : gostring) (now : Z) (c : DirectBlockCache) : DirectBlockCache :=
  let c := match items c !! host with
           | Some _ => c
           | None =>
               let c := if cap c <=? Len c then evictOldest c else c in
               set_order c (order c ++ [host])
           end in
  set_items c (<[host := now + ttl c]> (items c)).

(** The loop of [Unmark]: the first occurrence is removed. *)
Fixpoint remove_first (host : gostring) (l : list gostring) : list gostring :=
  match l with
  | [] => []
  | h :: l => if decide (h = host) then l else h :: remove_first host l
  end.
Definition Unmark (host : gostring) (c : DirectBlockCache) : DirectBlockCache :=
  match items c !! host with
  | None => c
  | Some _ => set_order (set_items c (delete host (items c))) (remove_first host (order c))
  end.

(** ** Executions *)
Inductive op := OpIsBlocked (host : gostring) (now : Z) | OpMark (host : gostring) (now : Z)
              | OpUnmark (host : gostring) | OpLen.
Definition step (o : op) (c : DirectBlockCache) : DirectBlockCache :=
  match o with
  | OpIsBlocked h t => (IsBlocked h t c).2
  | OpMark h t => Mark h t c
  | OpUnmark h => Unmark h c
  | OpLen => c
  end.
Definition run (l : list op) (c : DirectBlockCache) : DirectBlockCache :=
  foldl (λ c o, step o c) c l.

Definition is_IsBlocked (o : op) : bool :=
  match o with OpIsBlocked _ _ => true | _ => false end.

(** ** Well-formed caches: a tracked host is in [order], and the capacity is respected *)
Record wf (c : DirectBlockCache) : Prop := {
  wf_order : ∀ h, is_Some (items c !! h) → h ∈ order c;
  wf_cap : 1 <= cap c;
  wf_size : Len c <= cap c
}.
(** Tight caches: [order] lists exactly the tracked hosts, once each. *)
Record tight (c : DirectBlockCache) : Prop := {
  tight_nodup : NoDup (order c);
  tight_dom : ∀ h, h ∈ order c ↔ is_Some (items c !! h)
}.

Lemma NewDirectBlockCache_wf t k : wf (NewDirectBlockCache t k).
Proof.
  split; simpl.
  - intros h [? Hh]. by rewrite lookup_empty in Hh.
  - destruct (Z.leb_spec k 0); unfold defaultBlockCacheCap; lia.
  - unfold Len. simpl. rewrite map_size_empty.
    destruct (Z.leb_spec k 0); unfold defaultBlockCacheCap; lia.
Qed.

(** What an eviction does: the first tracked host of [order] goes, with everything before it. *)
Lemma evict_loop_spec l m :
  match list_find (λ h, is_Some (m !! h)) l with
  | Some (i, h) => evict_loop l m = (drop (S i) l, delete h m)
  | None => evict_loop l m = ([], m)
  end.
Proof.
  induction l as [|h l IH]; simpl; [done|].
  destruct (m !! h) eqn:E.
  - rewrite decide_True by done. simpl. by rewrite drop_0.
  - rewrite decide_False by (by intros [? ?]).
    destruct (list_find _ l) as [[i k]|]; simpl in *; done.
Qed.

Lemma size_delete_present (m : gmap gostring Z) h : is_Some (m !! h) →
  Z.of_nat (size (delete h m)) = Z.of_nat (size m) - 1.
Proof.
  intros [x Hx]. rewrite map_size_delete_Some by done.
  enough (size m ≠ 0%nat) by lia. rewrite map_size_non_empty_iff. intros ->.
  by rewrite lookup_empty in Hx.
Qed.

Lemma evictOldest_spec c : wf c → 1 <= Len c →
  ∃ i h, list_find (λ h, is_Some (items c !! h)) (order c) = Some (i, h) ∧
    is_Some (items c !! h) ∧
    items (evictOldest c) = delete h (items c) ∧
    order (evictOldest c) = drop (S i) (order c).
Proof.
  intros Hwf Hl. unfold evictOldest.
  pose proof (evict_loop_spec (order c) (items c)) as Hs.
  destruct (list_find _ (order c)) as [[i h]|] eqn:E.
  - rewrite Hs. exists i, h. apply list_find_Some in E as (_ & ? & _). done.
  - exfalso. destruct (map_choose (items c)) as (h & x & Hx).
    { intros He. unfold Len in Hl. rewrite He, map_size_empty in Hl. lia. }
    assert (is_Some (items c !! h)) as Hh by eauto.
    apply list_find_None in E. rewrite Forall_forall in E.
    apply (E h); [by apply (wf_order c)|done].
Qed.

(** Every tracked host other than the evicted one still has an entry in [order]. *)
Lemma drop_find_keeps (m : gmap gostring Z) l i h k :
  list_find (λ h, is_Some (m !! h)) l = Some (i, h) →
  k ∈ l → is_Some (m !! k) → k ≠ h → k ∈ drop (S i) l.
Proof.
  intros (Hi & _ & Hmin)%list_find_Some Hk Hm Hne.
  apply list_elem_of_lookup in Hk as [j Hj].
  apply list_elem_of_lookup. exists (j - S i)%nat. rewrite lookup_drop. rewrite <- Hj. f_equal.
  destruct (decide (j < i)%nat) as [Hlt|]; [by destruct (Hmin j k Hj Hlt)|].
  destruct (decide (j = i)) as [->|]; [congruence|lia].
Qed.

Lemma remove_first_other h k l : k ≠ h → k ∈ remove_first h l ↔ k ∈ l.
Proof.
  intros Hk. induction l as [|x l IH]; simpl; [done|]. case_decide; set_solver.
Qed.
Lemma remove_first_nodup h l : NoDup l → NoDup (remove_first h l) ∧ h ∉ remove_first h l.
Proof.
  induction 1 as [|x l Hx Hl [IH1 IH2]]; simpl; [by split; [constructor|set_solver]|].
  case_decide; [by subst|]. split; [|set_solver].
  constructor; [|done]. by rewrite remove_first_other.
Qed.

(** ** Preservation of well-formedness *)
Lemma IsBlocked_wf h t c : wf c → wf (IsBlocked h t c).2.
Proof.
  intros [Ho Hc Hs]. unfold IsBlocked. cases. split; simpl; [|done|].
  - intros k [x Hx]. apply lookup_delete_Some in Hx as [_ Hx]. eauto.
  - unfold Len in *. simpl. rewrite size_delete_present by eauto. lia.
Qed.
Lemma IsBlocked_ttl h t c : ttl (IsBlocked h t c).2 = ttl c.
Proof. unfold IsBlocked. destruct (items c !! h) as [u|]; [by destruct (u <? t)|done]. Qed.
Lemma Unmark_wf h c : wf c → wf (Unmark h c).
Proof.
  intros [Ho Hc Hs]. unfold Unmark. case_match; [|done]. split; simpl; [|done|].
  - intros k [x Hx]. apply lookup_delete_Some in Hx as [Hk Hx].
    rewrite remove_first_other by done. eauto.
  - unfold Len in *. simpl. rewrite size_delete_present by eauto. lia.
Qed.
(** A new host finds room: the cache is well formed and not full when it is inserted. *)
Lemma make_room_spec c : wf c →
  let c' := if cap c <=? Len c then evictOldest c else c in
  (∀ h, is_Some (items c' !! h) → h ∈ order c') ∧ Len c' < cap c ∧ cap c' = cap c ∧
  ttl c' = ttl c.
Proof.
  intros Hwf. pose proof Hwf as [Ho Hc Hs]. simpl.
  destruct (Z.leb_spec (cap c) (Len c)) as [Hf|]; [|by split_and!].
  destruct (evictOldest_spec c) as (i & h & Hf' & Hh & Hi & Hord); [done|lia|].
  split_and!; [|unfold Len in *; rewrite Hi, size_delete_present by done; lia| |].
  - intros k. rewrite Hi, Hord. intros [x Hx]. apply lookup_delete_Some in Hx as [Hk Hx].
    eapply drop_find_keeps; eauto.
  - unfold evictOldest. by destruct (evict_loop _ _).
  - unfold evictOldest. by destruct (evict_loop _ _).
Qed.
Lemma Mark_wf h t c : wf c → wf (Mark h t c).
Proof.
  intros Hwf. pose proof Hwf as [Ho Hc Hs]. unfold Mark. destruct (items c !! h) as [x|] eqn:E.
  - split; simpl; [|done|].
    + intros k [y Hy]. apply lookup_insert_Some in Hy as [[<- _]|[_ ?]]; apply Ho; eauto.
    + unfold Len in *. simpl. rewrite map_size_insert_Some by eauto. done.
  - destruct (make_room_spec c Hwf) as (Ho' & Hl & Hcap & _).
    set (c' := if cap c <=? Len c then evictOldest c else c) in *.
    split; simpl; [|lia|].
    + intros k [y Hy]. rewrite elem_of_app, list_elem_of_singleton.
      apply lookup_insert_Some in Hy as [[<- _]|[_ ?]]; [by right|left; apply Ho'; eauto].
    + unfold Len in *. simpl. rewrite map_size_insert. destruct (items c' !! h); simpl; lia.
Qed.
Lemma step_wf o c : wf c → wf (step o c).
Proof. destruct o; simpl; auto using IsBlocked_wf, Mark_wf, Unmark_wf. Qed.
Lemma run_wf l c : wf c → wf (run l c).
Proof. revert c. induction l as [|o l IH]; intros c Hc; [done|]. by apply IH, step_wf. Qed.

Lemma Mark_tight h t c : wf c → tight c → tight (Mark h t c).
Proof.
  intros Hwf [Hnd Hdom]. unfold Mark. destruct (items c !! h) as [x|] eqn:E.
  - split; simpl; [done|]. intros k. rewrite Hdom, lookup_insert_is_Some.
    destruct (decide (h = k)) as [<-|]; [split; eauto|naive_solver].
  - set (c' := if cap c <=? Len c then evictOldest c else c).
    assert (tight c' ∧ items c' !! h = None) as [[Hnd' Hdom'] Hn].
    { subst c'. destruct (Z.leb_spec (cap c) (Len c)); [|by split].
      destruct (evictOldest_spec c) as (i & k & Hf & Hk & Hi & Hord); [done|destruct Hwf; lia|].
      split; [|by rewrite Hi, lookup_delete_None; right].
      apply list_find_Some in Hf as (Hik & _ & Hmin).
      assert (order c = take i (order c) ++ k :: drop (S i) (order c)) as Hsplit.
      { by rewrite (take_drop_middle _ _ _ Hik). }
      rewrite Hsplit in Hnd. apply NoDup_app in Hnd as (_ & _ & [Hkd Hnd]%NoDup_cons).
      split; rewrite Hord; [done|]. intros j. rewrite Hi, lookup_delete_is_Some, <- Hdom.
      split; [intros Hj; split; [by intros ?; subst|]|intros [Hjk Hj]].
      - rewrite Hsplit. set_solver.
      - eapply drop_find_keeps; [|done|by apply Hdom|by intros ?; subst].
        apply list_find_Some. by split_and!. }
    split; simpl.
    + apply NoDup_app. split_and!; [done| |by repeat constructor; set_solver].
      intros k Hk. apply Hdom' in Hk as [? Hk]. intros ->%list_elem_of_singleton. congruence.
    + intros k. rewrite elem_of_app, list_elem_of_singleton, lookup_insert_is_Some, Hdom'.
      destruct (decide (h = k)); naive_solver.
Qed.
Lemma Unmark_tight h c : tight c → tight (Unmark h c).
Proof.
  intros [Hnd Hdom]. unfold Unmark. case_match eqn:E; [|done].
  destruct (remove_first_nodup h (order c) Hnd) as [Hnd' Hh]. split; simpl; [done|].
  intros k. rewrite lookup_delete_is_Some. destruct (decide (k = h)) as [->|].
  - split; [done|naive_solver].
  - rewrite remove_first_other, Hdom by done. naive_solver.
Qed.

(** ** Properties *)
(** every execution from a new cache keeps the cache within its capacity, and every tracked
    host has an entry in [order], so an eviction always finds a victim. *)
Theorem run_bounded t k l :
  let c := run l (NewDirectBlockCache t k) in
  Len c <= cap c ∧ cap c = (if k <=? 0 then 1024 else k) ∧
  (∀ h, is_Some (items c !! h) → h ∈ order c).
Proof.
  simpl. pose proof (run_wf l _ (NewDirectBlockCache_wf t k)) as [Ho Hc Hs].
  split_and!; [done| |done]. clear.
  assert (∀ c, cap (run l c) = cap c) as ->; [|done].
  induction l as [|o l IH]; intros c; [done|]. cbn [run foldl]. fold (run l (step o c)).
  rewrite IH. destruct o as [h u|h u|h|]; simpl; [..|done].
  - unfold IsBlocked. by cases.
  - unfold Mark. destruct (items c !! h); [done|]. unfold evictOldest.
    destruct (cap c <=? Len c); [by destruct (evict_loop _ _)|done].
  - unfold Unmark. by destruct (items c !! h).
Qed.

(** What the cache promises: whether a host is blocked at a time. *)
Definition blocked (c : DirectBlockCache) (h : gostring) (now : Z) : bool :=
  match items c !! h with Some u => now <=? u | None => false end.

Lemma IsBlocked_blocked h t c : (IsBlocked h t c).1 = blocked c h t.
Proof.
  unfold IsBlocked, blocked. destruct (items c !! h) as [u|]; [|done].
  rewrite Z.leb_antisym. by destruct (u <? t).
Qed.
Lemma IsBlocked_keeps h t c h' t' : t <= t' → blocked (IsBlocked h t c).2 h' t' = blocked c h' t'.
Proof.
  intros Ht. unfold IsBlocked, blocked. destruct (items c !! h) as [u|] eqn:E; [|done].
  destruct (Z.ltb_spec u t); simpl; [|done].
  destruct (decide (h' = h)) as [->|]; [|by rewrite lookup_delete_ne].
  rewrite lookup_delete_eq, E. symmetry. apply Z.leb_gt. lia.
Qed.
Lemma Unmark_blocked h c h' t' :
  blocked (Unmark h c) h' t' = if decide (h' = h) then false else blocked c h' t'.
Proof.
  unfold Unmark, blocked. destruct (items c !! h) eqn:E; simpl.
  - destruct (decide (h' = h)) as [->|]; [by rewrite lookup_delete_eq|by rewrite lookup_delete_ne].
  - destruct (decide (h' = h)) as [->|]; [by rewrite E|done].
Qed.

Lemma Mark_blocked h t c t' : wf c → blocked (Mark h t c) h t' = (t' <=? t + ttl c).
Proof.
  intros Hwf. unfold Mark, blocked. simpl. rewrite lookup_insert_eq. f_equal. f_equal.
  destruct (items c !! h); [done|]. simpl. by destruct (make_room_spec c Hwf) as (_ & _ & _ & ->).
Qed.

(** What is blocked was blocked before or has been marked since. *)
Lemma blocked_older c c' h t : items c' ⊆ items c → blocked c' h t = true → blocked c h t = true.
Proof.
  intros Hsub. unfold blocked. destruct (items c' !! h) as [u|] eqn:E; [|done].
  by rewrite (lookup_weaken _ _ _ _ E Hsub).
Qed.
Lemma IsBlocked_older h t c : items (IsBlocked h t c).2 ⊆ items c.
Proof.
  unfold IsBlocked. destruct (items c !! h) as [u|]; [|done].
  destruct (u <? t); [apply delete_subseteq|done].
Qed.
Lemma evict_loop_older l m : (evict_loop l m).2 ⊆ m.
Proof. induction l as [|h l IH]; simpl; [done|]. destruct (m !! h); [apply delete_subseteq|done]. Qed.
Lemma Mark_other h t c h' t' : h' ≠ h → blocked (Mark h t c) h' t' = true → blocked c h' t' = true.
Proof.
  intros Hne. unfold blocked at 1, Mark. cbn [items set_items]. rewrite lookup_insert_ne by done.
  destruct (items c !! h); [done|]. destruct (cap c <=? Len c); [|done]. unfold evictOldest.
  pose proof (evict_loop_older (order c) (items c)) as He.
  destruct (evict_loop (order c) (items c)) as [l m]. simpl in *.
  exact (blocked_older c (set_items c m) h' t' He).
Qed.
Lemma run_marks_blocked {A} (label : A → gostring) (rs : list A) (times : list Z) c h t :
  blocked (run (zip_with (λ r t, OpMark (label r) t) rs times) c) h t = true →
  blocked c h t = true ∨ h ∈ label <$> rs.
Proof.
  revert times c. induction rs as [|r rs IH]; intros times c; [by left|].
  destruct times as [|t0 times]; [by left|]. cbn [zip_with]. unfold run. cbn [foldl].
  intros [Hb|Hin]%IH; rewrite fmap_cons, elem_of_cons; [|by right; right].
  destruct (decide (h = label r)) as [->|Hne]; [by right; left|]. left. by eapply Mark_other.
Qed.

(** C31: the cache refines the map from hosts to the time until which they are blocked: [IsBlocked]
    answers from it and does not change any later answer, [Mark] blocks the host for exactly the
    TTL and forgets at most one other host, only to make room, and [Unmark] forgets exactly the
    host. *)
Theorem cache_refines c h t :
  wf c →
  (IsBlocked h t c).1 = blocked c h t ∧
  (∀ h' t', t <= t' → blocked (IsBlocked h t c).2 h' t' = blocked c h' t') ∧
  (∀ t', blocked (Mark h t c) h t' = (t' <=? t + ttl c)) ∧
  (∃ victim : option gostring,
     (victim ≠ None → items c !! h = None ∧ Len c = cap c) ∧
     ∀ h' t', h' ≠ h → blocked (Mark h t c) h' t' =
       if decide (victim = Some h') then false else blocked c h' t') ∧
  (∀ h' t', blocked (Unmark h c) h' t' = if decide (h' = h) then false else blocked c h' t').
Proof.
  intros Hwf. split_and!; [apply IsBlocked_blocked|by intros; apply IsBlocked_keeps|..].
  - intros t'. by apply Mark_blocked.
  - unfold Mark, blocked. destruct (items c !! h) as [u|] eqn:E.
    { exists None. split; [done|]. intros h' t' Hh. simpl. by rewrite lookup_insert_ne. }
    destruct (Z.leb_spec (cap c) (Len c)) as [Hf|Hf]; simpl.
    + pose proof (wf_cap c Hwf). pose proof (wf_size c Hwf).
      destruct (evictOldest_spec c) as (i & k & _ & _ & Hi & _); [done|lia|].
      exists (Some k). split; [intros _; split; [done|lia]|]. intros h' t' Hh.
      rewrite lookup_insert_ne, Hi by done. destruct (decide (Some k = Some h')) as [[= ->]|Hk].
      * by rewrite lookup_delete_eq.
      * rewrite lookup_delete_ne by congruence. done.
    + exists None. split; [done|]. intros h' t' Hh. simpl. by rewrite lookup_insert_ne.
  - intros h' t'. apply Unmark_blocked.
Qed.
Lemma cache_refines_witness :
  let c := Mark (lit "a") 5 (NewDirectBlockCache 10 1) in
  blocked (Mark (lit "b") 7 c) (lit "b") 17 = true ∧ wf c.
Proof.
  assert (wf (Mark (lit "a") 5 (NewDirectBlockCache 10 1))) as Hwf
    by apply Mark_wf, NewDirectBlockCache_wf.
  split; [|exact Hwf].
  destruct (cache_refines (Mark (lit "a") 5 (NewDirectBlockCache 10 1)) (lit "b") 7 Hwf)
    as (_ & _ & H & _).
  rewrite H. reflexivity.
Defined.

(** as long as no entry is dropped by [IsBlocked], [order] lists exactly the tracked hosts in
    insertion order, and marking a new host in a full cache evicts the head of [order]: eviction
    is first in, first out. *)
Theorem eviction_fifo t k l h now :
  Forall (λ o, is_IsBlocked o = false) l →
  let c := run l (NewDirectBlockCache t k) in
  Z.of_nat (length (order c)) = Len c ∧
  (items c !! h = None → Len c = cap c →
   ∃ h0 rest, order c = h0 :: rest ∧ order (Mark h now c) = rest ++ [h] ∧
     items (Mark h now c) = <[h := now + ttl c]> (delete h0 (items c))).
Proof.
  intros Hl. simpl. set (c := run l _).
  assert (wf c) as Hwf by apply run_wf, NewDirectBlockCache_wf.
  assert (tight c) as [Hnd Hdom].
  { subst c. clear Hwf. pose proof (NewDirectBlockCache_wf t k) as Hw.
    assert (tight (NewDirectBlockCache t k)) as Ht.
    { split; simpl; [constructor|]. intros j. rewrite lookup_empty, is_Some_alt. set_solver. }
    revert Hw Ht. generalize (NewDirectBlockCache t k) as c.
    induction Hl as [|o l Ho _ IH]; intros c Hw Ht; [done|]. apply IH; [by apply step_wf|].
    destruct o; [done|by apply Mark_tight|by apply Unmark_tight|done]. }
  split.
  - unfold Len. f_equal. rewrite <- (size_dom (D := gset gostring)).
    rewrite <- (size_list_to_set (C := gset gostring) (order c)) by done. f_equal.
    apply set_eq. intros j. rewrite elem_of_list_to_set, elem_of_dom. apply Hdom.
  - intros Hn Hf. destruct (evictOldest_spec c) as (i & h0 & Hfind & Hh0 & Hi & Hord).
    { done. } { destruct Hwf. lia. }
    destruct (order c) as [|h1 rest] eqn:Eo; [done|].
    assert (is_Some (items c !! h1)) as H1 by (apply Hdom; set_solver).
    simpl in Hfind. rewrite decide_True in Hfind by done. simplify_eq.
    exists h0, rest. unfold Mark. rewrite Hn, (proj2 (Z.leb_le _ _)) by lia. simpl.
    rewrite Hord, Hi. simpl. rewrite drop_0. split_and!; [done..|].
    f_equal. unfold evictOldest. by destruct (evict_loop _ _).
Qed.
Lemma eviction_fifo_witness :
  let c := run [OpMark (lit "a") 0; OpMark (lit "b") 1; OpUnmark (lit "a"); OpMark (lit "a") 2]
             (NewDirectBlockCache 10 2) in
  ∃ h0 rest, order c = h0 :: rest ∧ order (Mark (lit "c") 3 c) = rest ++ [lit "c"] ∧
    items (Mark (lit "c") 3 c) = <[lit "c" := 3 + ttl c]> (delete h0 (items c)).
Proof.
  refine (proj2 (eviction_fifo 10 2 [OpMark (lit "a") 0; OpMark (lit "b") 1; OpUnmark (lit "a");
    OpMark (lit "a") 2] (lit "c") 3 _) _ _); [repeat constructor|reflexivity|reflexivity].
Defined.

(** ** The entry that expiry leaves behind in [order] *)
(** One cycle: mark the host, and look it up after the TTL has expired. *)
Definition cycle (h : gostring) (k : Z) (i : nat) : list op :=
  [OpMark h (Z.of_nat i * (k + 1)); OpIsBlocked h (Z.of_nat (S i) * (k + 1))].
Definition cycles (h : gostring) (k : Z) (n : nat) : list op := seq 0 n ≫= cycle h k.

(** [order] is not bounded by the capacity: [n] rounds of marking one host and looking it up
    after its TTL leave [n] entries in [order] although the cache tracks no host. *)
Theorem order_leaks h n :
  let c := run (cycles h 10 n) (NewDirectBlockCache 10 1) in
  Len c = 0 ∧ order c = replicate n h.
Proof.
  simpl. enough (run (cycles h 10 n) (NewDirectBlockCache 10 1) =
    {| items := ∅; order := replicate n h; ttl := 10; cap := 1 |}) as ->.
  { split; [unfold Len; simpl; by rewrite map_size_empty|done]. }
  unfold cycles. induction n as [|n IH]; [done|].
  rewrite seq_S, bind_app. unfold run in *. rewrite foldl_app, IH. simpl.
  unfold Mark, Len. simpl. rewrite lookup_empty, map_size_empty. simpl.
  unfold IsBlocked. simpl. rewrite lookup_insert_eq.
  rewrite (proj2 (Z.ltb_lt _ _)) by lia. simpl.
  rewrite delete_insert_id by apply lookup_empty.
  unfold set_items. simpl. f_equal. by rewrite <- replicate_S_end.
Qed.

(** A stale entry also turns the eviction order around: [b] was inserted before the second
    insertion of [a], and [a] is evicted. *)
Example stale_entry_evicts_newer :
  let c := run [OpMark (lit "a") 0; OpIsBlocked (lit "a") 20; OpMark (lit "b") 21;
                OpMark (lit "a") 22; OpMark (lit "c") 23] (NewDirectBlockCache 10 2) in
  (blocked c (lit "a") 24, blocked c (lit "b") 24, blocked c (lit "c") 24) = (false, true, true).
Proof. vm_compute. done. Qed.
