(* ===== verification/Retry.v ===== *)
(** The retry loop and the per-URL retry tracker the fetcher uses (vendored go-stealth,
    [retry.go] and [retry_tracker.go]). Waiting, the context and randomness belong to the world
    [W]; the attempt itself is an argument. *)
From S2P Require Import Prelude Unicode Utf8 GoStrings Floats Effects.
Local Open Scope Z_scope.

Record RetryConfig := {
  MaxRetries : Z; InitialWait : Z; MaxWait : Z; Multiplier : float; JitterPct : float
}.
Definition DefaultRetryConfig : RetryConfig :=
  {| MaxRetries := 3; InitialWait := 500 * Millisecond; MaxWait := 10 * Second;
     Multiplier := of_int 2; JitterPct := fzero |}.

Definition IsRetryableStatus (code : Z) : bool := bool_decide (code ∈ [429; 500; 502; 503; 504]).
Definition IsRetryable (err : error) : bool :=
  match as_http_status err with
  | Some code => IsRetryableStatus code
  | None =>
      if as_net_kind NetOp err then true
      else if as_net_kind NetDNS err then true
      else match as_net_error err with Some timeout => timeout | None => false end
  end.

(** The wait before the retry that follows attempt [attempt]; [rnd] is the random number in
    [0, 1) drawn when there is jitter. *)
Definition backoff (rc : RetryConfig) (attempt : Z) (rnd : float) : Z :=
  let wait := to_int (fmul (of_int (InitialWait rc)) (Pow (Multiplier rc) attempt)) in
  let wait := if MaxWait rc <? wait then MaxWait rc else wait in
  if flt fzero (JitterPct rc) then
    let jitter := fmul (fmul (of_int wait) (JitterPct rc)) (fsub (fmul (of_int 2) rnd) fone) in
    let wait := iadd wait (to_int jitter) in
    if wait <? 0 then 0 else wait
  else wait.

(** What the world offers to a computation that waits. *)
Class Clock (W : Type) := {
  now : W → Z;
  ctx_err : ctx → W → option error;
  (** Wait for a duration or until the context is done, whichever the select takes. *)
  wait_or_done : ctx → Z → W → option error * W;
  random : W → float * W;
  (** The hook a context carries, called with the attempt, the maximum and the error. *)
  retry_hook : ctx → Z → Z → error → W → W
}.

Section RetryDo.
Context {W : Type} `{Clock W} {A : Type}.
Variables (cx : ctx) (rc : RetryConfig) (fn : M W (result A)).

(** The loop: [n] bounds the attempts left, [lastErr] is the error of the previous attempt. *)
Fixpoint retry_loop (n : nat) (attempt : Z) (lastErr : error) (w : W) : result A * W :=
  match n with
  | O => (Err lastErr, w)
  | S n =>
      match ctx_err cx w with
      | Some e => (Err e, w)
      | None =>
          let '(r, w) := fn w in
          match r with
          | Val a => (Val a, w)
          | Err e =>
              if negb (IsRetryable e) then (Err e, w) else
              if attempt <? MaxRetries rc then
                let w := retry_hook cx (attempt + 1) (MaxRetries rc) e w in
                let '(rnd, w) := if flt fzero (JitterPct rc) then random w else (fzero, w) in
                let '(done, w) := wait_or_done cx (backoff rc attempt rnd) w in
                match done with
                | Some ce => (Err ce, w)
                | None => retry_loop n (attempt + 1) e w
                end
              else retry_loop n (attempt + 1) e w
          end
      end
  end.
(** [RetryDo]: attempts 0 to [MaxRetries]. With a negative [MaxRetries] the loop does not run and
    the result is the zero value without an error, here [nil_result]. *)
Definition RetryDo (nil_result : A) : M W (result A) := λ w,
  if MaxRetries rc <? 0 then (Val nil_result, w)
  else retry_loop (Z.to_nat (MaxRetries rc + 1)) 0 (ErrMsg []) w.
End RetryDo.

(** ** The tracker *)
Record retryEntry := { attempts : Z; lastAttempt : Z; permanent : bool }.
Record RetryTracker := { entries : gmap gostring retryEntry; tr_ttl : Z; maxAttempts : Z }.
Definition NewRetryTracker (maxAttempts ttl : Z) : RetryTracker :=
  {| entries := ∅; tr_ttl := ttl; maxAttempts := maxAttempts |}.
Definition set_entries (t : RetryTracker) e : RetryTracker :=
  {| entries := e; tr_ttl := tr_ttl t; maxAttempts := maxAttempts t |}.

Definition ShouldRetry (url : gostring) (now : Z) (t : RetryTracker) : bool * RetryTracker :=
  match entries t !! url with
  | None => (true, t)
  | Some e =>
      if negb (permanent e) && (tr_ttl t <? now - lastAttempt e)
      then (true, set_entries t (delete url (entries t)))
      else if permanent e then (false, t)
      else (attempts e <? maxAttempts t, t)
  end.

Definition isPermanentError (err : error) : bool :=
  match as_http_status err with
  | Some code => bool_decide (code ∈ [400; 401; 403; 404; 410; 451])
  | None => false
  end.
Definition RecordAttempt (url : gostring) (err : error) (now : Z) (t : RetryTracker)
    : RetryTracker :=
  let e := default {| attempts := 0; lastAttempt := 0; permanent := false |} (entries t !! url) in
  set_entries t (<[url := {| attempts := iadd (attempts e) 1; lastAttempt := now;
                             permanent := isPermanentError err |}]> (entries t)).
Definition RecordSuccess (url : gostring) (t : RetryTracker) : RetryTracker :=
  set_entries t (delete url (entries t)).

(** ** Facts about the loop *)
Section RetryFacts.
Context {W : Type} `{Clock W} {A : Type}.
Implicit Types fn : M W (result A).

(** The outcomes of the loop: a value [fn] returned, an error [fn] returned, or the context's. *)
Inductive retry_result (cx : ctx) (fn : M W (result A)) (last : error) : result A → Prop :=
| retry_val w a w' : fn w = (Val a, w') → retry_result cx fn last (Val a)
| retry_fn_err w e w' : fn w = (Err e, w') → retry_result cx fn last (Err e)
| retry_ctx w e : ctx_err cx w = Some e → retry_result cx fn last (Err e)
| retry_wait d w e w' : wait_or_done cx d w = (Some e, w') → retry_result cx fn last (Err e)
| retry_last : retry_result cx fn last (Err last).
Lemma retry_result_last cx fn l e r :
  retry_result cx fn e r → (∃ w w', fn w = (Err e, w')) → retry_result cx fn l r.
Proof.
  intros [w a w' Hw|w e' w' Hw|w e' Hw|d w e' w' Hw|] (v & v' & Hv).
  - by eapply retry_val.
  - by eapply retry_fn_err.
  - by eapply retry_ctx.
  - by eapply retry_wait.
  - by eapply retry_fn_err.
Qed.
Lemma retry_loop_result cx rc fn n a l w :
  retry_result cx fn l (retry_loop cx rc fn n a l w).1.
Proof.
  revert a l w. induction n as [|n IH]; intros a l w; simpl; [constructor|].
  destruct (ctx_err cx w) eqn:E; [by econstructor|].
  destruct (fn w) as [[v|e] w1] eqn:Ef; [by econstructor|].
  destruct (IsRetryable e); simpl; [|by eapply retry_fn_err].
  assert (∀ w2, retry_result cx fn l (retry_loop cx rc fn n (a + 1) e w2).1) as Hrec.
  { intros w2. eapply retry_result_last; eauto. }
  destruct (a <? MaxRetries rc); [|apply Hrec].
  destruct (if flt _ _ then random _ else _) as [rnd w2].
  destruct (wait_or_done cx (backoff rc a rnd) w2) as [[ce|] w3] eqn:Ew; [|apply Hrec].
  by eapply retry_wait.
Qed.

(** A value comes from an attempt. *)
Lemma RetryDo_Val cx rc fn nil w a w' :
  0 <= MaxRetries rc → RetryDo cx rc fn nil w = (Val a, w') → ∃ v v', fn v = (Val a, v').
Proof.
  intros Hm. unfold RetryDo. rewrite (proj2 (Z.ltb_ge _ _)) by done. intros E.
  pose proof (retry_loop_result cx rc fn (Z.to_nat (MaxRetries rc + 1)) 0 (ErrMsg []) w) as Hr.
  rewrite E in Hr. inversion Hr; eauto.
Qed.
(** A first attempt that succeeds is the result, with no waiting. *)
Lemma RetryDo_first cx rc fn nil w a w' :
  0 <= MaxRetries rc → ctx_err cx w = None → fn w = (Val a, w') →
  RetryDo cx rc fn nil w = (Val a, w').
Proof.
  intros Hm Hc Hf. unfold RetryDo. rewrite (proj2 (Z.ltb_ge _ _)) by done.
  replace (Z.to_nat (MaxRetries rc + 1)) with (S (Z.to_nat (MaxRetries rc))) by lia.
  simpl. by rewrite Hc, Hf.
Qed.
End RetryFacts.
