(* ===== verification/FetchSignals.v ===== *)
(** Package [fetch], [blocksignals.go] and [hosts.go]: the classification of a direct response as
    blocked, and the set of domains that skip the direct tier. Also [http.Header] with its
    canonical keys, as far as the package uses it. *)
From S2P Require Import Prelude Unicode Utf8 GoStrings GoUrl Effects.
Local Open Scope Z_scope.

(** ** [http.Header] with one value per key *)
Definition token_byte (c : Z) : bool := is_alnum c || one_of (lit "!#$%&'*+-.^_`|~") c.
Fixpoint canonical_go (upper : bool) (s : gostring) : gostring :=
  match s with
  | [] => []
  | c :: s =>
      (if upper && between 97 122 c then c - 32
       else if negb upper && between 65 90 c then c + 32 else c)
      :: canonical_go (c =? 45) s
  end.
Definition CanonicalHeaderKey (s : gostring) : gostring :=
  if forallb token_byte s then canonical_go true s else s.
Definition Header := gmap gostring gostring.
Definition Header_Set (h : Header) (k v : gostring) : Header := <[CanonicalHeaderKey k := v]> h.
Definition Header_Get (h : Header) (k : gostring) : gostring :=
  default [] (h !! CanonicalHeaderKey k).

(** ** Block signals *)
Inductive blockSig := sigNone | sigHard | sigSoft | sigTLS.
#[export] Instance blockSig_eq_dec : EqDecision blockSig.
Proof. solve_decision. Defined.

Definition softBlockBodyThreshold : Z := 512.

Definition label (s : blockSig) : gostring :=
  match s with
  | sigHard => lit "hard" | sigSoft => lit "soft" | sigTLS => lit "tls" | sigNone => lit "unknown"
  end.

Definition classifyBlock (status : Z) (hdrs : Header) (body : gostring) (err : option error)
    : blockSig :=
  match err with
  | Some _ => sigTLS
  | None =>
      if bool_decide (status ∈ [401; 403; 429; 503]) then sigHard else
      if bool_decide (Header_Get hdrs (lit "cf-mitigated") ≠ []) then sigHard else
      let bodyLower := StringsToLower body in
      if bool_decide (Header_Get hdrs (lit "server") = lit "cloudflare") &&
         Contains bodyLower (lit "__cf_chl") then sigHard else
      if Contains bodyLower (lit "just a moment") then sigHard else
      if Contains bodyLower (lit "px-captcha") then sigHard else
      if Contains bodyLower (lit "_pxappid") then sigHard else
      if Contains bodyLower (lit "datadome") then sigHard else
      if Contains bodyLower (lit "_incapsula_resource") then sigHard else
      if Contains bodyLower (lit "akamai-bot-manager") then sigHard else
      let ct := Header_Get hdrs (lit "content-type") in
      if (status =? 200) && (zlen body <? softBlockBodyThreshold) &&
         Contains ct (lit "text/html") then sigSoft
      else sigNone
  end.

(** The contract: what makes a response a hard block, and what makes it a suspect one. *)
Definition challenge_markers : list gostring :=
  [lit "just a moment"; lit "px-captcha"; lit "_pxappid"; lit "datadome";
   lit "_incapsula_resource"; lit "akamai-bot-manager"].
Definition challenged (hdrs : Header) (body : gostring) : Prop :=
  Header_Get hdrs (lit "cf-mitigated") ≠ [] ∨
  (Header_Get hdrs (lit "server") = lit "cloudflare" ∧
   Contains (StringsToLower body) (lit "__cf_chl") = true) ∨
  ∃ mk, mk ∈ challenge_markers ∧ Contains (StringsToLower body) mk = true.
Definition suspect (status : Z) (hdrs : Header) (body : gostring) : Prop :=
  status = 200 ∧ zlen body < 512 ∧ Contains (Header_Get hdrs (lit "content-type")) (lit "text/html") = true.

Lemma classifyBlock_cases status hdrs body err :
  match classifyBlock status hdrs body err with
  | sigTLS => err ≠ None
  | sigHard => err = None ∧ (status ∈ [401; 403; 429; 503] ∨ challenged hdrs body)
  | sigSoft => err = None ∧ status ∉ [401; 403; 429; 503] ∧ ¬ challenged hdrs body ∧
               suspect status hdrs body
  | sigNone => err = None ∧ status ∉ [401; 403; 429; 503] ∧ ¬ challenged hdrs body ∧
               ¬ suspect status hdrs body
  end.
Proof.
  unfold classifyBlock. destruct err as [e|]; [done|].
  case_bool_decide as Hst; [by auto|].
  case_bool_decide as Hcf; [split; [done|]; right; by left|].
  destruct (bool_decide _ && _) eqn:Hs.
  { apply andb_true_iff in Hs as [Hs ?]. apply bool_decide_eq_true in Hs.
    split; [done|]. right; right; by left. }
  assert (∀ mk, mk ∈ challenge_markers → Contains (StringsToLower body) mk = true →
    None = None (A := error) ∧ (status ∈ [401; 403; 429; 503] ∨ challenged hdrs body)) as Hmk.
  { intros mk ? ?. split; [done|]. right; right; right. eauto. }
  repeat match goal with
  | |- match (if Contains ?b ?m then sigHard else _) with _ => _ end =>
      let E := fresh "E" in
      destruct (Contains b m) eqn:E; [by apply (Hmk m); [unfold challenge_markers; rewrite !elem_of_cons; tauto|]|]
  end.
  assert (¬ challenged hdrs body) as Hn.
  { intros [Hc|[[Hc1 Hc2]|(mk & Hin & Hc)]]; [done| |].
    - by rewrite bool_decide_true, Hc2 in Hs.
    - unfold challenge_markers in Hin. rewrite !elem_of_cons, elem_of_nil in Hin.
      destruct_or!; subst; congruence. }
  unfold softBlockBodyThreshold, suspect.
  destruct (Z.eqb_spec status 200), (Z.ltb_spec (zlen body) 512),
    (Contains (Header_Get _ _) _) eqn:Hct; simpl;
    split_and!; try done; intros (? & ? & ?); try done; lia.
Qed.

(** [classifyBlock] is exact: no signal means a response without error whose status is not
    401, 403, 429 or 503, with no challenge marker in its headers or body and which is not a
    short HTML page with status 200; a soft signal means that the last condition alone fails. *)
Theorem classifyBlock_exact status hdrs body err :
  (classifyBlock status hdrs body err = sigNone ↔
     err = None ∧ status ∉ [401; 403; 429; 503] ∧ ¬ challenged hdrs body ∧
     ¬ suspect status hdrs body) ∧
  (classifyBlock status hdrs body err = sigSoft ↔
     err = None ∧ ¬ challenged hdrs body ∧ suspect status hdrs body) ∧
  (classifyBlock status hdrs body err = sigHard ↔
     err = None ∧ (status ∈ [401; 403; 429; 503] ∨ challenged hdrs body)) ∧
  (classifyBlock status hdrs body err = sigTLS ↔ err ≠ None).
Proof.
  pose proof (classifyBlock_cases status hdrs body err) as H.
  assert (suspect status hdrs body → status ∉ [401; 403; 429; 503]) as Hs.
  { intros [-> _] Hin. rewrite !elem_of_cons, elem_of_nil in Hin. lia. }
  destruct (classifyBlock status hdrs body err); naive_solver.
Qed.

(** ** Proxy-first domains *)
Definition defaultProxyFirstHosts : list gostring :=
  [lit "linkedin.com"; lit "x.com"; lit "twitter.com"; lit "instagram.com"; lit "facebook.com";
   lit "amazon.com"; lit "ebay.com"; lit "glassdoor.com"; lit "indeed.com";
   lit "ziprecruiter.com"; lit "medium.com"; lit "quora.com"; lit "pinterest.com";
   lit "tiktok.com"; lit "g2.com"; lit "capterra.com"; lit "trustpilot.com"; lit "yelp.com"].

Record ProxyFirstDomains := { pfd_set : gset gostring }.
Definition NewProxyFirstDomains (extra : list gostring) : ProxyFirstDomains :=
  let combined := defaultProxyFirstHosts ++ extra in
  {| pfd_set := list_to_set ((λ h, StringsToLower (TrimSpace h)) <$> combined) |}.

(** The walk from the full host toward the root. *)
Fixpoint match_go (fuel : nat) (set : gset gostring) (host : gostring) : outcome bool :=
  if decide (host ∈ set) then Ok true
  else match find_sub host (lit ".") with
       | None => Ok false
       | Some idx => match fuel with
                     | O => OutOfFuel
                     | S fuel => match_go fuel set (drop (S idx) host)
                     end
       end.
Definition MatchURL (d : ProxyFirstDomains) (rawURL : gostring) : outcome bool :=
  match Parse rawURL with
  | None => Ok false
  | Some u =>
      let host := StringsToLower (Hostname u) in
      if decide (host = []) then Ok false else match_go (length host) (pfd_set d) host
  end.

(** A domain covers a host: equal to it, or what follows one of its dots. *)
Definition covers (d host : gostring) : Prop := host = d ∨ ∃ p, host = p ++ lit "." ++ d.

Lemma find_byte_first s c n : find_sub s [c] = Some n →
  ∃ a b, s = a ++ c :: b ∧ length a = n ∧ c ∉ a.
Proof.
  revert n. induction s as [|x s IH]; intros n; simpl; [done|].
  destruct (Z.eqb_spec c x) as [->|Hne]; simpl.
  - destruct s; intros [= <-]; eexists [], _; (split_and!; [done..|set_solver]).
  - destruct (find_sub s [c]) as [m|]; [|done]. intros [= <-].
    destruct (IH m eq_refl) as (a & b & -> & <- & Ha). exists (x :: a), b. set_solver.
Qed.
Lemma find_sub_None_elem s c : find_sub s [c] = None → c ∉ s.
Proof.
  induction s as [|x s IH]; simpl; [set_solver|]. destruct (Z.eqb_spec c x); simpl.
  - by destruct s.
  - destruct (find_sub s [c]); [done|]. intros _. set_solver.
Qed.

Lemma covers_step d a b : 46 ∉ a → covers d (a ++ 46 :: b) ↔ a ++ 46 :: b = d ∨ covers d b.
Proof.
  intros Ha. unfold covers. change (lit ".") with [46]. split.
  - intros [->|[p Hp]]; [by left|]. right.
    assert (p = a ∧ b = d ∨ ∃ q, p = a ++ 46 :: q ∧ b = q ++ [46] ++ d) as [[-> ->]|(q & -> & ->)].
    { revert p Hp. induction a as [|x a IH]; intros [|y p] Hp; simpl in Hp.
      - injection Hp as ->. by left.
      - injection Hp as <- ->. right. by exists p.
      - injection Hp as -> _. set_solver.
      - injection Hp as -> Hp.
        destruct (IH ltac:(set_solver) p Hp) as [[-> ->]|(q & -> & ->)]; [by left|].
        right. by exists q. }
    + by left.
    + right. by exists q.
  - intros [->|[->|[p ->]]]; [by left|right; by exists a|].
    right. exists (a ++ 46 :: p). by rewrite <- app_assoc.
Qed.
Lemma match_go_spec fuel set host : (length host <= fuel)%nat →
  ∃ b, match_go fuel set host = Ok b ∧ (b = true ↔ ∃ d, d ∈ set ∧ covers d host).
Proof.
  revert host. induction fuel as [|fuel IH]; intros host Hf; cbn [match_go];
    change (lit ".") with [46];
    (case_decide as Hin; [exists true; split; [done|]; split; [|done];
                          intros _; exists host; split; [done|by left]|]);
    destruct (find_sub host [46]) as [n|] eqn:E.
  - apply find_byte_first in E as (a & b & -> & _). rewrite length_app in Hf. simpl in Hf. lia.
  - exists false. split; [done|]. split; [done|]. intros (d & Hd & [->|[p ->]]); [done|].
    apply find_sub_None_elem in E. exfalso. apply E. set_solver.
  - apply find_byte_first in E as (a & b & -> & <- & Ha).
    replace (drop (S (length a)) (a ++ 46 :: b)) with b.
    2: { rewrite cons_middle, app_assoc. rewrite <- (drop_app_length (a ++ [46]) b) at 1.
         f_equal. rewrite length_app. simpl. lia. }
    destruct (IH b) as (r & -> & Hr). { rewrite length_app in Hf. simpl in Hf. lia. }
    exists r. split; [done|]. rewrite Hr. split; intros (d & Hd & Hc); exists d.
    + split; [done|]. rewrite covers_step by done. by right.
    + split; [done|]. rewrite covers_step in Hc by done. destruct Hc as [<-|]; done.
  - exists false. split; [done|]. split; [done|]. intros (d & Hd & [->|[p ->]]); [done|].
    apply find_sub_None_elem in E. exfalso. apply E. set_solver.
Qed.

Lemma MatchURL_total d rawURL : ∃ b, MatchURL d rawURL = Ok b.
Proof.
  unfold MatchURL. destruct (Parse rawURL) as [u|]; [|by exists false].
  case_decide; [by exists false|].
  destruct (match_go_spec (length (StringsToLower (Hostname u))) (pfd_set d)
              (StringsToLower (Hostname u)) ltac:(done)) as (b & -> & _). by exists b.
Qed.

(** [MatchURL] terminates on every URL and says yes exactly when the URL parses with a
    non-empty host and a domain of the set is the lower-cased host or follows one of its dots. *)
Theorem MatchURL_spec d rawURL :
  ∃ b, MatchURL d rawURL = Ok b ∧
    (b = true ↔ ∃ u dom, Parse rawURL = Some u ∧ StringsToLower (Hostname u) ≠ [] ∧
       dom ∈ pfd_set d ∧ covers dom (StringsToLower (Hostname u))).
Proof.
  unfold MatchURL. destruct (Parse rawURL) as [u|]; [|exists false; naive_solver].
  case_decide as He; [exists false; naive_solver|].
  destruct (match_go_spec (length (StringsToLower (Hostname u))) (pfd_set d)
              (StringsToLower (Hostname u)) ltac:(done)) as (b & -> & Hb).
  exists b. split; [done|]. rewrite Hb. split.
  - intros (dom & ? & ?). eauto 10.
  - intros (u' & dom & [= <-] & _ & ? & ?). eauto.
Qed.
