(* ===== verification/Fetcher.v ===== *)
(** Package [fetch], [fetcher.go] with its fallbacks [oxbrowser.go], [gobrowser.go] and
    [byparr.go]: the tiers a fetch goes through. The clients are oracles on a world [W]; the state
    of a fetch is the block cache, the retry tracker, the metrics recorded so far and the world. *)
From S2P Require Import Prelude Unicode Utf8 GoStrings GoUrl Floats Json Effects Retry FetchSignals BlockCache.
Local Open Scope Z_scope.

Definition ErrPermanentlyFailed : error :=
  ErrVar (lit "permanently failed: URL exceeded retry limit or returned permanent error").
Definition errNoDirectClient : error := ErrVar (lit "fetch: directClient not initialised").

Definition FetchRetryConfig : RetryConfig :=
  {| MaxRetries := 3; InitialWait := 1 * Second; MaxWait := 10 * Second;
     Multiplier := of_int 2; JitterPct := fzero |}.
Definition oxBrowserTimeout : Z := 30 * Second.
Definition goBrowserTimeout : Z := 65 * Second.
Definition byparrTimeout : Z := 90 * Second.

(** ** The fetcher: the fields that [New] fixes *)
Record Fetcher := {
  httpTimeout : Z;
  proxyClient : bool;                          (* a proxy-tier client is set *)
  directClient : bool;                         (* a direct client is set *)
  retryConfig : RetryConfig;
  proxyPool : bool;
  cookieProvider : bool;
  byparrURL : gostring;
  oxBrowserURL : gostring;
  goBrowserURL : gostring;
  directFirst : bool;
  proxyFirstDomains : option ProxyFirstDomains;
  blockCache0 : option DirectBlockCache;       (* the cache [New] leaves *)
  retryTracker0 : option RetryTracker;
  promMetrics : bool                           (* [WithMetrics] was applied *)
}.

(** *** Options *)
Inductive Option_ :=
| WithTimeout_ (d : Z)
| WithRetryConfig (rc : RetryConfig)
| WithProxyPool (pool : bool)                  (* the argument is not nil *)
| WithCookieSolver (provider : bool)
| WithDirectFirst (enabled : bool)
| WithProxyFirstHosts (hosts : list gostring)
| WithBlockTTL (d : Z)
| WithMetrics
| WithRetryTracker (t : option RetryTracker)
| WithByparrFallback (baseURL : gostring)
| WithOxBrowser (baseURL : gostring)
| WithGoBrowserFallback (baseURL : gostring).

Definition setF (f : Fetcher) timeout rc pool cookie byp ox gob df pfd bc rt pm : Fetcher :=
  {| httpTimeout := timeout; proxyClient := proxyClient f; directClient := directClient f;
     retryConfig := rc; proxyPool := pool; cookieProvider := cookie; byparrURL := byp;
     oxBrowserURL := ox; goBrowserURL := gob; directFirst := df; proxyFirstDomains := pfd;
     blockCache0 := bc; retryTracker0 := rt; promMetrics := pm |}.
Definition apply_option (o : Option_) (f : Fetcher) : Fetcher :=
  let 'Build_Fetcher t pc dc rc pool cookie byp ox gob df pfd bc rt pm := f in
  match o with
  | WithTimeout_ d => setF f d rc pool cookie byp ox gob df pfd bc rt pm
  | WithRetryConfig rc => setF f t rc pool cookie byp ox gob df pfd bc rt pm
  | WithProxyPool p => setF f t rc (if p then true else pool) cookie byp ox gob df pfd bc rt pm
  | WithCookieSolver p => setF f t rc pool p byp ox gob df pfd bc rt pm
  | WithDirectFirst e => setF f t rc pool cookie byp ox gob e pfd bc rt pm
  | WithProxyFirstHosts hosts =>
      let d := match pfd with
               | None => NewProxyFirstDomains hosts
               | Some _ => NewProxyFirstDomains (hosts ++ defaultProxyFirstHosts)
               end in
      setF f t rc pool cookie byp ox gob df (Some d) bc rt pm
  | WithBlockTTL d =>
      let c := match bc with
               | None => NewDirectBlockCache d defaultBlockCacheCap
               | Some c => {| items := items c; order := order c; ttl := d; cap := cap c |}
               end in
      setF f t rc pool cookie byp ox gob df pfd (Some c) rt pm
  | WithMetrics => setF f t rc pool cookie byp ox gob df pfd bc rt true
  | WithRetryTracker tr => setF f t rc pool cookie byp ox gob df pfd bc tr pm
  | WithByparrFallback u =>
      setF f t rc pool cookie (if decide (u = []) then byp else u) ox gob df pfd bc rt pm
  | WithOxBrowser u =>
      setF f t rc pool cookie byp (if decide (u = []) then ox else u) gob df pfd bc rt pm
  | WithGoBrowserFallback u =>
      setF f t rc pool cookie byp ox (if decide (u = []) then gob else u) df pfd bc rt pm
  end.

Definition default_fetcher : Fetcher :=
  {| httpTimeout := 30 * Second; proxyClient := false; directClient := false;
     retryConfig := FetchRetryConfig; proxyPool := false; cookieProvider := false;
     byparrURL := []; oxBrowserURL := []; goBrowserURL := []; directFirst := false;
     proxyFirstDomains := None; blockCache0 := None; retryTracker0 := None;
     promMetrics := false |}.
(** [New]; [proxied] and [direct] say whether building the two stealth clients succeeds. *)
Definition New (proxied direct : bool) (opts : list Option_) : Fetcher :=
  let f := foldl (λ f o, apply_option o f) default_fetcher opts in
  {| httpTimeout := httpTimeout f;
     proxyClient := proxyPool f && proxied;
     directClient := directFirst f && direct;
     retryConfig := retryConfig f; proxyPool := proxyPool f; cookieProvider := cookieProvider f;
     byparrURL := byparrURL f; oxBrowserURL := oxBrowserURL f; goBrowserURL := goBrowserURL f;
     directFirst := directFirst f;
     proxyFirstDomains :=
       if directFirst f
       then Some (default (NewProxyFirstDomains []) (proxyFirstDomains f))
       else proxyFirstDomains f;
     blockCache0 :=
       if directFirst f
       then Some (default (NewDirectBlockCache defaultBlockTTL defaultBlockCacheCap)
                          (blockCache0 f))
       else blockCache0 f;
     retryTracker0 := retryTracker0 f; promMetrics := promMetrics f |}.

Definition HasProxy (f : Fetcher) : bool := proxyClient f.
Definition hasFallback (f : Fetcher) : bool :=
  bool_decide (oxBrowserURL f ≠ []) || bool_decide (goBrowserURL f ≠ []) ||
  bool_decide (byparrURL f ≠ []).

(** ** Headers: maps with lower-case keys; [extra] lists the caller's map in iteration order *)
Definition Headers := gmap gostring gostring.
Definition merge_extra (h : Headers) (extra : list (gostring * gostring)) : Headers :=
  foldl (λ h kv, <[StringsToLower kv.1 := kv.2]> h) h extra.
Definition mergeHeaders (chrome : Headers) (extra : list (gostring * gostring)) : Headers :=
  merge_extra chrome extra.
Definition html_accept : gostring :=
  lit "text/html,application/xhtml+xml,application/xml;q=0.9,*/*;q=0.8".

(** ** State *)
Inductive event :=
| IncTier (tier result : gostring)
| IncBlockSignal (signal : gostring)
| IncEscalation (reason : gostring)
| SetBlockCacheHosts (n : Z).

Record fstate (W : Type) := FState {
  st_cache : option DirectBlockCache;
  st_tracker : option RetryTracker;
  st_events : list event;
  st_world : W
}.
Arguments FState {W} _ _ _ _.
Arguments st_cache {W} _.
Arguments st_tracker {W} _.
Arguments st_events {W} _.
Arguments st_world {W} _.

Section Ops.
Context {W : Type}.
Definition lift {A} (m : W → A * W) : M (fstate W) A := λ s,
  let '(a, w) := m (st_world s) in (a, FState (st_cache s) (st_tracker s) (st_events s) w).
Definition emit (e : event) : M (fstate W) () := λ s,
  ((), FState (st_cache s) (st_tracker s) (st_events s ++ [e]) (st_world s)).
Definition set_cache (c : DirectBlockCache) : M (fstate W) () := λ s,
  ((), FState (Some c) (st_tracker s) (st_events s) (st_world s)).
Definition set_tracker (t : RetryTracker) : M (fstate W) () := λ s,
  ((), FState (st_cache s) (Some t) (st_events s) (st_world s)).
End Ops.

(** ** What the fetcher calls: the clients *)
Record http_response := {
  StatusCode : Z;
  resp_header : Header;
  resp_body : result gostring      (* what reading the body to its end gives *)
}.
Class Net (W : Type) := {
  (** [stealthDoer.DoCtx] of the proxy client and of the direct client: body, headers in
      iteration order, status. *)
  proxyDo : ctx → gostring → Headers → W → result (gostring * list (gostring * gostring) * Z) * W;
  directDo : ctx → gostring → Headers → W → result (gostring * list (gostring * gostring) * Z) * W;
  (** [http.Client.Do] on a GET request; POST of a JSON document with a client timeout. *)
  httpGet : ctx → gostring → Header → W → result http_response * W;
  httpPost : ctx → Z → gostring → json → W → result http_response * W;
  (** The rest of the environment. *)
  stealth_ChromeHeaders : W → Headers * W;
  stealth_RandomUserAgent : W → gostring * W;
  proxy_ua : option gostring;
  direct_ua : option gostring;
  svcauth_err : gostring → W → option error;
  gunzip : result gostring → result gostring
}.

Definition maxTruncate : Z := 200.
Definition truncate (s : gostring) : gostring :=
  if zlen s <=? maxTruncate then s else take (Z.to_nat maxTruncate) s ++ lit "...".

Definition ReadResponseBody (gunzip : result gostring → result gostring) (resp : http_response)
    : result gostring :=
  if decide (Header_Get (resp_header resp) (lit "Content-Encoding") = lit "gzip")
  then gunzip (resp_body resp) else resp_body resp.

(** The context of a fallback: the shorter of its own timeout and the parent's deadline. *)
Definition childTimeout (parent : ctx) (now maxDur : Z) : ctx :=
  match ctx_deadline parent with
  | Some deadline =>
      let remaining := deadline - now in
      if remaining <? maxDur then WithTimeout parent now remaining
      else WithTimeout parent now maxDur
  | None => WithTimeout parent now maxDur
  end.

(** *** The documents of the fallback services *)
Record byparrSolution := { sol_Response : gostring }.
Record byparrResponse := {
  by_Status : gostring; by_Message : gostring; by_Solution : option byparrSolution
}.
Definition dec_byparrResponse : dec byparrResponse :=
  dec_struct (λ p kvs,
    st ← field (lit "status") dec_string (by_Status p) kvs;
    ms ← field (lit "message") dec_string (by_Message p) kvs;
    so ← field (lit "solution") (dec_ptr {| sol_Response := [] |}
           (dec_struct (λ q kvs,
              _ ← field (lit "url") dec_string [] kvs;
              _ ← field (lit "status") dec_int 0 kvs;
              r ← field (lit "response") dec_string (sol_Response q) kvs;
              Some {| sol_Response := r |}))) (by_Solution p) kvs;
    Some {| by_Status := st; by_Message := ms; by_Solution := so |}).
Definition byparr_zero : byparrResponse :=
  {| by_Status := []; by_Message := []; by_Solution := None |}.

Record oxFetchResponse := { ox_Status : Z; ox_Body : gostring; ox_Error : gostring }.
Definition dec_oxFetchResponse : dec oxFetchResponse :=
  dec_struct (λ p kvs,
    st ← field (lit "status") dec_int (ox_Status p) kvs;
    b ← field (lit "body") dec_string (ox_Body p) kvs;
    _ ← field (lit "cf_detected") dec_bool false kvs;
    _ ← field (lit "cf_type") dec_string [] kvs;
    _ ← field (lit "elapsed_ms") dec_int 0 kvs;
    e ← field (lit "error") dec_string (ox_Error p) kvs;
    Some {| ox_Status := st; ox_Body := b; ox_Error := e |}).
Definition ox_zero : oxFetchResponse := {| ox_Status := 0; ox_Body := []; ox_Error := [] |}.

Record goBrowserRenderResponse := { gb_HTML : gostring; gb_Error : gostring }.
Definition dec_goBrowserRenderResponse : dec goBrowserRenderResponse :=
  dec_struct (λ p kvs,
    _ ← field (lit "url") dec_string [] kvs;
    h ← field (lit "html") dec_string (gb_HTML p) kvs;
    _ ← field (lit "title") dec_string [] kvs;
    e ← field (lit "error") dec_string (gb_Error p) kvs;
    Some {| gb_HTML := h; gb_Error := e |}).
Definition gb_zero : goBrowserRenderResponse := {| gb_HTML := []; gb_Error := [] |}.

(** ** The tiers *)
Section Fetch.
Context {W : Type} `{Clock W} `{Net W} (f : Fetcher).
Notation St := (fstate W).

(** The end of each fallback: what the response is worth. *)
Definition byparr_result (resp : http_response) : result gostring :=
  match resp_body resp with
  | Err e => Err (Wrapped (lit "byparr read") e)
  | Val respBody =>
      if negb (StatusCode resp =? 200) then
        Err (ErrMsg (lit "byparr HTTP " ++ Itoa (StatusCode resp) ++ lit ": " ++ truncate respBody))
      else match Unmarshal byparr_zero dec_byparrResponse respBody with
           | None => Err (Wrapped (lit "byparr parse") (ErrMsg []))
           | Some result =>
               if decide (by_Status result ≠ lit "ok") then
                 Err (ErrMsg (lit "byparr error: " ++ by_Message result))
               else match by_Solution result with
                    | Some {| sol_Response := (_ :: _) as html |} => Val html
                    | _ => Err (ErrMsg (lit "byparr: empty response"))
                    end
           end
  end.
Definition fetchViaByparr (cx : ctx) (pageURL : gostring) : M St (result gostring) :=
  let body := JObj [(lit "cmd", JStr (lit "request.get")); (lit "url", JStr pageURL);
                    (lit "maxTimeout", JNum (Itoa (byparrTimeout / Millisecond)))] in
  let endpoint := byparrURL f ++ lit "/v1" in
  match Parse endpoint with
  | None => mret (Err (Wrapped (lit "byparr request") (NetErr NetUrl false (ErrMsg []))))
  | Some _ =>
      r ← lift (httpPost cx byparrTimeout endpoint body);
      match r with
      | Err e => mret (Err (Wrapped (lit "byparr call") e))
      | Val resp => mret (byparr_result resp)
      end
  end.

Definition ox_result (resp : http_response) : result gostring :=
  match resp_body resp with
  | Err e => Err (Wrapped (lit "ox-browser read") e)
  | Val respBody =>
      let http := lit "ox-browser HTTP " ++ Itoa (StatusCode resp) ++ lit ": " in
      if negb (StatusCode resp =? 200) then
        match Unmarshal ox_zero dec_oxFetchResponse respBody with
        | Some errResp =>
            if decide (ox_Error errResp ≠ []) then Err (ErrMsg (http ++ ox_Error errResp))
            else Err (ErrMsg (http ++ truncate respBody))
        | None => Err (ErrMsg (http ++ truncate respBody))
        end
      else match Unmarshal ox_zero dec_oxFetchResponse respBody with
           | None => Err (Wrapped (lit "ox-browser parse") (ErrMsg []))
           | Some result =>
               if decide (ox_Error result ≠ []) then
                 Err (ErrMsg (lit "ox-browser error: " ++ ox_Error result))
               else if decide (ox_Body result = []) then
                 Err (ErrMsg (lit "ox-browser: empty response"))
               else Val (ox_Body result)
           end
  end.
Definition fetchViaOxBrowser (cx : ctx) (pageURL : gostring) : M St (result gostring) :=
  let body := JObj [(lit "url", JStr pageURL);
                    (lit "timeout", JNum (Itoa (oxBrowserTimeout / Second)))] in
  let endpoint := oxBrowserURL f ++ lit "/fetch" in
  match Parse endpoint with
  | None => mret (Err (Wrapped (lit "ox-browser request") (NetErr NetUrl false (ErrMsg []))))
  | Some _ =>
      auth ← lift (λ w, (svcauth_err (oxBrowserURL f) w, w));
      match auth with
      | Some e => mret (Err (Wrapped (lit "ox-browser svcauth") e))
      | None =>
          r ← lift (httpPost cx (oxBrowserTimeout + 5 * Second) endpoint body);
          match r with
          | Err e => mret (Err (Wrapped (lit "ox-browser call") e))
          | Val resp => mret (ox_result resp)
          end
      end
  end.

Definition gb_result (resp : http_response) : result gostring :=
  match resp_body resp with
  | Err e => Err (Wrapped (lit "go-browser read") e)
  | Val respBody =>
      if negb (StatusCode resp =? 200) then
        Err (ErrMsg (lit "go-browser HTTP " ++ Itoa (StatusCode resp) ++ lit ": " ++
                     truncate respBody))
      else match Unmarshal gb_zero dec_goBrowserRenderResponse respBody with
           | None => Err (Wrapped (lit "go-browser parse") (ErrMsg []))
           | Some result =>
               if decide (gb_Error result ≠ []) then
                 Err (ErrMsg (lit "go-browser error: " ++ gb_Error result))
               else if decide (gb_HTML result = []) then
                 Err (ErrMsg (lit "go-browser: empty response"))
               else Val (gb_HTML result)
           end
  end.
Definition fetchViaGoBrowser (cx : ctx) (pageURL : gostring) : M St (result gostring) :=
  let body := JObj [(lit "url", JStr pageURL); (lit "timeout_secs", JNum (lit "60"))] in
  let endpoint := goBrowserURL f ++ lit "/render" in
  match Parse endpoint with
  | None => mret (Err (Wrapped (lit "go-browser request") (NetErr NetUrl false (ErrMsg []))))
  | Some _ =>
      r ← lift (httpPost cx goBrowserTimeout endpoint body);
      match r with
      | Err e => mret (Err (Wrapped (lit "go-browser call") e))
      | Val resp => mret (gb_result resp)
      end
  end.

(** The request headers of the two stealth tiers. *)
Definition stealth_headers (ua : option gostring) (extra : list (gostring * gostring))
    : M St Headers :=
  chrome ← lift stealth_ChromeHeaders;
  let headers := <[lit "accept" := html_accept]> chrome in
  let headers := match ua with Some u => <[lit "user-agent" := u]> headers | None => headers end in
  mret (merge_extra headers extra).

Definition fetchViaProxy (cx : ctx) (url : gostring) (extra : list (gostring * gostring))
    : M St (result gostring) :=
  headers ← stealth_headers proxy_ua extra;
  lift (RetryDo cx (retryConfig f) (λ w,
    let '(r, w) := proxyDo cx url headers w in
    match r with
    | Err e => (Err e, w)
    | Val (data, _, status) =>
        if negb (status =? 200) then (Err (HttpStatusError status), w) else (Val data, w)
    end) []).

(** The request headers of the plain client: each attempt draws a user agent. *)
Definition http_headers (ua : gostring) (extra : list (gostring * gostring)) : Header :=
  let h := Header_Set ∅ (lit "User-Agent") ua in
  let h := Header_Set h (lit "Accept") html_accept in
  let h := Header_Set h (lit "Accept-Language") (lit "en-US,en;q=0.9") in
  let h := Header_Set h (lit "Accept-Encoding") (lit "gzip, deflate") in
  foldl (λ h kv, Header_Set h kv.1 kv.2) h extra.
(** [RetryHTTP] around one attempt: a retryable status is an error. A loop that makes no attempt, with
    a negative number of retries, returns a nil response without an error, and the fetch panics. *)
Definition fetchViaHTTP (cx : ctx) (url : gostring) (extra : list (gostring * gostring))
    : M St (outcome (result gostring)) :=
  r ← lift (RetryDo cx (retryConfig f) (λ w,
    match Parse url with
    | None => (Err (NetErr NetUrl false (ErrMsg [])), w)
    | Some _ =>
        let '(ua, w) := stealth_RandomUserAgent w in
        let '(r, w) := httpGet cx url (http_headers ua extra) w in
        match r with
        | Err e => (Err e, w)
        | Val resp =>
            if IsRetryableStatus (StatusCode resp)
            then (Err (HttpStatusError (StatusCode resp)), w) else (Val (Some resp), w)
        end
    end) None);
  match r with
  | Err e => mret (Ok (Err e))
  | Val None => mret Panic
  | Val (Some resp) =>
      if negb (StatusCode resp =? 200) then mret (Ok (Err (HttpStatusError (StatusCode resp))))
      else mret (Ok (ReadResponseBody gunzip resp))
  end.

Definition fetchViaProxyOrHTTPWithHeaders (cx : ctx) (url : gostring)
    (extra : list (gostring * gostring)) : M St (outcome (result gostring)) :=
  if proxyClient f then r ← fetchViaProxy cx url extra; mret (Ok r) else fetchViaHTTP cx url extra.

Definition fetchProxyAndRecordWithHeaders (cx : ctx) (url : gostring)
    (extra : list (gostring * gostring)) : M St (outcome (result gostring)) :=
  o ← fetchViaProxyOrHTTPWithHeaders cx url extra;
  match o with
  | Ok r => _ ← emit (IncTier (lit "proxy") (if is_ok r then lit "ok" else lit "err")); mret (Ok r)
  | _ => mret o
  end.

(** The raw response of the direct tier: body, headers, status, error. *)
Definition fetchDirectRaw (cx : ctx) (url : gostring) (extra : list (gostring * gostring))
    : M St (gostring * Header * Z * option error) :=
  if negb (directClient f) then mret ([], ∅, 0, Some errNoDirectClient) else
  headers ← stealth_headers direct_ua extra;
  r ← lift (directDo cx url headers);
  match r with
  | Err e => mret ([], ∅, 0, Some e)
  | Val (data, respHdrs, respStatus) =>
      mret (data, foldl (λ h kv, Header_Set h kv.1 kv.2) ∅ respHdrs, respStatus, None)
  end.

(** The cache operations of the tier, when there is a cache. *)
Definition cache_IsBlocked (host : gostring) : M St bool := λ s,
  match st_cache s with
  | None => (false, s)
  | Some c => let '(b, c) := IsBlocked host (now (st_world s)) c in
              (b, FState (Some c) (st_tracker s) (st_events s) (st_world s))
  end.
Definition cache_Mark (host : gostring) : M St () := λ s,
  match st_cache s with
  | None => ((), s)
  | Some c => set_cache (Mark host (now (st_world s)) c) s
  end.
Definition cache_Len : M St Z := λ s,
  (match st_cache s with Some c => Len c | None => 0 end, s).

Definition fetchDirectFirstWithHeaders (cx : ctx) (url : gostring)
    (extra : list (gostring * gostring)) : M St (outcome (result gostring)) :=
  let hint := match proxyFirstDomains f with None => Ok false | Some d => MatchURL d url end in
  match hint with
  | Panic => mret Panic
  | OutOfFuel => mret OutOfFuel
  | Ok true =>
      _ ← emit (IncEscalation (lit "domain_hint"));
      fetchProxyAndRecordWithHeaders cx url extra
  | Ok false =>
      let host := match Parse url with Some u => Host u | None => [] end in
      cached ← cache_IsBlocked host;
      if cached : bool then
        _ ← emit (IncEscalation (lit "cached"));
        fetchProxyAndRecordWithHeaders cx url extra
      else
        '(body, hdrs, status, directErr) ← fetchDirectRaw cx url extra;
        let sig := classifyBlock status hdrs body directErr in
        if decide (sig = sigNone) then
          match directErr with
          | Some e => _ ← emit (IncTier (lit "direct") (lit "err")); mret (Ok (Err e))
          | None => _ ← emit (IncTier (lit "direct") (lit "ok")); mret (Ok (Val body))
          end
        else
          _ ← emit (IncBlockSignal (label sig));
          c ← gets st_cache;
          _ ← (if bool_decide (is_Some c) && bool_decide (host ≠ []) then
                 _ ← cache_Mark host; n ← cache_Len; emit (SetBlockCacheHosts n)
               else mret ());
          if proxyClient f then
            _ ← emit (IncEscalation (label sig));
            fetchProxyAndRecordWithHeaders cx url extra
          else if decide (sig = sigSoft) then mret (Ok (Val body))
          else match directErr with
               | Some e => mret (Ok (Err e))
               | None => mret (Ok (Err (HttpStatusError status)))
               end
  end.

Definition fetchPrimaryWithHeaders (cx : ctx) (url : gostring) (permanent : bool)
    (extra : list (gostring * gostring)) : M St (outcome (result gostring)) :=
  if permanent then mret (Ok (Err ErrPermanentlyFailed))
  else if negb (directFirst f) then fetchViaProxyOrHTTPWithHeaders cx url extra
  else fetchDirectFirstWithHeaders cx url extra.

(** The fallback chain: [r] is the primary result, [next] the rest of the chain. *)
Definition try_one (configured check : bool) (timeout : Z) (cx : ctx)
    (run : ctx → M St (result gostring)) (r : result gostring)
    (next : M St (result gostring)) : M St (result gostring) :=
  if configured then
    done ← lift (λ w, (ctx_err cx w, w));
    match (if check then done else None) with
    | Some _ => mret r
    | None =>
        t ← lift (λ w, (now w, w));
        fb ← run (childTimeout cx t timeout);
        match fb with Val b => mret (Val b) | Err _ => next end
    end
  else next.
Definition tryFallbacks (cx : ctx) (url : gostring) (r : result gostring)
    : M St (result gostring) :=
  match r with
  | Val _ => mret r
  | Err _ =>
      try_one (bool_decide (oxBrowserURL f ≠ [])) false (oxBrowserTimeout + 5 * Second) cx
        (λ c, fetchViaOxBrowser c url) r
     (try_one (bool_decide (goBrowserURL f ≠ [])) true goBrowserTimeout cx
        (λ c, fetchViaGoBrowser c url) r
     (try_one (bool_decide (byparrURL f ≠ [])) true byparrTimeout cx
        (λ c, fetchViaByparr c url) r (mret r)))
  end.

Definition tracker_ShouldRetry (url : gostring) : M St bool := λ s,
  match st_tracker s with
  | None => (true, s)
  | Some t => let '(b, t) := ShouldRetry url (now (st_world s)) t in
              (b, FState (st_cache s) (Some t) (st_events s) (st_world s))
  end.
Definition tracker_record (url : gostring) (r : result gostring) : M St () := λ s,
  match st_tracker s with
  | None => ((), s)
  | Some t =>
      set_tracker (match r with
                   | Err e => RecordAttempt url e (now (st_world s)) t
                   | Val _ => RecordSuccess url t
                   end) s
  end.

Definition FetchBodyWithHeaders (cx : ctx) (url : gostring) (extra : list (gostring * gostring))
    : M St (outcome (result gostring)) :=
  retry ← tracker_ShouldRetry url;
  let permanent := negb retry in
  if permanent && negb (hasFallback f) then mret (Ok (Err ErrPermanentlyFailed)) else
  p ← fetchPrimaryWithHeaders cx url permanent extra;
  match p with
  | Panic => mret Panic
  | OutOfFuel => mret OutOfFuel
  | Ok r =>
      r ← tryFallbacks cx url r;
      _ ← tracker_record url r;
      mret (Ok r)
  end.
Definition FetchBody (cx : ctx) (url : gostring) : M St (outcome (result gostring)) :=
  FetchBodyWithHeaders cx url [].
End Fetch.
