(* ===== verification/FetcherSpec.v ===== *)
(** What the fetcher promises: where a returned body comes from, which tier a URL goes through,
    what a block does to the next fetch, and how the retry tracker follows the outcomes. *)
From S2P Require Import Prelude Unicode Utf8 GoStrings GoUrl Floats Json Effects Retry FetchSignals BlockCache Fetcher.
Local Open Scope Z_scope.

Section Spec.
Context {W : Type} `{Clock W} `{Net W} (f : Fetcher).
Notation St := (fstate W).
Implicit Types (s : St) (cx : ctx) (url : gostring) (extra : list (gostring * gostring)).

(** ** Where a body comes from *)
Definition stealth_header_map (rh : list (gostring * gostring)) : Header :=
  foldl (λ h kv, Header_Set h kv.1 kv.2) ∅ rh.

Inductive from_proxy_or_http cx url : gostring → Prop :=
| from_proxy hs w data rh w' :
    proxyClient f = true → proxyDo cx url hs w = (Val (data, rh, 200), w') →
    from_proxy_or_http cx url data
| from_http h w resp w' body :
    proxyClient f = false → httpGet cx url h w = (Val resp, w') → StatusCode resp = 200 →
    ReadResponseBody gunzip resp = Val body → from_proxy_or_http cx url body
| from_no_attempt :                   (* a loop without an attempt gives nothing, and no error *)
    proxyClient f = true → MaxRetries (retryConfig f) < 0 → from_proxy_or_http cx url [].
Inductive from_direct cx url : gostring → Prop :=
| from_direct_ok hs w data rh st w' :
    directDo cx url hs w = (Val (data, rh, st), w') →
    (classifyBlock st (stealth_header_map rh) data None = sigNone ∨
     classifyBlock st (stealth_header_map rh) data None = sigSoft ∧ proxyClient f = false) →
    from_direct cx url data.
Inductive from_fallback url : gostring → Prop :=
| from_ox c t w doc resp w' b :
    oxBrowserURL f ≠ [] → httpPost c t (oxBrowserURL f ++ lit "/fetch") doc w = (Val resp, w') →
    ox_result resp = Val b → from_fallback url b
| from_gb c t w doc resp w' b :
    goBrowserURL f ≠ [] → httpPost c t (goBrowserURL f ++ lit "/render") doc w = (Val resp, w') →
    gb_result resp = Val b → from_fallback url b
| from_byparr c t w doc resp w' b :
    byparrURL f ≠ [] → httpPost c t (byparrURL f ++ lit "/v1") doc w = (Val resp, w') →
    byparr_result resp = Val b → from_fallback url b.

(** An outcome whose body is one of [P]; there is a panic only after no attempt of the plain client. *)
Definition sound (P : gostring → Prop) (o : outcome (result gostring)) : Prop :=
  match o with
  | Ok (Val b) => P b
  | Ok (Err _) => True
  | Panic => MaxRetries (retryConfig f) < 0 ∧ proxyClient f = false
  | OutOfFuel => False
  end.
Lemma sound_weaken (P Q : gostring → Prop) o : (∀ b, P b → Q b) → sound P o → sound Q o.
Proof. intros HPQ. destruct o as [[b|e]| |]; [apply HPQ|done..]. Qed.
Lemma fetchViaProxyOrHTTP_sound cx url extra s o s' :
  fetchViaProxyOrHTTPWithHeaders f cx url extra s = (o, s') → sound (from_proxy_or_http cx url) o.
Proof.
  unfold fetchViaProxyOrHTTPWithHeaders. destruct (proxyClient f) eqn:Hp.
  - unfold fetchViaProxy, mbind, M_bind, mret, M_ret. destruct (stealth_headers _ _ s) as [hs s1].
    unfold lift. destruct (RetryDo _ _ _ _ _) as [r w] eqn:E. intros [= <- _].
    destruct r as [b|e]; [|done]. simpl.
    destruct (Z.ltb_spec (MaxRetries (retryConfig f)) 0) as [Hm|Hm].
    { unfold RetryDo in E. rewrite (proj2 (Z.ltb_lt _ _)) in E by done. simplify_eq.
      by apply from_no_attempt. }
    apply RetryDo_Val in E as (v & v' & E); [|done].
    destruct (proxyDo cx url hs v) as [[[[data rh] st]|e] w1] eqn:Ed; [|done].
    destruct (Z.eqb_spec st 200) as [->|]; simplify_eq/=. by eapply from_proxy.
  - unfold fetchViaHTTP, mbind, M_bind, mret, M_ret, lift. destruct (RetryDo _ _ _ _ _) as [r w] eqn:E.
    destruct r as [resp|e]; [|by intros [= <- _]].
    destruct (Z.ltb_spec (MaxRetries (retryConfig f)) 0) as [Hm|Hm].
    { unfold RetryDo in E. rewrite (proj2 (Z.ltb_lt _ _)) in E by done. simplify_eq.
      by intros [= <- _]. }
    apply RetryDo_Val in E as (v & v' & E); [|done].
    destruct (Parse url); [|done]. destruct (stealth_RandomUserAgent v) as [ua v1].
    destruct (httpGet cx url _ v1) as [[resp'|e] v2] eqn:Eg; [|done].
    destruct (IsRetryableStatus _); [done|]. injection E as <- <-.
    destruct (Z.eqb_spec (StatusCode resp') 200); simpl; [|by intros [= <- _]].
    intros [= <- _]. destruct (ReadResponseBody gunzip resp') eqn:Hb; [|done]. by eapply from_http.
Qed.

(** The proxy tier touches neither the block cache nor the retry tracker. *)
Lemma fetchViaProxyOrHTTP_frame cx url extra s r s' :
  fetchViaProxyOrHTTPWithHeaders f cx url extra s = (r, s') →
  st_cache s' = st_cache s ∧ st_tracker s' = st_tracker s ∧ st_events s' = st_events s.
Proof.
  unfold fetchViaProxyOrHTTPWithHeaders. destruct (proxyClient f).
  - unfold fetchViaProxy, stealth_headers, mbind, M_bind, mret, M_ret, lift.
    destruct (stealth_ChromeHeaders _) as [hs w]. destruct (RetryDo _ _ _ _ _). by intros [= _ <-].
  - unfold fetchViaHTTP, mbind, M_bind, mret, M_ret, lift.
    destruct (RetryDo _ _ _ _ _) as [[[resp|]|e] w]; [|by intros [= _ <-]..].
    destruct (negb _); by intros [= _ <-].
Qed.
Lemma fetchProxyAndRecord_spec cx url extra s o s' :
  fetchProxyAndRecordWithHeaders f cx url extra s = (o, s') →
  st_cache s' = st_cache s ∧ st_tracker s' = st_tracker s ∧
  ∃ s1, fetchViaProxyOrHTTPWithHeaders f cx url extra s = (o, s1).
Proof.
  unfold fetchProxyAndRecordWithHeaders, mbind, M_bind, mret, M_ret, emit.
  destruct (fetchViaProxyOrHTTPWithHeaders _ _ _ _ s) as [o1 s1] eqn:E.
  pose proof (fetchViaProxyOrHTTP_frame _ _ _ _ _ _ E) as (Hc & Ht & _).
  destruct o1; intros [= <- <-]; eauto.
Qed.

Lemma fetchDirectRaw_spec cx url extra s body hdrs st err s' :
  fetchDirectRaw f cx url extra s = ((body, hdrs, st, err), s') →
  st_cache s' = st_cache s ∧ st_tracker s' = st_tracker s ∧ st_events s' = st_events s ∧
  (err = None → ∃ hs w rh w', directDo cx url hs w = (Val (body, rh, st), w') ∧
                              hdrs = stealth_header_map rh).
Proof.
  unfold fetchDirectRaw. destruct (directClient f); simpl; [|by intros [= <- <- <- <- <-]].
  unfold stealth_headers, mbind, M_bind, mret, M_ret, lift.
  destruct (stealth_ChromeHeaders _) as [hs w]. simpl.
  destruct (directDo cx url _ w) as [[[[data rh] status]|e] w1] eqn:E.
  - intros [= <- <- <- <- <-]. split_and!; [done..|]. intros _. eauto 10.
  - by intros [= <- <- <- <- <-].
Qed.

(** ** The direct-first tier *)
(** A URL goes straight to the proxy tier when it matches a hint or its host is cached. *)
Definition hinted url : Prop :=
  match proxyFirstDomains f with Some d => MatchURL d url = Ok true | None => False end.
Definition url_host url : gostring := match Parse url with Some u => Host u | None => [] end.
Definition cached url s : Prop :=
  match st_cache s with Some c => blocked c (url_host url) (now (st_world s)) = true | None => False end.

Lemma hint_total url : ∃ b, match proxyFirstDomains f with
                            | None => Ok false | Some d => MatchURL d url end = Ok b ∧
                            (b = true ↔ hinted url).
Proof.
  unfold hinted. destruct (proxyFirstDomains f) as [d|]; [|exists false; by split].
  destruct (MatchURL_total d url) as [b ->]. exists b. split; [done|split; congruence].
Qed.
Lemma cache_IsBlocked_spec url s :
  ∃ b s1, cache_IsBlocked (url_host url) s = (b, s1) ∧ (b = true ↔ cached url s) ∧
    st_world s1 = st_world s ∧ st_tracker s1 = st_tracker s ∧ st_events s1 = st_events s ∧
    (b = true → s1 = s) ∧
    (∀ c, st_cache s = Some c → st_cache s1 = Some (IsBlocked (url_host url) (now (st_world s)) c).2).
Proof.
  unfold cache_IsBlocked, cached, blocked. destruct s as [[c|] tr ev w]; simpl;
    [|by eexists _, _].
  destruct (IsBlocked (url_host url) (now w) c) as [b c'] eqn:E.
  exists b, (FState (Some c') tr ev w). simpl.
  split; [done|]. split_and!; [|done..| |by intros ? [= <-]; rewrite E];
    unfold IsBlocked in E; destruct (items c !! _) as [u|];
    try (injection E as <- <-; by split).
  - destruct (Z.ltb_spec u (now w)); injection E as <- <-; rewrite Z.leb_le;
      split; intros; (done || lia).
  - destruct (u <? now w); injection E as <- <-; by intros.
Qed.

(** The escalation to the proxy tier, with its reason. *)
Definition escalate cx url extra (reason : gostring) : M St (outcome (result gostring)) :=
  _ ← emit (IncEscalation reason); fetchProxyAndRecordWithHeaders f cx url extra.

(** The whole tier, branch by branch. *)
Lemma fetchDirectFirst_cases cx url extra s o s' :
  fetchDirectFirstWithHeaders f cx url extra s = (o, s') →
  (hinted url ∧ escalate cx url extra (lit "domain_hint") s = (o, s')) ∨
  (¬ hinted url ∧ cached url s ∧ escalate cx url extra (lit "cached") s = (o, s')) ∨
  (¬ hinted url ∧ ¬ cached url s ∧
   ∃ s1 body hdrs st err s2,
     cache_IsBlocked (url_host url) s = (false, s1) ∧
     fetchDirectRaw f cx url extra s1 = ((body, hdrs, st, err), s2) ∧
     let sig := classifyBlock st hdrs body err in
     (sig = sigNone ∧ o = Ok (Val body) ∧
        s' = (emit (IncTier (lit "direct") (lit "ok")) s2).2) ∨
     (sig ≠ sigNone ∧ ∃ s3,
        st_tracker s3 = st_tracker s2 ∧ st_world s3 = st_world s2 ∧
        st_cache s3 = (if decide (url_host url = []) then st_cache s2
                       else Mark (url_host url) (now (st_world s2)) <$> st_cache s2) ∧
        (if proxyClient f then escalate cx url extra (label sig) s3 = (o, s')
         else s' = s3 ∧
           o = Ok (if decide (sig = sigSoft) then Val body
                   else match err with Some e => Err e | None => Err (HttpStatusError st) end)))).
Proof.
  unfold fetchDirectFirstWithHeaders. intros Ho.
  destruct (hint_total url) as (hb & Hb & Hh). rewrite Hb in Ho.
  destruct hb; [left; split; [by apply Hh|exact Ho]|].
  assert (¬ hinted url) as Hnh by (intros ?%Hh; done). right. fold (url_host url) in Ho.
  destruct (cache_IsBlocked_spec url s) as (cb & s1 & Hc & Hcb & _ & _ & _ & Hs1 & _).
  rewrite (bind_eq _ _ _ _ _ Hc) in Ho. destruct cb.
  { rewrite Hs1 in Ho by done. left. split_and!; [done|by apply Hcb|exact Ho]. }
  right. split; [done|]. split; [intros ?%Hcb; done|].
  destruct (fetchDirectRaw f cx url extra s1) as [[[[body hdrs] st] err] s2] eqn:Er.
  rewrite (bind_eq _ _ _ _ _ Er) in Ho.
  exists s1, body, hdrs, st, err, s2. split; [done|]. split; [done|]. simpl.
  destruct (decide (classifyBlock st hdrs body err = sigNone)) as [Hs|Hs].
  { left. split; [done|]. destruct err as [e|]; [by simplify_eq/=|].
    unfold mbind, M_bind, mret, M_ret, emit in *. by simplify_eq/=. }
  right. split; [done|]. clear Er. destruct s2 as [c tr ev w]. simpl.
  unfold mbind, M_bind, gets, emit in Ho. simpl in Ho.
  set (sig := classifyBlock st hdrs body err) in *.
  match type of Ho with (let '(_, _) := ?m in _) = _ => destruct m as [[] s3] eqn:E3 end.
  exists s3. assert (st_tracker s3 = tr ∧ st_world s3 = w ∧
    st_cache s3 = (if decide (url_host url = []) then c else Mark (url_host url) (now w) <$> c))
    as (-> & -> & ->).
  { clear Ho. destruct c as [c|]; destruct (decide (url_host url = [])) as [He|He]; simpl in E3.
    - rewrite bool_decide_false in E3 by tauto. unfold mret, M_ret in E3. by simplify_eq/=.
    - rewrite bool_decide_true in E3 by done. unfold cache_Mark, set_cache, cache_Len in E3.
      by simplify_eq/=.
    - unfold mret, M_ret in E3. by simplify_eq/=.
    - unfold mret, M_ret in E3. by simplify_eq/=. }
  split_and!; [done..|]. destruct (proxyClient f).
  - exact Ho.
  - unfold mret, M_ret in Ho.
    destruct (decide (sig = sigSoft)); [by simplify_eq|]. destruct err; by simplify_eq.
Qed.

(** ** The fallback chain *)
Lemma try_one_Val (configured check : bool) t cx run r next s b s' :
  try_one configured check t cx run r next s = (Val b, s') →
  (configured = true ∧ ∃ c s1 s2, run c s1 = (Val b, s2)) ∨ r = Val b ∨ ∃ s1, next s1 = (Val b, s').
Proof.
  unfold try_one. destruct configured; [|eauto].
  unfold mbind, M_bind, mret, M_ret, lift. simpl.
  destruct (if check then _ else _) as [e|]; [intros [= -> _]; eauto|].
  match goal with |- context [run ?c ?s] => destruct (run c s) as [[b1|e1] s1] eqn:E end.
  - intros [= -> _]. left. eauto.
  - eauto.
Qed.
Lemma fetchViaOxBrowser_Val c url s b s' :
  oxBrowserURL f ≠ [] → fetchViaOxBrowser f c url s = (Val b, s') → from_fallback url b.
Proof.
  intros Hne. unfold fetchViaOxBrowser. destruct (Parse _); [|done].
  unfold mbind, M_bind, mret, M_ret, lift. destruct (svcauth_err _ _); [done|].
  destruct (httpPost _ _ _ _ _) as [[resp|e] w] eqn:E; [|done].
  intros [= Hb _]. by eapply from_ox.
Qed.
Lemma fetchViaGoBrowser_Val c url s b s' :
  goBrowserURL f ≠ [] → fetchViaGoBrowser f c url s = (Val b, s') → from_fallback url b.
Proof.
  intros Hne. unfold fetchViaGoBrowser. destruct (Parse _); [|done].
  unfold mbind, M_bind, mret, M_ret, lift.
  destruct (httpPost _ _ _ _ _) as [[resp|e] w] eqn:E; [|done].
  intros [= Hb _]. by eapply from_gb.
Qed.
Lemma fetchViaByparr_Val c url s b s' :
  byparrURL f ≠ [] → fetchViaByparr f c url s = (Val b, s') → from_fallback url b.
Proof.
  intros Hne. unfold fetchViaByparr. destruct (Parse _); [|done].
  unfold mbind, M_bind, mret, M_ret, lift.
  destruct (httpPost _ _ _ _ _) as [[resp|e] w] eqn:E; [|done].
  intros [= Hb _]. by eapply from_byparr.
Qed.
Lemma tryFallbacks_Val cx url r s b s' :
  tryFallbacks f cx url r s = (Val b, s') → r = Val b ∨ (∃ e, r = Err e) ∧ from_fallback url b.
Proof.
  unfold tryFallbacks. destruct r as [b0|e]; [intros [= -> _]; by left|]. intros Ht. right.
  split; [eauto|].
  apply try_one_Val in Ht as [[Hc (c & s1 & s2 & Hr)]|[?|[s1 Ht]]]; [|done|].
  { apply bool_decide_eq_true in Hc. by eapply fetchViaOxBrowser_Val. }
  apply try_one_Val in Ht as [[Hc (c & s2 & s3 & Hr)]|[?|[s2 Ht]]]; [|done|].
  { apply bool_decide_eq_true in Hc. by eapply fetchViaGoBrowser_Val. }
  apply try_one_Val in Ht as [[Hc (c & s3 & s4 & Hr)]|[?|[s3 Ht]]]; [|done|by simplify_eq/=].
  apply bool_decide_eq_true in Hc. by eapply fetchViaByparr_Val.
Qed.

Lemma escalate_sound cx url extra reason s o s' :
  escalate cx url extra reason s = (o, s') → sound (from_proxy_or_http cx url) o.
Proof.
  unfold escalate, mbind, M_bind, emit. intros E.
  apply fetchProxyAndRecord_spec in E as (_ & _ & s2 & E). by eapply fetchViaProxyOrHTTP_sound.
Qed.
Definition from_primary cx url (b : gostring) : Prop :=
  from_proxy_or_http cx url b ∨ directFirst f = true ∧ from_direct cx url b.
Lemma fetchPrimary_sound cx url p extra s o s' :
  fetchPrimaryWithHeaders f cx url p extra s = (o, s') → sound (from_primary cx url) o.
Proof.
  assert (∀ o, sound (from_proxy_or_http cx url) o → sound (from_primary cx url) o) as Hw.
  { intros o'. apply sound_weaken. by left. }
  unfold fetchPrimaryWithHeaders. destruct p; [by intros [= <- _]|].
  destruct (directFirst f) eqn:Hdf; simpl.
  - intros Hd. apply fetchDirectFirst_cases in Hd as [[_ Hd]|[(_ & _ & Hd)|Hd]];
      [by apply escalate_sound in Hd; apply Hw..|].
    destruct Hd as (_ & _ & s1 & body & hdrs & st & err & s2 & _ & Hr & Hd).
    apply fetchDirectRaw_spec in Hr as (_ & _ & _ & Hr). simpl in Hd.
    destruct Hd as [(Hsig & -> & _)|(Hsig & s3 & _ & _ & _ & Hd)].
    + right. split; [done|]. pose proof (classifyBlock_cases st hdrs body err) as Hc.
      rewrite Hsig in Hc. destruct Hc as [-> _].
      destruct Hr as (hs & w & rh & w' & Hr & ->); [done|]. econstructor; [done|]. by left.
    + destruct (proxyClient f) eqn:Hp; [by apply escalate_sound in Hd; apply Hw|].
      destruct Hd as [_ ->]. destruct (decide (classifyBlock st hdrs body err = sigSoft)) as [Hs|];
        [|by destruct err]. right. split; [done|].
      pose proof (classifyBlock_cases st hdrs body err) as Hc. rewrite Hs in Hc.
      destruct Hc as [-> _]. destruct Hr as (hs & w & rh & w' & Hr & ->); [done|].
      econstructor; [done|]. by right.
  - intros E. by apply Hw, (fetchViaProxyOrHTTP_sound _ _ _ _ _ _ E).
Qed.

(** The fallbacks touch only the world. *)
Definition same_but_world s s' : Prop :=
  st_cache s' = st_cache s ∧ st_tracker s' = st_tracker s ∧ st_events s' = st_events s.
Lemma lift_frame {A} (m : W → A * W) s a s' : lift m s = (a, s') → same_but_world s s'.
Proof. unfold lift. destruct (m _). by intros [= _ <-]. Qed.
Lemma try_one_frame (configured check : bool) t cx run r next s o s' :
  (∀ c s o s', run c s = (o, s') → same_but_world s s') →
  (∀ s o s', next s = (o, s') → same_but_world s s') →
  try_one configured check t cx run r next s = (o, s') → same_but_world s s'.
Proof.
  intros Hrun Hnext. unfold try_one. destruct configured; [|apply Hnext].
  unfold mbind, M_bind, mret, M_ret, lift. simpl.
  assert (FState (st_cache s) (st_tracker s) (st_events s) (st_world s) = s) as -> by by destruct s.
  destruct (if check then _ else _) as [e|]; [by intros [= _ <-]|].
  match goal with |- context [run ?c ?s] => destruct (run c s) as [[b1|e1] s1] eqn:E end;
    apply Hrun in E as (Ec & Et & Ee).
  - by intros [= _ <-].
  - intros (? & ? & ?)%Hnext. unfold same_but_world. simpl in *. split_and!; congruence.
Qed.
Lemma tryFallbacks_frame cx url r s o s' :
  tryFallbacks f cx url r s = (o, s') → same_but_world s s'.
Proof.
  unfold tryFallbacks. destruct r as [b|e]; [by intros [= _ <-]|].
  apply try_one_frame.
  { intros c v ov v'. unfold fetchViaOxBrowser. destruct (Parse _); [|by intros [= _ <-]].
    unfold mbind, M_bind, mret, M_ret, lift.
    destruct (svcauth_err _ _); [by intros [= _ <-]|].
    destruct (httpPost _ _ _ _ _) as [[resp|e'] w]; by intros [= _ <-]. }
  intros v1 ov1 v1'. apply try_one_frame.
  { intros c v ov v'. unfold fetchViaGoBrowser. destruct (Parse _); [|by intros [= _ <-]].
    unfold mbind, M_bind, mret, M_ret, lift.
    destruct (httpPost _ _ _ _ _) as [[resp|e'] w]; by intros [= _ <-]. }
  intros v2 ov2 v2'. apply try_one_frame.
  { intros c v ov v'. unfold fetchViaByparr. destruct (Parse _); [|by intros [= _ <-]].
    unfold mbind, M_bind, mret, M_ret, lift.
    destruct (httpPost _ _ _ _ _) as [[resp|e'] w]; by intros [= _ <-]. }
  by intros ? ? ? [= _ <-].
Qed.
Lemma escalate_frame cx url extra reason s o s' :
  escalate cx url extra reason s = (o, s') →
  st_cache s' = st_cache s ∧ st_tracker s' = st_tracker s.
Proof.
  unfold escalate, mbind, M_bind, emit. intros E.
  by apply fetchProxyAndRecord_spec in E as (Hc & Ht & _).
Qed.
Lemma fetchPrimary_tracker cx url p extra s o s' :
  fetchPrimaryWithHeaders f cx url p extra s = (o, s') → st_tracker s' = st_tracker s.
Proof.
  unfold fetchPrimaryWithHeaders. destruct p; [by intros [= _ <-]|].
  destruct (directFirst f); simpl.
  - intros Hd. apply fetchDirectFirst_cases in Hd as [[_ Hd]|[(_ & _ & Hd)|Hd]];
      [by apply escalate_frame in Hd as [_ ?]..|].
    destruct Hd as (_ & _ & s1 & body & hdrs & st & err & s2 & Hc & Hr & Hd). simpl in Hd.
    apply fetchDirectRaw_spec in Hr as (_ & Hr & _).
    destruct (cache_IsBlocked_spec url s) as (cb & s1' & Hc' & _ & _ & Ht1 & _).
    rewrite Hc in Hc'. injection Hc' as <- <-. rewrite Ht1 in Hr.
    destruct Hd as [(_ & _ & ->)|(_ & s3 & Ht & _ & _ & Hd)]; [done|].
    destruct (proxyClient f).
    + apply escalate_frame in Hd as [_ ?]. congruence.
    + destruct Hd as [-> _]. congruence.
  - intros E. by apply fetchViaProxyOrHTTP_frame in E as (_ & ? & _).
Qed.

(** The stages of a fetch that is not short-circuited. *)
Lemma FetchBody_stages cx url extra s o s' :
  FetchBodyWithHeaders f cx url extra s = (o, s') →
  ∃ retry s0, tracker_ShouldRetry url s = (retry, s0) ∧
    ((retry = false ∧ hasFallback f = false ∧ o = Ok (Err ErrPermanentlyFailed) ∧ s' = s0) ∨
     ((retry = true ∨ hasFallback f = true) ∧
      ∃ p s1, fetchPrimaryWithHeaders f cx url (negb retry) extra s0 = (p, s1) ∧
        match p with
        | Ok r1 => ∃ r2 s2, tryFallbacks f cx url r1 s1 = (r2, s2) ∧
                            tracker_record url r2 s2 = ((), s') ∧ o = Ok r2
        | _ => o = p
        end)).
Proof.
  unfold FetchBodyWithHeaders. destruct (tracker_ShouldRetry url s) as [retry s0] eqn:E0.
  rewrite (bind_eq _ _ _ _ _ E0). intros Ho. exists retry, s0. split; [done|].
  destruct (negb retry && negb (hasFallback f)) eqn:Ep.
  { left. unfold mret, M_ret in Ho. destruct retry, (hasFallback f); by simplify_eq/=. }
  right. split. { destruct retry, (hasFallback f); auto. }
  destruct (fetchPrimaryWithHeaders f cx url (negb retry) extra s0) as [p s1] eqn:E1.
  rewrite (bind_eq _ _ _ _ _ E1) in Ho. exists p, s1. split; [done|].
  destruct p as [r1| |]; [|unfold mret, M_ret in Ho; by simplify_eq..].
  destruct (tryFallbacks f cx url r1 s1) as [r2 s2] eqn:E2. rewrite (bind_eq _ _ _ _ _ E2) in Ho.
  destruct (tracker_record url r2 s2) as [[] s3] eqn:E3. rewrite (bind_eq _ _ _ _ _ E3) in Ho.
  unfold mret, M_ret in Ho. simplify_eq. eauto 10.
Qed.

(** ** Properties *)
(** C1: a fetch panics only when the fetcher has no proxy and was given a negative number of retries,
    so that the plain client makes no attempt and its nil response is read; and a body it
    returns comes from where it may: from a 200 response of the proxy or of the plain client, from
    a direct response without a block signal (or a suspect one when there is no proxy), or from a
    configured fallback service - or it is empty, from a proxy tier that made no attempt because
    the number of retries is negative. *)
Theorem FetchBody_sound cx url extra s o s' :
  FetchBodyWithHeaders f cx url extra s = (o, s') →
  match o with
  | Ok (Val b) => from_proxy_or_http cx url b ∨ (directFirst f = true ∧ from_direct cx url b) ∨
                  from_fallback url b
  | Ok (Err _) => True
  | Panic => MaxRetries (retryConfig f) < 0 ∧ proxyClient f = false
  | OutOfFuel => False
  end.
Proof.
  intros Hb. apply FetchBody_stages in Hb
    as (retry & s0 & _ & [(_ & _ & -> & _)|(_ & p & s1 & Hp & Hs)]); [done|].
  apply fetchPrimary_sound in Hp. destruct p as [r1| |]; [|by rewrite Hs..].
  destruct Hs as (r2 & s2 & Ht & _ & ->). destruct r2 as [b|e]; [|done].
  apply tryFallbacks_Val in Ht as [->|[_ ?]]; [|auto]. simpl in Hp. destruct Hp; auto.
Qed.
(** And then it does panic. *)
Lemma negative_retries_panic cx url extra s :
  MaxRetries (retryConfig f) < 0 → proxyClient f = false → directFirst f = false →
  st_tracker s = None → (FetchBodyWithHeaders f cx url extra s).1 = Panic.
Proof.
  intros Hm Hp Hd Ht. unfold FetchBodyWithHeaders, tracker_ShouldRetry, fetchPrimaryWithHeaders,
    fetchViaProxyOrHTTPWithHeaders, fetchViaHTTP, mbind, M_bind, lift, RetryDo.
  rewrite Ht, Hp, Hd. simpl. by rewrite (proj2 (Z.ltb_lt _ _)).
Qed.



(** A permanently failed URL is refused without any request when there is no fallback. *)
Theorem permanent_refused cx url extra s t e :
  st_tracker s = Some t → entries t !! url = Some e → permanent e = true →
  hasFallback f = false →
  FetchBodyWithHeaders f cx url extra s = (Ok (Err ErrPermanentlyFailed), s).
Proof.
  intros Ht He Hp Hf. unfold FetchBodyWithHeaders, tracker_ShouldRetry, ShouldRetry.
  unfold mbind, M_bind. destruct s as [ca tr ev w]. simpl in *. rewrite Ht. simpl.
  rewrite He, Hp. simpl. rewrite Hf. done.
Qed.

(** What the tracker knows of a URL at a time: an entry that is not permanent expires. *)
Definition tracked (t : RetryTracker) url (time : Z) : option retryEntry :=
  match entries t !! url with
  | Some e => if negb (permanent e) && (tr_ttl t <? time - lastAttempt e) then None else Some e
  | None => None
  end.
Definition spent (t : RetryTracker) (e : retryEntry) : Prop := permanent e = true ∨ maxAttempts t <= attempts e.
Lemma ShouldRetry_tracked url time t :
  let '(retry, t') := ShouldRetry url time t in
  entries t' !! url = tracked t url time ∧ (∀ u, u ≠ url → entries t' !! u = entries t !! u) ∧
  (retry = false → t' = t) ∧
  (retry = false ↔ ∃ e, tracked t url time = Some e ∧ spent t e).
Proof.
  unfold ShouldRetry, tracked, spent. destruct (entries t !! url) as [e|] eqn:E; [|naive_solver].
  destruct (negb (permanent e) && (tr_ttl t <? time - lastAttempt e)) eqn:Hx.
  { simpl. rewrite lookup_delete_eq. split_and!; [done| |done|naive_solver].
    intros u Hu. by rewrite lookup_delete_ne. }
  destruct (permanent e) eqn:Hp.
  { split_and!; [done..|]. split; [|done]. intros _. exists e. auto. }
  split_and!; [done..|]. rewrite Z.ltb_ge. split; [naive_solver|].
  intros (e' & [= <-] & [?|?]); [congruence|done].
Qed.
(** C14: the tracker counts what happens to a URL. Once its entry is permanent or has used its
    attempts, and has not expired, a fetch without a fallback service is refused: no request, and
    the tracker is as it was. Any other fetch that returns clears the entry when it succeeds, and
    when it fails counts one failure more than the entry had - one when there was none or it had
    expired - with the time of the failure and whether it is permanent. Other URLs are
    untouched. *)
Theorem tracker_follows_outcome cx url extra s t r s' :
  st_tracker s = Some t →
  FetchBodyWithHeaders f cx url extra s = (Ok r, s') →
  let before := tracked t url (now (st_world s)) in
  ∃ t', st_tracker s' = Some t' ∧
    (∀ u, u ≠ url → entries t' !! u = entries t !! u) ∧
    (((∃ e, before = Some e ∧ spent t e) ∧ hasFallback f = false ∧
      t' = t ∧ r = Err ErrPermanentlyFailed ∧ st_world s' = st_world s) ∨
     (((∀ e, before = Some e → ¬ spent t e) ∨ hasFallback f = true) ∧
      entries t' !! url =
        match r with
        | Val _ => None
        | Err e => Some {| attempts := iadd (match before with Some e0 => attempts e0 | None => 0 end) 1;
                           lastAttempt := now (st_world s'); permanent := isPermanentError e |}
        end)).
Proof.
  intros Ht Hb before. apply FetchBody_stages in Hb as (retry & s0 & Hr & Hb).
  unfold tracker_ShouldRetry in Hr. rewrite Ht in Hr.
  pose proof (ShouldRetry_tracked url (now (st_world s)) t) as Hsr.
  destruct (ShouldRetry url (now (st_world s)) t) as [b t0] eqn:Es. injection Hr as -> <-.
  fold before in Hsr. destruct Hsr as (Hcur & Hother & Hkeep & Hspent).
  destruct Hb as [(-> & Hf & [= ->] & ->)|(Hgo & p & s1 & Hp & Hs)].
  { exists t0. split; [done|]. split; [done|]. left. split; [by apply Hspent|]. by rewrite Hkeep. }
  destruct p as [r1| |]; [|done..]. destruct Hs as (r2 & s2 & Hf & Hrec & [= ->]).
  apply fetchPrimary_tracker in Hp. apply tryFallbacks_frame in Hf as (_ & Hf & _).
  simpl in Hp. unfold tracker_record in Hrec. rewrite Hf, Hp in Hrec.
  unfold set_tracker in Hrec. injection Hrec as <-. simpl.
  eexists; split; [done|]. split.
  { intros u Hu. destruct r2 as [v|e]; simpl;
      [by rewrite lookup_delete_ne, Hother|by rewrite lookup_insert_ne, Hother by done]. }
  right. split.
  { destruct Hgo as [->|]; [left|by right]. intros e He Hse.
    assert (true = false) as ?; [|done]. apply Hspent. eauto. }
  destruct r2 as [v|e]; simpl; [by rewrite lookup_delete_eq|].
  rewrite lookup_insert_eq, Hcur. by destruct before.
Qed.

(** The mark of a permanent failure does not survive a failing fallback: when a permanently
    failed URL is fetched with a fallback configured and the fetch fails again, its entry is no
    longer permanent, so it expires like any other. *)
Theorem permanent_mark_lost cx url extra s t e e' s' :
  st_tracker s = Some t → entries t !! url = Some e → permanent e = true →
  hasFallback f = true →
  FetchBodyWithHeaders f cx url extra s = (Ok (Err e'), s') →
  e' = ErrPermanentlyFailed ∧ ∃ t' e1, st_tracker s' = Some t' ∧ entries t' !! url = Some e1 ∧
    permanent e1 = false ∧ ShouldRetry url (lastAttempt e1 + tr_ttl t' + 1) t' =
      (true, set_entries t' (delete url (entries t'))).
Proof.
  intros Ht He Hp Hf Hb. apply FetchBody_stages in Hb as (retry & s0 & Hr & Hb).
  assert (retry = false ∧ s0 = s) as [-> ->].
  { unfold tracker_ShouldRetry, ShouldRetry in Hr. rewrite Ht, He, Hp in Hr. simpl in Hr.
    destruct s. simpl in *. by simplify_eq. }
  destruct Hb as [(_ & ? & _)|(_ & p & s1 & Hpr & Hs)]; [congruence|].
  unfold fetchPrimaryWithHeaders in Hpr. simpl in Hpr. unfold mret, M_ret in Hpr. simplify_eq.
  destruct Hs as (r2 & s2 & Hfb & Hrec & [= <-]).
  assert (e' = ErrPermanentlyFailed) as ->.
  { revert Hfb. unfold tryFallbacks.
    assert (∀ (c1 ck : bool) t0 run (next : M St (result gostring)) s0 e0 s1,
      (∀ s0 e0 s1, next s0 = (Err e0, s1) → e0 = ErrPermanentlyFailed) →
      try_one c1 ck t0 cx run (Err ErrPermanentlyFailed) next s0 = (Err e0, s1) →
      e0 = ErrPermanentlyFailed) as H1.
    { intros c1 ck t0 run next v ev v' Hn. unfold try_one. destruct c1; [|apply Hn].
      unfold mbind, M_bind, mret, M_ret, lift. simpl.
      destruct (if ck then _ else _); [by intros [= <- _]|].
      match goal with |- context [run ?c ?s] => destruct (run c s) as [[b1|e1] s3] end;
        [done|apply Hn]. }
    intros Hfb. eapply H1; [|exact Hfb]. intros v ev v'. apply H1. intros v2 ev2 v2'.
    apply H1. by intros v3 ev3 v3' [= <- _]. }
  split; [done|]. apply tryFallbacks_frame in Hfb as (_ & Hfb & _).
  unfold tracker_record in Hrec. rewrite Hfb, Ht in Hrec. unfold set_tracker in Hrec.
  injection Hrec as <-. simpl. eexists _, _. split; [done|]. simpl.
  rewrite lookup_insert_eq. split; [done|]. split; [done|].
  unfold ShouldRetry. simpl. rewrite lookup_insert_eq. simpl.
  rewrite (proj2 (Z.ltb_lt _ _)) by lia. done.
Qed.
End Spec.

(** ** A concrete environment for the witnesses: the proxy answers with a page, the direct client
    is refused, and every fallback service answers with an error document. *)
#[local] Instance demo_clock : Clock Z := {|
  now := λ w, w;
  ctx_err := λ _ _, None;
  wait_or_done := λ _ d w, (None, w + d);
  random := λ w, (fzero, w);
  retry_hook := λ _ _ _ _ w, w
|}.
#[local] Instance demo_net : Net Z := {|
  proxyDo := λ _ _ _ w, (Val (lit "page", [], 200), w + 1);
  directDo := λ _ _ _ w, (Val (lit "denied", [(lit "server", lit "cloudflare")], 403), w + 1);
  httpGet := λ _ _ _ w, (Val {| StatusCode := 200; resp_header := ∅; resp_body := Val (lit "x") |}, w);
  httpPost := λ _ _ _ _ w,
    (Val {| StatusCode := 502; resp_header := ∅; resp_body := Val (lit "bad gateway") |}, w + 1);
  stealth_ChromeHeaders := λ w, (∅, w);
  stealth_RandomUserAgent := λ w, (lit "ua", w);
  proxy_ua := None;
  direct_ua := None;
  svcauth_err := λ _ _, None;
  gunzip := λ r, r
|}.
Definition demo_ctx : ctx := Ctx None 0.
Definition demo_url : gostring := lit "https://example.org/p".
Definition demo_fetcher : Fetcher := New true true [WithProxyPool true; WithDirectFirst true].
Definition demo_state : fstate Z :=
  FState (blockCache0 demo_fetcher) None [] 0.
Definition demo_entry : retryEntry := {| attempts := 1; lastAttempt := 0; permanent := true |}.
Definition demo_tracker : RetryTracker :=
  set_entries (NewRetryTracker 3 100) {[demo_url := demo_entry]}.
Definition tracked_state : fstate Z := FState None (Some demo_tracker) [] 5.

Lemma FetchBody_sound_witness :
  from_proxy_or_http demo_fetcher demo_ctx demo_url (lit "page") ∨
  (directFirst demo_fetcher = true ∧ from_direct demo_fetcher demo_ctx demo_url (lit "page")) ∨
  from_fallback demo_fetcher demo_url (lit "page").
Proof.
  assert ((FetchBodyWithHeaders demo_fetcher demo_ctx demo_url [] demo_state).1 = Ok (Val (lit "page"))) as Ho
    by (vm_compute; reflexivity).
  destruct (FetchBodyWithHeaders demo_fetcher demo_ctx demo_url [] demo_state) as [o s'] eqn:E.
  simpl in Ho. subst o. exact (FetchBody_sound demo_fetcher demo_ctx demo_url [] demo_state _ s' E).
Defined.


Lemma permanent_refused_witness :
  FetchBodyWithHeaders demo_fetcher demo_ctx demo_url [] tracked_state =
    (Ok (Err ErrPermanentlyFailed), tracked_state).
Proof.
  apply (permanent_refused demo_fetcher demo_ctx demo_url [] tracked_state demo_tracker demo_entry);
    by vm_compute.
Defined.

Definition fallback_fetcher : Fetcher := New false false [WithOxBrowser (lit "http://ox")].
Definition fallback_run : outcome (result gostring) * fstate Z :=
  FetchBodyWithHeaders fallback_fetcher demo_ctx demo_url [] tracked_state.
Lemma tracker_follows_outcome_witness :
  ∃ t', st_tracker fallback_run.2 = Some t' ∧
    ∀ u, u ≠ demo_url → entries t' !! u = entries demo_tracker !! u.
Proof.
  destruct (tracker_follows_outcome fallback_fetcher demo_ctx demo_url [] tracked_state
    demo_tracker (Err ErrPermanentlyFailed) fallback_run.2) as (t' & Ht & Hu & _).
  - reflexivity.
  - vm_compute. reflexivity.
  - exists t'. split; [exact Ht|exact Hu].
Defined.
Lemma permanent_mark_lost_witness :
  ∃ t' e1, st_tracker fallback_run.2 = Some t' ∧ entries t' !! demo_url = Some e1 ∧
    permanent e1 = false.
Proof.
  destruct (permanent_mark_lost fallback_fetcher demo_ctx demo_url [] tracked_state
    demo_tracker demo_entry ErrPermanentlyFailed fallback_run.2) as (_ & t' & e1 & Ht & He & Hp & _);
    [by vm_compute..|].
  exists t', e1. by split_and!.
Defined.
