(* ===== verification/Telemetry.v ===== *)
(** Telemetry: the metrics of package [fetch] ([metrics.go]), which the fetcher of [Fetcher] records
    as events, and the timing of an operation ([metrics/track.go]). The registry of Prometheus is an
    interface on the world. *)
From S2P Require Import Prelude Unicode Utf8 GoStrings GoUrl Floats Effects Retry BlockCache FetchSignals Fetcher.
Local Open Scope Z_scope.

(** A counter with labels, or a gauge, as it is described to the registry. *)
Inductive collector :=
| CounterVec (Name Help : gostring) (labels : list gostring)
| Gauge (Name Help : gostring).
Definition collector_name (c : collector) : gostring :=
  match c with CounterVec n _ _ | Gauge n _ => n end.
Class Prometheus (W : Type) := {
  Register : collector → W → option error * W;
  IncLabels : collector → list gostring → W → W;   (* [WithLabelValues(...).Inc()] *)
  SetGauge : collector → float → W → W
}.

(** [fetchMetrics]: what the fetcher calls. *)
Record fetchMetrics (W : Type) := {
  incTier : gostring → gostring → W → W;
  incBlockSignal : gostring → W → W;
  incEscalation : gostring → W → W;
  setBlockCacheHosts : Z → W → W
}.
Arguments incTier {W} _ _ _ _.
Arguments incBlockSignal {W} _ _ _.
Arguments incEscalation {W} _ _ _.
Arguments setBlockCacheHosts {W} _ _ _.

Section Telemetry.
Context {W : Type}.
Definition noopMetrics : fetchMetrics W :=
  {| incTier := λ _ _ w, w; incBlockSignal := λ _ w, w; incEscalation := λ _ w, w;
     setBlockCacheHosts := λ _ w, w |}.
(** What the events of a fetch do to a world with metrics. *)
Definition record_event (m : fetchMetrics W) (w : W) (e : event) : W :=
  match e with
  | IncTier tier result => incTier m tier result w
  | IncBlockSignal signal => incBlockSignal m signal w
  | IncEscalation reason => incEscalation m reason w
  | SetBlockCacheHosts n => setBlockCacheHosts m n w
  end.
Definition record_events (m : fetchMetrics W) (evs : list event) (w : W) : W :=
  foldl (record_event m) w evs.
Lemma noop_records evs w : record_events noopMetrics evs w = w.
Proof. induction evs as [|e evs IH]; [done|]. unfold record_events. cbn [foldl]. by destruct e. Qed.

(** ** The metrics on a Prometheus registry *)
Context `{Prometheus W}.
Record promTierMetrics := {
  tierTotal : collector; blockSignal : collector; escalations : collector;
  blockCacheSize : collector
}.
Definition tier_metrics : promTierMetrics :=
  {| tierTotal := CounterVec (lit "go_engine_fetch_tier_total")
       (lit "Number of fetches per tier (direct|proxy) and result (ok|err).")
       [lit "tier"; lit "result"];
     blockSignal := CounterVec (lit "go_engine_fetch_block_signal_total")
       (lit "Block signals detected on the direct tier, classified by type (hard|soft|tls).")
       [lit "signal"];
     escalations := CounterVec (lit "go_engine_fetch_proxy_escalations_total")
       (lit "Direct" ++ EncodeRune 8594 ++
        lit "proxy escalations by reason (hard|soft|tls|domain_hint|cached).")
       [lit "reason"];
     blockCacheSize := Gauge (lit "go_engine_fetch_direct_block_cache_hosts")
       (lit "Current number of hosts in the direct-block FIFO cache.") |}.
Definition collectors (m : promTierMetrics) : list collector :=
  [tierTotal m; blockSignal m; escalations m; blockCacheSize m].
Definition prom_fetchMetrics (m : promTierMetrics) : fetchMetrics W :=
  {| incTier := λ tier result, IncLabels (tierTotal m) [tier; result];
     incBlockSignal := λ signal, IncLabels (blockSignal m) [signal];
     incEscalation := λ reason, IncLabels (escalations m) [reason];
     setBlockCacheHosts := λ n, SetGauge (blockCacheSize m) (of_int n) |}.
(** The registrations, which stop at the first error; what was registered stays. *)
Fixpoint register_all (cs : list collector) : M W (option error) :=
  match cs with
  | [] => mret None
  | c :: cs => err ← Register c; match err with Some e => mret (Some e) | None => register_all cs end
  end.
Definition NewPromMetrics : M W (result (fetchMetrics W)) :=
  err ← register_all (collectors tier_metrics);
  mret match err with Some e => Err e | None => Val (prom_fetchMetrics tier_metrics) end.

End Telemetry.

(** ** A registry that refuses a name it has *)
Section Registry.
Context {W : Type} `{Prometheus W}.
Variable registered : W → gset gostring.
(** The documented behaviour of a registerer: a collector is accepted once. *)
Hypothesis Register_once : ∀ c w,
  if decide (collector_name c ∈ registered w)
  then (∃ e, Register c w = (Some e, w))
  else (Register c w).1 = None ∧ registered (Register c w).2 = {[collector_name c]} ∪ registered w.

Lemma register_all_fresh cs w :
  NoDup (collector_name <$> cs) → (∀ c, c ∈ cs → collector_name c ∉ registered w) →
  (register_all cs w).1 = None ∧
  registered (register_all cs w).2 = list_to_set (collector_name <$> cs) ∪ registered w.
Proof.
  revert w. induction cs as [|c cs IH]; intros w Hnd Hw; [split; [done|set_solver]|].
  apply NoDup_cons in Hnd as [Hc Hnd]. pose proof (Register_once c w) as Hr.
  rewrite decide_False in Hr by (apply Hw; set_solver). destruct Hr as [H1 H2].
  cbn [register_all]. unfold mbind, M_bind. destruct (Register c w) as [r w1]. cbn in H1, H2. subst r.
  destruct (IH w1 Hnd) as [E1 E2].
  { intros d Hd. rewrite H2. intros [Hs%elem_of_singleton|Hs]%elem_of_union; [|set_solver].
    apply Hc. rewrite <- Hs. by apply list_elem_of_fmap_2. }
  split; [done|]. rewrite E2, H2. cbn. set_solver.
Qed.
(** The metrics are made once per registry: the first call on a registry without the four names
    succeeds and registers them, every later one fails. *)
Lemma NewPromMetrics_once w :
  (∀ c, c ∈ collectors tier_metrics → collector_name c ∉ registered w) →
  ∃ w1, NewPromMetrics w = (Val (prom_fetchMetrics tier_metrics), w1) ∧
        ∃ e, NewPromMetrics w1 = (Err e, w1).
Proof.
  intros Hw. destruct (register_all_fresh (collectors tier_metrics) w) as [E1 E2]; [|done|].
  { apply (bool_decide_unpack _). by vm_compute. }
  unfold NewPromMetrics, mbind, M_bind. destruct (register_all (collectors tier_metrics) w) as [r w1].
  cbn in E1, E2. subst r. exists w1. split; [done|].
  pose proof (Register_once (tierTotal tier_metrics) w1) as Hr.
  rewrite decide_True in Hr by (rewrite E2; set_solver). destruct Hr as [e He].
  exists e. unfold collectors. cbn [register_all]. unfold mbind, M_bind. by rewrite He.
Qed.
End Registry.

(** ** Timing an operation: its error is passed on, and a slow one is logged *)
Section Track.
Context {W : Type} `{Clock W}.
Definition slowThreshold : Z := 5 * Second.
Record slow_warning := { op : gostring; elapsed : Z }.
Definition TrackOperation (cx : ctx) (name : gostring) (fn : ctx → M W (option error))
    : M W (option error * option slow_warning) :=
  start ← gets now;
  err ← fn cx;
  end_ ← gets now;
  mret (err, if slowThreshold <? end_ - start then Some {| op := name; elapsed := end_ - start |} else None).
End Track.
