(* ===== verification/Results.v ===== *)
(** Packages [sources] and [websearch]: the search result shared by every engine, the options of
    a search, and reciprocal rank fusion ([websearch/fusion.go], [imagesearch/fusion.go]). *)
From S2P Require Import Prelude Unicode Utf8 GoStrings Floats.
Local Open Scope Z_scope.

(** ** Data *)
Record Result := MkResult {
  r_Title : gostring;
  r_URL : gostring;
  r_Content : gostring;
  r_Score : float;
  r_Metadata : gmap gostring gostring
}.
Definition set_Score (r : Result) (s : float) : Result :=
  MkResult (r_Title r) (r_URL r) (r_Content r) s (r_Metadata r).
Definition zero_Result : Result := MkResult [] [] [] fzero ∅.

Record SearchOpts := {
  Language : gostring; TimeRange : gostring; Region : gostring; Engines : gostring; Limit : Z
}.
Definition zero_SearchOpts : SearchOpts :=
  {| Language := []; TimeRange := []; Region := []; Engines := []; Limit := 0 |}.

Record Query := {
  q_Text : gostring; q_Limit : Z; q_TimeRange : gostring; q_Language : gostring;
  q_Extra : gmap gostring gostring
}.

Record ImageResult := {
  i_URL : gostring; i_Thumbnail : gostring; i_Source : gostring; i_Title : gostring;
  i_Width : Z; i_Height : Z; i_Engine : gostring
}.

(** ** The accumulator both fusions share *)
Section Fuse.
Context {R : Type} (url : R → gostring).

(** The map from URL to the first result and its score, and the first-seen order. *)
Definition acc : Type := gmap gostring (R * float) * list gostring.
Definition fuse_step (st : acc) (p : R * float) : acc :=
  let '(byURL, order) := st in
  let '(r, rrf) := p in
  if decide (url r = []) then st
  else match byURL !! url r with
       | Some (r0, s) => (<[url r := (r0, fadd s rrf)]> byURL, order)
       | None => (<[url r := (r, rrf)]> byURL, order ++ [url r])
       end.

(** The reference: the results that count, each with its contribution. *)
Definition counted (ps : list (R * float)) : list (R * float) := filter (λ p, url p.1 ≠ []) ps.
Definition contribs (u : gostring) (ps : list (R * float)) : list float :=
  snd <$> filter (λ p, url p.1 = u) ps.
Definition total (u : gostring) (ps : list (R * float)) : float :=
  match contribs u ps with c :: cs => foldl fadd c cs | [] => fzero end.
(** The first result of each URL. *)
Definition firsts (ps : list (R * float)) : list R :=
  fst <$> dedup_by (λ p, url p.1) ∅ (counted ps).

Lemma total_snoc u ps p :
  total u (ps ++ [p]) =
    if decide (url p.1 = u) then
      match contribs u ps with [] => p.2 | _ => fadd (total u ps) p.2 end
    else total u ps.
Proof.
  unfold total, contribs. rewrite filter_app, filter_cons, filter_nil.
  case_decide; [|by rewrite app_nil_r]. rewrite fmap_app. simpl.
  destruct (snd <$> _) as [|c cs]; [done|]. simpl. by rewrite foldl_app.
Qed.
Lemma contribs_nil u ps : contribs u ps = [] ↔ u ∉ (λ p, url p.1) <$> ps.
Proof.
  unfold contribs. rewrite list_elem_of_fmap. split.
  - intros Hf (p & -> & Hp). apply fmap_nil_inv in Hf.
    assert (p ∈ filter (λ q, url q.1 = url p.1) ps) as Hin by by apply list_elem_of_filter.
    rewrite Hf in Hin. set_solver.
  - intros Hn. destruct (filter _ ps) as [|p l] eqn:E; [done|]. exfalso. apply Hn.
    assert (p ∈ filter (λ p, url p.1 = u) ps) as Hin by (rewrite E; set_solver).
    apply list_elem_of_filter in Hin as [<- ?]. eauto.
Qed.
Lemma counted_keys u ps : u ≠ [] →
  u ∈ (λ p, url p.1) <$> counted ps ↔ u ∈ (λ p, url p.1) <$> ps.
Proof.
  intros Hu. unfold counted. rewrite !list_elem_of_fmap. split; intros (p & -> & Hp).
  - apply list_elem_of_filter in Hp as [_ ?]. eauto.
  - exists p. rewrite list_elem_of_filter. eauto.
Qed.

(** After the results [ps], the map holds the first result of each URL with its total, and the
    order lists them. *)
Definition acc_spec (ps : list (R * float)) (st : acc) : Prop :=
  st.2 = url <$> firsts ps ∧
  (∀ r, r ∈ firsts ps → st.1 !! url r = Some (r, total (url r) ps)) ∧
  (∀ u, u ∉ url <$> firsts ps → st.1 !! u = None).

Lemma firsts_keys u ps : u ∈ url <$> firsts ps ↔ u ≠ [] ∧ u ∈ (λ p, url p.1) <$> ps.
Proof.
  unfold firsts. rewrite <- list_fmap_compose.
  change (url ∘ fst) with (λ p : R * float, url p.1).
  rewrite (elem_of_dedup_by_key (λ p, url p.1)). split.
  - intros [Hu _]. assert (u ≠ []) as Hne.
    { apply list_elem_of_fmap in Hu as (p & -> & [? _]%list_elem_of_filter). done. }
    split; [done|]. by apply counted_keys.
  - intros [Hne Hu]. split; [by apply counted_keys|set_solver].
Qed.
Lemma NoDup_firsts ps : NoDup (url <$> firsts ps).
Proof.
  unfold firsts. rewrite <- list_fmap_compose. apply (NoDup_dedup_by (λ p, url p.1)).
Qed.
Lemma firsts_snoc ps p :
  firsts (ps ++ [p]) =
    if decide (url p.1 = [] ∨ url p.1 ∈ url <$> firsts ps) then firsts ps else firsts ps ++ [p.1].
Proof.
  unfold firsts at 1, counted at 1. rewrite filter_app, filter_cons, filter_nil.
  destruct (decide (url p.1 = [])) as [He|He].
  - rewrite decide_False by tauto. rewrite app_nil_r. by rewrite decide_True by (by left).
  - rewrite decide_True by done. rewrite dedup_by_snoc. rewrite fmap_app.
    assert (url p.1 ∈ (∅ : gset gostring) ∨ url p.1 ∈ (λ p, url p.1) <$> counted ps ↔
            url p.1 = [] ∨ url p.1 ∈ url <$> firsts ps) as Hiff.
    { rewrite firsts_keys, counted_keys by done. set_solver. }
    fold (counted ps). rewrite (decide_ext _ _ _ _ Hiff). fold (firsts ps).
    destruct (decide (_ ∨ _)); simpl; [by rewrite app_nil_r|done].
Qed.

Lemma fuse_step_spec ps st p : acc_spec ps st → acc_spec (ps ++ [p]) (fuse_step st p).
Proof.
  destruct st as [m order], p as [r rrf]. intros (Ho & Hm & Hn). simpl in *.
  destruct (decide (url r = [])) as [He|He].
  { unfold acc_spec. rewrite firsts_snoc. simpl. rewrite decide_True by (by left).
    split_and!; [done| |done]. intros r' Hr'. rewrite total_snoc. simpl.
    rewrite decide_False; [by apply Hm|]. intros Heq.
    assert (url r' ∈ url <$> firsts ps) as [? _]%firsts_keys by by apply list_elem_of_fmap_2.
    congruence. }
  destruct (decide (url r ∈ url <$> firsts ps)) as [Hin|Hin].
  - apply list_elem_of_fmap in Hin as (r0 & Hr0 & Hin).
    rewrite Hr0, (Hm r0) by done. unfold acc_spec. rewrite firsts_snoc. simpl.
    assert (url r = [] ∨ url r ∈ url <$> firsts ps) as Hc
      by (right; rewrite Hr0; by apply list_elem_of_fmap_2).
    rewrite decide_True by done. split_and!; [done| |].
    + intros r' Hr'. rewrite total_snoc. simpl. rewrite Hr0.
      destruct (decide (url r0 = url r')) as [Heq|Hne].
      * assert (r' = r0) as ->.
        { pose proof (NoDup_firsts ps) as Hnd.
          apply list_elem_of_lookup in Hin as [i Hi]. apply list_elem_of_lookup in Hr' as [j Hj].
          assert (i = j) as <-; [|congruence].
          eapply NoDup_lookup; [exact Hnd|by rewrite list_lookup_fmap, Hi|].
          rewrite list_lookup_fmap, Hj. simpl. by rewrite Heq. }
        rewrite lookup_insert_eq. f_equal. f_equal. destruct (contribs (url r0) ps) eqn:Ec; [|done].
        apply contribs_nil in Ec. exfalso. apply Ec.
        assert (url r0 ∈ url <$> firsts ps) as [_ ?]%firsts_keys by by apply list_elem_of_fmap_2.
        done.
      * rewrite lookup_insert_ne by done. by apply Hm.
    + intros u Hu. rewrite lookup_insert_ne; [by apply Hn|]. intros <-.
      apply Hu. by apply list_elem_of_fmap_2.
  - rewrite (Hn (url r)) by done. unfold acc_spec. rewrite firsts_snoc. simpl.
    rewrite decide_False by tauto. split_and!.
    + by rewrite fmap_app, Ho.
    + intros r' [Hr'|Hr']%elem_of_app; rewrite total_snoc; simpl.
      * assert (url r ≠ url r').
        { intros Heq. apply Hin. rewrite Heq. by apply list_elem_of_fmap_2. }
        rewrite lookup_insert_ne, decide_False by done. by apply Hm.
      * apply list_elem_of_singleton in Hr' as ->. rewrite lookup_insert_eq, decide_True by done.
        rewrite (proj2 (contribs_nil (url r) ps)); [done|]. intros Hu. apply Hin, firsts_keys. done.
    + intros u Hu. rewrite fmap_app, elem_of_app in Hu. rewrite lookup_insert_ne; [by apply Hn; tauto|].
      intros <-. apply Hu. right. by apply list_elem_of_singleton.
Qed.
Lemma fuse_spec ps : acc_spec ps (foldl fuse_step (∅, []) ps).
Proof.
  induction ps as [|p ps IH] using rev_ind.
  - unfold acc_spec, firsts. simpl. split_and!; [done|set_solver|]. intros. apply lookup_empty.
  - rewrite foldl_app. by apply fuse_step_spec.
Qed.
End Fuse.
