(* ===== verification/Fusion.v ===== *)
(** Weighted reciprocal rank fusion: [websearch/fusion.go] (also behind [search/fusion.go]) and
    [imagesearch/fusion.go]. Scores are binary64 values; the sort is stable. *)
From S2P Require Import Prelude Unicode Utf8 GoStrings Floats Results.
Local Open Scope Z_scope.

Definition rrfK : Z := 60.
(** The elements of a slice with their indices, as [range] goes through them. *)
Definition indexed {A} (l : list A) : list (nat * A) := imap pair l.
(** The comparison of the sorts: higher score first. *)
Definition by_score (a b : Result) : bool := flt (r_Score b) (r_Score a).

Definition FuseWRR (resultSets : list (list Result)) (weights : list float)
    : outcome (list Result) :=
  match resultSets with
  | [] => Ok []
  | _ =>
      let '(byURL, order) :=
        foldl (λ st '(i, set),
          let w := match weights !! i with Some w => w | None => fone end in
          foldl (λ st '(rank, r),
            let rrf := fdiv w (of_int (rrfK + Z.of_nat rank)) in
            fuse_step r_URL st (r, rrf)) st (indexed set))
          (∅, []) (indexed resultSets) in
      let* merged := omap_list (λ u : gostring,
        match byURL !! u with
        | Some (r, score) => Ok (set_Score r score)
        | None => Panic
        end) order in
      Ok (stable_sort by_score merged)
  end.

(** [imagesearch]: every set has weight 1, and the score is only used to sort. *)
Definition img_rrfK : float := of_int 60.
Definition fuseWRR (resultSets : list (list ImageResult)) : outcome (list ImageResult) :=
  match resultSets with
  | [] => Ok []
  | _ =>
      let '(byURL, order) :=
        foldl (λ st set,
          foldl (λ st '(rank, r),
            let rrf := fdiv fone (fadd img_rrfK (of_int (Z.of_nat rank))) in
            fuse_step i_URL st (r, rrf)) st (indexed set))
          (∅, []) resultSets in
      let* merged := omap_list (λ u : gostring,
        match byURL !! u with Some (r, _) => Ok r | None => Panic end) order in
      let score r := match byURL !! i_URL r with Some (_, s) => s | None => fzero end in
      Ok (stable_sort (λ a b, flt (score b) (score a)) merged)
  end.

(** ** The results in the order they are counted, each with its contribution *)
Definition wrr_contribution (weights : list float) (i rank : nat) : float :=
  fdiv (match weights !! i with Some w => w | None => fone end) (of_int (rrfK + Z.of_nat rank)).
Definition contributions (resultSets : list (list Result)) (weights : list float)
    : list (Result * float) :=
  indexed resultSets ≫= λ '(i, set),
    (λ '(rank, r), (r, wrr_contribution weights i rank)) <$> indexed set.
Definition img_contributions (resultSets : list (list ImageResult)) : list (ImageResult * float) :=
  resultSets ≫= λ set,
    (λ '(rank, r), (r, fdiv fone (fadd img_rrfK (of_int (Z.of_nat rank))))) <$> indexed set.

Lemma foldl_bind {A B S} (f : S → B → S) (g : A → list B) (s : S) (l : list A) :
  foldl f s (l ≫= g) = foldl (λ s a, foldl f s (g a)) s l.
Proof.
  revert s. induction l as [|a l IH]; intros s; [done|].
  rewrite bind_cons, foldl_app. simpl. by rewrite IH.
Qed.
Lemma foldl_map {A B S} (f : S → B → S) (g : A → B) (s : S) (l : list A) :
  foldl f s (g <$> l) = foldl (λ s a, f s (g a)) s l.
Proof. revert s. induction l as [|a l IH]; intros s; [done|]. simpl. by rewrite IH. Qed.
Lemma omap_list_fmap {A B C} (g : A → C) (f : C → outcome B) (h : A → B) l :
  (∀ a, a ∈ l → f (g a) = Ok (h a)) → omap_list f (g <$> l) = Ok (h <$> l).
Proof.
  induction l as [|a l IH]; intros Hf; [done|].
  rewrite fmap_cons, omap_list_cons, Hf by set_solver. simpl.
  rewrite IH; [done|]. intros. apply Hf. set_solver.
Qed.

Lemma by_score_sorted l : Forall (λ r, not_nan (r_Score r) = true) l →
  StronglySorted (λ a b, flt (r_Score a) (r_Score b) = false) (stable_sort by_score l).
Proof.
  rewrite Forall_forall. intros Hn. apply (stable_sort_sorted by_score).
  - intros y z _ _. unfold by_score. apply flt_asym.
  - intros y z w Hy Hz Hw. unfold ordered, by_score. intros ? ?.
    apply (flt_false_trans _ (r_Score z)); auto.
Qed.

(** The map-and-order loop of [FuseWRR] computed over the flat list of contributions. *)
Lemma FuseWRR_eq resultSets weights :
  FuseWRR resultSets weights =
    Ok (stable_sort by_score
          ((λ r, set_Score r (total r_URL (r_URL r) (contributions resultSets weights))) <$>
           firsts r_URL (contributions resultSets weights))).
Proof.
  destruct resultSets as [|s0 ss]; [done|]. unfold FuseWRR. cbv beta iota. set (sets := s0 :: ss).
  rewrite (foldl_ext_eq _ (λ st a, foldl (fuse_step r_URL) st
    ((λ '(i, set), (λ '(rank, r), (r, wrr_contribution weights i rank)) <$> indexed set) a))).
  2: { intros st [i set]. rewrite foldl_map. apply foldl_ext_eq. by intros ? [? ?]. }
  rewrite <- foldl_bind. fold (contributions sets weights).
  pose proof (fuse_spec r_URL (contributions sets weights)) as (Ho & Hm & _).
  destruct (foldl _ _ _) as [byURL order]. simpl in *. rewrite Ho.
  erewrite (omap_list_fmap r_URL _ (λ r, set_Score r (total r_URL (r_URL r)
    (contributions sets weights)))); [done|].
  intros r Hr. simpl. by rewrite Hm.
Qed.

(** C35: [FuseWRR] never fails and equals its reference: the first result of every non-empty URL,
    in first-seen order, with the sum of the URL's contributions as its score, stably sorted by
    descending score. *)
Theorem FuseWRR_reference resultSets weights :
  FuseWRR resultSets weights =
    Ok (stable_sort by_score
          ((λ r, set_Score r (total r_URL (r_URL r) (contributions resultSets weights))) <$>
           firsts r_URL (contributions resultSets weights))).
Proof. apply FuseWRR_eq. Qed.

(** the fused list has every non-empty URL of the input once and no other, and when no score
    is NaN it is sorted by descending score, equal scores in first-seen order. *)
Theorem FuseWRR_sorted resultSets weights l :
  FuseWRR resultSets weights = Ok l → Forall (λ r, not_nan (r_Score r) = true) l →
  NoDup (r_URL <$> l) ∧
  (∀ u, u ∈ r_URL <$> l ↔ u ≠ [] ∧ ∃ set r, set ∈ resultSets ∧ r ∈ set ∧ r_URL r = u) ∧
  StronglySorted (λ a b, flt (r_Score a) (r_Score b) = false) l ∧
  (∀ s, r_URL <$> filter (λ r, r_Score r = s) l =
     filter (λ u, total r_URL u (contributions resultSets weights) = s)
       (r_URL <$> firsts r_URL (contributions resultSets weights))).
Proof.
  rewrite FuseWRR_eq. intros [= <-]. set (cs := contributions resultSets weights).
  set (merged := (λ r, set_Score r (total r_URL (r_URL r) cs)) <$> firsts r_URL cs).
  intros Hnan. rewrite stable_sort_perm in Hnan.
  assert (r_URL <$> merged = r_URL <$> firsts r_URL cs) as Hurls.
  { unfold merged. rewrite <- list_fmap_compose. by apply list_fmap_ext. }
  split_and!.
  - rewrite (stable_sort_perm by_score merged), Hurls. apply NoDup_firsts.
  - intros u. rewrite (stable_sort_perm by_score merged), Hurls, firsts_keys.
    split; intros [Hne Hu]; (split; [done|]).
    + apply list_elem_of_fmap in Hu as ([r c] & -> & Hu). unfold cs, contributions in Hu.
      apply list_elem_of_bind in Hu as ([i set] & Hu & Hi).
      apply list_elem_of_fmap in Hu as ([k r'] & [= -> ->] & Hr).
      exists set, r'. unfold indexed in *.
      apply elem_of_lookup_imap in Hi as (? & ? & [= -> ->] & Hi).
      apply elem_of_lookup_imap in Hr as (? & ? & [= -> ->] & Hr).
      eauto using list_elem_of_lookup_2.
    + destruct Hu as (set & r & Hset & Hr & <-).
      apply list_elem_of_lookup in Hset as [i Hi]. apply list_elem_of_lookup in Hr as [k Hk].
      apply list_elem_of_fmap. exists (r, wrr_contribution weights i k). split; [done|].
      unfold cs, contributions. apply list_elem_of_bind. exists (i, set). split.
      * apply list_elem_of_fmap. exists (k, r). split; [done|]. unfold indexed.
        apply elem_of_lookup_imap. eauto.
      * unfold indexed. apply elem_of_lookup_imap. eauto.
  - by apply by_score_sorted.
  - intros s. rewrite stable_sort_stable.
    + rewrite <- Hurls. unfold merged. clear. induction (firsts r_URL cs) as [|r l IH]; [done|].
      rewrite !fmap_cons, !filter_cons. simpl. case_decide; [simpl; f_equal; exact IH|exact IH].
    + intros x y Hx Hy Hsx Hsy. unfold by_score. rewrite Hsx, Hsy.
      destruct (flt s s) eqn:E; [|done]. by rewrite (flt_asym _ _ E) in E.
Qed.
Lemma FuseWRR_sorted_witness :
  let a := MkResult (lit "A") (lit "u1") [] fzero ∅ in
  let b := MkResult (lit "B") (lit "u2") [] fzero ∅ in
  ∃ l, FuseWRR [[a; b]; [b]] [fone] = Ok l ∧ r_URL <$> l = [lit "u2"; lit "u1"] ∧
    NoDup (r_URL <$> l).
Proof.
  simpl. set (a := MkResult (lit "A") (lit "u1") [] fzero ∅).
  set (b := MkResult (lit "B") (lit "u2") [] fzero ∅).
  eexists. split; [vm_compute; reflexivity|]. split; [vm_compute; reflexivity|].
  apply (FuseWRR_sorted [[a; b]; [b]] [fone]); [vm_compute; reflexivity|].
  repeat constructor.
Defined.

(** the image fusion equals its reference: the first result of every non-empty URL, in
    first-seen order, stably sorted by the descending sum of the URL's contributions. *)
Theorem fuseWRR_reference resultSets :
  let cs := img_contributions resultSets in
  fuseWRR resultSets =
    Ok (stable_sort (λ a b, flt (total i_URL (i_URL b) cs) (total i_URL (i_URL a) cs))
          (firsts i_URL cs)).
Proof.
  simpl. destruct resultSets as [|s0 ss]; [done|]. unfold fuseWRR. cbv beta iota.
  set (sets := s0 :: ss).
  rewrite (foldl_ext_eq _ (λ st a, foldl (fuse_step i_URL) st
    ((λ set, (λ '(rank, r), (r, fdiv fone (fadd img_rrfK (of_int (Z.of_nat rank))))) <$>
      indexed set) a))).
  2: { intros st set. rewrite foldl_map. apply foldl_ext_eq. by intros ? [? ?]. }
  rewrite <- foldl_bind. fold (img_contributions sets).
  pose proof (fuse_spec i_URL (img_contributions sets)) as (Ho & Hm & _).
  destruct (foldl _ _ _) as [byURL order]. simpl in *. rewrite Ho.
  erewrite (omap_list_fmap i_URL _ id); [|intros r Hr; simpl; by rewrite Hm].
  simpl. rewrite list_fmap_id. f_equal. apply stable_sort_ext.
  intros x y Hx Hy. by rewrite (Hm x), (Hm y).
Qed.
