(* ===== verification/Dedup.v ===== *)
(** Package [websearch]: near-duplicate removal by cosine similarity ([dedup.go]), score and
    domain filters ([filter.go]), formatting ([format.go]) and the provider chain
    ([fallback.go]). *)
From S2P Require Import Prelude Unicode Utf8 GoStrings GoUrl Floats Effects Results.
Local Open Scope Z_scope.

(** ** Bags of words *)
Definition bag := gmap gostring float.
Definition not_word_rune (r : rune) : bool := negb (IsLetter r) && negb (IsDigit r).
Definition tokenize (s : gostring) : bag :=
  foldl (λ vec w, <[w := fadd (default fzero (vec !! w)) fone]> vec) ∅
        (FieldsFunc (StringsToLower s) not_word_rune).

(** The counts are small integers, so the sums do not depend on the order of the map. *)
Definition cosineSimilarity (a b : bag) : float :=
  if bool_decide (a = ∅) || bool_decide (b = ∅) then fzero else
  let '(dot, normA) :=
    foldl (λ '(dot, normA) '(k, v),
             (match b !! k with Some bv => fadd dot (fmul v bv) | None => dot end,
              fadd normA (fmul v v)))
          (fzero, fzero) (map_to_list a) in
  let normB := foldl (λ n '(_, v), fadd n (fmul v v)) fzero (map_to_list b) in
  let denom := fmul (fsqrt normA) (fsqrt normB) in
  if feq denom fzero then fzero else fdiv dot denom.

(** ** Marking near-duplicates *)
Section Mark.
Context (results : list Result) (vecs : list bag) (threshold : float).

Definition score_at (i : nat) : float := default fzero (r_Score <$> results !! i).
Definition vec_at (i : nat) : bag := default ∅ (vecs !! i).
Definition similar (i j : nat) : bool := flt threshold (cosineSimilarity (vec_at i) (vec_at j)).
Definition is_removed (removed : list bool) (i : nat) : bool := default false (removed !! i).

(** The inner loop over [js], which stops when [i] itself is removed. *)
Fixpoint mark_inner (i : nat) (js : list nat) (removed : list bool) : list bool :=
  match js with
  | [] => removed
  | j :: js =>
      if is_removed removed j then mark_inner i js removed
      else if similar i j then
        if fle (score_at j) (score_at i) then mark_inner i js (<[j := true]> removed)
        else <[i := true]> removed
      else mark_inner i js removed
  end.
Fixpoint mark_outer (idx : list nat) (removed : list bool) : list bool :=
  match idx with
  | [] => removed
  | i :: idx =>
      if is_removed removed i then mark_outer idx removed
      else mark_outer idx (mark_inner i (seq (S i) (length results - S i)) removed)
  end.
Definition markDuplicates : list bool :=
  mark_outer (seq 0 (length results)) (replicate (length results) false).

(** Marks are only added. *)
Definition marks_le (r r' : list bool) : Prop :=
  length r' = length r ∧ ∀ k, is_removed r k = true → is_removed r' k = true.
Lemma marks_le_refl r : marks_le r r.
Proof. by split. Qed.
Lemma marks_le_trans r1 r2 r3 : marks_le r1 r2 → marks_le r2 r3 → marks_le r1 r3.
Proof. intros [? H1] [? H2]. split; [congruence|auto]. Qed.
Lemma marks_le_insert r j : marks_le r (<[j := true]> r).
Proof.
  split; [apply length_insert|]. intros k. unfold is_removed.
  destruct (decide (j = k)) as [->|]; [|by rewrite list_lookup_insert_ne].
  destruct (decide (k < length r)%nat); [by rewrite list_lookup_insert_eq|].
  by rewrite list_insert_ge by lia.
Qed.
Lemma is_removed_insert r j k : (j < length r)%nat →
  is_removed (<[j := true]> r) k = true ↔ k = j ∨ is_removed r k = true.
Proof.
  intros Hj. unfold is_removed. destruct (decide (j = k)) as [->|].
  - rewrite list_lookup_insert_eq by done. naive_solver.
  - rewrite list_lookup_insert_ne by done. naive_solver.
Qed.

(** Why [k] is removed: a similar result that the comparison of scores prefers. *)
Definition reason (k : nat) : Prop :=
  ∃ o, o ≠ k ∧ (o < length results)%nat ∧
    (similar o k = true ∧ fle (score_at k) (score_at o) = true ∨
     similar k o = true ∧ fle (score_at o) (score_at k) = false).
Definition marks_ok (r : list bool) : Prop :=
  length r = length results ∧ ∀ k, is_removed r k = true → reason k.

Lemma mark_inner_spec i js r :
  (i < length results)%nat → Forall (λ j, i < j < length results)%nat js →
  marks_ok r → is_removed r i = false →
  let r' := mark_inner i js r in
  marks_ok r' ∧ marks_le r r' ∧
  (is_removed r' i = false →
   ∀ j, j ∈ js → is_removed r' j = false → similar i j = false).
Proof.
  simpl. intros Hi Hjs. revert r. induction Hjs as [|j js Hj Hjs IH]; intros r Hr Hri; simpl.
  { split_and!; [done|apply marks_le_refl|set_solver]. }
  pose proof Hr as [Hlen Hreason].
  destruct (is_removed r j) eqn:Erj.
  { destruct (IH r Hr Hri) as (Hok & Hle & Hsim). split_and!; [done..|].
    intros Hi' k [->|Hk]%elem_of_cons Hk'; [|auto]. destruct Hle as [_ Hle].
    apply Hle in Erj. congruence. }
  destruct (similar i j) eqn:Es.
  - destruct (fle (score_at j) (score_at i)) eqn:Ef.
    + assert (marks_ok (<[j := true]> r)) as Hok1.
      { split; [by rewrite length_insert|]. intros k Hk.
        apply is_removed_insert in Hk as [->|Hk]; [|auto|lia].
        exists i. split_and!; [lia|lia|]. by left. }
      destruct (IH (<[j := true]> r) Hok1) as (Hok & Hle & Hsim).
      { apply not_true_is_false. intros [->|?]%is_removed_insert; [lia|congruence|lia]. }
      split_and!; [done|by eapply marks_le_trans; [apply marks_le_insert|]|].
      intros Hi' k [->|Hk]%elem_of_cons Hk'; [|auto]. destruct Hle as [_ Hle].
      rewrite Hle in Hk'; [done|]. apply is_removed_insert; [lia|by left].
    + split_and!; [|apply marks_le_insert|].
      * split; [by rewrite length_insert|]. intros k Hk.
        apply is_removed_insert in Hk as [->|Hk]; [|auto|lia].
        exists j. split_and!; [lia|lia|]. right. done.
      * intros Hi'. rewrite (proj2 (is_removed_insert r i i ltac:(lia))) in Hi'; [done|by left].
  - destruct (IH r Hr Hri) as (Hok & Hle & Hsim). split_and!; [done..|].
    intros Hi' k [->|Hk]%elem_of_cons Hk'; [done|auto].
Qed.

Lemma mark_outer_spec start n r :
  (start + n = length results)%nat → marks_ok r →
  let r' := mark_outer (seq start n) r in
  marks_ok r' ∧ marks_le r r' ∧
  ∀ i j, (start <= i < j)%nat → (j < length results)%nat →
    is_removed r' i = false → is_removed r' j = false → similar i j = false.
Proof.
  simpl. revert start r. induction n as [|n IH]; intros start r Hlen Hr; simpl.
  { split_and!; [done|apply marks_le_refl|lia]. }
  destruct (is_removed r start) eqn:Ers.
  - destruct (IH (S start) r ltac:(lia) Hr) as (Hok & Hle & Hsim). split_and!; [done..|].
    intros i j Hij Hj Hi'. destruct (decide (i = start)) as [->|]; [|apply Hsim; lia || done].
    destruct Hle as [_ Hle]. apply Hle in Ers. congruence.
  - destruct (mark_inner_spec start (seq (S start) (length results - S start)) r)
      as (Hok1 & Hle1 & Hsim1); [lia| |done|done|].
    { apply Forall_forall. intros j Hj%elem_of_seq. lia. }
    destruct (IH (S start) _ ltac:(lia) Hok1) as (Hok & Hle & Hsim).
    split_and!; [done|by eapply marks_le_trans|].
    intros i j Hij Hj Hi' Hj'. destruct (decide (i = start)) as [->|];
      [|apply Hsim; (lia || done)].
    apply Hsim1; [|apply elem_of_seq; lia|];
      apply not_true_is_false; intros Ht; apply Hle in Ht; congruence.
Qed.
Lemma markDuplicates_spec :
  marks_ok markDuplicates ∧
  ∀ i j, (i < j < length results)%nat →
    is_removed markDuplicates i = false → is_removed markDuplicates j = false →
    similar i j = false.
Proof.
  destruct (mark_outer_spec 0 (length results) (replicate (length results) false))
    as (Hok & _ & Hsim); [done| |].
  { split; [apply length_replicate|]. intros k. unfold is_removed.
    destruct (replicate _ _ !! k) eqn:E; [|done]. by apply lookup_replicate in E as [-> _]. }
  split; [done|]. intros i j Hij. apply Hsim; lia.
Qed.
End Mark.

(** The results whose mark is not set. *)
Fixpoint unmarked (rs : list Result) (marks : list bool) : list Result :=
  match rs, marks with
  | r :: rs, m :: marks => if m : bool then unmarked rs marks else r :: unmarked rs marks
  | rs, [] => rs
  | [], _ => []
  end.
Definition DedupSnippets (results : list Result) (threshold : float) : list Result :=
  match results with
  | [] => []
  | _ =>
      let vecs := (λ r, tokenize (r_Content r)) <$> results in
      unmarked results (markDuplicates results vecs threshold)
  end.

(** The positions that survive. *)
Definition survivors (results : list Result) (threshold : float) : list nat :=
  filter (λ i, is_removed (markDuplicates results ((λ r, tokenize (r_Content r)) <$> results)
                             threshold) i = false) (seq 0 (length results)).

Lemma unmarked_positions rs marks : length marks = length rs →
  unmarked rs marks =
    omap (λ i, rs !! i) (filter (λ i, is_removed marks i = false) (seq 0 (length rs))).
Proof.
  revert marks. induction rs as [|r rs IH]; intros [|m marks] Hl; simplify_eq/=; [done|].
  rewrite filter_cons, (IH marks Hl), <- (fmap_S_seq 0), filter_fmap_list.
  destruct m; case_decide as Hd; try done; [|cbn [omap list_omap]; simpl; f_equal];
    rewrite omap_fmap_list; done.
Qed.

(** C36: [DedupSnippets] keeps a subsequence of the results in which no two snippets are more
    similar than the threshold, and every result it drops is similar to another one whose score
    is at least as high, or to one whose score is not at most its own. *)
Theorem DedupSnippets_spec results threshold :
  let sim i j := flt threshold (cosineSimilarity
    (tokenize (default [] (r_Content <$> results !! i)))
    (tokenize (default [] (r_Content <$> results !! j)))) in
  let score i := default fzero (r_Score <$> results !! i) in
  DedupSnippets results threshold = omap (λ i, results !! i) (survivors results threshold) ∧
  (∀ i j, i ∈ survivors results threshold → j ∈ survivors results threshold →
     (i < j)%nat → sim i j = false) ∧
  (∀ k, (k < length results)%nat → k ∉ survivors results threshold →
     ∃ o, o ≠ k ∧ (o < length results)%nat ∧
       (sim o k = true ∧ fle (score k) (score o) = true ∨
        sim k o = true ∧ fle (score o) (score k) = false)).
Proof.
  simpl. set (vecs := (λ r, tokenize (r_Content r)) <$> results).
  destruct (markDuplicates_spec results vecs threshold) as [[Hlen Hreason] Hsim].
  assert (∀ i, (i < length results)%nat →
    vec_at vecs i = tokenize (default [] (r_Content <$> results !! i))) as Hvec.
  { intros i Hi. unfold vec_at, vecs. rewrite list_lookup_fmap.
    by apply lookup_lt_is_Some in Hi as [r ->]. }
  split_and!.
  - destruct results as [|r rs]; [done|]. by apply unmarked_positions.
  - unfold survivors. fold vecs.
    intros i j [Hi Hi'%elem_of_seq]%list_elem_of_filter [Hj Hj'%elem_of_seq]%list_elem_of_filter Hij.
    specialize (Hsim i j ltac:(lia) Hi Hj). unfold similar in Hsim.
    by rewrite !Hvec in Hsim by lia.
  - intros k Hk Hn. assert (is_removed (markDuplicates results vecs threshold) k = true) as Hr.
    { destruct (is_removed _ k) eqn:E; [done|]. exfalso. apply Hn. unfold survivors. fold vecs.
      apply list_elem_of_filter. split; [done|]. apply elem_of_seq. lia. }
    apply Hreason in Hr as (o & Hne & Ho & Hor). exists o. split_and!; [done..|].
    unfold similar in Hor. rewrite !Hvec in Hor by lia. exact Hor.
Qed.
Lemma DedupSnippets_keeps_best :
  let a := MkResult [] (lit "u1") (lit "go http client") (of_int 1) ∅ in
  let b := MkResult [] (lit "u2") (lit "Go HTTP client!") (of_int 2) ∅ in
  DedupSnippets [a; b] (flit 9 1) = [b].
Proof. vm_compute. done. Qed.

(** ** Filtering by score *)
Definition FilterByScore (results : list Result) (minScore : float) (minKeep : Z)
    : outcome (list Result) :=
  let out := filter (λ r, fle minScore (r_Score r) = true) results in
  if (zlen out <? minKeep) && (minKeep <=? zlen results) then slice results 0 minKeep
  else if zlen out <? minKeep then Ok results
  else Ok out.

(** [FilterByScore] never fails, keeps a subsequence with at least [minKeep] results or all of
    them, and is exactly the filter when enough results pass. *)
Theorem FilterByScore_spec results minScore minKeep :
  let pass := filter (λ r, fle minScore (r_Score r) = true) results in
  ∃ l, FilterByScore results minScore minKeep = Ok l ∧ l `sublist_of` results ∧
    Z.min minKeep (zlen results) <= zlen l ∧ (minKeep <= zlen pass → l = pass).
Proof.
  simpl. set (pass := filter _ results). unfold FilterByScore. fold pass.
  pose proof (zlen_nonneg pass).
  destruct (Z.ltb_spec (zlen pass) minKeep), (Z.leb_spec minKeep (zlen results)); simpl.
  - rewrite slice_prefix by lia. eexists; split; [done|]. split; [apply sublist_take|].
    split; [|lia]. unfold zlen in *. rewrite length_take. lia.
  - eexists; split; [done|]. split; [done|]. split; [lia|]. lia.
  - eexists; split; [done|]. split; [apply sublist_filter|]. split; [lia|done].
  - eexists; split; [done|]. split; [apply sublist_filter|]. split; [lia|done].
Qed.

(** ** Limiting results per domain *)
Definition domain_of (r : Result) : option gostring := Hostname <$> Parse (r_URL r).
Definition high_score (threshold : float) (r : Result) : bool :=
  flt fzero threshold && fle threshold (r_Score r).
Definition count_of (counts : gmap gostring Z) (d : gostring) : Z := default 0 (counts !! d).
Fixpoint domain_loop (maxPerDomain : Z) (threshold : float) (counts : gmap gostring Z)
    (results : list Result) : list Result :=
  match results with
  | [] => []
  | r :: results =>
      match domain_of r with
      | None => domain_loop maxPerDomain threshold counts results
      | Some domain =>
          let counts' := <[domain := count_of counts domain + 1]> counts in
          if high_score threshold r then r :: domain_loop maxPerDomain threshold counts' results
          else if count_of counts domain <? maxPerDomain
          then r :: domain_loop maxPerDomain threshold counts' results
          else domain_loop maxPerDomain threshold counts results
      end
  end.
(** The variadic threshold: its first value, if any. *)
Definition DedupByDomain (results : list Result) (maxPerDomain : Z)
    (highScoreThreshold : list float) : list Result :=
  let threshold := match highScoreThreshold with t :: _ => t | [] => fzero end in
  domain_loop maxPerDomain threshold ∅ results.

Definition on_domain (d : gostring) (l : list Result) : Z :=
  zlen (filter (λ r, domain_of r = Some d) l).
Lemma on_domain_cons d r l :
  on_domain d (r :: l) = (if decide (domain_of r = Some d) then 1 else 0) + on_domain d l.
Proof.
  unfold on_domain. rewrite filter_cons. case_decide; [rewrite zlen_cons|]; lia.
Qed.
Lemma on_domain_nonneg d l : 0 <= on_domain d l.
Proof. apply zlen_nonneg. Qed.
Lemma count_of_insert counts d d' x :
  count_of (<[d := x]> counts) d' = if decide (d = d') then x else count_of counts d'.
Proof.
  unfold count_of. destruct (decide (d = d')) as [->|];
    [by rewrite lookup_insert_eq|by rewrite lookup_insert_ne].
Qed.

Lemma domain_loop_spec k t counts l :
  let out := domain_loop k t counts l in
  out `sublist_of` l ∧
  (flt fzero t = false → ∀ d, on_domain d out <= Z.max 0 (k - count_of counts d)) ∧
  (∀ r d, r ∈ l → domain_of r = Some d →
     (high_score t r = true → r ∈ out) ∧
     (r ∈ out ∨ k <= count_of counts d + on_domain d out)) ∧
  (∀ r, r ∈ out → is_Some (domain_of r)).
Proof.
  simpl. revert counts. induction l as [|r l IH]; intros counts; simpl.
  { split_and!; [done| | |]; try set_solver.
    intros _ d. change (on_domain d []) with 0. lia. }
  destruct (domain_of r) as [d0|] eqn:Ed.
  2: { destruct (IH counts) as (Hs & Hk & Hc & Hp). split_and!; [by constructor|done| |done].
       intros r' d [->|Hr']%elem_of_cons Hd; [congruence|by apply Hc]. }
  assert (let out := domain_loop k t (<[d0 := count_of counts d0 + 1]> counts) l in
    r :: out `sublist_of` r :: l ∧
    (flt fzero t = false → count_of counts d0 < k → ∀ d,
       on_domain d (r :: out) <= Z.max 0 (k - count_of counts d)) ∧
    (∀ r' d, r' ∈ r :: l → domain_of r' = Some d →
       (high_score t r' = true → r' ∈ r :: out) ∧
       (r' ∈ r :: out ∨ k <= count_of counts d + on_domain d (r :: out))) ∧
    (∀ r', r' ∈ r :: out → is_Some (domain_of r'))) as (Hs & Hk & Hc & Hp).
  { destruct (IH (<[d0 := count_of counts d0 + 1]> counts)) as (Hs & Hk & Hc & Hp). simpl.
    split_and!; [by constructor| | |].
    - intros Ht Hlt d. rewrite on_domain_cons. specialize (Hk Ht d).
      rewrite count_of_insert in Hk.
      destruct (decide (d0 = d)) as [->|]; [rewrite decide_True by done|rewrite decide_False by congruence]; lia.
    - intros r' d [->|Hr']%elem_of_cons Hd; [split; [|left]; set_solver|].
      destruct (Hc r' d Hr' Hd) as [Hh Hor]. split; [set_solver|].
      destruct Hor as [?|Hor]; [set_solver|]. right. rewrite on_domain_cons.
      rewrite count_of_insert in Hor.
      destruct (decide (d0 = d)) as [->|]; [rewrite decide_True by done|rewrite decide_False by congruence]; lia.
    - intros r' [->|Hr']%elem_of_cons; [eauto|by apply Hp]. }
  destruct (high_score t r) eqn:Eh.
  { split_and!; [done| |done|done]. intros Ht. unfold high_score in Eh. by rewrite Ht in Eh. }
  destruct (Z.ltb_spec (count_of counts d0) k); [by split_and!; eauto|].
  destruct (IH counts) as (Hs' & Hk' & Hc' & Hp'). split_and!; [by constructor|done| |done].
  intros r' d [->|Hr']%elem_of_cons Hd; [|by apply Hc']. split; [congruence|]. right.
  rewrite Ed in Hd. injection Hd as ->.
  pose proof (on_domain_nonneg d (domain_loop k t counts l)). lia.
Qed.

(** [DedupByDomain] keeps a subsequence of the results whose URL parses; without a positive
    threshold no domain has more than [maxPerDomain] results; a result at or above a positive
    threshold is always kept, and any other is dropped only when its domain is full. *)
Theorem DedupByDomain_spec results maxPerDomain ts :
  let t := match ts with t :: _ => t | [] => fzero end in
  let out := DedupByDomain results maxPerDomain ts in
  out `sublist_of` results ∧
  (∀ r, r ∈ out → is_Some (domain_of r)) ∧
  (flt fzero t = false → ∀ d, on_domain d out <= Z.max 0 maxPerDomain) ∧
  (∀ r d, r ∈ results → domain_of r = Some d →
     (flt fzero t = true → fle t (r_Score r) = true → r ∈ out) ∧
     (r ∈ out ∨ maxPerDomain <= on_domain d out)).
Proof.
  simpl. unfold DedupByDomain. set (t := match ts with t :: _ => t | [] => fzero end).
  destruct (domain_loop_spec maxPerDomain t ∅ results) as (Hs & Hk & Hc & Hp).
  assert (∀ d, count_of ∅ d = 0) as H0.
  { intros d. unfold count_of. by rewrite lookup_empty. }
  split_and!; [done|done| |].
  - intros Ht d. specialize (Hk Ht d). rewrite H0 in Hk. lia.
  - intros r d Hr Hd. destruct (Hc r d Hr Hd) as [Hh Hor]. split.
    + intros Ht Hle. apply Hh. unfold high_score. by rewrite Ht, Hle.
    + rewrite H0 in Hor. destruct Hor; [by left|right; lia].
Qed.

(** ** Formatting *)
Definition ResultsToMarkdown (results : list Result) : gostring :=
  foldl (λ sb '(i, r),
    let sb := if (0 <? i)%nat then sb ++ [10] else sb in
    let sb := sb ++ lit "## " ++ Itoa (Z.of_nat i + 1) ++ lit ". [" ++ r_Title r ++ lit "](" ++
              r_URL r ++ lit ")" in
    if decide (r_Content r = []) then sb else sb ++ [10] ++ r_Content r)
    [] (imap pair results).

(** ** The provider chain *)
Section Fallback.
Context {W : Type}.
Definition Provider : Type := ctx → gostring → SearchOpts → M W (result (list Result)).

(** [Fallback.Search]: the loop over the providers, with the errors met so far. *)
Fixpoint fallback_loop (providers : list Provider) (cx : ctx) (query : gostring)
    (opts : SearchOpts) (errs : list error) : M W (result (list Result)) :=
  match providers with
  | [] => mret (Err (Wrapped (lit "all providers failed") (Joined errs)))
  | p :: providers =>
      r ← p cx query opts;
      match r with
      | Val results => mret (Val results)
      | Err e => fallback_loop providers cx query opts (errs ++ [e])
      end
  end.
Definition Fallback_Search (providers : list Provider) (cx : ctx) (query : gostring)
    (opts : SearchOpts) : M W (result (list Result)) :=
  fallback_loop providers cx query opts [].

(** Running the providers until one succeeds: the world after the failures, and the errors. *)
Inductive fails_all (cx : ctx) (q : gostring) (o : SearchOpts) :
    list Provider → W → list error → W → Prop :=
| fails_nil w : fails_all cx q o [] w [] w
| fails_cons (p : Provider) ps w e w1 es w2 :
    p cx q o w = (Err e, w1) → fails_all cx q o ps w1 es w2 →
    fails_all cx q o (p :: ps) w (e :: es) w2.

Lemma fallback_loop_spec ps cx q o errs w r w' :
  fallback_loop ps cx q o errs w = (r, w') →
  match r with
  | Val rs => ∃ pre (p : Provider) post es w1, ps = pre ++ p :: post ∧
                fails_all cx q o pre w es w1 ∧ p cx q o w1 = (Val rs, w')
  | Err e => ∃ es, e = Wrapped (lit "all providers failed") (Joined (errs ++ es)) ∧
               fails_all cx q o ps w es w'
  end.
Proof.
  revert errs w. induction ps as [|p ps IH]; intros errs w; simpl.
  { intros [= <- <-]. exists []. rewrite app_nil_r. split; [done|constructor]. }
  unfold mbind, M_bind. destruct (p cx q o w) as [[rs|e] w1] eqn:E.
  { intros [= <- <-]. exists [], p, ps, [], w. split_and!; [done|constructor|done]. }
  intros Hl. apply IH in Hl. destruct r as [rs|e'].
  - destruct Hl as (pre & p' & post & es & w2 & -> & Hf & Hp).
    exists (p :: pre), p', post, (e :: es), w2. split_and!; [done|by econstructor|done].
  - destruct Hl as (es & -> & Hf). exists (e :: es). split; [by rewrite <- app_assoc|].
    by econstructor.
Qed.

(** the provider chain calls the providers in order and stops at the first that succeeds,
    whose results it returns; when none does, its error joins the errors of all of them. *)
Theorem Fallback_first_success ps cx q o w r w' :
  Fallback_Search ps cx q o w = (r, w') →
  match r with
  | Val rs => ∃ pre (p : Provider) post es w1, ps = pre ++ p :: post ∧
                fails_all cx q o pre w es w1 ∧ p cx q o w1 = (Val rs, w')
  | Err e => ∃ es, e = Wrapped (lit "all providers failed") (Joined es) ∧
               fails_all cx q o ps w es w'
  end.
Proof. intros H. apply fallback_loop_spec in H. exact H. Qed.
End Fallback.
Lemma Fallback_first_success_witness :
  let bad : Provider (W := nat) := λ _ _ _ w, (Err CtxCanceled, S w) in
  let good : Provider (W := nat) := λ _ _ _ w, (Val [zero_Result], S w) in
  ∃ pre (p : Provider (W := nat)) post es w1, [bad; good; bad] = pre ++ p :: post ∧
    fails_all (Ctx None 0) [] zero_SearchOpts pre 0%nat es w1 ∧
    p (Ctx None 0) [] zero_SearchOpts w1 = (Val [zero_Result], 2%nat).
Proof.
  exact (Fallback_first_success (W := nat)
    [λ _ _ _ w, (Err CtxCanceled, S w); λ _ _ _ w, (Val [zero_Result], S w);
     λ _ _ _ w, (Err CtxCanceled, S w)] (Ctx None 0) [] zero_SearchOpts 0%nat
    (Val [zero_Result]) 2%nat eq_refl).
Defined.
