(* ===== verification/Serp.v ===== *)
(** Package [websearch], the pure parts: time ranges ([time.go]), the result-page URLs, the markers
    of a block page, and the parsers of result pages ([brave.go], [bing.go], [ddg.go],
    [ddg_parse.go], [startpage.go], [reddit.go], [helpers.go]). The HTML document model is the
    goquery package's and a parameter. *)
From S2P Require Import Prelude Unicode Utf8 GoStrings GoUrl Floats Json Effects GoTime Results.
Local Open Scope Z_scope.

(** ** Time ranges; [today] is the local day *)
Definition timeRangeToBing (today : Z) (tr : gostring) : gostring :=
  let tr := StringsToLower tr in
  if decide (tr = lit "day") then lit "Day"
  else if decide (tr = lit "week") then lit "Week"
  else if decide (tr = lit "month") then lit "Month"
  else if decide (tr = lit "year") then
    format_date (lit "-") (today - 365) ++ lit ".." ++ format_date (lit "-") today
  else [].
Definition timeRangeToBrave (tr : gostring) : gostring :=
  let tr := StringsToLower tr in
  if decide (tr = lit "day") then lit "pd"
  else if decide (tr = lit "week") then lit "pw"
  else if decide (tr = lit "month") then lit "pm"
  else if decide (tr = lit "year") then lit "py" else [].
Definition timeRangeToDDG (tr : gostring) : gostring :=
  let tr := StringsToLower tr in
  if decide (tr = lit "day") then lit "d"
  else if decide (tr = lit "week") then lit "w"
  else if decide (tr = lit "month") then lit "m"
  else if decide (tr = lit "year") then lit "y" else [].
Definition timeRangeToStartpage (tr : gostring) : gostring := timeRangeToDDG tr.
Definition timeRangeToReddit (tr : gostring) : gostring :=
  let low := StringsToLower tr in
  if bool_decide (low ∈ [lit "day"; lit "week"; lit "month"; lit "year"]) then low else [].
Definition timeRangeToYandexDate (today : Z) (tr : gostring) : gostring :=
  let tr := StringsToLower tr in
  let range d := lit "date:" ++ format_date [] (today - d) ++ lit ".." ++ format_date [] today in
  if decide (tr = lit "day") then range 1
  else if decide (tr = lit "week") then range 7
  else if decide (tr = lit "month") then range 30
  else if decide (tr = lit "year") then range 365 else [].

(** ** The URL of a result page; [opts] is the variadic argument *)
Definition DDGHTMLURL (query : gostring) (opts : list SearchOpts) : gostring :=
  let u := lit "https://html.duckduckgo.com/html/" ++ lit "?q=" ++ QueryEscape query in
  match opts with
  | o :: _ => let df := timeRangeToDDG (TimeRange o) in
              if decide (df = []) then u else u ++ lit "&df=" ++ df
  | [] => u
  end.
Definition BraveSearchURL (query : gostring) (opts : list SearchOpts) : gostring :=
  let u := lit "https://search.brave.com/search" ++ lit "?q=" ++ QueryEscape query ++
           lit "&source=web" in
  match opts with
  | o :: _ => let tf := timeRangeToBrave (TimeRange o) in
              if decide (tf = []) then u else u ++ lit "&tf=" ++ tf
  | [] => u
  end.
Definition BingSearchURL (today : Z) (query : gostring) (opts : list SearchOpts) : gostring :=
  let u := lit "https://www.bing.com/search" ++ lit "?q=" ++ QueryEscape query in
  match opts with
  | o :: _ => let freshness := timeRangeToBing today (TimeRange o) in
              if decide (freshness = []) then u
              else u ++ lit "&freshness=" ++ QueryEscape freshness
  | [] => u
  end.

(** ** Block pages *)
Definition isRateLimitStatus (status : Z) : bool := (status =? 429) || (status =? 403).
Definition contains_any (s : gostring) (markers : list gostring) : bool :=
  existsb (Contains s) markers.
(** [action="/d.js"] and [type="hidden"]. *)
Definition ddg_action : gostring := lit "action=" ++ [34] ++ lit "/d.js" ++ [34].
Definition ddg_hidden : gostring := lit "type=" ++ [34] ++ lit "hidden" ++ [34].
Definition IsDDGRateLimited (body : gostring) : bool :=
  let low := StringsToLower body in
  if contains_any low [lit "please try again"; lit "not a robot"; lit "unusual traffic"; lit "blocked"]
  then true else Contains low ddg_action && Contains low ddg_hidden.
Definition isStartpageRateLimited (body : gostring) : bool :=
  contains_any (StringsToLower body)
    [lit "rate limited"; lit "too many requests"; lit "g-recaptcha"; lit "captcha"].
Definition IsBingRateLimited (body : gostring) : bool :=
  contains_any (StringsToLower body)
    [lit "captcha"; lit "rate limit"; lit "too many requests"; lit "unusual traffic"].

(** The loop over the occurrences of "captcha"; [idx] is where the search goes on. *)
Definition captcha : gostring := lit "captcha".
Definition json_pair (context : gostring) : bool :=
  Contains context [34; 58; 34] || Contains context [34; 58; 32; 34].
Definition captcha_context (lower : gostring) (pos : Z) : outcome gostring :=
  slice lower (Z.max 0 (pos - 20)) (Z.min (zlen lower) (pos + 30)).
Fixpoint i18n_loop (fuel : nat) (lower : gostring) (idx : Z) : outcome bool :=
  match fuel with
  | O => OutOfFuel
  | S fuel =>
      let* rest := slice lower idx (zlen lower) in
      match find_sub rest captcha with
      | None => Ok true
      | Some p =>
          let pos := Z.of_nat p + idx in
          let* context := captcha_context lower pos in
          if negb (json_pair context) then Ok false
          else i18n_loop fuel lower (pos + zlen captcha)
      end
  end.
Definition isCaptchaInI18nContext (lower : gostring) : outcome bool :=
  i18n_loop (S (length lower)) lower 0.
Definition IsBraveRateLimited (body : gostring) : outcome bool :=
  let lower := StringsToLower body in
  if contains_any lower
       [lit "rate limit"; lit "too many requests"; lit "unusual traffic"; lit "are you a robot";
        lit "please verify you are human"; lit "please solve the captcha"]
  then Ok true
  else if Contains lower captcha then
    let* i18n := isCaptchaInI18nContext lower in Ok (negb i18n)
  else Ok false.

(** [strings.EqualFold] against an ASCII string: two runes fold to an ASCII letter. *)
Definition fold_ascii (r : rune) : rune :=
  if r =? 383 then 115 else if r =? 8490 then 107
  else if between 65 90 r then r + 32 else r.
Definition EqualFold (s ascii : gostring) : bool :=
  bool_decide (fold_ascii <$> runes s = fold_ascii <$> ascii).

Fixpoint numbers_ok (j : json) : bool :=
  match j with
  | JNum s => bool_decide (is_Some (read_float s))
  | JArr l => (fix go l := match l with [] => true | x :: l => numbers_ok x && go l end) l
  | JObj kvs =>
      (fix go l := match l with [] => true | (_, x) :: l => numbers_ok x && go l end) kvs
  | _ => true
  end.
(** Decoding into an [any]. *)
Definition dec_any : dec json := λ _ j, if numbers_ok j then Some j else None.
Definition isRedditRateLimited (data : gostring) : bool :=
  match Unmarshal (JNull, []) (dec_struct (λ p kvs,
          e ← field (lit "error") dec_any p.1 kvs;
          m ← field (lit "message") dec_string p.2 kvs; Some (e, m))) data with
  | None => false
  | Some (e, m) =>
      (match e with
       | JNum s => match read_float s with Some f => to_int f =? 429 | None => false end
       | _ => false
       end) || EqualFold m (lit "Too Many Requests")
  end.

(** ** Text *)
Fixpoint span (f : Z → bool) (s : gostring) : gostring * gostring :=
  match s with
  | c :: s' => if f c then let '(a, b) := span f s' in (c :: a, b) else ([], s)
  | [] => ([], [])
  end.
(** [reHTMLTag.ReplaceAllString(s, "")]: [skip] is whether the scan is inside a match. A [<]
    without a later [>] is not a match. *)
Fixpoint strip_tags (inside : bool) (s : gostring) : gostring :=
  match s with
  | [] => []
  | c :: s =>
      if inside then strip_tags (negb (c =? 62)) s
      else if (c =? 60) && Contains s (lit ">") then strip_tags true s
      else c :: strip_tags false s
  end.
Definition CleanHTML (s : gostring) : gostring := TrimSpace (strip_tags false s).

(** The leftmost match of a pattern, given by what it captures at a position. *)
Fixpoint scan (try : gostring → option gostring) (s : gostring) : option gostring :=
  match try s with
  | Some m => Some m
  | None => match s with [] => None | _ :: s => scan try s end
  end.
Definition vqd_quoted (q : Z) (s : gostring) : option gostring :=
  r ← CutPrefix s (lit "vqd=" ++ [q]);
  let '(tok, r) := span (λ c, negb (c =? q)) r in
  match r with
  | _ :: _ => if decide (tok = []) then None else Some tok
  | [] => None
  end.
Definition vqd_bare (s : gostring) : option gostring :=
  r ← CutPrefix s (lit "vqd=");
  let '(tok, _) := span (λ c, is_alnum c || (c =? 95) || (c =? 45)) r in
  if decide (tok = []) then None else Some tok.
Definition vqdPatterns : list (gostring → option gostring) :=
  [vqd_quoted 39; vqd_quoted 34; vqd_bare].
Definition ExtractVQD (body : gostring) : gostring :=
  default [] (head (omap (λ try, scan try body) vqdPatterns)).

Definition DDGUnwrapURL (href : gostring) : gostring :=
  let uddg :=
    if Contains href (lit "duckduckgo.com/l/") || Contains href (lit "uddg=") then
      match Parse href with Some u => Get (GoUrl.Query u) (lit "uddg") | None => [] end
    else [] in
  if decide (uddg = []) then if HasPrefix href (lit "http") then href else [] else uddg.
Definition bingUnwrapURL (rawURL : gostring) : gostring :=
  if negb (Contains rawURL (lit "bing.com/ck/a")) then rawURL else
  match Parse rawURL with
  | None => rawURL
  | Some u =>
      let encoded := Get (GoUrl.Query u) (lit "u") in
      if decide (encoded = []) then rawURL else
      let encoded := match encoded with
                     | 97 :: d :: _ :: _ => if between 48 57 d then drop 2 encoded else encoded
                     | _ => encoded end in
      default rawURL (RawURLDecode encoded)
  end.
Definition applyLimit (results : list Result) (limit : Z) : list Result :=
  if (0 <? limit) && (limit <? zlen results) then take (Z.to_nat limit) results else results.

(** ** Result pages *)
Class GoQuery (Node : Type) := {
  NewDocument : gostring → result Node;
  Find : Node → gostring → list Node;
  Text : Node → gostring;
  Attr : Node → gostring → option gostring
}.
Definition engine_meta (e : gostring) : gmap gostring gostring := {[lit "engine" := e]}.
Definition directResultScore : float := fone.

Section Html.
Context {Node : Type} `{GoQuery Node}.

(** [s.Find(sel).First()], its text and its attributes. *)
Definition First (s : Node) (sel : gostring) : option Node := head (Find s sel).
Definition text_of (n : option Node) : gostring := default [] (Text <$> n).
Definition attr_of (n : option Node) (a : gostring) : option gostring := n ≫= λ n, Attr n a.
(** [doc.Find(sel).Each], collecting what the callback appends. *)
Definition parse_each (sel : gostring) (f : Node → option Result) (data : gostring)
    : result (list Result) :=
  match NewDocument data with
  | Err e => Err (Wrapped (lit "goquery parse") e)
  | Val doc => Val (omap f (Find doc sel))
  end.

(** [[class*='content'][class*='t-primary']]. *)
Definition brave_row (s : Node) : option Result :=
  let title := TrimSpace (text_of (First s (lit ".title"))) in
  match attr_of (First s (lit "a[href^='http']")) (lit "href") with
  | None => None
  | Some href =>
      if bool_decide (title = []) || bool_decide (href = []) then None else
      let desc := TrimSpace (text_of (First s (lit "[class*='content'][class*='t-primary']"))) in
      Some (MkResult title href desc directResultScore (engine_meta (lit "brave")))
  end.
Definition ParseBraveHTML (data : gostring) : result (list Result) :=
  parse_each (lit "[data-pos]") brave_row data.

Definition parseBingTilkFallback (s : Node) (titleIn : gostring) : option (gostring * gostring) :=
  let tilk := First s (lit "a.tilk") in
  let cite := TrimSpace (text_of (First s (lit "cite"))) in
  href ← match attr_of tilk (lit "href") with
         | Some (b :: h) => Some (b :: h)
         | _ => if decide (cite = []) then None
                else Some (if HasPrefix cite (lit "http") then cite else lit "https://" ++ cite)
         end;
  let title :=
    if decide (titleIn = []) then
      let t := TrimSpace (default [] (attr_of tilk (lit "aria-label"))) in
      if decide (t = []) then cite else t
    else titleIn in
  Some (href, title).
Definition parseBingResult (s : Node) : option Result :=
  let link := First s (lit "h2 a") in
  let title := TrimSpace (text_of link) in
  let direct := match attr_of link (lit "href") with
                | Some h => if bool_decide (title = []) || bool_decide (h = []) then None
                            else Some (h, title)
                | None => None end in
  '(href, title) ← match direct with
                   | Some p => Some p | None => parseBingTilkFallback s title end;
  if bool_decide (title = []) || bool_decide (href = []) then None else
  let href := bingUnwrapURL href in
  let snippet := TrimSpace (text_of (First s
    (lit ".b_caption p, p.b_lineclamp2, p.b_lineclamp3, p.b_lineclamp4"))) in
  Some (MkResult title href snippet directResultScore (engine_meta (lit "bing"))).
Definition ParseBingHTML (data : gostring) : result (list Result) :=
  parse_each (lit "#b_results > li.b_algo") parseBingResult data.

Definition ddg_row (s : Node) : option Result :=
  let link := First s (lit "a.result__a, .result__title a, a.result-link") in
  let title := TrimSpace (text_of link) in
  href ← attr_of link (lit "href");
  if decide (title = []) then None else
  let href := DDGUnwrapURL href in
  if decide (href = []) then None else
  let content := TrimSpace (text_of (First s (lit ".result__snippet, .result__body"))) in
  Some (MkResult title href content directResultScore (engine_meta (lit "ddg"))).
Definition ParseDDGHTML (data : gostring) : result (list Result) :=
  parse_each (lit ".result, .web-result") ddg_row data.

Definition startpage_row (s : Node) : option Result :=
  let link := First s (lit "a.w-gl__result-title, h3 a, a.result-link") in
  let title := TrimSpace (text_of link) in
  href ← attr_of link (lit "href");
  if decide (title = []) then None else
  let content := TrimSpace (text_of (First s
    (lit "p.w-gl__description, .w-gl__description, p.result-description"))) in
  if bool_decide (href = []) || Contains href (lit "startpage.com/do/") then None else
  Some (MkResult title href content directResultScore (engine_meta (lit "startpage"))).
Definition ParseStartpageHTML (data : gostring) : result (list Result) :=
  parse_each (lit ".w-gl__result, .result") startpage_row data.
End Html.

(** *** DuckDuckGo's d.js *)
Record ddgResult := { dT : gostring; dA : gostring; dU : gostring; dC : gostring }.
Definition dec_ddgResult : dec ddgResult := dec_struct (λ p kvs,
  t ← field (lit "t") dec_string (dT p) kvs; a ← field (lit "a") dec_string (dA p) kvs;
  u ← field (lit "u") dec_string (dU p) kvs; c ← field (lit "c") dec_string (dC p) kvs;
  Some {| dT := t; dA := a; dU := u; dC := c |}).
Definition zero_ddgResult : ddgResult := {| dT := []; dA := []; dU := []; dC := [] |}.
Definition ddg_djs_row (r : ddgResult) : option Result :=
  let resultURL := if decide (dU r = []) then dC r else dU r in
  if bool_decide (resultURL = []) || bool_decide (dT r = []) then None
  else if HasPrefix resultURL (lit "https://duckduckgo.com/") then None
  else Some (MkResult (CleanHTML (dT r)) resultURL (CleanHTML (dA r)) directResultScore
                      (engine_meta (lit "ddg"))).
(** The JSONP wrapper is stripped. *)
Definition strip_jsonp (body : gostring) : gostring :=
  match find_sub body (lit "["), find_last body (lit "]") with
  | Some idx, Some e => if (idx <? e)%nat then drop idx (take (S e) body) else body
  | _, _ => body
  end.
(** The error holds the start of the body; the decoder's message is not modelled. *)
Definition ParseDDGResponse (data : gostring) : result (list Result) :=
  let body := strip_jsonp (TrimSpace data) in
  match Unmarshal [] (dec_list zero_ddgResult dec_ddgResult) body with
  | None => Err (Wrapped (lit "ddg json parse (first 200 bytes: " ++ take 200 body ++ lit ")")
                         (ErrMsg []))
  | Some raw => Val (omap ddg_djs_row raw)
  end.

(** *** Reddit *)
Record redditPost := {
  p_Title : gostring; p_Permalink : gostring; p_Selftext : gostring; p_Score : Z;
  p_NumComments : Z; p_Subreddit : gostring; p_URL : gostring
}.
Definition zero_redditPost : redditPost :=
  {| p_Title := []; p_Permalink := []; p_Selftext := []; p_Score := 0; p_NumComments := 0;
     p_Subreddit := []; p_URL := [] |}.
Definition dec_redditPost : dec redditPost := dec_struct (λ p kvs,
  t ← field (lit "title") dec_string (p_Title p) kvs;
  l ← field (lit "permalink") dec_string (p_Permalink p) kvs;
  s ← field (lit "selftext") dec_string (p_Selftext p) kvs;
  sc ← field (lit "score") dec_int (p_Score p) kvs;
  n ← field (lit "num_comments") dec_int (p_NumComments p) kvs;
  sr ← field (lit "subreddit") dec_string (p_Subreddit p) kvs;
  u ← field (lit "url") dec_string (p_URL p) kvs;
  Some {| p_Title := t; p_Permalink := l; p_Selftext := s; p_Score := sc; p_NumComments := n;
          p_Subreddit := sr; p_URL := u |}).
Definition dec_redditListing : dec (list redditPost) := dec_struct (λ l kvs,
  field (lit "data") (dec_struct (λ l kvs,
    field (lit "children") (dec_list zero_redditPost (dec_struct (λ p kvs,
      field (lit "data") dec_redditPost p kvs))) l kvs)) l kvs).
(** The text is cut at 300 bytes. *)
Definition reddit_row (p : redditPost) : option Result :=
  if bool_decide (p_Title p = []) || bool_decide (p_Permalink p = []) then None else
  let selftext := if 300 <? zlen (p_Selftext p) then take 300 (p_Selftext p) else p_Selftext p in
  let content := lit "r/" ++ p_Subreddit p ++ lit " | " ++ Itoa (p_Score p) ++ lit " pts | " ++
                 Itoa (p_NumComments p) ++ lit " comments" ++ [10] ++ TrimSpace selftext in
  Some (MkResult (p_Title p) (lit "https://www.reddit.com" ++ p_Permalink p) (TrimSpace content)
          directResultScore (<[lit "subreddit" := p_Subreddit p]> (engine_meta (lit "reddit")))).
Definition ParseRedditJSON (data : gostring) : result (list Result) :=
  match Unmarshal [] dec_redditListing data with
  | None => Err (Wrapped (lit "json decode") (ErrMsg []))
  | Some posts => Val (omap reddit_row posts)
  end.

(** ** Examples *)
(** Double quotes for single ones. *)
Definition dq (s : gostring) : gostring := (λ c, if c =? 39 then 34 else c) <$> s.
Example DDGUnwrapURL_ex :
  DDGUnwrapURL (lit "//duckduckgo.com/l/?uddg=https%3A%2F%2Fexample.com%2F%3Fa%3Db&rut=1") =
  lit "https://example.com/?a=b".
Proof. vm_compute. done. Qed.
(** A redirect whose target decodes to nothing gives an empty URL. *)
Example bingUnwrapURL_ex :
  (bingUnwrapURL (lit "https://www.bing.com/ck/a?!&&p=1&u=a1aHR0cHM6Ly9hLmI&ntb=1"),
   bingUnwrapURL (lit "https://www.bing.com/ck/a?u=%0A")) = (lit "https://a.b", []).
Proof. vm_compute. done. Qed.
Example ExtractVQD_ex : ExtractVQD (lit "x vqd='' vqd=4-12_3; y") = lit "4-12_3".
Proof. vm_compute. done. Qed.
Example CleanHTML_ex : CleanHTML (lit " <b>a</b> < b <<i>> c <") = lit "a > c <".
Proof. vm_compute. done. Qed.
Example ParseDDGResponse_ex :
  ParseDDGResponse (dq (lit "f([{'t':'<b>T</b>','u':'http://x','a':'&'},{'t':'q'}]);")) =
  Val [MkResult (lit "T") (lit "http://x") (lit "&") directResultScore (engine_meta (lit "ddg"))].
Proof. vm_compute. done. Qed.
Example isRedditRateLimited_ex :
  isRedditRateLimited (dq (lit "{'error': 429.0}")) = true ∧
  isRedditRateLimited (dq (lit "{'message':'too many requests'}")) = true ∧
  isRedditRateLimited (dq (lit "{'error': '429', 'message':'none'}")) = false.
Proof. vm_compute. done. Qed.
(** The second occurrence is too far from the colon of its own pair: it counts as translated only
    when another pair follows closely. *)
Example IsBraveRateLimited_ex :
  IsBraveRateLimited (dq (lit "{'Captcha':'Switch to traditional CAPTCHA','a':'b'}")) = Ok false ∧
  IsBraveRateLimited (dq (lit "{'Captcha':'Switch to traditional CAPTCHA'}")) = Ok true ∧
  IsBraveRateLimited (lit "<p>Solve this captcha</p>") = Ok true.
Proof. vm_compute. done. Qed.

(** ** The URLs a search asks for *)
(** What follows the query: nothing, or more parameters. *)
Definition extra_ok (x : gostring) : Prop :=
  (x = [] ∨ ∃ e, x = 38 :: e) ∧ ∀ c, c ∈ x → query_char c = true ∨ c = 38 ∨ c = 61.
Definition extra_okb (x : gostring) : bool :=
  match x with [] => true | c :: _ => c =? 38 end &&
  forallb (λ c, query_char c || (c =? 38) || (c =? 61)) x.
Lemma extra_okb_ok x : extra_okb x = true → extra_ok x.
Proof.
  unfold extra_okb. rewrite andb_true_iff, forallb_forall. intros [Hx Hs]. split.
  - destruct x as [|c x]; [by left|]. apply Z.eqb_eq in Hx as ->. right. eauto.
  - intros c Hc%list_elem_of_In%Hs. rewrite !orb_true_iff, !Z.eqb_eq in Hc. tauto.
Qed.
Lemma extra_ok_param p v : extra_okb p = true → p ≠ [] →
  (∀ c, c ∈ v → query_char c = true) → extra_ok (if decide (v = []) then [] else p ++ v).
Proof.
  intros [Hp Hc]%extra_okb_ok Hne Hv. case_decide; [split; [by left|by intros ? ?%elem_of_nil]|].
  split.
  - destruct Hp as [->|[e ->]]; [done|]. right. by eexists.
  - intros c [?|?]%elem_of_app; [by apply Hc|left; by apply Hv].
Qed.
Lemma param_app (u p v : gostring) :
  (if decide (v = []) then u else u ++ p ++ v) = u ++ (if decide (v = []) then [] else p ++ v).
Proof. case_decide; [by rewrite app_nil_r|done]. Qed.

(** A URL whose query starts with [q=] and the escaped query gives the query back. *)
Lemma serp_query base q extra sc rest scheme host path :
  bytes_ok q → extra_ok extra →
  getScheme (base ++ 63 :: (lit "q=" ++ QueryEscape q ++ extra)) =
    Some (sc, rest ++ 63 :: (lit "q=" ++ QueryEscape q ++ extra)) →
  63 ∉ rest → has_ctl base = false → 35 ∉ base →
  let u := simple_url scheme host path (lit "q=" ++ QueryEscape q ++ extra) in
  parse_tail (StringsToLower sc) rest false (lit "q=" ++ QueryEscape q ++ extra) = Some u →
  Parse (base ++ 63 :: (lit "q=" ++ QueryEscape q ++ extra)) = Some u ∧
  Get (GoUrl.Query u) (lit "q") = q.
Proof.
  intros Hq [Hx Hc] Hs Hr Hb Hh u Hu. split.
  - eapply Parse_query; [done..| | |done]; [done|].
    intros c [Hin|[Hin|Hin]%elem_of_app]%elem_of_app; [|by left; eapply QueryEscape_char|by apply Hc].
    change (lit "q=") with [113; 61] in Hin. rewrite !elem_of_cons, elem_of_nil in Hin.
    destruct Hin as [->|[->|[]]]; [by left|by right; right].
  - unfold GoUrl.Query. subst u. cbn [simple_url RawQuery]. change (lit "q=") with ([113] ++ [61]).
    assert (parse_pair ([113] ++ 61 :: QueryEscape q) = Some ([113], q)) as Hp.
    { apply parse_pair_escape; [done..|]. by intros c ->%list_elem_of_singleton. }
    assert (38 ∉ [113] ++ 61 :: QueryEscape q) as Hn.
    { intros [E|[E|E%QueryEscape_char]%elem_of_cons]%elem_of_app; [|done| |done].
      - by apply list_elem_of_singleton in E.
      - apply query_char_bounds in E. set_solver. }
    change (([113] ++ [61]) ++ QueryEscape q ++ extra) with (([113] ++ 61 :: QueryEscape q) ++ extra).
    destruct Hx as [->|[e ->]].
    + rewrite app_nil_r, Split_no by done. cbn [omap list_omap]. by rewrite Hp.
    + rewrite Split_app by done. cbn [omap list_omap]. by rewrite Hp.
Qed.
(** The same for a URL of this development: host and path are those of [base]. *)
Definition serp_ok (url q host path : gostring) : Prop :=
  ∃ u, Parse url = Some u ∧ Scheme u = lit "https" ∧ Host u = host ∧ Path u = path ∧
       Get (GoUrl.Query u) (lit "q") = q.
Lemma serp_ok_intro rest q extra host path :
  bytes_ok q → extra_ok extra → 63 ∉ rest → has_ctl rest = false → 35 ∉ rest →
  HasPrefix rest (lit "/") = true →
  (∀ qs, parse_tail (lit "https") rest false qs = Some (simple_url (lit "https") host path qs)) →
  serp_ok ((lit "https:" ++ rest) ++ 63 :: (lit "q=" ++ QueryEscape q ++ extra)) q host path.
Proof.
  intros Hq Hx Hr Hc Hh Hp Ht.
  destruct (serp_query (lit "https:" ++ rest) q extra (lit "https") rest
    (lit "https") host path) as [H1 H2]; try done.
  - intros [Hin|?]%elem_of_app; [|done]. change (lit "https:") with [104; 116; 116; 112; 115; 58] in Hin.
    rewrite !elem_of_cons, elem_of_nil in Hin. lia.
  - eexists. split; [exact H1|done].
Qed.

Lemma query_chars s : forallb query_char s = true → ∀ c, c ∈ s → query_char c = true.
Proof. intros Hs c Hc. rewrite forallb_forall in Hs. by apply Hs, list_elem_of_In. Qed.
Lemma ddg_range_chars tr c : c ∈ timeRangeToDDG tr → query_char c = true.
Proof. apply query_chars. unfold timeRangeToDDG. by repeat case_decide. Qed.
Lemma brave_range_chars tr c : c ∈ timeRangeToBrave tr → query_char c = true.
Proof. apply query_chars. unfold timeRangeToBrave. by repeat case_decide. Qed.
Lemma bing_range_bytes today tr : 365 <= today <= 36500000 → bytes_ok (timeRangeToBing today tr).
Proof.
  intros Ht. unfold timeRangeToBing, bytes_ok.
  repeat (case_decide; [by repeat constructor|]). case_decide; [|constructor].
  rewrite !Forall_app. split_and!; try (apply format_date_bytes; [by repeat constructor|lia]).
  by repeat constructor.
Qed.

Lemma extra_ok_app a x : extra_okb a = true → a ≠ [] →
  (∀ c, c ∈ x → query_char c = true ∨ c = 38 ∨ c = 61) → extra_ok (a ++ x).
Proof.
  intros [Ha Hc]%extra_okb_ok Hne Hx. split.
  - destruct Ha as [->|[e ->]]; [done|]. right. by eexists.
  - intros c [?|?]%elem_of_app; [by apply Hc|by apply Hx].
Qed.
Ltac closed_url := first [done | apply (bool_decide_unpack _); vm_compute; done].

(** Whatever the query holds, the URL of a DuckDuckGo, Brave or Bing result page parses to
    the engine's own host and path over https, and its [q] parameter decodes to exactly the
    query: a query can neither add a parameter nor change the host. *)
Theorem serp_url_query today query opts :
  bytes_ok query → 365 <= today <= 36500000 →
  serp_ok (DDGHTMLURL query opts) query (lit "html.duckduckgo.com") (lit "/html/") ∧
  serp_ok (BraveSearchURL query opts) query (lit "search.brave.com") (lit "/search") ∧
  serp_ok (BingSearchURL today query opts) query (lit "www.bing.com") (lit "/search").
Proof.
  intros Hq Ht. assert (extra_ok []) as Hnil by by apply extra_okb_ok. split_and!.
  - assert (∀ x, extra_ok x → serp_ok ((lit "https://html.duckduckgo.com/html/" ++ lit "?q=" ++
      QueryEscape query) ++ x) query (lit "html.duckduckgo.com") (lit "/html/")) as H.
    { intros x Hx. rewrite <- !app_assoc. 
      apply (serp_ok_intro (lit "//html.duckduckgo.com/html/")); try closed_url. }
    unfold DDGHTMLURL. destruct opts as [|o ?]; [rewrite <- (app_nil_r (_ ++ _)); by apply H|].
    cbv zeta. rewrite param_app. apply H, extra_ok_param; [done..|apply ddg_range_chars].
  - assert (∀ x, extra_ok x → serp_ok ((lit "https://search.brave.com/search" ++ lit "?q=" ++
      QueryEscape query ++ lit "&source=web") ++ x) query (lit "search.brave.com") (lit "/search")) as H.
    { intros x Hx. rewrite <- !app_assoc. 
      apply (serp_ok_intro (lit "//search.brave.com/search")); try closed_url.
      apply extra_ok_app; [done..|apply Hx]. }
    unfold BraveSearchURL. destruct opts as [|o ?]; [rewrite <- (app_nil_r (_ ++ _)); by apply H|].
    cbv zeta. rewrite param_app. apply H, extra_ok_param; [done..|apply brave_range_chars].
  - assert (∀ x, extra_ok x → serp_ok ((lit "https://www.bing.com/search" ++ lit "?q=" ++
      QueryEscape query) ++ x) query (lit "www.bing.com") (lit "/search")) as H.
    { intros x Hx. rewrite <- !app_assoc. 
      apply (serp_ok_intro (lit "//www.bing.com/search")); try closed_url. }
    unfold BingSearchURL. destruct opts as [|o ?]; [rewrite <- (app_nil_r (_ ++ _)); by apply H|].
    cbv zeta. set (f := timeRangeToBing today (TimeRange o)).
    destruct (decide (f = [])) as [?|Hf]; [rewrite <- (app_nil_r (_ ++ _)); by apply H|].
    apply H, extra_ok_app; [done..|].
    intros c Hc. left. eapply QueryEscape_char, Hc. by apply bing_range_bytes.
Qed.

(** ** Captcha pages *)
(** The text inspected around an occurrence: 20 bytes before it and 30 from its start. *)
Definition captcha_window (a k : gostring) : gostring :=
  drop (length a - 20) a ++ take 30 (captcha ++ k).
Lemma captcha_context_window a k :
  captcha_context (a ++ captcha ++ k) (zlen a) = Ok (captcha_window a k).
Proof.
  unfold captcha_context, captcha_window.
  rewrite slice_Ok by (unfold zlen; rewrite !length_app; change (length captcha) with 7%nat; lia).
  f_equal. rewrite drop_app_le by (unfold zlen; lia).
  replace (Z.to_nat (Z.max 0 (zlen a - 20))) with (length a - 20)%nat by (unfold zlen; lia).
  set (d := drop (length a - 20) a).
  assert (length d = length a - (length a - 20))%nat as Hd by (subst d; by rewrite length_drop).
  set (l := captcha ++ k). unfold zlen. rewrite length_app.
  assert (7 <= length l)%nat as Hl by (subst l; simpl; lia).
  rewrite take_app_ge by lia. f_equal.
  destruct (decide (30 <= length l)%nat); [f_equal; lia|]. rewrite !take_ge; [done|lia..].
Qed.
(** Two occurrences do not overlap. *)
Lemma captcha_no_overlap x k k' : captcha ++ k' = x ++ captcha ++ k → x ≠ [] →
  ∃ y, x = captcha ++ y.
Proof.
  change captcha with [99; 97; 112; 116; 99; 104; 97]. cbn [app]. intros E Hx.
  do 7 (destruct x as [|? x]; cbn [app] in E; [try done; by injection E|]).
  injection E as <- <- <- <- <- <- <- _. by exists x.
Qed.
Lemma i18n_loop_spec fuel pre s :
  (length s < fuel)%nat →
  ∃ b, i18n_loop fuel (pre ++ s) (zlen pre) = Ok b ∧
    (b = true ↔ ∀ a k, s = a ++ captcha ++ k → json_pair (captcha_window (pre ++ a) k) = true).
Proof.
  revert pre s. induction fuel as [|fuel IH]; intros pre s Hf; [lia|]. cbn [i18n_loop].
  rewrite slice_suffix by (unfold zlen; rewrite length_app; lia).
  replace (drop _ (pre ++ s)) with s by (unfold zlen; by rewrite Nat2Z.id, drop_app_length).
  cbn [obind]. destruct (find_sub s captcha) as [p|] eqn:E.
  2:{ exists true. split; [done|]. split; [|done]. intros _ a k Hs. by apply find_sub_None in Hs. }
  destruct (find_sub_Some _ _ _ E) as (a0 & k0 & Hs & Hp).
  replace (Z.of_nat p + zlen pre) with (zlen (pre ++ a0)) by (unfold zlen; rewrite length_app; lia).
  assert (captcha_context (pre ++ s) (zlen (pre ++ a0)) = Ok (captcha_window (pre ++ a0) k0)) as ->.
  { rewrite Hs, app_assoc. apply captcha_context_window. }
  cbn [obind].
  destruct (json_pair (captcha_window (pre ++ a0) k0)) eqn:Hj; cbn [negb].
  2:{ exists false. split; [done|]. split; [done|]. intros H. rewrite <- Hj. by apply H. }
  destruct (IH (pre ++ a0 ++ captcha) k0) as (b & Hb & Hspec).
  { rewrite Hs, !length_app in Hf. change (length captcha) with 7%nat in Hf. lia. }
  exists b. split.
  { rewrite <- Hb. f_equal; [by rewrite Hs, <- !app_assoc|].
    unfold zlen. rewrite !length_app. lia. }
  rewrite Hspec. split.
  - intros H a k Hak. rewrite Hs in Hak.
    assert (p <= length a)%nat as Hle by (eapply find_sub_first; [done|by rewrite Hs]).
    assert (∃ x, a = a0 ++ x) as [x ->].
    { exists (drop p a). rewrite <- (take_drop p a) at 1. f_equal. rewrite <- Hp.
      assert (take (length a0) (a0 ++ captcha ++ k0) = a0) as Ht by apply take_app_length.
      rewrite Hak, take_app_le in Ht by lia. done. }
    rewrite <- app_assoc in Hak. apply app_inv_head in Hak.
    destruct x as [|c x].
    { change ([] ++ captcha ++ k) with (captcha ++ k) in Hak. apply app_inv_head in Hak as <-.
      by rewrite app_nil_r. }
    destruct (captcha_no_overlap _ _ _ Hak) as [y Hy]; [done|]. rewrite Hy in *.
    rewrite <- app_assoc in Hak. apply app_inv_head in Hak.
    replace (pre ++ a0 ++ captcha ++ y) with ((pre ++ a0 ++ captcha) ++ y) by by rewrite <- !app_assoc.
    by apply H.
  - intros H a k ->. specialize (H (a0 ++ captcha ++ a) k). rewrite <- !app_assoc in *.
    apply H. by rewrite Hs.
Qed.

(** The loop over the occurrences of "captcha" ends without a slice out of range, and says
    that the page is a translation table exactly when the window of every occurrence holds the
    separator of a JSON pair. *)
Theorem isCaptchaInI18nContext_spec lower :
  ∃ b, isCaptchaInI18nContext lower = Ok b ∧
    (b = true ↔ ∀ a k, lower = a ++ captcha ++ k → json_pair (captcha_window a k) = true).
Proof. by apply (i18n_loop_spec (S (length lower)) []); lia. Qed.

(** ** Tags *)
Lemma strip_tags_out s : Contains s (lit ">") = false → strip_tags false s = s.
Proof.
  induction s as [|c s IH]; intros Hc; [done|]. cbn [strip_tags].
  assert (Contains s (lit ">") = false) as Hs.
  { apply not_true_iff_false. intros Hs. apply (Contains_app_r _ [c]) in Hs. simpl in Hs. congruence. }
  rewrite Hs, andb_false_r. by rewrite IH.
Qed.
Lemma strip_tags_in s : strip_tags true s = match find_sub s (lit ">") with
                                            | Some n => strip_tags false (drop (S n) s)
                                            | None => [] end.
Proof.
  change (lit ">") with [62]. induction s as [|c s IH]; [done|]. cbn [strip_tags find_sub HasPrefix].
  destruct (Z.eqb_spec c 62) as [->|]; cbn [negb].
  - rewrite Z.eqb_refl. by destruct s.
  - rewrite (proj2 (Z.eqb_neq 62 c)) by done. cbn [andb]. rewrite IH. by destruct (find_sub s [62]).
Qed.
(** No [<] of the output has a [>] after it. *)
Lemma strip_tags_no_tag s a b c :
  strip_tags false s ≠ a ++ 60 :: b ++ 62 :: c.
Proof.
  assert (∀ n s, (length s <= n)%nat → ∀ a b c, strip_tags false s ≠ a ++ 60 :: b ++ 62 :: c) as H;
    [|by apply (H (length s))].
  clear. induction n as [|n IH]; intros s Hl a b c E; (destruct s as [|x s]; [by destruct a|]);
    simpl in Hl; [lia|].
  cbn [strip_tags] in E. destruct ((x =? 60) && Contains s (lit ">")) eqn:Hx.
  - rewrite strip_tags_in in E. destruct (find_sub s (lit ">")) as [m|]; [|by destruct a].
    eapply IH, E. rewrite length_drop. lia.
  - destruct a as [|y a]; simpl in E; injection E as -> E.
    + apply andb_false_iff in Hx as [Hx|Hx]; [done|].
      rewrite strip_tags_out in E by done. rewrite E in Hx.
      assert (Contains (b ++ 62 :: c) (lit ">") = true); [|congruence].
      apply Contains_spec. by exists b, c.
    + eapply IH, E. lia.
Qed.
(** CleanHTML leaves no tag: its output has no opening bracket followed by a closing one,
    however the input nests or splits them. *)
Theorem CleanHTML_no_tag s a b c : CleanHTML s ≠ a ++ 60 :: b ++ 62 :: c.
Proof.
  unfold CleanHTML. intros E. destruct (TrimSpace_part (strip_tags false s)) as (p & q & Hs).
  rewrite E in Hs. apply (strip_tags_no_tag s (p ++ a) b (c ++ q)).
  rewrite Hs. rewrite <- !app_assoc. simpl. by rewrite <- app_assoc.
Qed.

(** ** Redirect links *)
Lemma alnum_lit s : forallb is_alnum s = true → ∀ c, c ∈ s → is_alnum c = true.
Proof. intros Hs c Hc. rewrite forallb_forall in Hs. by apply Hs, list_elem_of_In. Qed.
(** Unwrapping a DuckDuckGo redirect link gives back the target it was made from, byte for
    byte, whatever the target holds. *)
Theorem DDGUnwrapURL_redirect target rut :
  bytes_ok target → target ≠ [] → (∀ c, c ∈ rut → is_alnum c = true) →
  DDGUnwrapURL (lit "//duckduckgo.com/l/?uddg=" ++ QueryEscape target ++ lit "&rut=" ++ rut) = target.
Proof.
  intros Ht Hne Hr. unfold DDGUnwrapURL.
  assert (Contains (lit "//duckduckgo.com/l/?uddg=" ++ QueryEscape target ++ lit "&rut=" ++ rut)
            (lit "duckduckgo.com/l/") = true) as ->.
  { apply Contains_app_l. by vm_compute. }
  cbn [orb]. set (qs := lit "uddg=" ++ QueryEscape target ++ lit "&rut=" ++ rut).
  change (lit "//duckduckgo.com/l/?uddg=" ++ QueryEscape target ++ lit "&rut=" ++ rut)
    with (lit "//duckduckgo.com/l/" ++ 63 :: qs).
  assert (38 ∉ lit "uddg" ++ 61 :: QueryEscape target) as Hn.
  { intros [E|[E|E%QueryEscape_char]%elem_of_cons]%elem_of_app; [|done| |done].
    - revert E. by apply (bool_decide_unpack (38 ∉ lit "uddg")).
    - apply query_char_bounds in E. set_solver. }
  rewrite (Parse_query _ _ [] (lit "//duckduckgo.com/l/")
    [] (lit "duckduckgo.com") (lit "/l/"));
    [|reflexivity|closed_url|done|closed_url|done| |reflexivity].
  - unfold GoUrl.Query. cbn [simple_url RawQuery]. subst qs.
    change (lit "uddg=" ++ QueryEscape target ++ lit "&rut=" ++ rut)
      with ((lit "uddg" ++ [61]) ++ QueryEscape target ++ 38 :: (lit "rut=" ++ rut)).
    replace ((lit "uddg" ++ [61]) ++ QueryEscape target ++ 38 :: (lit "rut=" ++ rut))
      with ((lit "uddg" ++ 61 :: QueryEscape target) ++ 38 :: (lit "rut=" ++ rut))
      by by rewrite <- !app_assoc.
    rewrite Split_app by done. cbn [omap list_omap].
    rewrite parse_pair_escape; [|done..|by apply alnum_lit].
    cbn. by rewrite decide_False.
  - intros c. subst qs. change (lit "uddg=") with (lit "uddg" ++ [61]).
    intros [[Hc|Hc]%elem_of_app|[Hc|[Hc|Hc]%elem_of_app]%elem_of_app]%elem_of_app.
    + left. revert c Hc. by apply query_chars.
    + right; right. by apply list_elem_of_singleton in Hc.
    + left. by eapply QueryEscape_char.
    + revert c Hc. apply extra_okb_ok. by vm_compute.
    + left. unfold query_char. by rewrite Hr.
Qed.
Lemma DDGUnwrapURL_redirect_witness :
  DDGUnwrapURL (lit "//duckduckgo.com/l/?uddg=" ++ QueryEscape (lit "https://a.b/?x=1&y=2") ++
                lit "&rut=" ++ lit "0f9c") = lit "https://a.b/?x=1&y=2".
Proof.
  apply DDGUnwrapURL_redirect; [apply (bool_decide_unpack _); vm_compute; done|done|].
  by apply alnum_lit.
Defined.
Lemma serp_url_query_witness :
  serp_ok (BraveSearchURL (lit "a&q=b#c?") [zero_SearchOpts]) (lit "a&q=b#c?")
    (lit "search.brave.com") (lit "/search").
Proof.
  apply (serp_url_query 20000 (lit "a&q=b#c?") [zero_SearchOpts]); [|lia].
  apply (bool_decide_unpack _); vm_compute; done.
Defined.

(** ** Rows *)
