(* ===== verification/Engines.v ===== *)
(** Package [websearch], the engines: the requests of [brave.go], [bing.go], [startpage.go],
    [ddg.go] and [reddit.go], and the browser with a fallback of [search/dual_browser.go]. A
    browser is an oracle on the world. *)
From S2P Require Import Prelude Unicode Utf8 GoStrings GoUrl Floats Json Effects GoTime Results Retry Serp.
Local Open Scope Z_scope.

Definition Headers := gmap gostring gostring.
Record Response := { rs_data : gostring; rs_headers : Headers; rs_status : Z }.
(** A [BrowserDoer]: what it does with a request, and the user agent of its identity when it is a
    stealth client. *)
Record BrowserDoer (W : Type) := {
  identity : option gostring;
  Do : gostring → gostring → Headers → option gostring → M W (result Response)
}.
Arguments identity {W} _.
Arguments Do {W} _ _ _ _ _ _.

(** The user agent of the default profile (package go-stealth), and the local calendar. *)
Class Host (W : Type) := { default_ua : gostring; localDay : W → Z }.

Definition GET : gostring := lit "GET".
Definition POST : gostring := lit "POST".
Definition acceptJSON : gostring := lit "application/json".
Definition acceptHTML : gostring :=
  lit "text/html,application/xhtml+xml,application/xml;q=0.9,*/*;q=0.8".
Definition form_urlencoded : gostring := lit "application/x-www-form-urlencoded".

(** ** The browser with a fallback *)
Definition shouldFallback (status : Z) : bool := bool_decide (status ∈ [402; 407; 502; 503; 504]).
Definition dual_Do {W} (primary fallback : BrowserDoer W) (method url : gostring) (h : Headers)
    (body : option gostring) : M W (result Response) :=
  r ← Do primary method url h body;
  match r with
  | Val rs => if shouldFallback (rs_status rs) then Do fallback method url h body else mret (Val rs)
  | Err _ => Do fallback method url h body
  end.
(** The wrapper is not a stealth client, so it has no identity. *)
Definition newDualBrowser {W} (primary : BrowserDoer W) (fallback : option (BrowserDoer W))
    : BrowserDoer W :=
  match fallback with
  | None => primary
  | Some f => {| identity := None; Do := dual_Do primary f |}
  end.
Definition fallbackReason (status : Z) (err : bool) : gostring :=
  if err then lit "net_err"
  else if status =? 402 then lit "402"
  else if status =? 407 then lit "407"
  else if bool_decide (status ∈ [502; 503; 504]) then lit "5xx"
  else Itoa status.

Section Engines.
Context {W Node : Type} `{Clock W} `{Host W} `{GoQuery Node}.
Implicit Types (cx : ctx) (query : gostring) (opts : SearchOpts).

Definition resolveUserAgent (d : option (BrowserDoer W)) : gostring :=
  default default_ua (d ≫= identity).
Definition ChromeHeadersFor (d : option (BrowserDoer W)) : Headers :=
  list_to_map [
    (lit "accept", lit "text/html,application/xhtml+xml,application/xml;q=0.9,image/avif,image/webp,*/*;q=0.8");
    (lit "accept-language", lit "en-US,en;q=0.9");
    (lit "accept-encoding", lit "gzip, deflate, br");
    (lit "user-agent", resolveUserAgent d)].

(** A step that only runs when the context is not done. *)
Definition unless_done {A} cx (k : M W (result A)) : M W (result A) :=
  err ← gets (ctx_err cx);
  match err with Some e => mret (Err e) | None => k end.
Definition rate_limited {A} (engine : gostring) : result A := Err (ErrRateLimited engine 0).
Definition bad_status {A} (prefix : gostring) (status : Z) : result A :=
  Err (ErrMsg (prefix ++ Itoa status)).
Definition limit_results (engine : gostring) (limit : Z) (r : result (list Result))
    : result (list Result) :=
  match r with
  | Err e => Err (Wrapped (engine ++ lit " parse") e)
  | Val rs => Val (applyLimit rs limit)
  end.

(** *** Brave *)
(** The check never panics ([isCaptchaInI18nContext_spec]). *)
Definition brave_limited (data : gostring) : bool :=
  match IsBraveRateLimited data with Ok b => b | _ => false end.
Definition Brave_Search (browser : option (BrowserDoer W)) cx query opts
    : M W (result (list Result)) :=
  match browser with
  | None => mret (Err (ErrMsg (lit "brave: BrowserDoer is required (use WithBraveBrowser)")))
  | Some b => unless_done cx (
      let h := <[lit "accept" := acceptHTML]> (<[lit "referer" := lit "https://search.brave.com/"]>
                 (ChromeHeadersFor browser)) in
      r ← Do b GET (BraveSearchURL query [opts]) h None;
      mret match r with
      | Err e => Err (Wrapped (lit "brave request") e)
      | Val rs =>
          if isRateLimitStatus (rs_status rs) then rate_limited (lit "brave")
          else if negb (rs_status rs =? 200) then bad_status (lit "brave status ") (rs_status rs)
          else if brave_limited (rs_data rs) then rate_limited (lit "brave")
          else limit_results (lit "brave") (Limit opts) (ParseBraveHTML (rs_data rs))
      end)
  end.

(** *** Bing *)
Definition Bing_Search (browser : option (BrowserDoer W)) cx query opts
    : M W (result (list Result)) :=
  match browser with
  | None => mret (Err (ErrMsg (lit "bing: BrowserDoer is required (use WithBingBrowser)")))
  | Some b => unless_done cx (
      today ← gets localDay;
      let h := <[lit "accept" := acceptHTML]> (<[lit "referer" := lit "https://www.bing.com/"]>
                 (ChromeHeadersFor browser)) in
      r ← Do b GET (BingSearchURL today query [opts]) h None;
      mret match r with
      | Err e => Err (Wrapped (lit "bing request") e)
      | Val rs =>
          if isRateLimitStatus (rs_status rs) then rate_limited (lit "bing")
          else if negb (rs_status rs =? 200) then bad_status (lit "bing status ") (rs_status rs)
          else if IsBingRateLimited (rs_data rs) then rate_limited (lit "bing")
          else limit_results (lit "bing") (Limit opts) (ParseBingHTML (rs_data rs))
      end)
  end.

(** *** Startpage; [language] is the engine's own *)
Definition Startpage_Search (browser : option (BrowserDoer W)) (language : gostring) cx query opts
    : M W (result (list Result)) :=
  match browser with
  | None => mret (Err (ErrMsg (lit "startpage: BrowserDoer is required (use WithStartpageBrowser)")))
  | Some b => unless_done cx (
      let lang := if decide (Language opts = []) then language else Language opts in
      let withDate := timeRangeToStartpage (TimeRange opts) in
      let form := lit "query=" ++ QueryEscape query ++ lit "&cat=web&language=" ++ QueryEscape lang in
      let form := if decide (withDate = []) then form else form ++ lit "&with_date=" ++ withDate in
      let h := <[lit "accept" := acceptHTML]> (<[lit "content-type" := form_urlencoded]>
                 (<[lit "referer" := lit "https://www.startpage.com/"]> (ChromeHeadersFor browser))) in
      let h := if decide (withDate = []) then h
               else <[lit "cookie" := lit "date_time=world"]> h in
      r ← Do b POST (lit "https://www.startpage.com/sp/search") h (Some form);
      mret match r with
      | Err e => Err (Wrapped (lit "startpage request") e)
      | Val rs =>
          if isRateLimitStatus (rs_status rs) then rate_limited (lit "startpage")
          else if negb (rs_status rs =? 200) then bad_status (lit "startpage status ") (rs_status rs)
          else if isStartpageRateLimited (rs_data rs) then rate_limited (lit "startpage")
          else limit_results (lit "startpage") (Limit opts) (ParseStartpageHTML (rs_data rs))
      end)
  end.

(** *** Reddit's public JSON: the body is checked before the status *)
Definition Reddit_Search (browser : option (BrowserDoer W)) cx query opts
    : M W (result (list Result)) :=
  match browser with
  | None => mret (Err (ErrMsg (lit "reddit: BrowserDoer is required (use WithRedditBrowser)")))
  | Some b => unless_done cx (
      let rt := timeRangeToReddit (TimeRange opts) in
      let t := if decide (rt = []) then lit "all" else rt in
      let u := lit "https://www.reddit.com/search.json" ++ lit "?q=" ++ QueryEscape query ++
               lit "&limit=10&sort=relevance&t=" ++ t in
      r ← Do b GET u (<[lit "accept" := acceptJSON]> (ChromeHeadersFor browser)) None;
      mret match r with
      | Err e => Err (Wrapped (lit "reddit request") e)
      | Val rs =>
          if isRateLimitStatus (rs_status rs) then rate_limited (lit "reddit")
          else if isRedditRateLimited (rs_data rs) then rate_limited (lit "reddit")
          else if negb (rs_status rs =? 200) then bad_status (lit "reddit status ") (rs_status rs)
          else limit_results (lit "reddit") (Limit opts) (ParseRedditJSON (rs_data rs))
      end)
  end.

(** *** DuckDuckGo: the HTML page, then the token and d.js *)
Record DDG := { ddg_browser : BrowserDoer W; ddg_region : gostring }.
Definition NewDDG (browser : option (BrowserDoer W)) (region : option gostring) : result DDG :=
  match browser with
  | None => Err (ErrMsg (lit "ddg: BrowserDoer is required (use WithDDGBrowser)"))
  | Some b => Val {| ddg_browser := b; ddg_region := default (lit "wt-wt") region |}
  end.
Definition ddg_headers (d : DDG) : Headers := ChromeHeadersFor (Some (ddg_browser d)).
Definition searchHTML (d : DDG) cx query (region timeRange : gostring)
    : M W (result (list Result)) := unless_done cx (
  let df := timeRangeToDDG timeRange in
  let form := lit "q=" ++ QueryEscape query ++ lit "&kl=" ++ QueryEscape region ++ lit "&df=" ++
              QueryEscape df in
  let h := <[lit "content-type" := form_urlencoded]>
             (<[lit "referer" := lit "https://html.duckduckgo.com/"]> (ddg_headers d)) in
  r ← Do (ddg_browser d) POST (lit "https://html.duckduckgo.com/html/") h (Some form);
  mret match r with
  | Err e => Err e
  | Val rs =>
      if isRateLimitStatus (rs_status rs) then rate_limited (lit "ddg")
      else if negb (rs_status rs =? 200) then bad_status (lit "ddg html status ") (rs_status rs)
      else if IsDDGRateLimited (rs_data rs) then rate_limited (lit "ddg")
      else ParseDDGHTML (rs_data rs)
  end).
Definition getVQD (d : DDG) cx query : M W (result gostring) := unless_done cx (
  let u := lit "https://duckduckgo.com/" ++ lit "?q=" ++ QueryEscape query in
  let h := <[lit "referer" := lit "https://duckduckgo.com/"]> (ddg_headers d) in
  r ← Do (ddg_browser d) GET u h None;
  mret match r with
  | Err e => Err e
  | Val rs =>
      if negb (rs_status rs =? 200) then bad_status (lit "ddg homepage status ") (rs_status rs)
      else let vqd := ExtractVQD (rs_data rs) in
           if decide (vqd = []) then
             Err (ErrMsg (lit "vqd token not found (" ++ Itoa (zlen (rs_data rs)) ++ lit " bytes)"))
           else Val vqd
  end).
Definition searchDJS (d : DDG) cx query (vqd region timeRange : gostring)
    : M W (result (list Result)) := unless_done cx (
  let df := timeRangeToDDG timeRange in
  let params := [(lit "q", query); (lit "vqd", vqd); (lit "kl", region);
                 (lit "l", lit "us-en"); (lit "o", lit "json")] ++
                (if decide (df = []) then [] else [(lit "df", df)]) in
  let u := lit "https://links.duckduckgo.com/d.js" ++ lit "?" ++ EncodeQuery params in
  let h := <[lit "accept" := lit "application/json, text/javascript, */*; q=0.01"]>
             (<[lit "referer" := lit "https://duckduckgo.com/"]> (ddg_headers d)) in
  r ← Do (ddg_browser d) GET u h None;
  mret match r with
  | Err e => Err e
  | Val rs =>
      if isRateLimitStatus (rs_status rs) then rate_limited (lit "ddg")
      else if negb (rs_status rs =? 200) && negb (rs_status rs =? 202)
           then bad_status (lit "ddg d.js status ") (rs_status rs)
      else ParseDDGResponse (rs_data rs)
  end).
(** The second half of [Search]: the token, then d.js. *)
Definition ddg_fallback (d : DDG) cx query (region : gostring) opts : M W (result (list Result)) :=
  v ← getVQD d cx query;
  match v with
  | Err e => mret (Err (Wrapped (lit "ddg vqd") e))
  | Val vqd =>
      js ← searchDJS d cx query vqd region (TimeRange opts);
      mret match js with
      | Err e => Err (Wrapped (lit "ddg d.js") e)
      | Val rs => Val (applyLimit rs (Limit opts))
      end
  end.
Definition DDG_Search (d : DDG) cx query opts : M W (result (list Result)) :=
  let region := if decide (Region opts = []) then ddg_region d else Region opts in
  html ← searchHTML d cx query region (TimeRange opts);
  match html with
  | Val ((_ :: _) as rs) => mret (Val (applyLimit rs (Limit opts)))
  | _ => ddg_fallback d cx query region opts
  end.
End Engines.

(** ** What a provider promises *)
Section Contract.
Context {W Node : Type} `{Clock W} `{Host W} `{GoQuery Node}.
Local Notation search := (ctx → gostring → SearchOpts → M W (result (list Result))).

(** A result of [engine]: its label and the fixed score. *)
Definition labelled (engine : gostring) (r : Result) : Prop :=
  r_Metadata r !! lit "engine" = Some engine ∧ r_Score r = directResultScore.
(** Nothing is asked of the network once the context is done, the error then being the context's;
    a positive limit is respected; every result carries the engine's label. *)
Record provider_contract (engine : gostring) (s : search) : Prop := {
  pc_done cx q o w e : ctx_err cx w = Some e →
    ∃ e', s cx q o w = (Err e', w) ∧ (e' = e ∨ ∃ p, e' = Wrapped p e);
  pc_limit cx q o w rs w' : s cx q o w = (Val rs, w') → 0 < Limit o → zlen rs <= Limit o;
  pc_label cx q o w rs w' : s cx q o w = (Val rs, w') → Forall (labelled engine) rs
}.

Lemma zlen_applyLimit rs n : 0 < n → zlen (applyLimit rs n) <= n.
Proof.
  intros Hn. unfold applyLimit. rewrite (proj2 (Z.ltb_lt _ _)) by done. cbn [andb].
  destruct (Z.ltb_spec n (zlen rs)); [|done]. unfold zlen in *. rewrite length_take. lia.
Qed.
Lemma Forall_applyLimit (P : Result → Prop) rs n : Forall P rs → Forall P (applyLimit rs n).
Proof. intros. unfold applyLimit. case_match; [by apply Forall_take|done]. Qed.
Lemma parse_each_Forall (P : Result → Prop) sel (f : Node → option Result) data rs :
  (∀ n r, f n = Some r → P r) → parse_each sel f data = Val rs → Forall P rs.
Proof.
  unfold parse_each. intros Hf. destruct (NewDocument data) as [doc|]; [|done]. intros [= <-].
  apply Forall_forall. intros r (n & _ & Hn)%list_elem_of_omap. eauto.
Qed.
Lemma labelled_intro e t u c : labelled e (MkResult t u c directResultScore (engine_meta e)).
Proof. split; [apply lookup_singleton_eq|done]. Qed.
Local Ltac row := unfold mbind, option_bind; repeat case_match; intros; simplify_eq/=;
  try done; apply labelled_intro.
Lemma brave_row_label (n : Node) r : brave_row n = Some r → labelled (lit "brave") r.
Proof. unfold brave_row. row. Qed.
Lemma bing_row_label (n : Node) r : parseBingResult n = Some r → labelled (lit "bing") r.
Proof. unfold parseBingResult. row. Qed.
Lemma ddg_row_label (n : Node) r : ddg_row n = Some r → labelled (lit "ddg") r.
Proof. unfold ddg_row. row. Qed.
Lemma startpage_row_label (n : Node) r : startpage_row n = Some r → labelled (lit "startpage") r.
Proof. unfold startpage_row. row. Qed.
Lemma ddg_djs_label data rs : ParseDDGResponse data = Val rs → Forall (labelled (lit "ddg")) rs.
Proof.
  unfold ParseDDGResponse. case_match; [|done]. intros [= <-]. apply Forall_forall.
  intros r (x & _ & Hx)%list_elem_of_omap. revert Hx. unfold ddg_djs_row. row.
Qed.
Lemma reddit_label data rs : ParseRedditJSON data = Val rs → Forall (labelled (lit "reddit")) rs.
Proof.
  unfold ParseRedditJSON. case_match; [|done]. intros [= <-]. apply Forall_forall.
  intros r (x & _ & Hx)%list_elem_of_omap. revert Hx. unfold reddit_row. case_match; [done|].
  intros [= <-]. split; [|done]. cbn [r_Metadata].
  unfold engine_meta. by rewrite lookup_insert_ne, lookup_singleton_eq.
Qed.

(** The shape shared by the one-request engines: the context first, then one request, then a
    classification of the answer. *)
Lemma one_request_contract engine (s : search) (classify : SearchOpts → result Response → result (list Result))
    (ask : gostring → SearchOpts → M W (result Response)) :
  (∀ cx q o w, s cx q o w = unless_done cx (r ← ask q o; mret (classify o r)) w) →
  (∀ o r rs, classify o r = Val rs →
     ∃ rs0, rs = applyLimit rs0 (Limit o) ∧ Forall (labelled engine) rs0) →
  provider_contract engine s.
Proof.
  intros Hs Hc.
  assert (∀ cx q o w rs w', s cx q o w = (Val rs, w') →
    ∃ rs0, rs = applyLimit rs0 (Limit o) ∧ Forall (labelled engine) rs0) as Hv.
  { intros cx q o w rs w'. rewrite Hs. unfold unless_done, mbind, M_bind, gets.
    destruct (ctx_err cx w); [done|]. destruct (ask q o w) as [r w1]. intros [= E _]. eauto. }
  split.
  - intros cx q o w e He. rewrite Hs. exists e. split; [|by left].
    unfold unless_done, mbind, M_bind, gets. by rewrite He.
  - intros cx q o w rs w' (rs0 & -> & _)%Hv. apply zlen_applyLimit.
  - intros cx q o w rs w' (rs0 & -> & ?)%Hv. by apply Forall_applyLimit.
Qed.
Lemma limit_results_Val p n r rs : limit_results p n r = Val rs →
  ∃ rs0, r = Val rs0 ∧ rs = applyLimit rs0 n.
Proof. destruct r; [|done]. intros [= <-]. eauto. Qed.

Local Ltac engine row := eapply one_request_contract; [intros; reflexivity|];
  [..|intros o r rs; cbn beta; destruct r as [x|]; [|done];
   repeat (case_match; [done|]); intros (rs0 & Hp & ->)%limit_results_Val;
   exists rs0; split; [done|row]].
Lemma brave_contract b : provider_contract (lit "brave") (Brave_Search (Some b)).
Proof. engine ltac:(eapply parse_each_Forall, Hp; apply brave_row_label). Qed.
Lemma startpage_contract b l : provider_contract (lit "startpage") (Startpage_Search (Some b) l).
Proof. engine ltac:(eapply parse_each_Forall, Hp; apply startpage_row_label). Qed.
Lemma reddit_contract b : provider_contract (lit "reddit") (Reddit_Search (Some b)).
Proof. engine ltac:(by eapply reddit_label). Qed.
Definition bing_ask (b : BrowserDoer W) (q : gostring) (o : SearchOpts) : M W (result Response) :=
  λ w, Do b GET (BingSearchURL (localDay w) q [o])
         (<[lit "accept" := acceptHTML]> (<[lit "referer" := lit "https://www.bing.com/"]>
            (ChromeHeadersFor (Some b)))) None w.
Lemma bing_contract b : provider_contract (lit "bing") (Bing_Search (Some b)).
Proof.
  eapply (one_request_contract _ _ _ (bing_ask b)).
  { intros cx q o w. unfold Bing_Search, bing_ask, unless_done, mbind, M_bind, gets, mret, M_ret.
    destruct (ctx_err cx w); [reflexivity|]. destruct (Do _ _ _ _ _ w). reflexivity. }
  intros o r rs. cbn beta. destruct r as [x|]; [|done].
  repeat (case_match; [done|]). intros (rs0 & Hp & ->)%limit_results_Val.
  exists rs0. split; [done|]. eapply parse_each_Forall, Hp. apply bing_row_label.
Qed.
Lemma searchHTML_label (d : DDG) cx q r t w rs w' :
  searchHTML d cx q r t w = (Val rs, w') → Forall (labelled (lit "ddg")) rs.
Proof.
  unfold searchHTML, unless_done, mbind, M_bind, gets. destruct (ctx_err cx w); [done|].
  destruct (Do _ _ _ _ _ w) as [[x|] w1]; [|done]. repeat (case_match; [done|]).
  intros [= Hp _]. eapply parse_each_Forall, Hp. apply ddg_row_label.
Qed.
Lemma searchDJS_label (d : DDG) cx q v r t w rs w' :
  searchDJS d cx q v r t w = (Val rs, w') → Forall (labelled (lit "ddg")) rs.
Proof.
  unfold searchDJS, unless_done, mbind, M_bind, gets. destruct (ctx_err cx w); [done|].
  destruct (Do _ _ _ _ _ w) as [[x|] w1]; [|done]. repeat (case_match; [done|]).
  intros [= Hp _]. by eapply ddg_djs_label.
Qed.
Lemma unless_done_Err {A} cx (k : M W (result A)) w e :
  ctx_err cx w = Some e → unless_done cx k w = (Err e, w).
Proof. intros He. unfold unless_done, mbind, M_bind, gets. by rewrite He. Qed.
Lemma ddg_Val (d : DDG) cx q o w rs w' : DDG_Search d cx q o w = (Val rs, w') →
  ∃ rs0, rs = applyLimit rs0 (Limit o) ∧ Forall (labelled (lit "ddg")) rs0.
Proof.
  unfold DDG_Search. set (region := if decide _ then _ else _).
  destruct (searchHTML d cx q region (TimeRange o) w) as [html w1] eqn:Eh.
  rewrite (bind_eq _ _ _ _ _ Eh).
  assert (∀ w2, ddg_fallback d cx q region o w2 = (Val rs, w') →
    ∃ rs0, rs = applyLimit rs0 (Limit o) ∧ Forall (labelled (lit "ddg")) rs0) as Hrest.
  { intros w2. unfold ddg_fallback. destruct (getVQD d cx q w2) as [[vqd|] w3] eqn:Ev;
      rewrite (bind_eq _ _ _ _ _ Ev); [|done].
    destruct (searchDJS d cx q vqd region (TimeRange o) w3) as [[rs0|] w4] eqn:Ej;
      rewrite (bind_eq _ _ _ _ _ Ej); [|done].
    intros [= <- _]. exists rs0. split; [done|]. by eapply searchDJS_label. }
  destruct html as [[|r rs0]|]; [by apply Hrest| |by apply Hrest].
  intros [= <- _]. exists (r :: rs0). split; [done|]. by eapply searchHTML_label.
Qed.
Lemma ddg_contract (d : DDG) : provider_contract (lit "ddg") (DDG_Search d).
Proof.
  split.
  - intros cx q o w e He. eexists. split; [|by right; eexists]. unfold DDG_Search.
    erewrite bind_eq by by apply unless_done_Err. cbv beta iota. unfold ddg_fallback.
    erewrite bind_eq by by apply unless_done_Err. done.
  - intros cx q o w rs w' (rs0 & -> & _)%ddg_Val. apply zlen_applyLimit.
  - intros cx q o w rs w' (rs0 & -> & ?)%ddg_Val. by apply Forall_applyLimit.
Qed.

(** C37: The five scrapers are providers: with a browser set, each asks nothing of the network once
    the context is done and then returns the context's error, never returns more results than a
    positive limit, and labels every result with its engine. *)
Theorem engines_contract (b : BrowserDoer W) (lang : gostring) (d : DDG) :
  provider_contract (lit "brave") (Brave_Search (Some b)) ∧
  provider_contract (lit "bing") (Bing_Search (Some b)) ∧
  provider_contract (lit "startpage") (Startpage_Search (Some b) lang) ∧
  provider_contract (lit "reddit") (Reddit_Search (Some b)) ∧
  provider_contract (lit "ddg") (DDG_Search d).
Proof.
  split_and!; [apply brave_contract|apply bing_contract|apply startpage_contract
              |apply reddit_contract|apply ddg_contract].
Qed.

(** A block page that DuckDuckGo serves to the HTML search is not reported: when the home page
    then has no token, as the same block page has not, the error is a plain one, in which
    [errors.As] finds no rate limit. *)
Theorem ddg_block_not_reported (d : DDG) cx q o w w1 :
  searchHTML d cx q (if decide (Region o = []) then ddg_region d else Region o) (TimeRange o) w =
    (rate_limited (lit "ddg"), w1) →
  ctx_err cx w1 = None →
  (∃ rs w2, Do (ddg_browser d) GET (lit "https://duckduckgo.com/" ++ lit "?q=" ++ QueryEscape q)
     (<[lit "referer" := lit "https://duckduckgo.com/"]> (ddg_headers d)) None w1 = (Val rs, w2) ∧
     (rs_status rs ≠ 200 ∨ ExtractVQD (rs_data rs) = [])) →
  ∃ e, (DDG_Search d cx q o w).1 = Err e ∧ as_rate_limited e = None.
Proof.
  intros Hh Hc (rs & w2 & Hd & Hrs). unfold DDG_Search. erewrite bind_eq by exact Hh. cbv beta iota.
  unfold rate_limited, ddg_fallback.
  assert (∃ m, getVQD d cx q w1 = (Err (ErrMsg m), w2)) as [m Hv].
  { unfold getVQD, unless_done. erewrite bind_eq by done. rewrite Hc. erewrite bind_eq by exact Hd.
    cbv beta iota. destruct (Z.eqb_spec (rs_status rs) 200); cbn [negb].
    - rewrite decide_True by tauto. by eexists.
    - by eexists. }
  erewrite bind_eq by exact Hv. by eexists.
Qed.
End Contract.

(** ** A world without state, whose browser is always refused *)
Definition demo_clock : Clock unit :=
  {| now := λ _, 0; ctx_err := λ _ _, None; wait_or_done := λ _ _ w, (None, w);
     random := λ w, (fzero, w); retry_hook := λ _ _ _ _ w, w |}.
Definition demo_host : Host unit := {| default_ua := lit "ua"; localDay := λ _, 20000 |}.
Definition demo_html : GoQuery unit :=
  {| NewDocument := λ _, Val (); Find := λ _ _, []; Text := λ _, []; Attr := λ _ _, None |}.
Definition refusing : BrowserDoer unit :=
  {| identity := None;
     Do := λ _ _ _ _ w, (Val {| rs_data := lit "<html>blocked</html>"; rs_headers := ∅;
                                rs_status := 403 |}, w) |}.
Definition demo_ctx : ctx := {| ctx_deadline := None; ctx_id := 0 |}.
Lemma ddg_block_not_reported_witness :
  let d := {| ddg_browser := refusing; ddg_region := lit "wt-wt" |} in
  ∃ e, (@DDG_Search unit unit demo_clock demo_host demo_html d demo_ctx (lit "q") zero_SearchOpts
          ()).1 = Err e ∧ as_rate_limited e = None.
Proof.
  intros d. eapply (@ddg_block_not_reported unit unit demo_clock demo_host demo_html d demo_ctx
    (lit "q") zero_SearchOpts () ()); [reflexivity..|].
  eexists _, (). split; [reflexivity|]. left. vm_compute. discriminate.
Defined.
