(* ===== verification/RedditOAuth.v ===== *)
(** Package [websearch], [reddit_token.go] and the OAuth search of [reddit.go]: the cache of a
    bearer token, and a search written against the interface of a token manager. *)
From S2P Require Import Prelude Unicode Utf8 GoStrings GoUrl Floats Json Effects GoTime Results Retry Serp Engines.
Local Open Scope Z_scope.

Definition ErrCredentialInvalid : error := ErrVar (lit "reddit: invalid client credentials").
Definition ErrTransient : error := ErrVar (lit "transient server error").
Definition refreshMargin : Z := 60 * Second.

(** ** The interface: a token manager with a state of its own *)
Class RedditTokenManager (T W : Type) := {
  Token : BrowserDoer W → M (T * W) (result gostring);
  Invalidate : T → T
}.
(** An operation of the world, beside the manager's state. *)
Definition lift {T W A} (m : M W A) : M (T * W) A := λ tw, let '(a, w) := m tw.2 in (a, (tw.1, w)).

Section SearchOAuth.
Context {T W : Type} `{RedditTokenManager T W}.

(** [rl.RetryAfter]: the header read as seconds, when it can be. *)
Definition retry_after (h : Headers) : Z :=
  match h !! lit "retry-after" with
  | Some ra => if decide (ra = []) then 0 else default 0 (ParseDuration (ra ++ lit "s"))
  | None => 0
  end.
(** The search request with a token. *)
Definition oauth_get (doer : BrowserDoer W) (query userAgent tok : gostring) : M W (result Response) :=
  let u := lit "https://oauth.reddit.com" ++ lit "/search?q=" ++ QueryEscape query ++
           lit "&type=link&raw_json=1&limit=10&sort=relevance&t=all" in
  let h := list_to_map [(lit "Authorization", lit "Bearer " ++ tok);
                        (lit "User-Agent", userAgent); (lit "Accept", acceptJSON)] in
  Do doer GET u h None.
(** Its reply: whether the token is to be dropped, and what the search returns. *)
Definition oauth_reply (r : result Response) : bool * result (list Result) :=
  match r with
  | Err e => (false, Err (Wrapped (lit "reddit oauth search") e))
  | Val rs =>
      let status := rs_status rs in
      if isRateLimitStatus status || isRedditRateLimited (rs_data rs) then
        (false, Err (ErrRateLimited (lit "reddit-oauth") (retry_after (rs_headers rs))))
      else if status =? 401 then
        (true, Err (ErrMsg (lit "reddit oauth: token expired (401) — invalidated, retry")))
      else if 500 <=? status then
        (false, Err (Wrapped (lit "reddit oauth search: status " ++ Itoa status) ErrTransient))
      else if negb (status =? 200) then
        (false, bad_status (lit "reddit oauth search: status ") status)
      else (false, match ParseRedditJSON (rs_data rs) with
                   | Err e => Err (Wrapped (lit "reddit oauth parse") e)
                   | Val rs => Val (applyLimit rs 0)
                   end)
  end.
Definition token_error (e : error) : error := Wrapped (lit "reddit oauth: token") e.
Definition SearchOAuth (doer : BrowserDoer W) (query userAgent : gostring)
    : M (T * W) (result (list Result)) :=
  t ← Token doer;
  match t with
  | Err e => mret (Err (token_error e))
  | Val tok =>
      r ← lift (oauth_get doer query userAgent tok);
      let '(drop, res) := oauth_reply r in
      (if drop then modify (λ tw, (Invalidate tw.1, tw.2)) else mret ());;
      mret res
  end.
End SearchOAuth.

(** ** The implementation *)
Record RedditCredentials := { ClientID : gostring; ClientSecret : gostring; UserAgent : gostring }.
(** The cached token and when it expires; the empty token is no token. *)
Record redditTokenManager := { cached : gostring; expiresAt : Z }.
Definition zero_time : Z := -62135596800 * Second.

Record tokenResponse := { AccessToken : gostring; TokenType : gostring; ExpiresIn : Z }.
Definition dec_tokenResponse : dec tokenResponse := dec_struct (λ p kvs,
  a ← field (lit "access_token") dec_string (AccessToken p) kvs;
  t ← field (lit "token_type") dec_string (TokenType p) kvs;
  e ← field (lit "expires_in") dec_int (ExpiresIn p) kvs;
  Some {| AccessToken := a; TokenType := t; ExpiresIn := e |}).
Definition zero_tokenResponse : tokenResponse :=
  {| AccessToken := []; TokenType := []; ExpiresIn := 0 |}.

Section TokenManager.
Context {W : Type}.
(** [now] is the injected clock. *)
Variables (creds : RedditCredentials) (now : W → Z).

(** The window a token is cached for; the multiplication wraps around. *)
Definition token_window (expiresIn : Z) : Z :=
  let window := isub (wrap64 (expiresIn * Second)) refreshMargin in
  if window <? Second then Second else window.
Definition fetchToken (doer : BrowserDoer W) : M W (result (gostring * Z)) :=
  let auth := StdEncode (ClientID creds ++ lit ":" ++ ClientSecret creds) in
  let h := list_to_map [(lit "Authorization", lit "Basic " ++ auth);
                        (lit "Content-Type", form_urlencoded);
                        (lit "User-Agent", UserAgent creds); (lit "Accept", acceptJSON)] in
  r ← Do doer POST (lit "https://www.reddit.com/api/v1/access_token") h
        (Some (lit "grant_type=client_credentials"));
  match r with
  | Err e => mret (Err (Wrapped (lit "reddit token request") e))
  | Val rs =>
      let status := rs_status rs in
      if status =? 401 then mret (Err ErrCredentialInvalid)
      else if 500 <=? status then
        mret (Err (Wrapped (lit "reddit token: status " ++ Itoa status) ErrTransient))
      else if negb (status =? 200) then
        mret (bad_status (lit "reddit token endpoint returned status ") status)
      else match Unmarshal zero_tokenResponse dec_tokenResponse (rs_data rs) with
           | None => mret (Err (Wrapped (lit "reddit token response decode") (ErrMsg [])))
           | Some resp =>
               if decide (AccessToken resp = []) then
                 mret (Err (ErrMsg (lit "reddit token endpoint returned empty access_token")))
               else
                 t ← gets now;
                 mret (Val (AccessToken resp, t + token_window (ExpiresIn resp)))
           end
  end.
Definition tm_Token (doer : BrowserDoer W) : M (redditTokenManager * W) (result gostring) :=
  tw ← get;
  if bool_decide (cached tw.1 ≠ []) && (now tw.2 <? expiresAt tw.1) then mret (Val (cached tw.1))
  else
    r ← lift (fetchToken doer);
    match r with
    | Err e => mret (Err e)
    | Val (tok, expiry) =>
        modify (λ tw, ({| cached := tok; expiresAt := expiry |}, tw.2));; mret (Val tok)
    end.
Definition tm_Invalidate (m : redditTokenManager) : redditTokenManager :=
  {| cached := []; expiresAt := zero_time |}.
Definition NewRedditTokenManager : redditTokenManager := {| cached := []; expiresAt := zero_time |}.
#[global] Instance redditTokenManager_manager : RedditTokenManager redditTokenManager W :=
  {| Token := tm_Token; Invalidate := tm_Invalidate |}.

(** *** What the cache promises *)
(** A cached token was returned by the endpoint: it is never empty. *)
Lemma fetchToken_Val doer w tok exp w' : fetchToken doer w = (Val (tok, exp), w') →
  tok ≠ [] ∧ now w' + Second <= exp.
Proof.
  unfold fetchToken, mbind, M_bind. destruct (Do _ _ _ _ _ w) as [[rs|] w1] eqn:E; [|done].
  repeat (case_match; [done|]). destruct (Unmarshal _ _ _) as [t|]; [|done].
  case_decide; [done|]. intros [= <- <- <-]. split; [done|]. unfold token_window.
  destruct (Z.ltb_spec (isub (wrap64 (ExpiresIn t * Second)) refreshMargin) Second); lia.
Qed.
(** The call goes to the endpoint: its answer is the result. *)
Definition asks (doer : BrowserDoer W) (tm : redditTokenManager) (v : W) : Prop :=
  let '(r, v') := fetchToken doer v in
  (tm_Token doer (tm, v)).1 = match r with Val p => Val p.1 | Err e => Err e end ∧
  (tm_Token doer (tm, v)).2.2 = v'.
Lemma tm_Token_asks doer tm v : cached tm = [] ∨ expiresAt tm <= now v → asks doer tm v.
Proof.
  intros Hc. unfold asks, tm_Token, mbind, M_bind, get, lift. cbn [fst snd].
  assert (bool_decide (cached tm ≠ []) && (now v <? expiresAt tm) = false) as ->.
  { destruct Hc as [->|Hc]; [done|]. by rewrite (proj2 (Z.ltb_ge _ _)), andb_false_r by done. }
  cbn [fst snd]. by destruct (fetchToken doer v) as [[[tok exp]|e] v'].
Qed.
Lemma tm_Token_cached doer tm v : cached tm ≠ [] → now v < expiresAt tm →
  tm_Token doer (tm, v) = (Val (cached tm), (tm, v)).
Proof.
  intros Hc Hn. unfold tm_Token, mbind, M_bind, get. cbn [fst snd].
  by rewrite bool_decide_true, (proj2 (Z.ltb_lt _ _)) by done.
Qed.

(** A token that [Token] returns is not empty and is cached: every later call returns it again
    without any request until it expires, which for a fetched token is at least a second later;
    a call at or after the expiry, or after [Invalidate], asks the endpoint. *)
Theorem Token_cache doer tm w tok tm' w' :
  tm_Token doer (tm, w) = (Val tok, (tm', w')) →
  tok ≠ [] ∧
  ((tm', w') = (tm, w) ∧ now w < expiresAt tm ∨ now w' + Second <= expiresAt tm') ∧
  (∀ v, now v < expiresAt tm' → tm_Token doer (tm', v) = (Val tok, (tm', v))) ∧
  (∀ v, expiresAt tm' <= now v → asks doer tm' v) ∧
  (∀ v, asks doer (tm_Invalidate tm') v).
Proof.
  intros Ht.
  assert (tok ≠ [] ∧ cached tm' = tok ∧
    ((tm', w') = (tm, w) ∧ now w < expiresAt tm ∨ now w' + Second <= expiresAt tm')) as (Hne & Hc & Hor).
  { revert Ht. unfold tm_Token, mbind, M_bind, get, lift. cbn [fst snd].
    destruct (bool_decide (cached tm ≠ []) && (now w <? expiresAt tm)) eqn:E.
    - apply andb_true_iff in E as [Hc%bool_decide_eq_true Hn%Z.ltb_lt]. intros [= <- <- <-].
      split_and!; [done..|by left].
    - cbn [fst snd]. destruct (fetchToken doer w) as [[[t e]|] w1] eqn:Ef; [|done]. intros [= <- <- <-].
      apply fetchToken_Val in Ef as [? ?]. split_and!; [done..|by right]. }
  subst tok. split_and!; [done|done|..].
  - intros v Hv. by apply tm_Token_cached.
  - intros v Hv. apply tm_Token_asks. by right.
  - intros v. apply tm_Token_asks. by left.
Qed.
End TokenManager.

(** ** The search against the interface *)
Section SearchFacts.
Context {T W : Type} `{RedditTokenManager T W}.
(** A search whose token the API refuses with 401 (and no rate-limit body) invalidates the
    manager's token and ends in a plain error; a 403 or 429, or a rate-limit body, is a rate limit
    of the engine "reddit-oauth" that leaves the token; nothing but a 401 drops a token. *)
Theorem SearchOAuth_refused (doer : BrowserDoer W) q ua t w tok t1 w1 rs w2 :
  Token doer (t, w) = (Val tok, (t1, w1)) →
  Do doer GET (lit "https://oauth.reddit.com" ++ lit "/search?q=" ++ QueryEscape q ++
               lit "&type=link&raw_json=1&limit=10&sort=relevance&t=all")
    (list_to_map [(lit "Authorization", lit "Bearer " ++ tok); (lit "User-Agent", ua);
                  (lit "Accept", acceptJSON)]) None w1 = (Val rs, w2) →
  let '(r, (t2, w')) := SearchOAuth doer q ua (t, w) in
  w' = w2 ∧
  (isRateLimitStatus (rs_status rs) || isRedditRateLimited (rs_data rs) = true →
     t2 = t1 ∧ ∃ ra, r = Err (ErrRateLimited (lit "reddit-oauth") ra)) ∧
  (rs_status rs = 401 → isRedditRateLimited (rs_data rs) = false →
     t2 = Invalidate t1 ∧ ∃ m, r = Err (ErrMsg m)) ∧
  (t2 ≠ t1 → rs_status rs = 401).
Proof.
  intros Ht Hd. unfold SearchOAuth. rewrite (bind_eq _ _ _ _ _ Ht). unfold lift, mbind, M_bind.
  cbn [fst snd]. unfold oauth_get. cbv zeta. rewrite Hd. unfold oauth_reply. cbv zeta.
  destruct (isRateLimitStatus (rs_status rs) || isRedditRateLimited (rs_data rs)) eqn:El.
  - split_and!; [done|eauto| |done]. intros E Hr. rewrite E, Hr in El. done.
  - destruct (Z.eqb_spec (rs_status rs) 401).
    + cbv [modify mret M_ret]. cbn [fst snd]. split_and!; eauto; done.
    + destruct (500 <=? rs_status rs); [|destruct (negb _); [|destruct (ParseRedditJSON _)]];
        (split_and!; [done|done|done|congruence]).
Qed.
End SearchFacts.

(** ** Witnesses: an endpoint that grants a token, an API that refuses it; the world is a clock *)
Definition granting : BrowserDoer Z :=
  {| identity := None;
     Do := λ method _ _ _ w,
       (Val {| rs_data := if decide (method = POST)
                          then dq (lit "{'access_token':'tok','expires_in':3600}") else lit "{}";
               rs_headers := ∅; rs_status := if decide (method = POST) then 200 else 401 |}, w) |}.
Definition demo_creds : RedditCredentials :=
  {| ClientID := lit "id"; ClientSecret := lit "s"; UserAgent := lit "ua" |}.
Definition demo_tm : redditTokenManager :=
  {| cached := lit "tok"; expiresAt := 1000 + 3540 * Second |}.
Lemma Token_cache_witness :
  tm_Token demo_creds (λ w, w) granting (NewRedditTokenManager, 1000) =
    (Val (lit "tok"), (demo_tm, 1000)) ∧
  ∀ v, v < 1000 + 3540 * Second →
    tm_Token demo_creds (λ w, w) granting (demo_tm, v) = (Val (lit "tok"), (demo_tm, v)).
Proof.
  assert (tm_Token demo_creds (λ w, w) granting (NewRedditTokenManager, 1000) =
    (Val (lit "tok"), (demo_tm, 1000))) as E by (vm_compute; reflexivity).
  split; [exact E|]. intros v Hv.
  pose proof (Token_cache demo_creds (λ w, w) granting _ _ _ _ _ E) as H.
  destruct H as (_ & _ & H & _). exact (H v Hv).
Defined.
Lemma SearchOAuth_refused_witness :
  let '(r, (t2, w')) := @SearchOAuth _ _ (redditTokenManager_manager demo_creds (λ w, w))
                          granting (lit "q") (lit "ua") (demo_tm, 1000) in
  t2 = NewRedditTokenManager ∧ ∃ m, r = Err (ErrMsg m).
Proof.
  pose (rs := {| rs_data := lit "{}"; rs_headers := ∅; rs_status := 401 |}).
  assert (@Token _ _ (redditTokenManager_manager demo_creds (λ w, w)) granting (demo_tm, 1000) =
    (Val (lit "tok"), (demo_tm, 1000))) as E by (vm_compute; reflexivity).
  assert (∀ u h, Do granting GET u h None 1000 = (Val rs, 1000)) as E2 by (intros; vm_compute; reflexivity).
  pose proof (@SearchOAuth_refused _ _ (redditTokenManager_manager demo_creds (λ w, w)) granting
    (lit "q") (lit "ua") demo_tm 1000 (lit "tok") demo_tm 1000 rs 1000 E (E2 _ _)) as H.
  destruct (SearchOAuth _ _ _ _) as [r [t2 w']]. destruct H as (_ & _ & H & _).
  apply H; vm_compute; reflexivity.
Defined.
