(* ===== verification/TokenFlight.v ===== *)
(** Package [websearch], [reddit_token.go] and [reddit.go]: concurrent searches that share one token
    manager, as a transition system over single requests. The mutex of the manager is a lock that
    [Token] holds across its POST; other searches go on meanwhile. *)
From S2P Require Import Prelude Unicode Utf8 GoStrings Effects Results Engines RedditOAuth.
Local Open Scope Z_scope.

Section Flight.
Context {W : Type}.
Variables (creds : RedditCredentials) (now : W → Z) (doer : BrowserDoer W).

(** One call of [SearchOAuth]. *)
Record search_call := { sc_query : gostring; sc_userAgent : gostring }.
Inductive tphase :=
| Asking                                (* wants the lock of [Token] *)
| Fetching                              (* has the lock, and its POST is under way *)
| Holding (tok : gostring)              (* has a token, and its GET is under way *)
| Refused (r : result (list Result))    (* wants the lock of [Invalidate] *)
| Returned (r : result (list Result)).
Record tcaller := TCaller { tc_call : search_call; tc_phase : tphase }.
Definition at_phase (p : tphase) (c : tcaller) : tcaller := TCaller (tc_call c) p.

(** What happens to the endpoint and the cache. *)
Inductive tevent :=
| EPost (tm : redditTokenManager) (t : Z)   (* a POST is sent at [t], with [tm] cached *)
| EPostFailed
| EDropped.
Record tstate := TState {
  t_tm : redditTokenManager; t_lock : option nat; t_callers : list tcaller; t_world : W;
  t_log : list tevent
}.
Definition tinit (tm : redditTokenManager) (calls : list search_call) (w : W) : tstate :=
  TState tm None ((λ c, TCaller c Asking) <$> calls) w [].

Inductive tmove :=
| TWorld (w : W)        (* anything else moves: time does not go back *)
| TToken (i : nat)      (* caller [i] takes the lock and looks at the cache *)
| TFetched (i : nat)    (* its POST is answered, and it releases the lock *)
| TSearched (i : nat)   (* its GET is answered *)
| TInvalidate (i : nat).

(** [m.cached != "" && m.now().Before(m.expiresAt)] *)
Definition usable (tm : redditTokenManager) (t : Z) : bool :=
  bool_decide (cached tm ≠ []) && (t <? expiresAt tm).
(** What a caller does next with the outcome of [Token], and with the reply to its search. *)
Definition after_token (r : result gostring) : tphase :=
  match r with Val tok => Holding tok | Err e => Returned (Err (token_error e)) end.
Definition after_search (r : result Response) : tphase :=
  let '(drop, res) := oauth_reply r in if drop then Refused res else Returned res.

Definition tstep (mv : tmove) (s : tstate) : option tstate :=
  let '(TState tm lock cs w log) := s in
  match mv with
  | TWorld w' => if now w <=? now w' then Some (TState tm lock cs w' log) else None
  | TToken i =>
      c ← cs !! i;
      match tc_phase c, lock with
      | Asking, None =>
          Some (if usable tm (now w)
                then TState tm None (<[i := at_phase (Holding (cached tm)) c]> cs) w log
                else TState tm (Some i) (<[i := at_phase Fetching c]> cs) w
                            (log ++ [EPost tm (now w)]))
      | _, _ => None
      end
  | TFetched i =>
      c ← cs !! i;
      match tc_phase c with
      | Fetching =>
          let '(r, w') := fetchToken creds now doer w in
          Some match r with
               | Val (tok, expiry) =>
                   TState {| cached := tok; expiresAt := expiry |} None
                          (<[i := at_phase (after_token (Val tok)) c]> cs) w' log
               | Err e => TState tm None (<[i := at_phase (after_token (Err e)) c]> cs) w'
                                 (log ++ [EPostFailed])
               end
      | _ => None
      end
  | TSearched i =>
      c ← cs !! i;
      match tc_phase c with
      | Holding tok =>
          let '(r, w') := oauth_get doer (sc_query (tc_call c)) (sc_userAgent (tc_call c)) tok w in
          Some (TState tm lock (<[i := at_phase (after_search r) c]> cs) w' log)
      | _ => None
      end
  | TInvalidate i =>
      c ← cs !! i;
      match tc_phase c, lock with
      | Refused r, None =>
          Some (TState (tm_Invalidate tm) None (<[i := at_phase (Returned r) c]> cs) w (log ++ [EDropped]))
      | _, _ => None
      end
  end.
Fixpoint trun (ls : list tmove) (s : tstate) : option tstate :=
  match ls with [] => Some s | mv :: ls => s' ← tstep mv s; trun ls s' end.

(** ** The specification: a call of [Token] or [Invalidate] is one step *)
Record aflight := AFlight { a_tm : redditTokenManager; a_callers : list tcaller; a_world : W }.
Definition afstep (mv : tmove) (s : aflight) : option aflight :=
  let '(AFlight tm cs w) := s in
  match mv with
  | TWorld w' => if now w <=? now w' then Some (AFlight tm cs w') else None
  | TToken i =>
      c ← cs !! i;
      match tc_phase c with
      | Asking =>
          let '(r, (tm', w')) := tm_Token creds now doer (tm, w) in
          Some (AFlight tm' (<[i := at_phase (after_token r) c]> cs) w')
      | _ => None
      end
  | TFetched _ => None
  | TSearched i =>
      c ← cs !! i;
      match tc_phase c with
      | Holding tok =>
          let '(r, w') := oauth_get doer (sc_query (tc_call c)) (sc_userAgent (tc_call c)) tok w in
          Some (AFlight tm (<[i := at_phase (after_search r) c]> cs) w')
      | _ => None
      end
  | TInvalidate i =>
      c ← cs !! i;
      match tc_phase c with
      | Refused r => Some (AFlight (tm_Invalidate tm) (<[i := at_phase (Returned r) c]> cs) w)
      | _ => None
      end
  end.
Fixpoint afrun (ls : list tmove) (s : aflight) : option aflight :=
  match ls with [] => Some s | mv :: ls => s' ← afstep mv s; afrun ls s' end.

Definition has_returned (c : tcaller) : bool := match tc_phase c with Returned _ => true | _ => false end.
Definition all_returned (s : tstate) : bool := forallb has_returned (t_callers s).
Definition of_world (mv : tmove) : bool := match mv with TWorld _ => true | _ => false end.
End Flight.
Arguments tstate : clear implicits.
Arguments tmove : clear implicits.
Arguments aflight : clear implicits.
