(* ===== verification/TokenFlightSpec.v ===== *)
(** The properties of concurrent OAuth searches ([TokenFlight]): a manager under its lock behaves as
    one whose calls are single steps, refreshes are single-flight, and every search returns. *)
From S2P Require Import Prelude Mutex Unicode Utf8 GoStrings Effects Results Engines RedditOAuth TokenFlight.
Local Open Scope Z_scope.

Section Invariant.
Context {W : Type}.
Notation tstate := (tstate W).

(** ** The lock and the cache *)
Definition is_post (e : tevent) : bool := match e with EPost _ _ => true | _ => false end.
(** What makes one more POST necessary: a cached token that has expired, a POST that failed, a
    token that was dropped. *)
Definition is_reason (e : tevent) : bool :=
  match e with EPost tm t => bool_decide (cached tm ≠ []) && (expiresAt tm <=? t) | _ => true end.
(** A POST is sent for no token or an expired one. *)
Definition needed (e : tevent) : Prop :=
  match e with EPost tm t => cached tm = [] ∨ expiresAt tm <= t | _ => True end.
(** The POSTs that have been answered. *)
Definition is_fetched {W} (mv : tmove W) : bool := match mv with TFetched _ => true | _ => false end.
Definition posts (log : list tevent) : nat := length (filter (λ e, is_post e) log).
Definition reasons (log : list tevent) : nat := length (filter (λ e, is_reason e) log).
Lemma posts_snoc log e : posts (log ++ [e]) = (posts log + if is_post e then 1 else 0)%nat.
Proof. unfold posts. rewrite filter_app, length_app, filter_cons. by destruct (is_post e). Qed.
Lemma reasons_snoc log e : reasons (log ++ [e]) = (reasons log + if is_reason e then 1 else 0)%nat.
Proof. unfold reasons. rewrite filter_app, length_app, filter_cons. by destruct (is_reason e). Qed.
(** Whether a token is cached or being fetched. *)
Definition in_hand (tm : redditTokenManager) (lock : option nat) : nat :=
  match lock with Some _ => 1 | None => if decide (cached tm = []) then 0 else 1 end.

(** The lock is held by the caller that fetches; who has a token has one that is not empty. *)
Definition fetching (c : tcaller) : Prop := tc_phase c = Fetching.
Definition tokens_ok (cs : list tcaller) : Prop :=
  ∀ i c tok, cs !! i = Some c → tc_phase c = Holding tok → tok ≠ [].
Record tinv (s : tstate) : Prop := {
  tinv_lock : lock_ok fetching (t_lock s) (t_callers s);
  tinv_tokens : tokens_ok (t_callers s);
  tinv_posts : (posts (t_log s) <= in_hand (t_tm s) (t_lock s) + reasons (t_log s))%nat;
  tinv_needed : Forall needed (t_log s)
}.
Lemma tinv_init tm calls w : tinv (tinit tm calls w).
Proof.
  assert (∀ i c, (λ call, TCaller call Asking) <$> calls !! i = Some c → tc_phase c = Asking) as Hp.
  { intros i c. destruct (calls !! i); [|done]. by intros [= <-]. }
  split; simpl; [|intros i c tok|unfold posts, reasons; simpl; lia|done].
  - apply lock_ok_free, Forall_lookup. intros i c. rewrite list_lookup_fmap.
    intros Hi%Hp. unfold fetching. by rewrite Hi.
  - rewrite list_lookup_fmap. intros Hi%Hp. by rewrite Hi.
Qed.
Lemma tokens_ok_move cs i c p :
  tokens_ok cs → (∀ tok, p = Holding tok → tok ≠ []) → tokens_ok (<[i := at_phase p c]> cs).
Proof.
  intros Ht Hp j c' tok [[_ ->]|[_ Hj]]%lookup_moved; [apply Hp|by eapply Ht].
Qed.
Lemma after_search_phase r : after_search r ≠ Fetching ∧ ∀ tok, after_search r ≠ Holding tok.
Proof. unfold after_search. by destruct (oauth_reply r) as [[] res]. Qed.

Variables (creds : RedditCredentials) (now : W → Z) (doer : BrowserDoer W).
Notation tmove := (tmove W).
Notation tstep := (tstep creds now doer).
Notation trun := (trun creds now doer).
Notation afstep := (afstep creds now doer).
Notation afrun := (afrun creds now doer).

Lemma trun_snoc ls mv s : trun (ls ++ [mv]) s = trun ls s ≫= tstep mv.
Proof.
  revert s. induction ls as [|m ls IH]; intros s; simpl; [by destruct (tstep mv s)|].
  destruct (tstep m s); [apply IH|done].
Qed.
Lemma afrun_app ls1 ls2 s : afrun (ls1 ++ ls2) s = afrun ls1 s ≫= afrun ls2.
Proof.
  revert s. induction ls1 as [|m ls IH]; intros s; simpl; [done|].
  destruct (afstep m s); [apply IH|done].
Qed.

Lemma unusable tm t : usable tm t = false → cached tm = [] ∨ expiresAt tm <= t.
Proof.
  unfold usable. intros [Hb|Hb]%andb_false_iff; [left|right; by apply Z.ltb_ge].
  apply bool_decide_eq_false_1 in Hb. by destruct (decide (cached tm = [])).
Qed.
Lemma tinv_step mv s s' : tinv s → tstep mv s = Some s' → tinv s'.
Proof.
  intros [Hl Ht Hp Hn]. destruct s as [tm lock cs w log]. simpl in *.
  destruct mv as [w'|i|i|i|i]; simpl; [by destruct (now w <=? now w'); [intros [= <-]|]|..].
  all: destruct (cs !! i) as [c|] eqn:Hi; [|done]; simpl.
  all: destruct (tc_phase c) eqn:Hc; try done.
  - destruct lock; [done|]. intros [= <-]. destruct (usable tm (now w)) eqn:Hu; split; simpl.
    + eapply lock_ok_aside; [done..| |]; unfold fetching; by rewrite ?Hc.
    + apply tokens_ok_move; [done|]. intros tok [= <-].
      by apply andb_true_iff in Hu as [?%bool_decide_eq_true_1 _].
    + done.
    + done.
    + by eapply lock_ok_enter.
    + by apply tokens_ok_move.
    + rewrite posts_snoc, reasons_snoc. simpl. unfold in_hand in Hp. simpl in Hp.
      destruct (decide (cached tm = [])) as [Hc0|Hne]; [lia|].
      destruct (unusable _ _ Hu) as [?|Hexp]; [done|]. rewrite bool_decide_true by done.
      rewrite (proj2 (Z.leb_le _ _) Hexp). simpl. lia.
    + apply Forall_app. split; [done|]. constructor; [|done]. by apply unusable.
  - assert (lock = Some i) as -> by by apply (proj1 Hl _ _ Hi).
    destruct (fetchToken creds now doer w) as [[[tok expiry]|e] w1] eqn:Ef; intros [= <-]; split; simpl.
    1, 5: by eapply lock_ok_leave.
    1, 4: apply tokens_ok_move; [done|]; intros tok' [= <-]; by apply fetchToken_Val in Ef as [? _].
    + apply fetchToken_Val in Ef as [? _]. simpl in Hp. by rewrite decide_False.
    + done.
    + rewrite posts_snoc, reasons_snoc. simpl in *. lia.
    + apply Forall_app. split; [done|]. by constructor.
  - destruct (oauth_get _ _ _ _ w) as [r w1]. intros [= <-].
    destruct (after_search_phase r) as [H1 H2]. split; simpl; [| |done|done].
    + eapply lock_ok_aside; [done..| |done]; unfold fetching; by rewrite ?Hc.
    + apply tokens_ok_move; [done|]. by intros tok' ?%H2.
  - destruct lock; [done|]. intros [= <-]. split; simpl.
    + eapply lock_ok_aside; [done..| |]; unfold fetching; by rewrite ?Hc.
    + by apply tokens_ok_move.
    + rewrite posts_snoc, reasons_snoc. simpl in *. destruct (decide _) in Hp; lia.
    + apply Forall_app. split; [done|]. by constructor.
Qed.
Lemma tinv_run ls s s' : tinv s → trun ls s = Some s' → tinv s'.
Proof.
  revert s. induction ls as [|mv ls IH]; intros s Hs; [by intros [= <-]|]. simpl.
  destruct (tstep mv s) as [s1|] eqn:E; [|done]. apply IH. by eapply tinv_step.
Qed.
End Invariant.

(** ** The specification *)
Section Refinement.
Context {W : Type}.
Variables (creds : RedditCredentials) (now : W → Z) (doer : BrowserDoer W).
Notation tstate := (tstate W).
Notation tstep := (tstep creds now doer).
Notation trun := (trun creds now doer).
Notation afstep := (afstep creds now doer).
Notation afrun := (afrun creds now doer).
(** Time does not go back while a request is under way. *)
Hypothesis time_goes_on : ∀ m u h b w, now w <= now (Do doer m u h b w).2.

(** In the specification a caller whose POST is under way has not called [Token] yet. *)
Definition unstarted (c : tcaller) : tcaller :=
  match tc_phase c with Fetching => at_phase Asking c | _ => c end.
Definition spec_of (s : tstate) : aflight W :=
  AFlight (t_tm s) (unstarted <$> t_callers s) (t_world s).
Lemma unstarted_phase c :
  tc_call (unstarted c) = tc_call c ∧
  tc_phase (unstarted c) = match tc_phase c with Fetching => Asking | p => p end.
Proof using Type. unfold unstarted. by destruct (tc_phase c) eqn:E; simpl; rewrite ?E. Qed.
Lemma unstarted_move (cs : list tcaller) i c p :
  cs !! i = Some c → p ≠ Fetching →
  unstarted <$> <[i := at_phase p c]> cs = <[i := at_phase p (unstarted c)]> (unstarted <$> cs).
Proof using Type.
  intros Hi Hp. rewrite list_fmap_insert. f_equal. unfold unstarted. simpl.
  by destruct p, (tc_phase c).
Qed.
Lemma unstarted_fetching (cs : list tcaller) i c :
  cs !! i = Some c → tc_phase c = Asking →
  unstarted <$> <[i := at_phase Fetching c]> cs = unstarted <$> cs.
Proof using Type.
  intros Hi Hc. rewrite list_fmap_insert. apply list_insert_id. rewrite list_lookup_fmap, Hi. simpl.
  destruct c as [call p]. simpl in Hc. by subst.
Qed.
(** While a POST is under way the cached token cannot be used. *)
Definition stale (s : tstate) : Prop :=
  is_Some (t_lock s) → usable (t_tm s) (now (t_world s)) = false.
Lemma usable_later tm t t' : usable tm t = false → t <= t' → usable tm t' = false.
Proof using Type.
  unfold usable. intros [?|?%Z.ltb_ge]%andb_false_iff Ht; apply andb_false_iff; [by left|].
  right. apply Z.ltb_ge. lia.
Qed.
Lemma stale_step mv s s' : tinv s → stale s → tstep mv s = Some s' → stale s'.
Proof using time_goes_on.
  intros [[Hl _] _ _ _] Hs. destruct s as [tm lock cs w log]. unfold stale in *. simpl in *.
  destruct mv as [w'|i|i|i|i]; simpl.
  { destruct (now w <=? now w') eqn:Hw; [|done]. intros [= <-] Hlk. apply Z.leb_le in Hw.
    by eapply usable_later; [apply Hs|]. }
  all: destruct (cs !! i) as [c|] eqn:Hi; [|done]; simpl.
  all: destruct (tc_phase c) eqn:Hc; try done.
  - destruct lock; [done|]. intros [= <-]. by destruct (usable tm (now w)) eqn:Hu; [intros []|].
  - destruct (fetchToken creds now doer w) as [[[tok e]|e] w1]; intros [= <-]; by intros [].
  - destruct (oauth_get _ _ _ _ w) as [r w1] eqn:E. intros [= <-] Hlk.
    eapply usable_later; [by apply Hs|]. simpl. replace w1 with (r, w1).2 by done.
    rewrite <- E. apply time_goes_on.
  - destruct lock; [done|]. intros [= <-]. by intros [].
Qed.

(** A step of the code is one of the specification, or none when a POST starts. *)
Lemma step_refines mv s s' :
  tinv s → stale s → tstep mv s = Some s' →
  ∃ mvs, (length mvs <= 1)%nat ∧ afrun mvs (spec_of s) = Some (spec_of s').
Proof using Type.
  intros [[Hl _] _ _ _] Hs. destruct s as [tm lock cs w log]. unfold spec_of, stale in *. simpl in *.
  destruct mv as [w'|i|i|i|i]; simpl.
  { destruct (now w <=? now w') eqn:Hw; [|done]. intros [= <-]. exists [TWorld w']. simpl. by rewrite Hw. }
  all: destruct (cs !! i) as [c|] eqn:Hi; [|done]; simpl.
  all: destruct (tc_phase c) eqn:Hc; try done.
  all: assert ((unstarted <$> cs) !! i = Some (unstarted c)) as Hu by (by rewrite list_lookup_fmap, Hi).
  all: destruct (unstarted_phase c) as [Hcall Hph]; rewrite Hc in Hph.
  - destruct lock; [done|]. intros [= <-]. destruct (usable tm (now w)) eqn:Hus.
    + exists [TToken i]. split; [done|]. simpl. rewrite Hu. simpl. rewrite Hph.
      apply andb_true_iff in Hus as [Hne%bool_decide_eq_true_1 Hn%Z.ltb_lt].
      rewrite (tm_Token_cached creds now doer tm w Hne Hn). simpl. by rewrite (unstarted_move _ _ _ _ Hi).
    + exists []. split; [simpl; lia|]. simpl. by rewrite (unstarted_fetching _ _ _ Hi Hc).
  - assert (lock = Some i) as -> by by apply (Hl _ _ Hi).
    intros Hstep. exists [TToken i]. split; [done|]. simpl. rewrite Hu. simpl. rewrite Hph.
    specialize (Hs ltac:(by eexists)). unfold tm_Token, mbind, M_bind, get, lift. cbn [fst snd].
    unfold usable in Hs. rewrite Hs. cbn [fst snd].
    destruct (fetchToken creds now doer w) as [[[tok e]|e] w1]; injection Hstep as <-; simpl;
      by rewrite (unstarted_move _ _ _ _ Hi).
  - destruct (oauth_get _ _ _ _ w) as [r w1] eqn:E. intros [= <-]. exists [TSearched i]. split; [done|].
    simpl. rewrite Hu. simpl. rewrite Hph, Hcall, E. simpl.
    by rewrite (unstarted_move _ _ _ _ Hi) by apply after_search_phase.
  - destruct lock; [done|]. intros [= <-]. exists [TInvalidate i]. split; [done|].
    simpl. rewrite Hu. simpl. rewrite Hph. simpl. by rewrite (unstarted_move _ _ _ _ Hi).
Qed.
Lemma run_refines ls s s' :
  tinv s → stale s → trun ls s = Some s' →
  ∃ mvs, (length mvs <= length ls)%nat ∧ afrun mvs (spec_of s) = Some (spec_of s').
Proof using time_goes_on.
  revert s. induction ls as [|mv ls IH]; intros s Hi Hs; [intros [= <-]; by exists []|]. simpl.
  destruct (tstep mv s) as [s1|] eqn:E; [|done]. simpl. intros Hr.
  destruct (IH s1) as (mvs & Hlen & Hrun); [by eapply tinv_step|by eapply stale_step|done|].
  destruct (step_refines mv s s1 Hi Hs E) as (mv' & Hl1 & Hr1).
  exists (mv' ++ mvs). rewrite length_app. split; [lia|]. by rewrite afrun_app, Hr1.
Qed.

(** C10: The lock makes the calls of a token manager atomic. Every interleaving of concurrent searches,
    with their POSTs and GETs to Reddit under way together, is one in which each call of [Token] -
    the look at the cache, the POST and the storing of the token - and of [Invalidate] is a
    single step: it leaves the same token, and every search is where it is there; once no POST is
    under way, exactly. *)
Theorem token_calls_atomic tm calls w ls s :
  trun ls (tinit tm calls w) = Some s →
  ∃ mvs, (length mvs <= length ls)%nat ∧
    afrun mvs (AFlight tm (t_callers (tinit tm calls w)) w) = Some (spec_of s) ∧
    (t_lock s = None → a_callers (spec_of s) = t_callers s).
Proof using time_goes_on.
  intros Hrun.
  destruct (run_refines ls _ s (tinv_init tm calls w) ltac:(by intros []) Hrun) as (mvs & Hl & Hr).
  exists mvs. split_and!; [done| |].
  - replace (t_callers (tinit tm calls w)) with (unstarted <$> t_callers (tinit tm calls w)); [done|].
    simpl. by rewrite <- list_fmap_compose.
  - intros Hlk. pose proof (tinv_run _ _ _ _ _ _ (tinv_init _ _ _) Hrun) as [[Hl' _] _ _ _].
    simpl. apply list_eq. intros i. rewrite list_lookup_fmap. destruct (t_callers s !! i) as [c|] eqn:Hi; [|done].
    simpl. f_equal. unfold unstarted. destruct (tc_phase c) eqn:Hc; try done.
    apply (Hl' _ _ Hi) in Hc. congruence.
Qed.
End Refinement.

(** ** Single flight, and the end *)
Section Flight.
Context {W : Type}.
Variables (creds : RedditCredentials) (now : W → Z) (doer : BrowserDoer W).
Notation tstep := (tstep creds now doer).
Notation trun := (trun creds now doer).

(** The POSTs of the log are those that have been answered and the one under way. *)
Lemma posts_sent tm calls w ls s :
  trun ls (tinit tm calls w) = Some s →
  posts (t_log s) = (length (filter (λ mv, is_fetched mv) ls) + if t_lock s then 1 else 0)%nat.
Proof.
  revert s. induction ls as [|mv ls IH] using rev_ind; intros s; [by intros [= <-]|].
  rewrite trun_snoc. destruct (trun ls _) as [s1|] eqn:E; [|done]. simpl. specialize (IH _ eq_refl).
  pose proof (tinv_run _ _ _ _ _ _ (tinv_init _ _ _) E) as [[Hl _] _ _ _].
  rewrite filter_app, length_app, filter_cons, filter_nil. destruct s1 as [tm1 lock cs w1 log]. simpl in *.
  destruct mv as [w'|i|i|i|i]; simpl.
  { destruct (now w1 <=? now w'); [|done]. intros [= <-]. simpl. lia. }
  all: destruct (cs !! i) as [c|] eqn:Hi; [|done]; simpl.
  all: destruct (tc_phase c) eqn:Hc; try done.
  - destruct lock; [done|]. intros [= <-]. destruct (usable _ _); simpl; rewrite ?posts_snoc; simpl; lia.
  - assert (lock = Some i) as -> by by apply (Hl _ _ Hi).
    destruct (fetchToken creds now doer w1) as [[[tok e]|e] w2]; intros [= <-]; simpl; rewrite ?posts_snoc; simpl in *; lia.
  - destruct (oauth_get _ _ _ _ w1) as [r w2]. intros [= <-]. simpl. lia.
  - destruct lock; [done|]. intros [= <-]. simpl. rewrite posts_snoc. simpl. lia.
Qed.
(** C11: At every moment at most one search refreshes the token, the one that holds the lock; no
    search ever goes out with an empty token; and a POST is made only for a reason: each is sent
    when no token is cached or the cached one has expired, and however many searches run at a time,
    the POSTs answered and the one under way are at most one more than the tokens found expired,
    the POSTs that failed and the tokens dropped after a refusal. *)
Theorem token_single_flight tm calls w ls s :
  trun ls (tinit tm calls w) = Some s →
  (∀ i c, t_callers s !! i = Some c → (tc_phase c = Fetching ↔ t_lock s = Some i)) ∧
  (∀ i c tok, t_callers s !! i = Some c → tc_phase c = Holding tok → tok ≠ []) ∧
  (∀ tm' t, EPost tm' t ∈ t_log s → cached tm' = [] ∨ expiresAt tm' <= t) ∧
  posts (t_log s) = (length (filter (λ mv, is_fetched mv) ls) + if t_lock s then 1 else 0)%nat ∧
  (posts (t_log s) <= 1 + reasons (t_log s))%nat.
Proof.
  intros Hrun. pose proof (tinv_run _ _ _ _ _ _ (tinv_init _ _ _) Hrun) as [[Hl _] Ht Hp Hn].
  split_and!; [done..| |by eapply posts_sent|].
  - intros tm' t Hin. rewrite Forall_forall in Hn. exact (Hn _ Hin).
  - assert (in_hand (t_tm s) (t_lock s) <= 1)%nat; [|lia].
    unfold in_hand. destruct (t_lock s); [done|]. case_decide; lia.
Qed.

(** What is left for a search to do. *)
Definition calls_left (c : tcaller) : nat :=
  match tc_phase c with Asking => 4 | Fetching => 3 | Holding _ => 2 | Refused _ => 1 | Returned _ => 0 end.
Definition flight_left (s : tstate W) : nat := sum_list_with calls_left (t_callers s).
Lemma left_move cs i c p :
  cs !! i = Some c → (calls_left (at_phase p c) < calls_left c)%nat →
  (sum_list_with calls_left (<[i := at_phase p c]> cs) < sum_list_with calls_left cs)%nat.
Proof. intros Hi Hlt. pose proof (sum_list_insert calls_left cs i c (at_phase p c) Hi). lia. Qed.
Lemma tstep_left mv s s' :
  tstep mv s = Some s' →
  if of_world mv then flight_left s' = flight_left s else (flight_left s' < flight_left s)%nat.
Proof.
  destruct s as [tm lock cs w log]. unfold flight_left.
  destruct mv as [w'|i|i|i|i]; simpl; [by destruct (now w <=? now w'); [intros [= <-]|]|..].
  all: destruct (cs !! i) as [c|] eqn:Hi; [|done]; simpl.
  all: destruct (tc_phase c) eqn:Hc; try done.
  - destruct lock; [done|]. intros [= <-].
    destruct (usable tm (now w)); simpl; apply left_move; try done; unfold calls_left; rewrite Hc; simpl; lia.
  - destruct (fetchToken creds now doer w) as [[[tok e]|e] w1]; intros [= <-]; simpl;
      apply left_move; try done; unfold calls_left; rewrite Hc; simpl; lia.
  - destruct (oauth_get _ _ _ _ w) as [r w1]. intros [= <-]. simpl. apply left_move; [done|].
    unfold calls_left, after_search. rewrite Hc. simpl. destruct (oauth_reply r) as [[] ?]; lia.
  - destruct lock; [done|]. intros [= <-]. simpl. apply left_move; [done|].
    unfold calls_left. rewrite Hc. simpl. lia.
Qed.
Lemma trun_left ls s s' :
  trun ls s = Some s' → (length (filter (λ mv, negb (of_world mv)) ls) + flight_left s' <= flight_left s)%nat.
Proof.
  revert s. induction ls as [|mv ls IH]; intros s; simpl; [intros [= ->]; lia|].
  destruct (tstep mv s) as [s1|] eqn:E; [|done]. simpl. intros Hr. specialize (IH _ Hr).
  pose proof (tstep_left _ _ _ E). rewrite filter_cons. destruct (of_world mv); simpl; lia.
Qed.
(** Whoever waits for the lock waits for an answer to a POST, and to nothing else. *)
Lemma flight_progress s :
  tinv s → all_returned s = false → ∃ mv, of_world mv = false ∧ is_Some (tstep mv s).
Proof.
  intros [[Hl Ho] _ _ _] Hr. destruct s as [tm [i|] cs w log]; simpl in *.
  - destruct (lookup_lt_is_Some_2 cs i) as [c Hi]; [by apply Ho|].
    exists (TFetched i). split; [done|]. simpl. rewrite Hi. simpl. rewrite (proj2 (Hl _ _ Hi) eq_refl).
    destruct (fetchToken creds now doer w) as [[[tok e]|e] w1]; by eexists.
  - destruct (forallb_false _ _ Hr) as (i & c & Hi & Hc). simpl in Hi. unfold has_returned in Hc.
    destruct (tc_phase c) eqn:Hp; try done.
    + exists (TToken i). split; [done|]. simpl. rewrite Hi. simpl. rewrite Hp. by eexists.
    + by apply (Hl _ _ Hi) in Hp.
    + exists (TSearched i). split; [done|]. simpl. rewrite Hi. simpl. rewrite Hp.
      destruct (oauth_get _ _ _ _ w) as [r' w1]. by eexists.
    + exists (TInvalidate i). split; [done|]. simpl. rewrite Hi. simpl. rewrite Hp. by eexists.
Qed.

(** C12: Concurrent searches all return. The lock is never left taken: as long as a search has not
    returned some search can move, by the answer to a request that is under way, so that from
    every state of every interleaving all of them can come to their end; and an
    interleaving has at most four steps per search, besides those of the rest of the world. *)
Theorem token_flight_ends tm calls w ls s :
  trun ls (tinit tm calls w) = Some s →
  (length (filter (λ mv, negb (of_world mv)) ls) <= 4 * length calls)%nat ∧
  (all_returned s = false → ∃ mv, of_world mv = false ∧ is_Some (tstep mv s)) ∧
  ∃ ls' s', Forall (λ mv, of_world mv = false) ls' ∧ trun ls' s = Some s' ∧ all_returned s' = true.
Proof.
  intros Hrun. pose proof (tinv_run _ _ _ _ _ _ (tinv_init _ _ _) Hrun) as Hinv. split_and!.
  - pose proof (trun_left _ _ _ Hrun) as Hl.
    assert (flight_left (tinit tm calls w) = 4 * length calls)%nat as Hn; [|lia].
    unfold flight_left. simpl. clear. induction calls as [|c calls IH]; [done|].
    rewrite fmap_cons. cbn [sum_list_with]. rewrite IH. change (calls_left (TCaller c Asking)) with 4%nat.
    rewrite length_cons. lia.
  - by apply flight_progress.
  - clear Hrun. remember (flight_left s) as n eqn:Hn. revert s Hn Hinv.
    induction n as [n IH] using lt_wf_ind. intros s -> Hinv.
    destruct (all_returned s) eqn:Hr; [by exists [], s|].
    destruct (flight_progress _ Hinv Hr) as (mv & Hw & s1 & E).
    pose proof (tstep_left _ _ _ E) as Hlt. rewrite Hw in Hlt.
    destruct (IH _ Hlt s1 eq_refl) as (ls' & s' & Hls & Hrun & Hall); [by eapply tinv_step|].
    exists (mv :: ls'), s'. split_and!; [by constructor| |done]. simpl. by rewrite E.
Qed.
End Flight.

(** ** Three searches with a token that the API refuses: a refusal of the old token that arrives late
    drops the fresh one, so that the next search fetches another *)
Section Demo.
Definition demo_calls : list search_call :=
  [{| sc_query := lit "a"; sc_userAgent := lit "ua" |}; {| sc_query := lit "b"; sc_userAgent := lit "ua" |};
   {| sc_query := lit "c"; sc_userAgent := lit "ua" |}].
Definition old_tm : redditTokenManager := {| cached := lit "old"; expiresAt := 10 * Second |}.
Definition late_refusal : list (tmove Z) :=
  [TToken 0; TToken 1; TSearched 0; TSearched 1; TInvalidate 1; TToken 2; TWorld 5; TFetched 2;
   TInvalidate 0].
Definition demo_flight := trun demo_creds (λ w, w) granting late_refusal (tinit old_tm demo_calls 0).
Lemma late_refusal_drops_fresh_token : ∃ s,
  demo_flight = Some s ∧ tc_phase <$> t_callers s !! 2%nat = Some (Holding (lit "tok")) ∧
  t_tm s = NewRedditTokenManager.
Proof. eexists. split_and!; vm_compute; reflexivity. Qed.

Lemma token_calls_atomic_witness : ∃ s, demo_flight = Some s ∧
  ∃ mvs, (length mvs <= 9)%nat ∧
    afrun demo_creds (λ w, w) granting mvs (AFlight old_tm (t_callers (tinit old_tm demo_calls 0)) 0) =
    Some (spec_of s).
Proof.
  eexists. split; [vm_compute; reflexivity|].
  edestruct (token_calls_atomic demo_creds (λ w : Z, w) granting) as (mvs & Hl & Hr & _).
  - intros m u h b w. simpl. lia.
  - exact (eq_refl demo_flight).
  - exists mvs. split; [exact Hl|exact Hr].
Defined.
Lemma token_single_flight_witness : ∃ s, demo_flight = Some s ∧
  posts (t_log s) = 1%nat ∧
  (∀ tm' t, EPost tm' t ∈ t_log s → cached tm' = [] ∨ expiresAt tm' <= t) ∧
  posts (t_log s) = (length (filter (λ mv, is_fetched mv) late_refusal) + if t_lock s then 1 else 0)%nat ∧
  (posts (t_log s) <= 1 + reasons (t_log s))%nat.
Proof.
  eexists. split; [vm_compute; reflexivity|]. split; [vm_compute; reflexivity|].
  refine (proj2 (proj2 (token_single_flight demo_creds (λ w : Z, w) granting old_tm demo_calls 0
                          late_refusal _ _))). vm_compute. reflexivity.
Defined.
Lemma token_flight_ends_witness : ∃ s,
  trun demo_creds (λ w, w) granting [TToken 0] (tinit NewRedditTokenManager demo_calls 0) = Some s ∧
  t_lock s = Some 0%nat ∧
  ∃ ls' s', Forall (λ mv, of_world mv = false) ls' ∧
    trun demo_creds (λ w, w) granting ls' s = Some s' ∧ all_returned s' = true.
Proof.
  eexists. split; [vm_compute; reflexivity|]. split; [reflexivity|].
  refine (proj2 (proj2 (token_flight_ends demo_creds (λ w : Z, w) granting NewRedditTokenManager demo_calls 0
                          [TToken 0] _ _))). vm_compute. reflexivity.
Defined.
End Demo.
