(* ===== verification/Budget.v ===== *)
(** The two query budgets: [MarginaliaBudget] of package [search] ([marginalia.go]), a counter per
    UTC day under a mutex, and [yandexCheckLimit] of package [websearch] ([yandex.go]), a counter
    per month in two atomics, whose callers interleave. *)
From S2P Require Import Prelude Unicode Utf8 GoStrings Effects GoTime.
Local Open Scope Z_scope.

(** ** The daily budget; a day is its number, which stands for its date *)
Module Daily.
Record MarginaliaBudget := { limit : Z; day : Z; spent : Z }.
Definition defaultMarginaliaDailyBudget : Z := 80.
Definition NewMarginaliaBudget (lim today : Z) : MarginaliaBudget :=
  {| limit := if lim <=? 0 then defaultMarginaliaDailyBudget else lim; day := today; spent := 0 |}.
(** The gauge that every call publishes. *)
Definition remaining (b : MarginaliaBudget) : Z := limit b - spent b.
Definition Acquire (today : Z) (b : MarginaliaBudget) : bool * MarginaliaBudget :=
  let b := if today =? day b then b else {| limit := limit b; day := today; spent := 0 |} in
  if limit b <=? spent b then (false, b)
  else (true, {| limit := limit b; day := day b; spent := spent b + 1 |}).
(** Calls in a row, on the given days. *)
Fixpoint acquires (days : list Z) (b : MarginaliaBudget) : list bool * MarginaliaBudget :=
  match days with
  | [] => ([], b)
  | d :: days => let '(r, b) := Acquire d b in
                 let '(rs, b) := acquires days b in (r :: rs, b)
  end.

(** The reference: call [i] is granted when fewer than [lim] earlier calls were on its day. *)
Definition earlier (days : list Z) (i : nat) (d : Z) : Z := zlen (filter (λ x, x = d) (take i days)).
Definition granted (lim : Z) (days : list Z) : list bool :=
  imap (λ i d, earlier days i d <? lim) days.

(** The state after the calls [pre]. *)
Definition spent_by (pre : list Z) (b : MarginaliaBudget) : Prop :=
  (∀ d, d ∈ pre → d <= day b) ∧
  spent b = Z.min (limit b) (zlen (filter (λ x, x = day b) pre)).
Lemma acquire_step pre b d : 0 < limit b → spent_by pre b → day b <= d →
  let '(r, b') := Acquire d b in
  r = (zlen (filter (λ x, x = d) pre) <? limit b) ∧ spent_by (pre ++ [d]) b' ∧
  limit b' = limit b ∧ day b' = d ∧ 0 <= remaining b' <= limit b.
Proof.
  intros Hl [Hd Hs] Hle. unfold Acquire.
  set (b1 := if d =? day b then b else _).
  assert (limit b1 = limit b ∧ day b1 = d ∧ spent b1 = Z.min (limit b) (zlen (filter (λ x, x = d) pre)))
    as (Hl1 & Hd1 & Hs1).
  { subst b1. destruct (Z.eqb_spec d (day b)) as [->|Hne]; [done|]. cbn. split_and!; [done..|].
    assert (filter (λ x, x = d) pre = []) as ->; [|rewrite Z.min_r; unfold zlen; simpl; lia].
    destruct (filter (λ x, x = d) pre) as [|x l] eqn:E; [done|]. exfalso.
    assert (x ∈ filter (λ x, x = d) pre) as [-> Hx%Hd]%list_elem_of_filter by (rewrite E; set_solver).
    lia. }
  clearbody b1. rewrite Hl1. unfold spent_by, remaining.
  assert (∀ k, filter (λ x, x = d) (pre ++ [d]) = filter (λ x, x = d) pre ++ [d] ∨ k) as Hf.
  { intros. left. rewrite filter_app, filter_cons, decide_True, filter_nil by done. done. }
  pose proof (zlen_nonneg (filter (λ x, x = d) pre)).
  assert (∀ x, x ∈ pre ++ [d] → x <= d) as Hpre.
  { intros x [Hx%Hd|Hx%list_elem_of_singleton]%elem_of_app; lia. }
  destruct (Z.leb_spec (limit b) (spent b1)); cbn; rewrite ?Hd1, ?Hl1;
    (destruct (Hf False) as [->|[]]); autorewrite with go; split_and!; try done; lia.
Qed.
Lemma acquires_granted days pre b : 0 < limit b → spent_by pre b →
  StronglySorted Z.le (day b :: days) →
  (acquires days b).1 = imap (λ i d, zlen (filter (λ x, x = d) (pre ++ take i days)) <? limit b) days ∧
  (0 <= spent b → 0 <= remaining (acquires days b).2 <= limit b).
Proof.
  revert pre b. induction days as [|d days IH]; intros pre b Hl Hs Hd.
  { split; [done|]. cbn. destruct Hs as [_ Hs]. unfold remaining. lia. }
  apply StronglySorted_inv in Hd as [Hd Hfa]. apply Forall_cons_1 in Hfa as [Hle _].
  cbn [acquires]. pose proof (acquire_step pre b d Hl Hs Hle) as Hstep.
  destruct (Acquire d b) as [r b']. destruct Hstep as (-> & Hs' & Hl' & Hd' & Hr).
  specialize (IH (pre ++ [d]) b'). rewrite Hl', Hd' in IH. destruct (IH Hl Hs' Hd) as [IH1 IH2].
  destruct (acquires days b') as [rs b'']. cbn [fst snd] in *. split.
  - rewrite IH1. cbn [imap take]. rewrite app_nil_r. f_equal.
    apply imap_ext. intros i x _. cbn. by rewrite <- app_assoc.
  - intros _. apply IH2. destruct Hs' as [_ ->]. pose proof (zlen_nonneg (filter (λ x, x = day b') (pre ++ [d]))). lia.
Qed.

(** With a clock that does not go back, the daily budget grants exactly the first [limit]
    calls of every UTC day (80 when the configured limit is not positive) and refuses the others,
    and the published remainder stays between zero and the limit. *)
Theorem daily_budget lim today days :
  StronglySorted Z.le (today :: days) →
  let b := NewMarginaliaBudget lim today in
  (acquires days b).1 = granted (limit b) days ∧ 0 < limit b ∧
  0 <= remaining (acquires days b).2 <= limit b.
Proof.
  intros Hd b. assert (0 < limit b) as Hl by (subst b; unfold NewMarginaliaBudget, defaultMarginaliaDailyBudget; cbn [limit];
    destruct (Z.leb_spec lim 0); lia).
  destruct (acquires_granted days [] b Hl) as [H1 H2]; [|done|].
  - split; [by intros ? ?%elem_of_nil|]. rewrite filter_nil, Z.min_r; [done|].
    unfold zlen. cbn [length Z.of_nat]. lia.
  - split; [by rewrite H1|]. split; [done|]. by apply H2.
Qed.
Lemma daily_budget_witness :
  (acquires [5; 5; 5; 6] (NewMarginaliaBudget 2 5)).1 = granted 2 [5; 5; 5; 6] ∧
  granted 2 [5; 5; 5; 6] = [true; true; false; true].
Proof.
  split; [|vm_compute; reflexivity].
  apply (daily_budget 2 5 [5; 5; 5; 6]). repeat constructor; lia.
Defined.
End Daily.

(** ** The monthly budget: two atomics, read and written in separate steps *)
Module Monthly.
(** The counter; a caller is at one of the four atomic operations of the function, with what it
    read, or has returned. *)
Record counter := { count : Z; month : Z }.
Inductive pc :=
| PLoad (cur : Z)                  (* about to load the stored month *)
| PSwap (cur stored : Z)           (* about to compare and swap it *)
| PStore (cur : Z)                 (* about to store zero *)
| PAdd (cur : Z)                   (* about to add one *)
| PDone (cur : Z) (ok : bool).

(** One atomic operation of a caller with a positive limit. *)
Definition atomic (limit : Z) (p : pc) (c : counter) : pc * counter :=
  match p with
  | PLoad cur => (if month c =? cur then PAdd cur else PSwap cur (month c), c)
  | PSwap cur stored =>
      (PStore cur, if month c =? stored then {| count := count c; month := cur |} else c)
  | PStore cur => (PAdd cur, {| count := 0; month := month c |})
  | PAdd cur => (PDone cur (count c + 1 <=? limit), {| count := count c + 1; month := month c |})
  | PDone cur ok => (p, c)
  end.
(** The function run without interruption, [cur] being the month of the year. *)
Definition yandexCheckLimit (limit cur : Z) (c : counter) : bool * counter :=
  if limit <=? 0 then (true, c) else
  let c := if month c =? cur then c
           else {| count := 0; month := cur |} in
  (count c + 1 <=? limit, {| count := count c + 1; month := month c |}).

(** Callers that interleave: a caller starts in the month [cur], or one takes a step. *)
Record world := { ctr : counter; callers : list pc }.
Inductive step (limit : Z) : world → world → Prop :=
| step_start w cur : step limit w {| ctr := ctr w; callers := callers w ++ [PLoad cur] |}
| step_atomic w i p p' c' :
    callers w !! i = Some p → atomic limit p (ctr w) = (p', c') →
    step limit w {| ctr := c'; callers := <[i := p']> (callers w) |}.
Definition steps (limit : Z) : world → world → Prop := rtc (step limit).
Definition start (c : counter) : world := {| ctr := c; callers := [] |}.

Definition is_granted (p : pc) : bool := match p with PDone _ true => true | _ => false end.
Definition is_done (p : pc) : bool := match p with PDone _ _ => true | _ => false end.
Definition pc_month (p : pc) : Z :=
  match p with PLoad c | PSwap c _ | PStore c | PAdd c | PDone c _ => c end.
Definition grants (w : world) : Z := zlen (filter is_granted (callers w)).

(** *** One caller alone *)
Lemma solo_run limit cur c : 0 < limit →
  steps limit (start c)
    (let '(ok, c') := yandexCheckLimit limit cur c in {| ctr := c'; callers := [PDone cur ok] |}).
Proof.
  intros Hl. unfold yandexCheckLimit. rewrite (proj2 (Z.leb_gt _ _)) by lia.
  eapply rtc_l; [apply (step_start limit _ cur)|]. cbn [callers start app ctr].
  assert (∀ c1 p p' c2, atomic limit p c1 = (p', c2) → step limit {| ctr := c1; callers := [p] |}
    {| ctr := c2; callers := [p'] |}) as Hs.
  { intros c1 p p' c2 E. by apply (step_atomic limit {| ctr := c1; callers := [p] |} 0 p). }
  eapply rtc_l; [apply Hs; reflexivity|]. destruct (Z.eqb_spec (month c) cur).
  - eapply rtc_l; [apply Hs; reflexivity|]. apply rtc_refl.
  - eapply rtc_l; [apply Hs; unfold atomic; rewrite Z.eqb_refl; reflexivity|].
    eapply rtc_l; [apply Hs; reflexivity|]. cbn [month].
    eapply rtc_l; [apply Hs; reflexivity|]. apply rtc_refl.
Qed.

(** *** Within a month *)
(** All callers are in the stored month: none resets the counter, which counts the callers that
    have added, the first [limit] of which were granted. *)
Definition within (limit m base : Z) (w : world) : Prop :=
  month (ctr w) = m ∧
  Forall (λ p, match p with PLoad c | PAdd c | PDone c _ => c = m | _ => False end) (callers w) ∧
  count (ctr w) = base + zlen (filter is_done (callers w)) ∧
  grants w = Z.max 0 (Z.min (limit - base) (zlen (filter is_done (callers w)))).
Lemma filter_insert_zlen (f : pc → bool) l i p p' : l !! i = Some p →
  zlen (filter f (<[i := p']> l)) =
  zlen (filter f l) - (if f p then 1 else 0) + (if f p' then 1 else 0).
Proof.
  intros Hi. rewrite insert_take_drop by by eapply lookup_lt_Some.
  rewrite <- (take_drop_middle l i p Hi) at 3. rewrite !filter_app, !filter_cons.
  unfold zlen. destruct (f p) eqn:E1, (f p') eqn:E2;
    repeat (case_decide; try done); rewrite !length_app; simpl; lia.
Qed.
Lemma within_step limit m base w w' : 0 <= base →
  step limit w w' → Forall (λ p, pc_month p = m) (callers w') →
  within limit m base w → within limit m base w'.
Proof.
  intros Hb Hst Hm (Hmo & Hpc & Hc & Hg). destruct Hst as [w cur|w i p p' c' Hi Ha]; cbn in *.
  - rewrite Forall_app, Forall_singleton in Hm. destruct Hm as [_ Hm]. cbn in Hm.
    unfold within, grants in *. cbn. rewrite !filter_app, !filter_cons, !filter_nil. cbn.
    rewrite !app_nil_r. split_and!; [done| |done..].
    by rewrite Forall_app, Forall_singleton.
  - pose proof (Forall_lookup_1 _ _ _ _ Hpc Hi) as Hp. cbn in Hp.
    unfold within, grants in *. cbn [ctr callers].
    rewrite !(filter_insert_zlen _ _ _ _ _ Hi).
    pose proof (zlen_nonneg (filter is_done (callers w))) as Hz.
    destruct p as [cur|cur st|cur|cur|cur ok]; try done; cbn in Ha; cbn [is_done is_granted].
    + rewrite Hmo, Hp, Z.eqb_refl in Ha. injection Ha as <- <-. cbn. split_and!; [done| |lia..].
      by apply Forall_insert.
    + injection Ha as <- <-. cbn. split_and!; [done|by apply Forall_insert|lia|].
      destruct (Z.leb_spec (count (ctr w) + 1) limit); cbv iota.
      all: lia.
    + injection Ha as <- <-. cbn [is_done is_granted].
      split_and!; [done|by apply Forall_insert|destruct ok; lia..].
Qed.
Lemma months_back limit m w w' : step limit w w' →
  Forall (λ p, pc_month p = m) (callers w') → Forall (λ p, pc_month p = m) (callers w).
Proof.
  intros [v cur|v i p p' c' Hi Ha]; cbn; [by intros [? _]%Forall_app|].
  rewrite !Forall_lookup. intros Hm j q Hj.
  destruct (decide (i = j)) as [<-|Hne].
  - assert (pc_month p' = pc_month p) as Hp.
    { destruct p; cbn in Ha; repeat case_match; by simplify_eq/=. }
    rewrite Hi in Hj. injection Hj as <-. rewrite <- Hp. apply (Hm i).
    by rewrite list_lookup_insert_eq by by eapply lookup_lt_Some.
  - apply (Hm j). by rewrite list_lookup_insert_ne.
Qed.
(** The calls of a month begin: the counter may be in the month already, or - after another month, or
    in a new process, whose counter is in none - the first call of the month goes through alone
    and resets it. *)
Definition month_begun (limit m : Z) (c : counter) : world :=
  if decide (month c = m) then start c
  else let '(ok, c') := yandexCheckLimit limit m c in {| ctr := c'; callers := [PDone m ok] |}.
(** What the month has used before its calls begin. *)
Definition used_before (m : Z) (c : counter) : Z := if decide (month c = m) then count c else 0.
Lemma month_begun_within limit m c :
  0 < limit → within limit m (used_before m c) (month_begun limit m c).
Proof.
  intros Hl. unfold month_begun, used_before. destruct (decide (month c = m)) as [Hm|Hm].
  - split_and!; [done|constructor|cbn; unfold zlen; cbn; lia|]. unfold grants, zlen. cbn. lia.
  - unfold yandexCheckLimit. rewrite (proj2 (Z.leb_gt _ _)) by lia. rewrite (proj2 (Z.eqb_neq _ _)) by done.
    cbn [count month]. rewrite (proj2 (Z.leb_le (0 + 1) limit)) by lia.
    split_and!; [done|by constructor|done|].
    change (1 = Z.max 0 (Z.min (limit - 0) 1)). lia.
Qed.
(** C38: For a positive limit, however the callers of a month interleave once its first call has
    reset the counter, the counter grants as many of those that have returned as the limit leaves:
    with what the month had used already, the first to add are granted up to the limit, that first
    call among them, and no other. The first call alone, and any call alone, is one of the
    interleavings. *)
Theorem monthly_budget limit m c w :
  0 < limit → 0 <= count c →
  steps limit (month_begun limit m c) w → Forall (λ p, pc_month p = m) (callers w) →
  let base := used_before m c in
  let returned := zlen (filter is_done (callers w)) in
  grants w = Z.max 0 (Z.min (limit - base) returned) ∧
  count (ctr w) = base + returned ∧
  steps limit (start c) (month_begun limit m c) ∧
  steps limit (start (ctr w))
    (let '(ok, c') := yandexCheckLimit limit m (ctr w) in {| ctr := c'; callers := [PDone m ok] |}).
Proof.
  intros Hl Hb Hst Hm base returned.
  assert (0 <= base) as Hbase by (unfold base, used_before; case_decide; lia).
  assert (within limit m base w) as (_ & _ & ? & ?).
  { revert Hm. clear returned. pattern w. eapply rtc_ind_r, Hst; clear w Hst.
    - intros _. by apply month_begun_within.
    - intros v w _ Hs IH Hm. eapply within_step; [done|exact Hs|done|].
      apply IH. by eapply months_back. }
  split_and!; [done..| |by apply solo_run].
  unfold month_begun. case_decide; [apply rtc_refl|by apply solo_run].
Qed.
(** When two first callers of a month run together the limit is not kept - at the turn of the month,
    or in a new process: both load the old month and reset the counter one after the other, the
    second after the first was granted, so that with a limit of one request two are granted. *)
Theorem monthly_rollover_race c m :
  month c ≠ m →
  ∃ w, steps 1 (start c) w ∧
       Forall (λ p, pc_month p = m) (callers w) ∧ Forall (λ p, is_done p = true) (callers w) ∧
       grants w = 2 ∧ 1 < grants w.
Proof.
  intros Hm. apply Z.eqb_neq in Hm. pose proof Hm as Hm'. rewrite Z.eqb_sym in Hm'.
  exists {| ctr := {| count := 1; month := m |}; callers := [PDone m true; PDone m true] |}.
  split; [|split_and!; [by repeat constructor..|done|done]].
  assert (∀ c0 l i p p' c', l !! i = Some p → atomic 1 p c0 = (p', c') → step 1
    {| ctr := c0; callers := l |} {| ctr := c'; callers := <[i := p']> l |}) as Hs.
  { intros c0 l i p p' c' Hi Ha. by eapply (step_atomic 1 {| ctr := c0; callers := l |}). }
  eapply rtc_l; [apply (step_start _ _ m)|]. eapply rtc_l; [apply (step_start _ _ m)|]. cbn [callers ctr start app].
  eapply rtc_l; [eapply (Hs _ _ 0%nat); [reflexivity|cbn [atomic]; by rewrite Hm]|].   (* both load *)
  eapply rtc_l; [eapply (Hs _ _ 1%nat); [reflexivity|cbn [atomic]; by rewrite Hm]|].
  eapply rtc_l; [eapply (Hs _ _ 0%nat); [reflexivity|cbn [atomic]; by rewrite Z.eqb_refl]|].
  do 2 (eapply rtc_l; [eapply (Hs _ _ 0%nat); reflexivity|]).
  eapply rtc_l; [eapply (Hs _ _ 1%nat); [reflexivity|cbn [atomic month]; by rewrite Hm']|].
  do 2 (eapply rtc_l; [eapply (Hs _ _ 1%nat); reflexivity|]).
  apply rtc_refl.
Qed.
(** The month of another year does not reset the counter. *)
Example same_month_next_year : (yandexCheckLimit 5 3 {| count := 5; month := 3 |}).1 = false.
Proof. reflexivity. Qed.
(** Two calls in a new process, the second after the first, with a limit of one. *)
Lemma monthly_budget_witness :
  grants {| ctr := {| count := 2; month := 3 |}; callers := [PDone 3 true; PDone 3 false] |} = 1.
Proof.
  destruct (monthly_budget 1 3 {| count := 0; month := 0 |} {| ctr := {| count := 2; month := 3 |};
    callers := [PDone 3 true; PDone 3 false] |}) as (-> & _); [lia|cbn; lia| |by repeat constructor|
    vm_compute; reflexivity].
  assert (∀ w i p, callers w !! i = Some p → step 1 w
    {| ctr := (atomic 1 p (ctr w)).2; callers := <[i := (atomic 1 p (ctr w)).1]> (callers w) |}) as Hs.
  { intros w i p Hi. eapply step_atomic; [exact Hi|]. by destruct (atomic _ _ _). }
  eapply rtc_l; [apply (step_start _ _ 3)|].
  do 2 (eapply rtc_l; [apply (Hs _ 1%nat); reflexivity|]).
  apply rtc_refl.
Defined.
End Monthly.
