(* ===== verification/SearchEngines.v ===== *)
(** Package [search], one engine at a time: the counted wrappers of the scrapers ([ddg.go],
    [bing.go], [brave.go], [startpage.go], [reddit.go]), and the engines of the package itself
    ([wikipedia.go], [mojeek.go], [marginalia.go]). *)
From S2P Require Import Prelude Unicode Utf8 GoStrings GoUrl Floats Json Effects GoTime Results Retry Serp Engines.
Local Open Scope Z_scope.

(** The metrics registry (package go-kit) as part of the world: a name and its labels. *)
Class Metrics (W : Type) := {
  Incr : gostring → list (gostring * gostring) → W → W;
  ObserveSeconds : gostring → list (gostring * gostring) → Z → W → W;
  GaugeAdd : gostring → Z → W → W
}.
(** [if m != nil { ... }]: a registry may be nil. *)
Definition when {W} (m : bool) (f : W → W) : M W () := modify (if m then f else id).

(** ** Redaction of the Marginalia key *)
Definition redacted : gostring := lit "[redacted]".
Definition redactKeyFromString (s key : gostring) : gostring :=
  if decide (key = []) then s else
  let s := ReplaceAll s key redacted in
  let escaped := PathEscape key in
  if decide (escaped = key) then s else ReplaceAll s escaped redacted.

(** ** Parsers *)
Definition reHTMLTagWiki : gostring → gostring := strip_tags false.
Record wikiItem := { w_Title : gostring; w_Snippet : gostring; w_PageID : Z }.
Definition zero_wikiItem : wikiItem := {| w_Title := []; w_Snippet := []; w_PageID := 0 |}.
Definition dec_wikiItem : dec wikiItem := dec_struct (λ p kvs,
  t ← field (lit "title") dec_string (w_Title p) kvs;
  s ← field (lit "snippet") dec_string (w_Snippet p) kvs;
  i ← field (lit "pageid") dec_int (w_PageID p) kvs;
  Some {| w_Title := t; w_Snippet := s; w_PageID := i |}).
Definition dec_wikipediaSearchResp : dec (list wikiItem) := dec_struct (λ l kvs,
  field (lit "query") (dec_struct (λ l kvs,
    field (lit "search") (dec_list zero_wikiItem dec_wikiItem) l kvs)) l kvs).
Definition wiki_row (lang : gostring) (item : wikiItem) : option Result :=
  if decide (w_Title item = []) then None else
  let u := lit "https://" ++ lang ++ lit ".wikipedia.org/wiki/" ++
           PathEscape (ReplaceAll (w_Title item) (lit " ") (lit "_")) in
  Some (MkResult (w_Title item) u (TrimSpace (reHTMLTagWiki (w_Snippet item))) fone
          (engine_meta (lit "wikipedia"))).
Definition ParseWikipediaJSON (data lang : gostring) : result (list Result) :=
  match Unmarshal [] dec_wikipediaSearchResp data with
  | None => Err (Wrapped (lit "wikipedia: json decode") (ErrMsg []))
  | Some items => Val (omap (wiki_row lang) items)
  end.

Record marginaliaItem := { m_URL : gostring; m_Title : gostring; m_Description : gostring;
                           m_Quality : float }.
Definition zero_marginaliaItem : marginaliaItem :=
  {| m_URL := []; m_Title := []; m_Description := []; m_Quality := fzero |}.
Definition dec_marginaliaItem : dec marginaliaItem := dec_struct (λ p kvs,
  u ← field (lit "url") dec_string (m_URL p) kvs;
  t ← field (lit "title") dec_string (m_Title p) kvs;
  d ← field (lit "description") dec_string (m_Description p) kvs;
  q ← field (lit "quality") dec_float (m_Quality p) kvs;
  Some {| m_URL := u; m_Title := t; m_Description := d; m_Quality := q |}).
(** The license and the items. *)
Definition dec_marginaliaResp : dec (gostring * list marginaliaItem) := dec_struct (λ p kvs,
  l ← field (lit "license") dec_string p.1 kvs;
  r ← field (lit "results") (dec_list zero_marginaliaItem dec_marginaliaItem) p.2 kvs;
  Some (l, r)).
Definition marginalia_row (license : gostring) (item : marginaliaItem) : option Result :=
  if bool_decide (m_URL item = []) || bool_decide (m_Title item = []) then None else
  Some (MkResult (m_Title item) (m_URL item) (m_Description item) fone
          (list_to_map [(lit "engine", lit "marginalia");
                        (lit "source_url", lit "https://search.marginalia.nu/");
                        (lit "license", license)])).
Definition ParseMarginaliaJSON (data : gostring) : result (list Result) :=
  match Unmarshal ([], []) dec_marginaliaResp data with
  | None => Err (Wrapped (lit "marginalia: json decode") (ErrMsg []))
  | Some (license, items) => Val (omap (marginalia_row license) items)
  end.

Section SearchEngines.
Context {W Node : Type} `{Clock W} `{Host W} `{Metrics W} `{GoQuery Node}.
Implicit Types (cx : ctx) (query : gostring) (m : bool) (bc : BrowserDoer W).

Definition range_opts (tr : gostring) : SearchOpts :=
  {| Language := []; TimeRange := tr; Region := []; Engines := []; Limit := 0 |}.
Definition SearchDDGDirect cx bc query (region : gostring) m (tr : gostring)
    : M W (result (list Result)) :=
  when m (Incr (lit "ddg_requests") []);;
  match NewDDG (Some bc) (if decide (region = []) then None else Some region) with
  | Err e => mret (Err e)
  | Val ddg => DDG_Search ddg cx query (range_opts tr)
  end.
Definition SearchBingDirect cx bc query m (tr : gostring) : M W (result (list Result)) :=
  when m (Incr (lit "bing_requests") []);; Bing_Search (Some bc) cx query (range_opts tr).
Definition SearchBraveDirect cx bc query m (tr : gostring) : M W (result (list Result)) :=
  when m (Incr (lit "brave_requests") []);; Brave_Search (Some bc) cx query (range_opts tr).
Definition SearchStartpageDirect cx bc query (language : gostring) m (tr : gostring)
    : M W (result (list Result)) :=
  when m (Incr (lit "startpage_requests") []);;
  Startpage_Search (Some bc) (lit "english") cx query
    {| Language := language; TimeRange := tr; Region := []; Engines := []; Limit := 0 |}.
Definition SearchRedditDirect cx bc query m (tr : gostring) : M W (result (list Result)) :=
  when m (Incr (lit "reddit_requests") []);;
  Reddit_Search (Some bc) cx query
    {| Language := []; TimeRange := tr; Region := []; Engines := []; Limit := 10 |}.

(** *** Wikipedia: a 429 is an empty result *)
Definition SearchWikipediaDirect cx bc query (lang : gostring) m : M W (result (list Result)) :=
  when m (Incr (lit "wikipedia_requests") []);;
  unless_done cx (
    let u := lit "https://" ++ lang ++
             lit ".wikipedia.org/w/api.php?action=query&list=search&srsearch=" ++
             QueryEscape query ++ lit "&format=json&srlimit=10" in
    r ← Do bc GET u (<[lit "accept" := acceptJSON]> (ChromeHeadersFor (Some bc))) None;
    mret match r with
    | Err e => Err e
    | Val rs =>
        if rs_status rs =? 429 then Val []
        else if negb (rs_status rs =? 200)
        then bad_status (lit "wikipedia: unexpected status ") (rs_status rs)
        else ParseWikipediaJSON (rs_data rs) lang
    end).

(** *** Mojeek *)
(** [a.Text()] and [a.Attr()] on a selection: the texts of all its nodes, the first's attribute. *)
Definition texts (ns : list Node) : gostring := mjoin (Text <$> ns).
Definition mojeek_row (s : Node) : option Result :=
  let a := Find s (lit "h2 a.title") in
  let title := TrimSpace (texts a) in
  let href := default [] (attr_of (head a) (lit "href")) in
  if bool_decide (title = []) || bool_decide (href = []) then None else
  Some (MkResult title href (TrimSpace (texts (Find s (lit "p.s")))) fone
          (engine_meta (lit "mojeek"))).
Definition ParseMojeekHTML (data : gostring) : result (list Result) :=
  match NewDocument data with
  | Err e => Err (Wrapped (lit "mojeek: html parse") e)
  | Val doc => Val (omap mojeek_row (Find doc (lit "ul.results-standard li")))
  end.
Definition SearchMojeekDirect cx bc query m (tr : gostring) : M W (result (list Result)) :=
  when m (Incr (lit "mojeek_requests") []);;
  unless_done cx (
    let query := if decide (tr = []) then query else query ++ lit " since:" ++ tr in
    let u := lit "https://www.mojeek.com/search" ++ lit "?q=" ++ QueryEscape query in
    r ← Do bc GET u (<[lit "accept" := acceptHTML]> (ChromeHeadersFor (Some bc))) None;
    mret match r with
    | Err e => Err e
    | Val rs =>
        if rs_status rs =? 429 then Val []
        else if negb (rs_status rs =? 200)
        then bad_status (lit "mojeek: unexpected status ") (rs_status rs)
        else ParseMojeekHTML (rs_data rs)
    end).

(** *** Marginalia; [text] is what an error's [Error] method returns *)
Variable text : error → gostring.
Definition marginalia_key (key : gostring) : gostring :=
  let key := TrimSpace key in if decide (key = []) then lit "public" else key.
Definition marginalia_url (key query : gostring) : gostring :=
  lit "https://api.marginalia.nu/" ++ PathEscape key ++ lit "/search/" ++ PathEscape query ++
  lit "?count=10".
Definition searchMarginaliaDirect cx bc query (key : gostring) m : M W (result (list Result)) :=
  when m (Incr (lit "marginalia_requests") []);;
  unless_done cx (
    let key := marginalia_key key in
    let redactKey := if decide (key = lit "public") then [] else key in
    r ← Do bc GET (marginalia_url key query)
          (<[lit "accept" := acceptJSON]> (ChromeHeadersFor (Some bc))) None;
    mret match r with
    | Err e => Err (Redacted (lit "marginalia: request failed: " ++
                              redactKeyFromString (text e) redactKey) e)
    | Val rs =>
        if rs_status rs =? 429 then Val []
        else if negb (rs_status rs =? 200)
        then bad_status (lit "marginalia: unexpected status ") (rs_status rs)
        else ParseMarginaliaJSON (rs_data rs)
    end).
End SearchEngines.

(** ** The key does not reach an error message *)
Lemma PathEscape_percent key : PathEscape key ≠ key → 37 ∈ PathEscape key.
Proof.
  unfold PathEscape, escape. induction key as [|c key IH]; [done|]. rewrite bind_cons.
  unfold escape_byte at 1 3. rewrite andb_comm, bool_decide_false by done. cbn [andb].
  destruct (shouldEscape c encodePathSegment); [set_solver|]. intros Hne.
  apply elem_of_app. right. apply IH. intros E. apply Hne. by rewrite E.
Qed.
Lemma PathEscape_no_bracket key c : bytes_ok key → c ∈ PathEscape key → c ∉ [91; 93].
Proof.
  intros Hk. unfold PathEscape, escape. rewrite list_elem_of_bind. intros (b & Hc & Hb).
  unfold bytes_ok in Hk. rewrite Forall_forall in Hk. specialize (Hk b Hb). revert Hc.
  unfold escape_byte. rewrite andb_comm, bool_decide_false by done. cbn [andb].
  destruct (shouldEscape b encodePathSegment) eqn:E.
  - rewrite !elem_of_cons, elem_of_nil. unfold hex_digit. intros Hc Hin.
    destruct (Z.ltb_spec (b / 16) 10), (Z.ltb_spec (b mod 16) 10); lia.
  - intros ->%list_elem_of_singleton Hin. rewrite !elem_of_cons, elem_of_nil in Hin.
    destruct Hin as [->|[->|[]]]; done.
Qed.
(** After redaction neither the key nor its escaped form occurs in the text, whatever the
    text, for a key without brackets that is not a part of the word "redacted". *)
Theorem redactKey_hides s key :
  bytes_ok key → key ≠ [] → 91 ∉ key → 93 ∉ key → Contains (lit "redacted") key = false →
  Contains (redactKeyFromString s key) key = false ∧
  Contains (redactKeyFromString s key) (PathEscape key) = false.
Proof.
  intros Hb Hne H1 H2 Hr. unfold redactKeyFromString. rewrite decide_False by done.
  change redacted with (91 :: lit "redacted" ++ [93]).
  destruct (ReplaceAll_segments s key (91 :: lit "redacted" ++ [93]) Hne) as (segs & _ & Hs & Hf & _).
  rewrite Hs. pose proof (Join_not_contains segs 91 _ 93 key H1 H2 Hne Hr Hf) as Hk.
  case_decide as He; [by rewrite He|].
  set (t := Join segs (91 :: lit "redacted" ++ [93])) in *.
  assert (PathEscape key ≠ []) as Hne' by (intros E; apply PathEscape_percent in He; rewrite E in He; set_solver).
  destruct (ReplaceAll_segments t (PathEscape key) (91 :: lit "redacted" ++ [93]) Hne')
    as (segs' & Ht & -> & Hf' & _).
  split; apply Join_not_contains; try done.
  - rewrite Forall_forall in *. intros seg Hseg.
    apply not_true_iff_false. intros Hc. apply (Join_seg_infix segs' (PathEscape key)) in Hseg as (a & b & E).
    rewrite <- Ht in E. apply not_true_iff_false in Hk. apply Hk. rewrite E.
    by apply Contains_app_r, Contains_app_l.
  - intros Hin%PathEscape_no_bracket; [set_solver|done].
  - intros Hin%PathEscape_no_bracket; [set_solver|done].
  - apply not_true_iff_false. intros (a & b & E)%Contains_spec.
    apply PathEscape_percent in He. assert (37 ∈ lit "redacted") as Hin by (rewrite E; set_solver).
    revert Hin. by apply (bool_decide_unpack (37 ∉ lit "redacted")).
Qed.
Lemma redactKey_hides_witness :
  Contains (redactKeyFromString (lit "Get https://api.marginalia.nu/k%2F1/search/q: k/1 refused")
              (lit "k/1")) (lit "k/1") = false ∧
  redactKeyFromString (lit "Get https://api.marginalia.nu/k%2F1/search/q: k/1 refused") (lit "k/1") =
    lit "Get https://api.marginalia.nu/[redacted]/search/q: [redacted] refused".
Proof.
  split; [|vm_compute; reflexivity].
  apply redactKey_hides; try (vm_compute; reflexivity); try done;
    apply (bool_decide_unpack _); vm_compute; exact I.
Defined.
