(* ===== verification/Http.v ===== *)
(** The part of [net/http] the API clients use: a request, a reply with the body read to its end,
    and a client as an interface on the world. *)
From S2P Require Import Prelude Unicode Utf8 GoStrings GoUrl Effects.
Local Open Scope Z_scope.

Record HttpRequest := {
  rq_method : gostring; rq_url : gostring;
  rq_headers : list (gostring * gostring);     (* in the order they are set *)
  rq_body : gostring
}.
Record HttpReply := {
  hr_status : Z;
  hr_body : result gostring                    (* what reading the body to its end gives *)
}.
(** [http.NewRequestWithContext] fails on a URL that does not parse. *)
Definition NewRequest (method url : gostring) (headers : list (gostring * gostring))
    (body : gostring) : option HttpRequest :=
  match Parse url with
  | Some _ => Some {| rq_method := method; rq_url := url; rq_headers := headers; rq_body := body |}
  | None => None
  end.
Class HttpClient (W : Type) := { http_Do : ctx → HttpRequest → M W (result HttpReply) }.
Definition StatusOK : Z := 200.
