(* ===== verification/KeyedEngines.v ===== *)
(** The engines that speak JSON or XML: Yep, Stack Overflow and arXiv of package [websearch]
    ([yep.go], [stackoverflow.go], [arxiv.go]), its rate-limited provider ([ratelimit.go]), and the
    Brave API of package [search] ([brave_api.go]). The token buckets, the decoder of gzip
    and the UTC clock, in seconds, are parameters. *)
From S2P Require Import Prelude Unicode Utf8 GoStrings GoUrl Floats Json Xml Effects GoTime Results Retry Serp Engines SearchEngines Budget Http.
Local Open Scope Z_scope.

(** ** Times *)
Definition format_RFC3339 (t : Z) : gostring :=
  let s := t mod 86400 in
  format_date (lit "-") (t / 86400) ++ lit "T" ++ pad2 (s / 3600) ++ lit ":" ++
  pad2 (s / 60 mod 60) ++ lit ":" ++ pad2 (s mod 60) ++ lit "Z".
Definition leap (y : Z) : bool := (y mod 4 =? 0) && (negb (y mod 100 =? 0) || (y mod 400 =? 0)).
(** [YearDay]: the days of the months before, then the day. *)
Definition YearDay (day : Z) : Z :=
  let '(y, m, d) := civil day in
  nth (Z.to_nat (m - 1)) [0; 31; 59; 90; 120; 151; 181; 212; 243; 273; 304; 334] 0 +
  (if leap y && (2 <? m) then 1 else 0) + d.
Example RFC3339_ex : format_RFC3339 1709213696 = lit "2024-02-29T13:34:56Z".
Proof. vm_compute. reflexivity. Qed.
Example YearDay_ex : (YearDay 0, YearDay 19782, YearDay 20088) = (1, 60, 366).
Proof. vm_compute. reflexivity. Qed.

(** ** Yep *)
Definition yepEndpoint : gostring := lit "https://api.yep.com/search".
Definition timeRangeToYepStart (now : Z) (tr : gostring) : gostring :=
  let before days := format_RFC3339 (now - days * 86400) in
  let tr := StringsToLower tr in
  if decide (tr = lit "day") then before 1 else if decide (tr = lit "week") then before 7
  else if decide (tr = lit "month") then before 30 else if decide (tr = lit "year") then before 365
  else [].
Definition yep_args (now : Z) (query timeRange : gostring) : list (gostring * gostring) :=
  let start := timeRangeToYepStart now timeRange in
  [(lit "query", query); (lit "safeSearch", lit "off"); (lit "type", lit "web")] ++
  if decide (start = []) then []
  else [(lit "start_crawl_date", start); (lit "end_crawl_date", format_RFC3339 now)].
Record yepResult := { yr_URL : gostring; yr_Title : gostring; yr_Snippet : gostring; yr_Type : gostring }.
Definition dec_yepResult : dec yepResult := dec_struct (λ p kvs,
  u ← field (lit "url") dec_string (yr_URL p) kvs;
  t ← field (lit "title") dec_string (yr_Title p) kvs;
  s ← field (lit "snippet") dec_string (yr_Snippet p) kvs;
  y ← field (lit "type") dec_string (yr_Type p) kvs;
  Some {| yr_URL := u; yr_Title := t; yr_Snippet := s; yr_Type := y |}).
Definition dec_yepResponse : dec (list yepResult) := dec_struct (λ p kvs,
  r ← field (lit "results") (dec_list {| yr_URL := []; yr_Title := []; yr_Snippet := []; yr_Type := [] |}
                                      dec_yepResult) p kvs;
  _ ← field (lit "total") dec_int 0 kvs; Some r).
(** A result of an engine, with its label and the fixed score. *)
Definition direct (engine title url content : gostring) : Result :=
  MkResult title url content directResultScore (engine_meta engine).
Definition yep_row (r : yepResult) : option Result :=
  if bool_decide (yr_Type r ≠ lit "Organic") || bool_decide (yr_URL r = []) || bool_decide (yr_Title r = [])
  then None else Some (direct (lit "yep") (yr_Title r) (yr_URL r) (yr_Snippet r)).
(** [["Ok", {"results": ...}]]. *)
Definition ParseYepJSON (data : gostring) : result (list Result) :=
  match (match parse_json data with Some (JArr l) => Some l | Some JNull => Some [] | _ => None end) with
  | None => Err (Wrapped (lit "unmarshal envelope") (ErrMsg []))
  | Some (status :: body :: _) =>
      if decide (dec_string [] status = Some (lit "Ok")) then
        match dec_yepResponse [] body with
        | None => Err (Wrapped (lit "unmarshal body") (ErrMsg []))
        | Some rs => Val (omap yep_row rs)
        end
      else Err (ErrMsg (lit "yep status"))
  | Some l => Err (ErrMsg (lit "unexpected response length " ++ Itoa (zlen l)))
  end.

(** ** Stack Overflow *)
Definition soAPIBase : gostring := lit "https://api.stackexchange.com/2.3".
Definition soDailyLimit : Z := 300.
(** The daily quota: the same two atomics as Yandex's monthly one, over the day of the year. *)
Definition soCheckLimit (yearDay : Z) (c : Monthly.counter) : bool * Monthly.counter :=
  let c := if Monthly.month c =? yearDay then c else {| Monthly.count := 0; Monthly.month := yearDay |} in
  (Monthly.count c + 1 <=? soDailyLimit,
   {| Monthly.count := Monthly.count c + 1; Monthly.month := Monthly.month c |}).
Record soItem := {
  so_Title : gostring; so_Link : gostring; so_Score : Z; AnswerCount : Z; Tags : list gostring;
  IsAnswered : bool
}.
Definition dec_soItem : dec soItem := dec_struct (λ p kvs,
  t ← field (lit "title") dec_string (so_Title p) kvs;
  l ← field (lit "link") dec_string (so_Link p) kvs;
  s ← field (lit "score") dec_int (so_Score p) kvs;
  n ← field (lit "answer_count") dec_int (AnswerCount p) kvs;
  g ← field (lit "tags") (dec_list [] dec_string) (Tags p) kvs;
  a ← field (lit "is_answered") dec_bool (IsAnswered p) kvs;
  Some {| so_Title := t; so_Link := l; so_Score := s; AnswerCount := n; Tags := g; IsAnswered := a |}).
Definition dec_soResponse : dec (list soItem) := dec_struct (λ p kvs,
  i ← field (lit "items") (dec_list {| so_Title := []; so_Link := []; so_Score := 0; AnswerCount := 0;
                                       Tags := []; IsAnswered := false |} dec_soItem) p kvs;
  _ ← field (lit "quota_remaining") dec_int 0 kvs; Some i).
Definition so_row (item : soItem) : option Result :=
  if bool_decide (so_Title item = []) || bool_decide (so_Link item = []) then None else
  let answered := if IsAnswered item then lit "answered" else lit "unanswered" in
  let content := lit "[" ++ Join (Tags item) (lit ", ") ++ lit "] | " ++ Itoa (so_Score item) ++
                 lit " pts | " ++ Itoa (AnswerCount item) ++ lit " answers | " ++ answered in
  Some (direct (lit "stackoverflow") (so_Title item) (so_Link item) content).
Definition ParseStackOverflowJSON (data : gostring) : result (list Result) :=
  match Unmarshal [] dec_soResponse data with
  | None => Err (Wrapped (lit "parse json") (ErrMsg []))
  | Some items => Val (omap so_row items)
  end.

(** ** arXiv: the entries of the decoded feed *)
Definition arxivDefaultBase : gostring := lit "http://export.arxiv.org".
Record arxivEntry := {
  ax_Title : gostring; ax_ID : gostring; ax_Summary : gostring; ax_Authors : list gostring
}.
Definition arxiv_row (e : arxivEntry) : option Result :=
  let title := TrimSpace (ax_Title e) in
  if bool_decide (title = []) || bool_decide (ax_ID e = []) then None else
  let authors := filter (λ n, n ≠ []) (TrimSpace <$> ax_Authors e) in
  let content := TrimSpace (ax_Summary e) in
  let content := if decide (authors = []) then content
                 else lit "Authors: " ++ Join authors (lit ", ") ++ [10] ++ content in
  Some (direct (lit "arxiv") title (TrimSpace (ax_ID e)) content).
(** The fields of the feed, from the tree of the document. *)
Definition xml_entry (n : node) : arxivEntry :=
  {| ax_Title := string_field (lit "title") n; ax_ID := string_field (lit "id") n;
     ax_Summary := string_field (lit "summary") n;
     ax_Authors := string_field (lit "name") <$> children_of (lit "author") n |}.
Definition xml_feed (root : node) : option (list arxivEntry) :=
  if decide (local_name root = Some (lit "feed")) then
    Some (xml_entry <$> children_of (lit "entry") root)
  else None.
Definition ParseArxivAtom `{XmlNames} (data : gostring) : result (list Result) :=
  match xml_Unmarshal xml_feed data with
  | None => Err (Wrapped (lit "parse atom") (ErrMsg []))
  | Some entries => Val (omap arxiv_row entries)
  end.

(** ** The Brave API *)
Definition braveAPIEndpoint : gostring := lit "https://api.search.brave.com/res/v1/web/search".
Definition braveAPIScore : float := flit 5 1.
Definition dec_braveAPIResult : dec (gostring * gostring * gostring) := dec_struct (λ p kvs,
  t ← field (lit "title") dec_string p.1.1 kvs;
  u ← field (lit "url") dec_string p.1.2 kvs;
  d ← field (lit "description") dec_string p.2 kvs; Some (t, u, d)).
Definition dec_braveAPIResponse : dec (list (gostring * gostring * gostring)) := dec_struct (λ p kvs,
  field (lit "web") (dec_struct (λ p kvs,
    field (lit "results") (dec_list ([], [], []) dec_braveAPIResult) p kvs)) p kvs).
Definition brave_api_row (r : gostring * gostring * gostring) : option Result :=
  let '(t, u, d) := r in
  if bool_decide (u = []) || bool_decide (t = []) then None
  else Some (MkResult t u (TrimSpace d) braveAPIScore (engine_meta (lit "brave_api"))).

Section Keyed.
Context {W : Type} `{Clock W} `{Host W} `{HttpClient W} `{Metrics W} `{XmlNames}.
Implicit Types (cx : ctx) (query : gostring) (opts : SearchOpts).
(** The UTC time in seconds. *)
Variable utc : W → Z.

Definition yep_classify opts (r : result Response) : result (list Result) :=
  match r with
  | Err e => Err (Wrapped (lit "yep request") e)
  | Val rs => if negb (rs_status rs =? 200) then bad_status (lit "yep status ") (rs_status rs)
              else limit_results (lit "yep") (Limit opts) (ParseYepJSON (rs_data rs))
  end.
Definition yep_ask (b : BrowserDoer W) query opts : M W (result Response) :=
  args ← gets (λ w, yep_args (utc w) query (TimeRange opts));
  Do b GET (yepEndpoint ++ lit "?" ++ EncodeQuery args)
     (<[lit "referer" := lit "https://yep.com/"]> (<[lit "accept" := acceptJSON]> (ChromeHeadersFor (Some b))))
     None.
Definition Yep_Search (browser : option (BrowserDoer W)) cx query opts : M W (result (list Result)) :=
  match browser with
  | None => mret (Err (ErrMsg (lit "yep: BrowserDoer is required (use WithYepBrowser)")))
  | Some b => unless_done cx (r ← yep_ask b query opts; mret (yep_classify opts r))
  end.

(** A reply with its headers, and the decoder of gzip. *)
Variable http_Do_headers : ctx → HttpRequest → M W (result (HttpReply * list (gostring * gostring))).
Variable gunzip : gostring → result gostring.
Definition soReadBody (resp : HttpReply) (hdrs : list (gostring * gostring)) : result gostring :=
  if decide (Get hdrs (lit "Content-Encoding") = lit "gzip") then
    match hr_body resp with Val data => gunzip data | Err e => Err e end
  else hr_body resp.
Definition so_limit opts : Z := if Limit opts <=? 0 then 10 else Limit opts.
Definition so_url (baseURL query : gostring) (limit : Z) : gostring :=
  baseURL ++ lit "/search/advanced?" ++
  EncodeQuery [(lit "q", query); (lit "site", lit "stackoverflow"); (lit "order", lit "desc");
               (lit "sort", lit "relevance"); (lit "pagesize", Itoa limit); (lit "filter", lit "withbody")].
Definition so_classify (limit : Z) (r : result (HttpReply * list (gostring * gostring)))
    : result (list Result) :=
  match r with
  | Err e => Err (Wrapped (lit "stackoverflow: request") e)
  | Val (resp, hdrs) =>
      if negb (hr_status resp =? StatusOK) then bad_status (lit "stackoverflow: status ") (hr_status resp) else
      match soReadBody resp hdrs with
      | Err e => Err (Wrapped (lit "stackoverflow: read body") e)
      | Val body =>
          match ParseStackOverflowJSON body with
          | Err e => Err (Wrapped (lit "stackoverflow") e)
          | Val rs => Val (applyLimit rs limit)
          end
      end
  end.
(** The state holds the daily counter; the check runs without interruption. *)
Definition StackOverflow_Search (baseURL : gostring) cx query opts
    : M (Monthly.counter * W) (result (list Result)) := λ s,
  let '(ok, c) := soCheckLimit (YearDay (utc s.2 / 86400)) s.1 in
  if negb ok then (Val [], (c, s.2)) else
  let limit := so_limit opts in
  match NewRequest (lit "GET") (so_url baseURL query limit) [] [] with
  | None => (Err (Wrapped (lit "stackoverflow: build request") (ErrMsg [])), (c, s.2))
  | Some req => let '(r, w) := http_Do_headers cx req s.2 in (so_classify limit r, (c, w))
  end.

Definition arxiv_classify (limit : Z) (r : result HttpReply) : result (list Result) :=
  match r with
  | Err e => Err (Wrapped (lit "arxiv: request") e)
  | Val resp =>
      if negb (hr_status resp =? StatusOK) then bad_status (lit "arxiv: status ") (hr_status resp) else
      match hr_body resp with
      | Err e => Err (Wrapped (lit "arxiv: read body") e)
      | Val body =>
          match ParseArxivAtom body with
          | Err e => Err (Wrapped (lit "arxiv") e)
          | Val rs => Val (applyLimit rs limit)
          end
      end
  end.
Definition Arxiv_Search (baseURL : gostring) cx query opts : M W (result (list Result)) :=
  let limit := so_limit opts in
  match NewRequest (lit "GET") (baseURL ++ lit "/api/query?search_query=all:" ++ QueryEscape query ++
                                lit "&max_results=" ++ Itoa limit ++ lit "&sortBy=relevance") [] [] with
  | None => mret (Err (Wrapped (lit "arxiv: build request") (ErrMsg [])))
  | Some req => r ← http_Do cx req; mret (arxiv_classify limit r)
  end.

(** [RateLimited.Search]: a token of the bucket, then the provider inside. *)
Definition RateLimited_Search (wait : ctx → M W (option error))
    (inner : ctx → gostring → SearchOpts → M W (result (list Result))) cx query opts
    : M W (result (list Result)) :=
  e ← wait cx;
  match e with
  | Some e => mret (Err (Wrapped (lit "rate limit") e))
  | None => inner cx query opts
  end.

Variable braveAPILimiter_Wait : ctx → M W (option error).
Definition incrSourceResult (m : bool) (source outcome : gostring) : M W () :=
  when m (Incr (lit "source_result_total{source=" ++ source ++ lit ",outcome=" ++ outcome ++ lit "}") []).
Definition braveAPIFetch cx (reqURL : gostring) (headers : list (gostring * gostring))
    : M W (result gostring) :=
  match NewRequest (lit "GET") reqURL headers [] with
  | None => mret (Err (ErrMsg []))
  | Some req =>
      r ← http_Do cx req;
      mret match r with
           | Err e => Err e
           | Val resp =>
               if hr_status resp =? 429 then Err (ErrMsg (lit "brave_api 429 rate limited"))
               else if negb (hr_status resp =? StatusOK) then bad_status (lit "brave_api HTTP ") (hr_status resp)
               else hr_body resp
           end
  end.
(** No failure is an error: what went wrong is only counted. *)
Definition SearchBraveAPI cx (apiKey query : gostring) (m : bool) : M W (list Result) :=
  if decide (apiKey = []) then mret [] else
  let failed := incrSourceResult m (lit "brave_api") (lit "fail");; mret [] in
  e ← braveAPILimiter_Wait cx;
  match e with
  | Some _ => failed
  | None =>
      body ← braveAPIFetch cx
        (braveAPIEndpoint ++ lit "?" ++ EncodeQuery [(lit "q", query); (lit "count", lit "10")])
        [(lit "X-Subscription-Token", apiKey); (lit "Accept", lit "application/json")];
      match body with
      | Err _ => failed
      | Val data =>
          match Unmarshal [] dec_braveAPIResponse data with
          | None => failed
          | Some resp =>
              let results := omap brave_api_row resp in
              incrSourceResult m (lit "brave_api") (if decide (results = []) then lit "fail" else lit "ok");;
              mret results
          end
      end
  end.

(** ** The contract *)
Local Ltac row f := apply Forall_forall; intros ? (? & _ & Hx)%list_elem_of_omap; revert Hx; unfold f;
  repeat (case_match; [done|]); intros; simplify_eq; apply labelled_intro.
Lemma yep_rows data rs : ParseYepJSON data = Val rs → Forall (labelled (lit "yep")) rs.
Proof.
  unfold ParseYepJSON. repeat case_match; try done. intros [= <-]. row yep_row.
Qed.
Lemma so_rows data rs : ParseStackOverflowJSON data = Val rs → Forall (labelled (lit "stackoverflow")) rs.
Proof. unfold ParseStackOverflowJSON. case_match; [|done]. intros [= <-]. row so_row. Qed.
Lemma arxiv_rows data rs :
  ParseArxivAtom data = Val rs → Forall (labelled (lit "arxiv")) rs.
Proof. unfold ParseArxivAtom. case_match; [|done]. intros [= <-]. row arxiv_row. Qed.
Lemma so_limit_pos opts : 0 < so_limit opts.
Proof. unfold so_limit. destruct (Z.leb_spec (Limit opts) 0); lia. Qed.
(** Yep keeps the contract of the scrapers, and so does any provider behind a token bucket that is
    refused once the context is done, with the context's error, and leaves the world alone then. *)
Lemma yep_contract b : provider_contract (lit "yep") (Yep_Search (Some b)).
Proof.
  eapply (one_request_contract _ _ yep_classify (yep_ask b)); [intros; reflexivity|].
  intros o r rs. unfold yep_classify. destruct r as [x|]; [|done]. case_match; [done|].
  intros (rs0 & Hp & ->)%limit_results_Val. exists rs0. split; [done|]. by eapply yep_rows.
Qed.
Lemma rate_limited_contract engine wait inner :
  (∀ cx w e, ctx_err cx w = Some e → wait cx w = (Some e, w)) →
  provider_contract engine inner → provider_contract engine (RateLimited_Search wait inner).
Proof.
  intros Hw [Hd Hl Hm]. unfold RateLimited_Search, mbind, M_bind. split.
  - intros cx q o w e He. rewrite (Hw cx w e He). eauto.
  - intros cx q o w rs w'. destruct (wait cx w) as [[e|] w1]; [done|]. apply Hl.
  - intros cx q o w rs w'. destruct (wait cx w) as [[e|] w1]; [done|]. apply Hm.
Qed.
(** The two APIs without a context check: at most the limit, ten by default, all labelled. *)
Lemma so_results baseURL cx q o s rs s' : StackOverflow_Search baseURL cx q o s = (Val rs, s') →
  zlen rs <= so_limit o ∧ Forall (labelled (lit "stackoverflow")) rs.
Proof.
  pose proof (so_limit_pos o) as Hp. unfold StackOverflow_Search.
  destruct (soCheckLimit _ _) as [[] c]; cbn [negb]; [|intros [= <- _]; split; [rewrite zlen_nil; lia|constructor]].
  destruct (NewRequest _ _ _ _) as [req|]; [|done]. destruct (http_Do_headers cx req s.2) as [r w].
  intros [= E _]. unfold so_classify in E. repeat (case_match; try done). simplify_eq.
  split; [by apply zlen_applyLimit|]. apply Forall_applyLimit. by eapply so_rows.
Qed.
Lemma arxiv_results baseURL cx q o w rs w' : Arxiv_Search baseURL cx q o w = (Val rs, w') →
  zlen rs <= so_limit o ∧ Forall (labelled (lit "arxiv")) rs.
Proof.
  pose proof (so_limit_pos o) as Hp. unfold Arxiv_Search, mbind, M_bind.
  destruct (NewRequest _ _ _ _) as [req|]; [|done]. destruct (http_Do cx req w) as [r w1].
  unfold mret, M_ret. intros [= E _]. unfold arxiv_classify in E. repeat (case_match; try done). simplify_eq.
  split; [by apply zlen_applyLimit|]. apply Forall_applyLimit. by eapply arxiv_rows.
Qed.
End Keyed.
