(* ===== verification/Constructors.v ===== *)
(** The constructors of packages [websearch] and [search], with their functional options: the
    engines ([arxiv.go], [bing.go], [brave.go], [ddg.go], [reddit.go], [stackoverflow.go],
    [startpage.go], [yep.go]); the
    plain HTTP doer and the test for a nil interface of [dual_browser.go]; and the copies that
    package [search] keeps of helpers of [websearch] ([dedup.go], [helpers.go], [ddg.go]). *)
From S2P Require Import Prelude Unicode Utf8 GoStrings GoUrl Floats Json Xml Effects GoTime Results Dedup Retry Serp Engines SearchEngines Budget Http KeyedEngines.
Local Open Scope Z_scope.

(** A constructor applies its options in order to the value it starts from. *)
Definition configure {A} (zero : A) (opts : list (A → A)) : A := foldl (λ a o, o a) zero opts.

Section Constructors.
Context {W Node : Type} `{Clock W} `{Engines.Host W} `{GoQuery Node} `{HttpClient W} `{Metrics W} `{XmlNames}.
Notation doer := (BrowserDoer W).
(** The UTC time in seconds. *)
Variable utc : W → Z.

(** ** The scrapers: nothing but a browser *)
Record Bing := { bing_browser : option doer }.
Definition WithBingBrowser (bc : option doer) (_ : Bing) : Bing := {| bing_browser := bc |}.
Definition NewBing : list (Bing → Bing) → Bing := configure {| bing_browser := None |}.
Record Brave := { brave_browser : option doer }.
Definition WithBraveBrowser (bc : option doer) (_ : Brave) : Brave := {| brave_browser := bc |}.
Definition NewBrave : list (Brave → Brave) → Brave := configure {| brave_browser := None |}.
Record Reddit := { reddit_browser : option doer }.
Definition WithRedditBrowser (bc : option doer) (_ : Reddit) : Reddit := {| reddit_browser := bc |}.
Definition NewReddit : list (Reddit → Reddit) → Reddit := configure {| reddit_browser := None |}.
Record Yep := { yep_browser : option doer }.
Definition WithYepBrowser (bc : option doer) (_ : Yep) : Yep := {| yep_browser := bc |}.
Definition NewYep : list (Yep → Yep) → Yep := configure {| yep_browser := None |}.
(** With a language, or a region, of their own. *)
Record Startpage := { sp_browser : option doer; sp_language : gostring }.
Definition WithStartpageBrowser (bc : option doer) (sp : Startpage) : Startpage :=
  {| sp_browser := bc; sp_language := sp_language sp |}.
Definition WithStartpageLanguage (lang : gostring) (sp : Startpage) : Startpage :=
  {| sp_browser := sp_browser sp; sp_language := lang |}.
Definition NewStartpage : list (Startpage → Startpage) → Startpage :=
  configure {| sp_browser := None; sp_language := lit "english" |}.
Record DDGConfig := { dc_browser : option doer; dc_region : gostring }.
Definition WithDDGBrowser (bc : option doer) (d : DDGConfig) : DDGConfig :=
  {| dc_browser := bc; dc_region := dc_region d |}.
Definition WithDDGRegion (region : gostring) (d : DDGConfig) : DDGConfig :=
  {| dc_browser := dc_browser d; dc_region := region |}.
Definition NewDDG_opts (opts : list (DDGConfig → DDGConfig)) : result (DDG (W := W)) :=
  let d := configure {| dc_browser := None; dc_region := lit "wt-wt" |} opts in
  NewDDG (dc_browser d) (Some (dc_region d)).

(** ** The API clients: a base URL, and an HTTP client that is the world's *)
Record Arxiv := { arxiv_baseURL : gostring }.
Definition WithArxivBaseURL (u : gostring) (_ : Arxiv) : Arxiv := {| arxiv_baseURL := u |}.
Definition NewArxiv : list (Arxiv → Arxiv) → Arxiv := configure {| arxiv_baseURL := arxivDefaultBase |}.
Record StackOverflow := { so_baseURL : gostring }.
Definition WithSOBaseURL (u : gostring) (_ : StackOverflow) : StackOverflow := {| so_baseURL := u |}.
Definition NewStackOverflow : list (StackOverflow → StackOverflow) → StackOverflow :=
  configure {| so_baseURL := soAPIBase |}.

(** An engine that was given a browser, whatever other options came before, keeps the contract of a
    provider. *)
Lemma constructed_contract (b : doer) bs rs ys vs ss :
  provider_contract (lit "bing") (Bing_Search (bing_browser (NewBing (bs ++ [WithBingBrowser (Some b)])))) ∧
  provider_contract (lit "reddit") (Reddit_Search (reddit_browser (NewReddit (rs ++ [WithRedditBrowser (Some b)])))) ∧
  provider_contract (lit "yep") (Yep_Search utc (yep_browser (NewYep (ys ++ [WithYepBrowser (Some b)])))) ∧
  provider_contract (lit "brave") (Brave_Search (brave_browser (NewBrave (vs ++ [WithBraveBrowser (Some b)])))) ∧
  (let sp := NewStartpage (ss ++ [WithStartpageBrowser (Some b)]) in
   provider_contract (lit "startpage") (Startpage_Search (sp_browser sp) (sp_language sp))).
Proof.
  unfold NewBing, NewReddit, NewYep, NewBrave, NewStartpage, configure.
  cbv zeta. rewrite !foldl_app. cbn [foldl WithBingBrowser WithRedditBrowser WithYepBrowser WithBraveBrowser
    WithStartpageBrowser bing_browser reddit_browser yep_browser brave_browser sp_browser].
  split_and!; [apply bing_contract|apply reddit_contract|apply yep_contract|apply brave_contract|
               apply startpage_contract].
Qed.
(** Without a browser DuckDuckGo cannot be made. *)
Lemma NewDDG_needs_browser region : ∃ e, NewDDG_opts [WithDDGRegion region] = Err e.
Proof. by eexists. Qed.

(** ** The plain HTTP doer: a reply comes with its headers, whose keys are canonical, and the headers
    of a request are set in some order *)
Variable client_Do : HttpRequest → M W (result (HttpReply * list (gostring * gostring))).
Definition HTTPDoer_Do (method url : gostring) (headers : Headers) (body : option gostring)
    : M W (result Response) :=
  match NewRequest method url (map_to_list headers) (default [] body) with
  | None => mret (Err (ErrMsg []))
  | Some req =>
      r ← client_Do req;
      mret match r with
           | Err e => Err e
           | Val (resp, hdrs) =>
               match hr_body resp with
               | Err e => Err e
               | Val data => Val {| rs_data := data; rs_headers := list_to_map hdrs;
                                    rs_status := hr_status resp |}
               end
           end
  end.
Definition NewHTTPDoer : doer := {| identity := None; Do := HTTPDoer_Do |}.

(** ** Nil interfaces: no value, or a value of a kind that can be nil and is *)
Inductive Kind := Pointer | Map | Slice | Chan | Func | Interface | OtherKind.
Inductive any_value := NilInterface | Holding (k : Kind) (IsNil : bool).
Definition isNilInterface (v : any_value) : bool :=
  match v with
  | NilInterface => true
  | Holding OtherKind _ => false
  | Holding _ IsNil => IsNil
  end.
(** A fallback is its interface value and, when that is not nil, what it does. *)
Definition newDualBrowserWithLogger (primary : doer) (fallback : any_value * doer) : doer :=
  if isNilInterface fallback.1 then primary else newDualBrowser primary (Some fallback.2).
Lemma typed_nil_fallback primary k d :
  k ≠ OtherKind → newDualBrowserWithLogger primary (Holding k true, d) = primary.
Proof. by destruct k. Qed.
End Constructors.

(** ** Copies of package [search] *)
Module SearchCopies.
Definition tokenize (s : gostring) : bag :=
  foldl (λ vec w, <[w := fadd (default fzero (vec !! w)) fone]> vec) ∅
        (FieldsFunc (StringsToLower s) (λ r, negb (IsLetter r) && negb (IsDigit r))).
Definition cosineSimilarity (a b : bag) : float :=
  if bool_decide (a = ∅) || bool_decide (b = ∅) then fzero else
  let sums := foldl (λ '(dot, normA) '(k, v),
                       let normA := fadd normA (fmul v v) in
                       match b !! k with Some bv => (fadd dot (fmul v bv), normA) | None => (dot, normA) end)
                    (fzero, fzero) (map_to_list a) in
  let normB := foldl (λ n '(_, v), fadd n (fmul v v)) fzero (map_to_list b) in
  let denom := fmul (fsqrt sums.2) (fsqrt normB) in
  if feq denom fzero then fzero else fdiv sums.1 denom.
Definition isDDGRateLimited (body : gostring) : bool :=
  let low := StringsToLower body in
  if existsb (Contains low) [lit "please try again"; lit "not a robot"; lit "unusual traffic"; lit "blocked"]
  then true else Contains low ddg_action && Contains low ddg_hidden.
Definition startpageCheckRateLimit (body : gostring) : bool :=
  existsb (Contains (StringsToLower body))
    [lit "rate limited"; lit "too many requests"; lit "g-recaptcha"; lit "captcha"].
(** "Logic matches websearch internal": the copies are the functions they copy. *)
Lemma copies_match :
  (∀ s, tokenize s = Dedup.tokenize s) ∧
  (∀ a b, cosineSimilarity a b = Dedup.cosineSimilarity a b) ∧
  (∀ body, isDDGRateLimited body = IsDDGRateLimited body) ∧
  (∀ body, startpageCheckRateLimit body = isStartpageRateLimited body).
Proof.
  split_and!; [done|intros a b|done|done]. unfold cosineSimilarity, Dedup.cosineSimilarity.
  destruct (bool_decide (a = ∅) || bool_decide (b = ∅)); [done|]. cbv zeta.
  rewrite (foldl_ext_eq _ (λ '(dot, normA) '(k, v),
             (match b !! k with Some bv => fadd dot (fmul v bv) | None => dot end, fadd normA (fmul v v)))).
  2: { intros [dot normA] [k v]. by destruct (b !! k). }
  by destruct (foldl _ _ (map_to_list a)).
Qed.
End SearchCopies.
