(* ===== verification/Fanout.v ===== *)
(** A fan-out over sources with a timeout for each and an early end, as a transition system: what
    [SearchDirect] of package [search] ([direct.go]) and [searchSources] of package [pipeline]
    ([search.go]) have in common. A leg is the goroutine of one launched source, with its context,
    its timer and the inner goroutine that runs the source's function; the legs send on the
    buffered channel the collection drains, and the collection cancels their common context when
    it has enough. A step takes a label that says which goroutine moves, so that a list of labels
    is an interleaving. *)
From S2P Require Import Prelude Unicode Utf8 GoStrings Floats Effects Results Retry.
Local Open Scope Z_scope.

(** Which case the select of a leg takes: the function's result, or the source's context. *)
Inductive branch := TookDone | TookCtx.
(** A context that is done has an error and a cause. *)
Notation ended := (error * error)%type.
Notation fn_result := (result (list Result)).

(** ** What a fan-out is over: sources [J], which send results [R] to a collection of what it has
    so far [C], on a state [St] that holds the world *)
Record fan_ops (W J R C St : Type) := FanOps {
  fo_fn : J → ctx → M W fn_result;                            (* what the inner goroutine runs *)
  fo_send : branch → J → fn_result → option ended → Z → R;    (* what a leg sends *)
  fo_timeout : error;                                         (* the cause of a leg's own timer *)
  fo_none : C;
  fo_receive : C → R → M St C;                                 (* the body of the collection's loop *)
  fo_enough : C → bool;                                       (* it has cancelled the rest *)
  fo_world : St → W;
  fo_set_world : W → St → St
}.
Arguments fo_fn {W J R C St} _ _ _ _.
Arguments fo_send {W J R C St} _ _ _ _ _ _.
Arguments fo_timeout {W J R C St} _.
Arguments fo_none {W J R C St} _.
Arguments fo_receive {W J R C St} _ _ _ _.
Arguments fo_enough {W J R C St} _ _.
Arguments fo_world {W J R C St} _ _.
Arguments fo_set_world {W J R C St} _ _ _.

Section Fanout.
Context {W J R C St : Type} `{Clock W}.
(** [caller] is the context of the search, [cap] the capacity of the channel. *)
Variables (K : fan_ops W J R C St) (caller : ctx) (perSrc : Z) (cap : nat).

(** ** One leg *)
(** Not scheduled yet; in [runSourceWithTimeout], where [srcCtx] is done or not; or sent. *)
Inductive leg_phase := Pending | Running (srcCtx : option ended) | Sent (r : R).
Record leg := Leg {
  l_job : J;
  l_phase : leg_phase;
  l_ctx : ctx;                      (* [srcCtx] as the function sees it *)
  l_timer : option Z;               (* when its own timer fires, if it has one *)
  l_start : Z;
  l_fn : option fn_result           (* what the inner goroutine put in [done] *)
}.
Definition new_leg (j : J) : leg :=
  {| l_job := j; l_phase := Pending; l_ctx := caller; l_timer := None; l_start := 0; l_fn := None |}.
Definition set_phase (p : leg_phase) (l : leg) : leg :=
  {| l_job := l_job l; l_phase := p; l_ctx := l_ctx l; l_timer := l_timer l; l_start := l_start l;
     l_fn := l_fn l |}.
Definition set_fn (r : fn_result) (l : leg) : leg :=
  {| l_job := l_job l; l_phase := l_phase l; l_ctx := l_ctx l; l_timer := l_timer l;
     l_start := l_start l; l_fn := Some r |}.

(** [context.WithTimeoutCause(allDoneCtx, perSrc, cause)]: no timer of its own when
    the parent's deadline is earlier; done at once when the parent is done or the time is over. *)
Definition timed_out : ended := (CtxDeadlineExceeded, fo_timeout K).
Definition own_timer (t : Z) : option Z :=
  let d := t + perSrc in
  match ctx_deadline caller with
  | Some p => if p <? d then None else Some d
  | None => Some d
  end.
Definition start_leg (t : Z) (allDone : option ended) (l : leg) : leg :=
  let timer := own_timer t in
  {| l_job := l_job l;
     l_phase := Running match allDone with
                        | Some c => Some c
                        | None => if match timer with Some d => d <=? t | None => false end
                                  then Some timed_out else None
                        end;
     l_ctx := WithTimeout caller t perSrc; l_timer := timer; l_start := t; l_fn := l_fn l |}.
(** The cancellation of the parent reaches the contexts that are not done. *)
Definition end_ctx (c : ended) (l : leg) : leg :=
  match l_phase l with Running None => set_phase (Running (Some c)) l | _ => l end.

(** ** The search *)
Record fan_state := FState {
  f_legs : list leg;
  f_chan : list R;                  (* the channel's buffer *)
  f_got : list R;                   (* what the collection has received, in order *)
  f_col : C;
  f_cs : St;
  f_done : option ended             (* [allDoneCtx] *)
}.
Definition fanout_init (js : list J) (cs : St) : fan_state :=
  {| f_legs := new_leg <$> js; f_chan := []; f_got := []; f_col := fo_none K;
     f_cs := cs; f_done := None |}.
Definition f_now (s : fan_state) : Z := now (fo_world K (f_cs s)).
Definition set_world (w : W) (s : fan_state) : fan_state :=
  {| f_legs := f_legs s; f_chan := f_chan s; f_got := f_got s; f_col := f_col s;
     f_cs := fo_set_world K w (f_cs s); f_done := f_done s |}.
Definition set_leg (i : nat) (l : leg) (s : fan_state) : fan_state :=
  {| f_legs := <[i:=l]> (f_legs s); f_chan := f_chan s; f_got := f_got s; f_col := f_col s;
     f_cs := f_cs s; f_done := f_done s |}.
(** [allDoneCtx] ends with [c]: the first end is the one that counts. *)
Definition end_all (c : ended) (s : fan_state) : fan_state :=
  match f_done s with
  | Some _ => s
  | None => {| f_legs := end_ctx c <$> f_legs s; f_chan := f_chan s; f_got := f_got s;
               f_col := f_col s; f_cs := f_cs s; f_done := Some c |}
  end.

Inductive move :=
| LWorld (w : W)                    (* anything else moves: time does not go back *)
| LStart (i : nat)                  (* leg [i] makes its context and starts its function *)
| LTimeout (i : nat)                (* the timer of leg [i] fires *)
| LCaller (e cause : error)         (* the caller's context ends *)
| LFn (i : nat)                     (* the function of leg [i] returns, late or not *)
| LSend (i : nat) (b : branch)      (* the select of leg [i] takes case [b], and it sends *)
| LRecv.                            (* the collection takes one result *)

Definition on_leg (i : nat) (s : fan_state) (f : leg → option fan_state) : option fan_state :=
  l ← f_legs s !! i; f l.
(** The caller cancels at any time; its deadline ends it from then on. *)
Definition caller_ends (e : error) (t : Z) : bool :=
  match e with
  | CtxCanceled => true
  | CtxDeadlineExceeded => match ctx_deadline caller with Some p => p <=? t | None => false end
  | _ => false
  end.
(** Whether the select can take the case. *)
Definition ready (b : branch) (c : option ended) (fn : option fn_result) : option fn_result :=
  match b, c with
  | TookDone, _ => fn
  | TookCtx, Some _ => Some (Val [])
  | TookCtx, None => None
  end.
Definition fstep (lb : move) (s : fan_state) : option fan_state :=
  match lb with
  | LWorld w => if f_now s <=? now w then Some (set_world w s) else None
  | LStart i => on_leg i s (λ l,
      match l_phase l with
      | Pending => Some (set_leg i (start_leg (f_now s) (f_done s) l) s)
      | _ => None
      end)
  | LTimeout i => on_leg i s (λ l,
      match l_phase l, l_timer l with
      | Running None, Some d =>
          if d <=? f_now s then Some (set_leg i (set_phase (Running (Some timed_out)) l) s) else None
      | _, _ => None
      end)
  | LCaller e cause =>
      match f_done s with
      | None => if caller_ends e (f_now s) then Some (end_all (e, cause) s) else None
      | Some _ => None
      end
  | LFn i => on_leg i s (λ l,
      match l_phase l, l_fn l with
      | Pending, _ | _, Some _ => None
      | _, None =>
          let '(r, w) := fo_fn K (l_job l) (l_ctx l) (fo_world K (f_cs s)) in
          Some (set_leg i (set_fn r l) (set_world w s))
      end)
  | LSend i b => on_leg i s (λ l,
      match l_phase l with
      | Running c =>
          if (length (f_chan s) <? cap)%nat then
            r ← ready b c (l_fn l);
            let r := fo_send K b (l_job l) r c (f_now s - l_start l) in
            Some {| f_legs := <[i:=set_phase (Sent r) l]> (f_legs s); f_chan := f_chan s ++ [r];
                    f_got := f_got s; f_col := f_col s; f_cs := f_cs s; f_done := f_done s |}
          else None
      | _ => None
      end)
  | LRecv =>
      match f_chan s with
      | [] => None
      | r :: ch =>
          let '(c, cs) := fo_receive K (f_col s) r (f_cs s) in
          let s' := {| f_legs := f_legs s; f_chan := ch; f_got := f_got s ++ [r]; f_col := c;
                       f_cs := cs; f_done := f_done s |} in
          Some (if negb (fo_enough K (f_col s)) && fo_enough K c then end_all (CtxCanceled, CtxCanceled) s' else s')
      end
  end.
Fixpoint frun (ls : list move) (s : fan_state) : option fan_state :=
  match ls with [] => Some s | lb :: ls => s' ← fstep lb s; frun ls s' end.
(** The channel is closed when every leg has sent, and the collection ends when it is empty. *)
Definition has_sent (l : leg) : bool := match l_phase l with Sent _ => true | _ => false end.
Definition finished (s : fan_state) : bool :=
  forallb has_sent (f_legs s) && bool_decide (f_chan s = []).

(** ** Which labels are whose *)
Definition is_world (lb : move) : bool := match lb with LWorld _ => true | _ => false end.
(** The steps that need no function of a source and no cancellation by the caller. *)
Definition on_its_own (lb : move) : bool :=
  match lb with LFn _ => false | LCaller e _ => negb (is_canceled e) | _ => true end.
(** The steps that wait for nothing: not for a function, a timer or the caller. *)
Definition prompt (lb : move) : bool :=
  match lb with LStart _ | LSend _ _ | LRecv => true | _ => false end.
End Fanout.
