(* ===== verification/FanoutLemmas.v ===== *)
(** The properties every fan-out of [Fanout] has: an invariant over its interleavings, a measure
    that every step decreases, and that some step is enabled until the fan-out has ended. They are
    proved against the laws of a collection, which its instances discharge. *)
From S2P Require Import Prelude Unicode Utf8 GoStrings Floats Effects Results Retry Fanout.
Local Open Scope Z_scope.

(** What a collection promises: [spec got s0 c s] relates what it has received since [s0] to what
    it has collected, [c], and its state, whatever the world did in the meantime. *)
Record fan_laws {W J R C St} (K : fan_ops W J R C St) (spec : list R → St → C → St → Prop) : Prop := {
  spec_none : ∀ s, spec [] s (fo_none K) s;
  spec_world : ∀ got s0 c s w, spec got s0 c s → spec got s0 c (fo_set_world K w s);
  spec_receive : ∀ got s0 c s r, spec got s0 c s →
    let '(c', s') := fo_receive K c r s in spec (got ++ [r]) s0 c' s';
  none_not_enough : fo_enough K (fo_none K) = false;
  world_set : ∀ w s, fo_world K (fo_set_world K w s) = w
}.

Section Laws.
Context {W J R C St : Type} `{Clock W}.
Variables (K : fan_ops W J R C St) (spec : list R → St → C → St → Prop).
Hypothesis laws : fan_laws K spec.
Notation leg := (leg (J := J) (R := R)).
Notation fan_state := (fan_state (J := J) (R := R) (C := C) (St := St)).
Notation move := (move (W := W)).
Variables (caller : ctx) (perSrc : Z) (cap : nat).
Notation fstep := (fstep K caller perSrc cap).
Notation frun := (frun K caller perSrc cap).
Notation f_now := (f_now K).
Notation set_world := (set_world K).
Notation new_leg := (new_leg caller).
Notation fanout_init := (fanout_init K caller).
Notation timed_out := (timed_out K).

(** What a leg has sent. *)
Definition sent (l : leg) : option R :=
  match l_phase l with Sent r => Some r | _ => None end.

(** ** The invariant *)
(** [P] is how the caller's context can end, besides the cancellation by the collection. *)
Implicit Types P : ended → Prop.
Definition leg_ok (done : option ended) (l : leg) : Prop :=
  match l_phase l with
  | Pending => l_fn l = None
  | Running None => done = None ∧ (l_timer l = None → is_Some (ctx_deadline caller))
  | Running (Some c) => c = timed_out ∨ done = Some c
  | Sent r =>
      ∃ c b fr d, r = fo_send K b (l_job l) fr c d ∧
        ready b c (l_fn l) = Some fr ∧ (c = None ∨ c = Some timed_out ∨ c = done)
  end.
(** An answer is one that the source's function gives, in the context of its leg. *)
Definition fn_ok (l : leg) : Prop :=
  ∀ r, l_fn l = Some r → ∃ w, (fo_fn K (l_job l) (l_ctx l) w).1 = r.
Record inv P (js : list J) (s0 : St) (s : fan_state) : Prop := {
  inv_jobs : l_job <$> f_legs s = js;
  inv_col : spec (f_got s) s0 (f_col s) (f_cs s);
  inv_sent : f_got s ++ f_chan s ≡ₚ omap sent (f_legs s);
  inv_legs : Forall (leg_ok (f_done s)) (f_legs s);
  inv_done : ∀ c, f_done s = Some c → c = (CtxCanceled, CtxCanceled) ∨ P c;
  inv_fns : Forall fn_ok (f_legs s)
}.
Definition label_ok P (lb : move) : Prop :=
  match lb with LCaller e cause => P (e, cause) | _ => True end.

Lemma sent_end_ctx c l : sent (end_ctx c l) = sent l.
Proof. unfold sent, end_ctx. destruct (l_phase l) as [|[]|] eqn:E; simpl; by rewrite ?E. Qed.
Lemma job_end_ctx c (l : leg) : l_job (end_ctx c l) = l_job l.
Proof. unfold end_ctx. by destruct (l_phase l) as [|[]|]. Qed.
Lemma fn_ok_end c l : fn_ok l → fn_ok (end_ctx c l).
Proof. unfold fn_ok, end_ctx. by destruct (l_phase l) as [|[]|]. Qed.
Lemma leg_ok_end c l : leg_ok None l → leg_ok (Some c) (end_ctx c l).
Proof.
  unfold leg_ok, end_ctx. destruct (l_phase l) as [|[c'|]|r] eqn:E; simpl; rewrite ?E; [done| | |].
  - by intros [-> | ?]; [left|].
  - by right.
  - intros (c' & b & fr & d & Hr & Hb & Hc). exists c', b, fr, d. split_and!; [done..|].
    destruct Hc as [Hc|[Hc|Hc]]; eauto.
Qed.
Lemma inv_end_all P js s0 s c :
  c = (CtxCanceled, CtxCanceled) ∨ P c → inv P js s0 s → inv P js s0 (end_all c s).
Proof.
  intros Hc [? ? Hs Hl ? Hf]. unfold end_all. destruct (f_done s) as [c'|] eqn:E; [split; rewrite ?E; done|].
  split; simpl; try done.
  - rewrite <- list_fmap_compose. rewrite <- inv_jobs0. apply list_fmap_ext. intros. apply job_end_ctx.
  - rewrite Hs. clear. induction (f_legs s) as [|l ls IH]; [done|]. simpl. rewrite sent_end_ctx.
    by destruct (sent l); rewrite IH.
  - rewrite Forall_fmap. eapply Forall_impl; [exact Hl|]. intros l. apply leg_ok_end.
  - intros ? [= <-]. done.
  - rewrite Forall_fmap. eapply Forall_impl; [exact Hf|]. intros l. apply fn_ok_end.
Qed.
(** A step of a leg that sends nothing. *)
Lemma inv_set_leg P js s0 s i l l' :
  f_legs s !! i = Some l → l_job l' = l_job l → sent l' = sent l → leg_ok (f_done s) l' →
  fn_ok l' → inv P js s0 s → inv P js s0 (set_leg i l' s).
Proof.
  intros Hi Hj Hs Hok Hfn []. split; simpl; try done.
  - rewrite list_fmap_insert, Hj, list_insert_id; [done|by rewrite list_lookup_fmap, Hi].
  - by rewrite (omap_insert_same _ _ _ _ _ Hi Hs).
  - by apply Forall_insert.
  - by apply Forall_insert.
Qed.
Lemma inv_set_world P js s0 s w : inv P js s0 s → inv P js s0 (set_world w s).
Proof. intros []. split; simpl; try done. by apply (spec_world _ _ laws). Qed.

Lemma inv_init P js s0 : inv P js s0 (fanout_init js s0).
Proof.
  split; simpl; try done.
  - rewrite <- list_fmap_compose. apply list_fmap_id.
  - apply (spec_none _ _ laws).
  - induction js; simpl; [done|]. by rewrite <- IHjs.
  - apply Forall_fmap, Forall_true. by intros j.
  - apply Forall_fmap, Forall_true. by intros j r.
Qed.
Lemma start_leg_ok t done (l : leg) : leg_ok done (start_leg K caller perSrc t done l).
Proof.
  unfold leg_ok, start_leg. simpl. destruct done as [c|]; [by right|].
  unfold own_timer. destruct (ctx_deadline caller) as [p|].
  - destruct (p <? t + perSrc); [by eauto|]. destruct (t + perSrc <=? t); [by left|by eauto].
  - destruct (t + perSrc <=? t); [by left|by eauto].
Qed.
Lemma inv_step P js s0 lb s s' :
  label_ok P lb → inv P js s0 s → fstep lb s = Some s' → inv P js s0 s'.
Proof.
  intros Hlb Hinv. pose proof Hinv as [Hj Hc Hs Hl Hd Hfs].
  assert (∀ i l, f_legs s !! i = Some l → leg_ok (f_done s) l) as Hok.
  { intros i l Hi. exact (Forall_lookup_1 _ _ _ _ Hl Hi). }
  assert (∀ i l, f_legs s !! i = Some l → fn_ok l) as Hfn.
  { intros i l Hi. exact (Forall_lookup_1 _ _ _ _ Hfs Hi). }
  destruct lb as [w|i|i|e cause|i|i b|]; simpl; unfold on_leg.
  - destruct (_ <=? _); [|done]. intros [= <-]. by apply inv_set_world.
  - destruct (f_legs s !! i) as [l|] eqn:Hi; [|done]. simpl. destruct (l_phase l) eqn:Hp; try done.
    intros [= <-]. apply inv_set_leg with l; try done; [|apply start_leg_ok|].
    + unfold sent. by rewrite Hp.
    + specialize (Hok _ _ Hi). unfold leg_ok in Hok. rewrite Hp in Hok. intros r. simpl. by rewrite Hok.
  - destruct (f_legs s !! i) as [l|] eqn:Hi; [|done]. simpl. destruct (l_phase l) as [|[]|] eqn:Hp; try done.
    destruct (l_timer l) as [d|]; [|done]. destruct (d <=? f_now s); [|done].
    intros [= <-]. apply inv_set_leg with l; try done; [|by left|exact (Hfn _ _ Hi)]. unfold sent. by rewrite Hp.
  - destruct (f_done s); [done|]. destruct (caller_ends _ _ _); [|done]. intros [= <-].
    apply inv_end_all; [by right|done].
  - destruct (f_legs s !! i) as [l|] eqn:Hi; [|done]. simpl. specialize (Hok _ _ Hi). unfold leg_ok in Hok.
    destruct (l_phase l) as [|o|r] eqn:Hp, (l_fn l) eqn:Hf; try done;
      destruct (fo_fn _ _ _ _) as [r' w] eqn:Ew; intros [= <-]; apply inv_set_leg with l; simpl; try done;
      try (by apply inv_set_world); try (intros r1 [= <-]; eexists; simpl; by rewrite Ew); try (unfold sent; simpl; by rewrite Hp);
      unfold leg_ok; simpl; rewrite Hp; try done.
    destruct Hok as (c & b & fr & d & -> & Hb & Hcc). exists c, b, fr, d. split_and!; try done.
    by destruct b, c.
  - destruct (f_legs s !! i) as [l|] eqn:Hi; [|done]. simpl. specialize (Hok _ _ Hi). unfold leg_ok in Hok.
    destruct (l_phase l) as [|o|] eqn:Hp; try done. destruct (_ <? _)%nat; [|done].
    destruct (ready b o (l_fn l)) as [fr|] eqn:Hr; [|done]. simpl. intros [= <-]. split; simpl; try done.
    + rewrite list_fmap_insert, list_insert_id; [done|by rewrite list_lookup_fmap, Hi].
    + erewrite (omap_insert_perm sent); [|exact Hi|unfold sent; by rewrite Hp|done].
      rewrite (assoc_L (++)), Hs. by rewrite (comm (++)).
    + apply Forall_insert; [done|]. unfold leg_ok. simpl. eexists o, b, fr, _. split_and!; try done.
      destruct o; [|by left]. destruct Hok as [-> | ->]; auto.
    + apply Forall_insert; [done|]. exact (Hfn _ _ Hi).
  - destruct (f_chan s) as [|r ch] eqn:Hch; [done|].
    destruct (fo_receive _ _ _ _) as [c cs] eqn:E. intros [= <-].
    assert (inv P js s0 {| f_legs := f_legs s; f_chan := ch; f_got := f_got s ++ [r]; f_col := c;
                         f_cs := cs; f_done := f_done s |}) as Hr.
    { split; simpl; try done.
      - pose proof (spec_receive _ _ laws _ _ _ _ r Hc) as Hcs. by rewrite E in Hcs.
      - by rewrite <- (assoc_L (++)). }
    destruct (negb _ && _); [|done]. apply inv_end_all; [by left|done].
Qed.
Lemma inv_run P js s0 ls s s' :
  Forall (label_ok P) ls → inv P js s0 s → frun ls s = Some s' → inv P js s0 s'.
Proof.
  intros Hls. revert s. induction Hls as [|lb ls Hlb _ IH]; intros s Hinv; [by intros [= <-]|].
  simpl. destruct (fstep lb s) as [s1|] eqn:E; [|done]. apply IH. by eapply inv_step.
Qed.

(** A context that is done stays done, and once the collection has cancelled it is. *)
Lemma step_done lb s s' :
  fstep lb s = Some s' →
  (is_Some (f_done s) → is_Some (f_done s')) ∧
  (fo_enough K (f_col s') = true → fo_enough K (f_col s) = true ∨ is_Some (f_done s')).
Proof.
  destruct lb as [w|i|i|e cause|i|i b|]; simpl; unfold on_leg, end_all.
  1-3, 5-6: try (destruct (f_legs s !! i) as [l|]; [simpl|done]); intros Hstep;
    repeat (case_match; simplify_eq/=); try by auto.
  { by destruct (ready _ _ _); simplify_eq/=; auto. }
  { destruct (f_done s); [done|]. case_match; [|done]. intros [= <-]. simpl. by eauto. }
  destruct (f_chan s); [done|]. destruct (fo_receive _ _ _ _) as [c cs] eqn:E. intros [= <-].
  destruct (fo_enough K (f_col s)), (fo_enough K c) eqn:Hc, (f_done s) eqn:Hd; simpl; rewrite ?Hc, ?Hd; by eauto.
Qed.
Lemma done_run ls s s' :
  frun ls s = Some s' →
  (is_Some (f_done s) → is_Some (f_done s')) ∧
  (fo_enough K (f_col s') = true → fo_enough K (f_col s) = true ∨ is_Some (f_done s')).
Proof.
  revert s. induction ls as [|lb ls IH]; intros s; [intros [= <-]; by auto|].
  simpl. destruct (fstep lb s) as [s1|] eqn:E; [|done]. simpl. intros Hr.
  destruct (IH _ Hr) as [H1 H2], (step_done _ _ _ E) as [H3 H4].
  split; [by auto|]. intros Hc. destruct (H2 Hc) as [H5|]; [|by right].
  destruct (H4 H5) as [|]; [by left|right; by auto].
Qed.


(** ** The measure: what is left to do *)
Definition leg_left (l : leg) : nat :=
  (match l_phase l with Pending => 4 | Running None => 3 | Running (Some _) => 2 | Sent _ => 0 end +
   match l_fn l with None => 1 | Some _ => 0 end)%nat.
Definition left_ (s : fan_state) : nat :=
  (sum_list_with leg_left (f_legs s) + length (f_chan s) +
   match f_done s with None => 1 | Some _ => 0 end)%nat.

Lemma left_set_leg s i l l' :
  f_legs s !! i = Some l → (leg_left l' < leg_left l)%nat → (left_ (set_leg i l' s) < left_ s)%nat.
Proof.
  intros Hi Hlt. unfold left_. simpl. pose proof (sum_list_insert leg_left _ i l l' Hi). lia.
Qed.
Lemma legs_left_end c (ls : list leg) :
  (sum_list_with leg_left (end_ctx c <$> ls) <= sum_list_with leg_left ls)%nat.
Proof.
  induction ls as [|l ls IH]; [done|].
  rewrite fmap_cons. apply (Nat.add_le_mono (leg_left (end_ctx c l))); [|exact IH].
  unfold leg_left, end_ctx. destruct (l_phase l) as [|[]|] eqn:E; simpl; rewrite ?E; lia.
Qed.
Lemma left_end_new c s : f_done s = None → (left_ (end_all c s) < left_ s)%nat.
Proof.
  intros Hn. unfold end_all, left_. rewrite Hn. simpl. pose proof (legs_left_end c (f_legs s)). lia.
Qed.
Lemma left_end_all c s : (left_ (end_all c s) <= left_ s)%nat.
Proof.
  destruct (f_done s) eqn:E; [unfold end_all; by rewrite E|]. pose proof (left_end_new c s E). lia.
Qed.
Lemma left_init js s0 : left_ (fanout_init js s0) = (5 * length js + 1)%nat.
Proof.
  unfold left_. simpl. assert (sum_list_with leg_left (new_leg <$> js) = 5 * length js)%nat; [|lia].
  induction js as [|j js IH]; [done|]. rewrite fmap_cons, length_cons. cbn [sum_list_with].
  rewrite IH. change (leg_left (new_leg j)) with 5%nat. lia.
Qed.
(** Every step of the search itself leaves less to do. *)
Lemma fstep_left lb s s' :
  fstep lb s = Some s' → if is_world lb then left_ s' = left_ s else (left_ s' < left_ s)%nat.
Proof.
  destruct lb as [w|i|i|e cause|i|i b|]; simpl; unfold on_leg.
  1: by destruct (_ <=? _); [intros [= <-]|].
  1, 2, 4, 5: destruct (f_legs s !! i) as [l|] eqn:Hi; [simpl|done].
  - destruct (l_phase l) eqn:Hp; try done. intros [= <-]. apply left_set_leg with l; [done|].
    unfold leg_left, start_leg. rewrite Hp. simpl. repeat case_match; lia.
  - destruct (l_phase l) as [|[]|] eqn:Hp, (l_timer l); try done. destruct (_ <=? _); [|done].
    intros [= <-]. apply left_set_leg with l; [done|]. unfold leg_left. rewrite Hp. simpl. lia.
  - destruct (l_phase l) eqn:Hp, (l_fn l) eqn:Hf; try done; destruct (fo_fn _ _ _ _); intros [= <-];
      apply (left_set_leg (set_world _ s) i l); try done; unfold leg_left; simpl; rewrite Hp, Hf; simpl; lia.
  - destruct (l_phase l) eqn:Hp; try done. destruct (_ <? _)%nat; [|done].
    destruct (ready _ _ _); [|done]. simpl. intros [= <-].
    unfold left_. simpl. rewrite length_app. simpl.
    pose proof (sum_list_insert leg_left _ i l (set_phase (Sent (fo_send K b
      (l_job l) r srcCtx (f_now s - l_start l))) l) Hi) as Hs.
    unfold leg_left in Hs at 2 4. rewrite Hp in Hs. simpl in Hs. destruct srcCtx; lia.
  - destruct (f_done s) eqn:Hd; [done|]. destruct (caller_ends _ _ _); [|done]. intros [= <-].
    by apply left_end_new.
  - destruct (f_chan s) as [|r ch] eqn:Hch; [done|].
    destruct (fo_receive _ _ _ _) as [c cs]. intros [= <-].
    set (s1 := {| f_legs := f_legs s; f_chan := ch; f_got := _; f_col := c; f_cs := cs; f_done := _ |}).
    assert (left_ s1 < left_ s)%nat by (unfold left_; rewrite Hch; simpl; lia).
    pose proof (left_end_all (CtxCanceled, CtxCanceled) s1). destruct (negb _ && _); lia.
Qed.
Lemma frun_left ls s s' :
  frun ls s = Some s' → (length (filter (λ lb, negb (is_world lb)) ls) + left_ s' <= left_ s)%nat.
Proof.
  revert s. induction ls as [|lb ls IH]; intros s; simpl; [intros [= ->]; lia|].
  destruct (fstep lb s) as [s1|] eqn:E; [|done]. simpl. intros Hr. specialize (IH _ Hr).
  pose proof (fstep_left _ _ _ E). rewrite filter_cons. destruct (is_world lb); simpl; lia.
Qed.

(** ** Nothing waits for ever *)
(** There is always room for what a leg sends. *)
Lemma chan_room P js s0 (s : fan_state) i l :
  inv P js s0 s → (length js <= cap)%nat → f_legs s !! i = Some l → sent l = None →
  (length (f_chan s) < cap)%nat.
Proof.
  intros [Hj _ Hs _ _] Hcap Hi Hsent.
  apply Permutation_length in Hs. rewrite length_app in Hs.
  assert (length (omap sent (f_legs s)) < length (f_legs s))%nat as Hlt.
  { rewrite <- (take_drop_middle _ _ _ Hi). generalize (take i (f_legs s)) (drop (S i) (f_legs s)).
    intros l1 l2. rewrite omap_app, !length_app, length_cons.
    change (omap sent (l :: l2)) with (match sent l with Some y => y :: omap sent l2 | None => omap sent l2 end).
    rewrite Hsent.
    pose proof (length_omap_le sent l1). pose proof (length_omap_le sent l2). lia. }
  apply (f_equal length) in Hj. rewrite length_fmap in Hj. lia.
Qed.
Lemma not_finished (s : fan_state) : finished s = false → f_chan s ≠ [] ∨ ∃ i l, f_legs s !! i = Some l ∧ sent l = None.
Proof.
  unfold finished. destruct (decide (f_chan s = [])) as [Hc|]; [|by left].
  rewrite Hc, bool_decide_true, andb_true_r by done. intros Hf. right.
  destruct (forallb_false _ _ Hf) as (i & l & Hi & Hl). exists i, l. split; [done|].
  unfold sent, has_sent in *. by destruct (l_phase l).
Qed.
Lemma recv_enabled (s : fan_state) : f_chan s ≠ [] → fstep LRecv s ≠ None.
Proof. simpl. destruct (f_chan s); [done|]. by destruct (fo_receive _ _ _ _). Qed.
Lemma send_enabled P js s0 (s : fan_state) i l c :
  inv P js s0 s → (length js <= cap)%nat → f_legs s !! i = Some l → l_phase l = Running (Some c) →
  fstep (LSend i TookCtx) s ≠ None.
Proof.
  intros Hinv Hcap Hi Hp. simpl. unfold on_leg. rewrite Hi. simpl. rewrite Hp.
  assert (length (f_chan s) < cap)%nat as Hlt by (eapply chan_room; try done; unfold sent; by rewrite Hp).
  rewrite (proj2 (Nat.ltb_lt _ _) Hlt). done.
Qed.
(** When every timer that runs is due, some step is enabled that waits for no function. *)
Definition due (t : Z) (l : leg) : Prop :=
  l_phase l = Running None →
  match l_timer l with
  | Some d => d <= t
  | None => match ctx_deadline caller with Some p => p <= t | None => True end
  end.
Lemma progress P js s0 (s : fan_state) :
  inv P js s0 s → (length js <= cap)%nat → Forall (due (f_now s)) (f_legs s) → finished s = false →
  ∃ lb, on_its_own lb = true ∧ is_world lb = false ∧ fstep lb s ≠ None.
Proof.
  intros Hinv Hcap Hdue [Hch|(i & l & Hi & Hsent)]%not_finished.
  { exists LRecv. split_and!; [done..|]. by apply recv_enabled. }
  pose proof (Forall_lookup_1 _ _ _ _ (inv_legs _ _ _ _ Hinv) Hi) as Hok.
  pose proof (Forall_lookup_1 _ _ _ _ Hdue Hi) as Hd. unfold leg_ok, due, sent in *.
  destruct (l_phase l) as [|[c|]|] eqn:Hp; [| | |done].
  - exists (LStart i). split_and!; [done..|]. simpl. unfold on_leg. rewrite Hi. simpl. by rewrite Hp.
  - exists (LSend i TookCtx). split_and!; [done..|]. by eapply send_enabled.
  - destruct Hok as [Hdn Ht]. specialize (Hd eq_refl). destruct (l_timer l) as [d|] eqn:Htm.
    + exists (LTimeout i). split_and!; [done..|]. simpl. unfold on_leg. rewrite Hi. simpl.
      rewrite Hp, Htm. by rewrite (proj2 (Z.leb_le _ _) Hd).
    + destruct (Ht eq_refl) as [p Hcd]. rewrite Hcd in Hd.
      exists (LCaller CtxDeadlineExceeded CtxDeadlineExceeded). split_and!; [done..|]. simpl.
      rewrite Hdn. unfold caller_ends. rewrite Hcd. by rewrite (proj2 (Z.leb_le _ _) Hd).
Qed.
(** When the common context is done, some step is enabled that waits for nothing. *)
Lemma prompt_progress P js s0 (s : fan_state) :
  inv P js s0 s → (length js <= cap)%nat → is_Some (f_done s) → finished s = false →
  ∃ lb, prompt lb = true ∧ fstep lb s ≠ None.
Proof.
  intros Hinv Hcap [c Hdn] [Hch|(i & l & Hi & Hsent)]%not_finished.
  { exists LRecv. split; [done|]. by apply recv_enabled. }
  pose proof (Forall_lookup_1 _ _ _ _ (inv_legs _ _ _ _ Hinv) Hi) as Hok. unfold leg_ok, sent in *.
  destruct (l_phase l) as [|[c'|]|] eqn:Hp; [| | |done].
  - exists (LStart i). split; [done|]. simpl. unfold on_leg. rewrite Hi. simpl. by rewrite Hp.
  - exists (LSend i TookCtx). split; [done|]. by eapply send_enabled.
  - destruct Hok. congruence.
Qed.

Lemma run_init P js (s0 : St) ls s :
  Forall (label_ok P) ls → frun ls (fanout_init js s0) = Some s → inv P js s0 s.
Proof. intros Hls. apply inv_run; [done|]. apply inv_init. Qed.
Lemma run_any js (s0 : St) ls s : frun ls (fanout_init js s0) = Some s → inv (λ _, True) js s0 s.
Proof. apply run_init, Forall_true. by intros []. Qed.

(** ** What is received *)
(** Every received result was sent by a leg: with what its function returned, or with what its
    context ended with, its own timer or the common context. *)
Lemma got_sent P js s0 (s : fan_state) r :
  inv P js s0 s → r ∈ f_got s →
  ∃ l b fr c d, l ∈ f_legs s ∧ r = fo_send K b (l_job l) fr c d ∧ ready b c (l_fn l) = Some fr ∧
    (c = None ∨ c = Some timed_out ∨ c = f_done s).
Proof.
  intros [_ _ Hs Hl _ _] Hr. assert (r ∈ omap sent (f_legs s)) as Hin.
  { rewrite <- Hs. apply elem_of_app. by left. }
  apply list_elem_of_omap in Hin as (l & Hll & Hsent).
  rewrite Forall_forall in Hl. specialize (Hl l Hll). unfold leg_ok, sent in *.
  destruct (l_phase l) as [| |r']; try done. injection Hsent as ->.
  destruct Hl as (c & b & fr & d & Hl). by exists l, b, fr, c, d.
Qed.
(** What a leg's function has returned, and whose leg it is. *)
Lemma leg_answer P js s0 (s : fan_state) l r :
  inv P js s0 s → l ∈ f_legs s → l_fn l = Some r →
  l_job l ∈ js ∧ ∃ w, (fo_fn K (l_job l) (l_ctx l) w).1 = r.
Proof.
  intros [Hj _ _ _ _ Hf] Hl Hr. split.
  - rewrite <- Hj. by apply list_elem_of_fmap_2.
  - rewrite Forall_forall in Hf. by apply Hf.
Qed.
(** A fan-out that has finished has received one result of each of its sources. *)
Lemma finished_sent {X} (name : R → X) (key : J → X) P js s0 (s : fan_state) :
  (∀ b j fr c d, name (fo_send K b j fr c d) = key j) →
  inv P js s0 s → finished s = true → name <$> f_got s ≡ₚ key <$> js.
Proof.
  intros Hname [Hj _ Hs Hl _ _] [Hall Hch]%andb_true_iff. apply bool_decide_eq_true_1 in Hch.
  rewrite Hch, app_nil_r in Hs. rewrite Hs, <- Hj. clear Hs Hj Hch. apply Permutation_refl'.
  induction Hl as [|l ls Hok Hl IH]; [done|]. simpl in Hall. apply andb_true_iff in Hall as [Hl1 Hall].
  specialize (IH Hall). unfold leg_ok, has_sent in *.
  assert (∃ r, sent l = Some r ∧ name r = key (l_job l)) as (r & Hr & Hlab).
  { unfold sent. destruct (l_phase l); try done. eexists. split; [done|].
    destruct Hok as (c & b & fr & d & -> & _). apply Hname. }
  change (omap sent (l :: ls)) with (match sent l with Some y => y :: omap sent ls | None => omap sent ls end).
  rewrite Hr, !fmap_cons, IH, Hlab. done.
Qed.

(** ** It ends *)
Lemma due_exists (ls : list leg) : ∃ t, Forall (due t) ls.
Proof.
  induction ls as [|l ls [t Ht]]; [by exists 0|].
  set (tl := match l_timer l with Some d => d | None => default 0 (ctx_deadline caller) end).
  exists (Z.max t tl). constructor.
  - intros _. subst tl. destruct (l_timer l); [lia|]. destruct (ctx_deadline caller); simpl; [lia|done].
  - eapply Forall_impl; [exact Ht|]. intros x Hx Hp. specialize (Hx Hp).
    destruct (l_timer x); [lia|]. destruct (ctx_deadline caller); [lia|done].
Qed.
Lemma frun_app ls1 ls2 (s : fan_state) : frun (ls1 ++ ls2) s = frun ls1 s ≫= frun ls2.
Proof.
  revert s. induction ls1 as [|lb ls1 IH]; intros s; [done|]. simpl.
  destruct (fstep lb s) as [s1|]; [apply IH|done].
Qed.
(** ** Whose timer has fired *)
(** At some point of the run [ls] the timer of leg [i] had ended its context: [perSrc] had passed
    since the leg started, and neither the caller nor the collection had ended the common one. *)
Definition timer_fired (js : list J) (s0 : St) (ls : list move) (i : nat) : Prop :=
  ∃ ls1 ls2 s1 l, ls = ls1 ++ ls2 ∧ frun ls1 (fanout_init js s0) = Some s1 ∧ f_done s1 = None ∧
    f_legs s1 !! i = Some l ∧ l_phase l = Running (Some timed_out) ∧ l_start l + perSrc <= f_now s1.
Definition ended_by (fired : Prop) (done c : option ended) : Prop :=
  c = None ∨ (c = Some timed_out ∧ fired) ∨ ∃ x, c = Some x ∧ done = Some x.
(** How a leg got to where it is. *)
Definition leg_past (fired : Prop) (done : option ended) (l : leg) : Prop :=
  (∀ d, l_timer l = Some d → d = l_start l + perSrc) ∧
  match l_phase l with
  | Pending => l_timer l = None
  | Running c => ended_by fired done c
  | Sent r => ∃ c b fr d, r = fo_send K b (l_job l) fr c d ∧ ready b c (l_fn l) = Some fr ∧
      ended_by fired done c
  end.
Definition past js s0 ls (s : fan_state) : Prop :=
  ∀ i l, f_legs s !! i = Some l → leg_past (timer_fired js s0 ls i) (f_done s) l.

Lemma leg_past_mono (F G : Prop) d1 d2 l :
  (F → G) → (d1 = None ∨ d1 = d2) → leg_past F d1 l → leg_past G d2 l.
Proof.
  intros HFG Hd [Ht Hp]. split; [done|].
  assert (∀ c, ended_by F d1 c → ended_by G d2 c) as He.
  { intros c [->|[[-> ?]|(x & -> & Hx)]]; [by left|right; left; by auto|].
    right. right. exists x. by destruct Hd; simplify_eq. }
  destruct (l_phase l); [done|by apply He|]. destruct Hp as (c & b & fr & d & ? & ? & Hc).
  exists c, b, fr, d. by split_and!; [..|apply He].
Qed.
Lemma leg_past_end (F : Prop) c l : leg_past F None l → leg_past F (Some c) (end_ctx c l).
Proof.
  intros Hl. unfold end_ctx. destruct (l_phase l) as [|[c'|]|r] eqn:E;
    try (eapply leg_past_mono; [done| |exact Hl]; by left).
  destruct Hl as [Ht _]. split; [done|]. simpl. right. right. by exists c.
Qed.
Lemma fired_more js s0 ls ls' i : timer_fired js s0 ls i → timer_fired js s0 (ls ++ ls') i.
Proof.
  intros (ls1 & ls2 & s1 & l & -> & Hs). exists ls1, (ls2 ++ ls'), s1, l.
  by rewrite (assoc_L (++)).
Qed.

Lemma past_init js s0 : past js s0 [] (fanout_init js s0).
Proof.
  intros i l. simpl. rewrite list_lookup_fmap. destruct (js !! i); [|done].
  intros [= <-]. by split.
Qed.
(** A step of leg [i] alone. *)
Lemma past_set_leg js s0 ls lb (s : fan_state) i l :
  past js s0 ls s → leg_past (timer_fired js s0 (ls ++ [lb]) i) (f_done s) l →
  ∀ i' l', <[i:=l]> (f_legs s) !! i' = Some l' →
    leg_past (timer_fired js s0 (ls ++ [lb]) i') (f_done s) l'.
Proof.
  intros Hp Hl i' l' [(-> & -> & _)|[_ Hi']]%list_lookup_insert_Some; [done|].
  apply (leg_past_mono (timer_fired js s0 ls i') _ (f_done s)); [apply fired_more|by right|by apply Hp].
Qed.
Lemma past_end_all js s0 ls (s : fan_state) c : past js s0 ls s → past js s0 ls (end_all c s).
Proof.
  intros Hp. unfold end_all. destruct (f_done s) eqn:Hd; [done|]. intros i l. simpl.
  rewrite list_lookup_fmap. destruct (f_legs s !! i) as [l0|] eqn:Hi; [|done]. intros [= <-].
  apply leg_past_end. rewrite <- Hd. by apply Hp.
Qed.
Lemma past_same js s0 ls ls' (s s' : fan_state) :
  f_legs s' = f_legs s → f_done s' = f_done s → past js s0 ls s → past js s0 (ls ++ ls') s'.
Proof.
  intros Hl Hd Hp i l. rewrite Hl, Hd. intros Hi.
  apply (leg_past_mono (timer_fired js s0 ls i) _ (f_done s)); [apply fired_more|by right|by apply Hp].
Qed.
(** The leg whose context ends now, by its own timer. *)
Lemma fired_now js s0 ls lb (s s' : fan_state) i l :
  frun ls (fanout_init js s0) = Some s → fstep lb s = Some s' → f_done s' = None →
  f_legs s' !! i = Some l → l_phase l = Running (Some timed_out) → l_start l + perSrc <= f_now s' →
  timer_fired js s0 (ls ++ [lb]) i.
Proof.
  intros Hrun Hstep Hd Hi Hp Ht. exists (ls ++ [lb]), [], s', l. split_and!; try done.
  - by rewrite app_nil_r.
  - rewrite frun_app, Hrun. simpl. by rewrite Hstep.
Qed.
Lemma past_start js s0 ls (s s' : fan_state) i :
  frun ls (fanout_init js s0) = Some s → fstep (LStart i) s = Some s' →
  past js s0 ls s → past js s0 (ls ++ [LStart i]) s'.
Proof.
  intros Hrun Hstep Hp. pose proof Hstep as Hstep0. revert Hstep. simpl. unfold on_leg.
  destruct (f_legs s !! i) as [l|] eqn:Hi; [|done]. simpl. destruct (l_phase l) eqn:Hph; try done.
  intros [= Hs']. intros i'. pose proof (lookup_lt_Some _ _ _ Hi) as Hlt.
  rewrite <- Hs'. simpl. apply past_set_leg; [done|]. split; simpl.
  { unfold own_timer. intros d. repeat case_match; congruence. }
  destruct (f_done s) as [c|] eqn:Hd; [right; right; by exists c|].
  destruct (own_timer _) as [d|] eqn:Hown; [|by left].
  destruct (d <=? f_now s) eqn:Hle; [|by left]. right. left. split; [done|].
  apply (fired_now _ _ _ _ s s' i (start_leg K caller perSrc (f_now s) None l)); try done.
  - by rewrite <- Hs'.
  - rewrite <- Hs'. by apply list_lookup_insert_eq.
  - unfold start_leg. simpl. by rewrite Hown, Hle.
  - rewrite <- Hs'. unfold own_timer in Hown. apply Z.leb_le in Hle.
    unfold f_now in *. simpl in *. repeat case_match; simplify_eq; lia.
Qed.
Lemma past_timeout js s0 ls (s s' : fan_state) i :
  inv (λ _, True) js s0 s → frun ls (fanout_init js s0) = Some s → fstep (LTimeout i) s = Some s' →
  past js s0 ls s → past js s0 (ls ++ [LTimeout i]) s'.
Proof.
  intros Hinv Hrun Hstep Hp. pose proof Hstep as Hstep0. revert Hstep. simpl. unfold on_leg.
  destruct (f_legs s !! i) as [l|] eqn:Hi; [|done]. simpl. destruct (l_phase l) as [|[]|] eqn:Hph; try done.
  destruct (l_timer l) as [d|] eqn:Htm; [|done]. destruct (d <=? f_now s) eqn:Hle; [|done].
  intros [= Hs']. pose proof (lookup_lt_Some _ _ _ Hi) as Hlt.
  pose proof (Forall_lookup_1 _ _ _ _ (inv_legs _ _ _ _ Hinv) Hi) as Hok.
  unfold leg_ok in Hok. rewrite Hph in Hok. destruct (Hp _ _ Hi) as [Hd _].
  intros i'. rewrite <- Hs'. simpl. apply past_set_leg; [done|]. split; [exact Hd|]. simpl.
  right. left. split; [done|].
  apply (fired_now _ _ _ _ s s' i (set_phase (Running (Some timed_out)) l)); try done; [by rewrite <- Hs'; apply Hok| |].
  - rewrite <- Hs'. by apply list_lookup_insert_eq.
  - rewrite <- Hs'. specialize (Hd _ Htm). apply Z.leb_le in Hle. unfold f_now in *. simpl. lia.
Qed.
Lemma past_step js s0 ls lb (s s' : fan_state) :
  inv (λ _, True) js s0 s → frun ls (fanout_init js s0) = Some s → fstep lb s = Some s' →
  past js s0 ls s → past js s0 (ls ++ [lb]) s'.
Proof.
  intros Hinv Hrun Hstep Hp.
  destruct lb as [w|i|i|e cause|i|i b|]; [|by eapply past_start|by eapply past_timeout|..];
    revert Hstep; simpl; unfold on_leg.
  - destruct (_ <=? _); [|done]. intros [= <-]. by apply (past_same _ _ _ _ s).
  - destruct (f_done s) eqn:Hd; [done|]. destruct (caller_ends _ _ _); [|done]. intros [= <-].
    apply past_end_all. by apply (past_same _ _ _ _ s).
  - destruct (f_legs s !! i) as [l|] eqn:Hi; [|done]. simpl. pose proof (Hp _ _ Hi) as Hl.
    destruct (l_phase l) as [|o|r] eqn:Hph, (l_fn l) eqn:Hf; try done;
      destruct (fo_fn _ _ _ _) as [r' w] eqn:Ew; intros [= <-]; intros i'; simpl;
      apply past_set_leg; try done; (eapply leg_past_mono; [apply (fired_more _ _ ls)|by right|]).
    + destruct Hl as [Ht Hl]. split; [done|]. simpl. by rewrite Hph in Hl |- *.
    + destruct Hl as [Ht Hl]. split; [done|]. simpl. rewrite Hph in Hl |- *.
      destruct Hl as (c & b & fr & d & Hr & Hb & Hc). exists c, b, fr, d. split_and!; try done.
      rewrite Hf in Hb. by destruct b, c.
  - destruct (f_legs s !! i) as [l|] eqn:Hi; [|done]. simpl. pose proof (Hp _ _ Hi) as Hl.
    destruct (l_phase l) as [|o|] eqn:Hph; try done. destruct (_ <? _)%nat; [|done].
    destruct (ready b o (l_fn l)) as [fr|] eqn:Hr; [|done]. simpl. intros [= <-]. intros i'. simpl.
    apply past_set_leg; [done|]. (eapply leg_past_mono; [apply (fired_more _ _ ls)|by right|]).
    destruct Hl as [Ht Hl]. split; [done|]. rewrite Hph in Hl. simpl. by eexists o, b, fr, _.
  - destruct (f_chan s) as [|r ch] eqn:Hch; [done|].
    destruct (fo_receive _ _ _ _) as [c cs] eqn:E. intros [= <-].
    destruct (negb _ && _); [apply past_end_all|]; by apply (past_same _ _ _ _ s).
Qed.
Lemma past_run js s0 ls (s : fan_state) : frun ls (fanout_init js s0) = Some s → past js s0 ls s.
Proof.
  revert s. induction ls as [|lb ls IH] using rev_ind; intros s Hrun.
  - injection Hrun as <-. apply past_init.
  - rewrite frun_app in Hrun. destruct (frun ls _) as [s1|] eqn:E; [|done]. simpl in Hrun.
    destruct (fstep lb s1) as [s2|] eqn:E2; [|done]. injection Hrun as <-.
    apply (past_step _ _ _ _ s1); [|done..|by apply IH]. by apply (run_any js s0 ls).
Qed.
(** Every received result was sent by a leg that its own timer or the common context may have ended. *)
Lemma got_past js s0 ls (s : fan_state) r :
  frun ls (fanout_init js s0) = Some s → r ∈ f_got s →
  ∃ i l c b fr d, f_legs s !! i = Some l ∧ r = fo_send K b (l_job l) fr c d ∧
    ready b c (l_fn l) = Some fr ∧ ended_by (timer_fired js s0 ls i) (f_done s) c.
Proof.
  intros Hrun Hr. pose proof (inv_sent _ _ _ _ (run_any _ _ _ _ Hrun)) as Hs.
  assert (r ∈ omap sent (f_legs s)) as Hin by (rewrite <- Hs; apply elem_of_app; by left).
  apply list_elem_of_omap in Hin as (l & [i Hi]%list_elem_of_lookup & Hsent).
  destruct (past_run _ _ _ _ Hrun _ _ Hi) as [_ Hl]. unfold sent in Hsent.
  destruct (l_phase l) as [| |r']; try done. injection Hsent as ->.
  destruct Hl as (c & b & fr & d & Hl). by exists i, l, c, b, fr, d.
Qed.
Lemma any_ok ls : Forall (label_ok (λ _, True)) ls.
Proof. apply Forall_true. intros lb. by destruct lb. Qed.
Lemma run_to_end js s0 (s : fan_state) :
  (∀ w t, ∃ w', now w <= now w' ∧ t <= now w') → (length js <= cap)%nat → inv (λ _, True) js s0 s →
  ∃ ls s', Forall (λ lb, on_its_own lb = true) ls ∧ frun ls s = Some s' ∧ finished s' = true.
Proof.
  intros Hclock Hcap. remember (left_ s) as n eqn:Hn. revert s Hn.
  induction n as [n IH] using lt_wf_ind. intros s -> Hinv.
  destruct (finished s) eqn:Hfin; [by exists [], s|].
  destruct (due_exists (f_legs s)) as [t Ht]. destruct (Hclock (fo_world K (f_cs s)) t) as (w & Hw & Htw).
  assert (fstep (LWorld w) s = Some (set_world w s)) as Hstep.
  { simpl. unfold f_now. by rewrite (proj2 (Z.leb_le _ _) Hw). }
  pose proof (inv_set_world _ _ _ _ w Hinv) as Hinv1.
  destruct (progress _ _ _ _ Hinv1 Hcap) as (lb & Hown & Hnw & Hlb).
  { eapply Forall_impl; [exact Ht|]. intros l Hl Hp. specialize (Hl Hp). unfold f_now. simpl. rewrite (world_set _ _ laws).
    destruct (l_timer l); [lia|]. destruct (ctx_deadline caller); [lia|done]. }
  { done. }
  destruct (fstep lb (set_world w s)) as [s2|] eqn:E; [|done].
  pose proof (fstep_left _ _ _ E) as Hlt. rewrite Hnw in Hlt. change (left_ (set_world w s)) with (left_ s) in Hlt.
  destruct (IH _ Hlt s2 eq_refl) as (ls & s' & Hls & Hrun & Hf).
  { by eapply inv_step; [|exact Hinv1|exact E]; destruct lb. }
  exists (LWorld w :: lb :: ls), s'. split_and!; [by repeat constructor| |done].
  cbn [Fanout.frun]. rewrite Hstep. simpl. by rewrite E.
Qed.
(** The fan-out returns whatever its sources do. A run has at most five steps per launched
    source and one more besides those of the world; and from every state it can reach, with the
    channel as large as the code makes it, it can go on to its end without any source's function
    ever returning and without the caller's cancelling, only by letting time pass: the send
    of a leg never blocks, and a leg's own timer or the caller's deadline ends its wait. *)
Lemma legs_return js (s0 : St) ls s :
  (∀ w t, ∃ w', now w <= now w' ∧ t <= now w') → (length js <= cap)%nat →
  frun ls (fanout_init js s0) = Some s →
  (length (filter (λ lb, negb (is_world lb)) ls) <= 5 * length js + 1)%nat ∧
  ∃ ls' s', Forall (λ lb, on_its_own lb = true) ls' ∧ frun ls' s = Some s' ∧ finished s' = true.
Proof.
  intros Hclock Hcap Hrun. pose proof (frun_left _ _ _ Hrun) as Hl.
  rewrite left_init in Hl. split; [lia|]. by eapply run_to_end, run_any.
Qed.
(** When enough results are in the rest of the fan-out waits for nothing: once the collection
    has cancelled the common context - or the caller's context has ended - every maximal run of
    the steps that start a leg, send and receive ends the search, with no function of a source
    returning and no time passing; and such a run has at most five steps per
    launched source and one more. *)
Lemma legs_early_return js (s0 : St) ls s ls' s' :
  (length js <= cap)%nat → frun ls (fanout_init js s0) = Some s →
  fo_enough K (f_col s) = true ∨ is_Some (f_done s) →
  Forall (λ lb, prompt lb = true) ls' → frun ls' s = Some s' →
  (∀ lb, prompt lb = true → fstep lb s' = None) →
  finished s' = true ∧ (length ls' <= 5 * length js + 1)%nat.
Proof.
  intros Hcap Hrun Hdone Hpr Hrun' Hmax.
  assert (is_Some (f_done s)) as Hd.
  { destruct Hdone as [Hc|]; [|done]. destruct (proj2 (done_run _ _ _ Hrun) Hc) as [Hn|]; [|done].
    simpl in Hn. by rewrite (none_not_enough _ _ laws) in Hn. }
  assert (frun (ls ++ ls') (fanout_init js s0) = Some s') as Hall by (rewrite frun_app, Hrun; done).
  pose proof (proj1 (done_run _ _ _ Hrun') Hd) as Hd'. split.
  - destruct (finished s') eqn:Hf; [done|].
    destruct (prompt_progress _ _ _ _ (run_any _ _ _ _ Hall) Hcap Hd' Hf) as (lb & Hp & Hne).
    by destruct Hne; apply Hmax.
  - pose proof (frun_left _ _ _ Hrun') as Hl. pose proof (frun_left _ _ _ Hrun) as Hl0.
    rewrite left_init in Hl0. rewrite (filter_all _ ls') in Hl; [lia|].
    eapply Forall_impl; [exact Hpr|]. intros lb. by destruct lb.
Qed.
End Laws.

