(* ===== verification/Collect.v ===== *)
(** Package [search], [direct.go]: how one source ends ([runSourceWithTimeout]), how its error is
    classified ([handleSourceError]) and how the results of a fan-out are collected
    ([collectResults]). The channel is the list of what arrives on it, in order. *)
From S2P Require Import Prelude Unicode Utf8 GoStrings Floats Effects Results Retry BlockCache SearchEngines Fanout.
Local Open Scope Z_scope.

Definition defaultPerSourceTimeout : Z := 6 * Second.
Definition defaultEarlyReturnAt : Z := 10.
Definition errPerSourceTimeout : error := ErrVar (lit "per-source timeout").
Definition ErrMarginaliaQuotaExhausted : error := ErrVar (lit "marginalia: daily quota exhausted").
Definition is_source_timeout : error → bool := is_var (lit "per-source timeout").
Definition is_quota : error → bool := is_var (lit "marginalia: daily quota exhausted").

Record directResult := { label : gostring; results : list Result; err : option error; dur : Z }.
Record DirectStats := { Attempted : Z; OK : Z; Empty : Z; Failed : Z; Shed : Z }.
Definition zero_stats : DirectStats :=
  {| Attempted := 0; OK := 0; Empty := 0; Failed := 0; Shed := 0 |}.

(** ** One source *)
(** [ctx] is the source's context when it is done: its error and its cause. *)
Definition runSourceWithTimeout (b : branch) (lbl : gostring) (r : result (list Result))
    (ctx : option (error * error)) (d : Z) : directResult :=
  match b, ctx with
  | TookDone, _ =>
      match r with
      | Val rs => {| label := lbl; results := rs; err := None; dur := d |}
      | Err e =>
          let e := match ctx with
                   | Some (_, cause) => if is_deadline e then cause else e
                   | None => e end in
          {| label := lbl; results := []; err := Some e; dur := d |}
      end
  | TookCtx, Some (_, cause) => {| label := lbl; results := []; err := Some cause; dur := d |}
  | TookCtx, None => {| label := lbl; results := []; err := None; dur := d |}
  end.

(** ** The state a collection works on: the block cache (which may be nil), how often the fan-out
    was cancelled, and the world *)
Record cstate (W : Type) := CState {
  cs_cache : option DirectBlockCache; cs_cancels : nat; cs_world : W
}.
Arguments CState {W} _ _ _.
Arguments cs_cache {W} _.
Arguments cs_cancels {W} _.
Arguments cs_world {W} _.

Section Collect.
Context {W : Type} `{Clock W} `{Metrics W}.
Variables (m : bool) (oxEscalate : list gostring).
Implicit Types (r : directResult) (s : cstate W).

Definition on_world (f : W → W) : M (cstate W) () :=
  modify (λ s, CState (cs_cache s) (cs_cancels s) (f (cs_world s))).
Definition recordSourceResult (source out : gostring) : M (cstate W) () :=
  if m then on_world (Incr (lit "source_result_total") [(lit "source", source); (lit "outcome", out)])
  else mret ().
Definition mark (lbl : gostring) : M (cstate W) () :=
  modify (λ s, CState (Mark lbl (now (cs_world s)) <$> cs_cache s) (cs_cancels s) (cs_world s)).
Definition cancel : M (cstate W) () :=
  modify (λ s, CState (cs_cache s) (S (cs_cancels s)) (cs_world s)).

Definition handleSourceError (lbl : gostring) (e : error) : M (cstate W) () :=
  match as_rate_limited e with
  | Some _ => recordSourceResult lbl (lit "captcha");; mark lbl
  | None =>
      if is_source_timeout e && bool_decide (lbl ∈ oxEscalate) then
        recordSourceResult lbl (lit "timeout");; mark lbl
      else if negb (is_canceled e) && negb (is_deadline e) && bool_decide (lbl ∈ oxEscalate) then
        recordSourceResult lbl (lit "blocked");; mark lbl
      else recordSourceResult lbl (lit "fail")
  end.

(** The body of the loop, on what is collected so far. *)
Definition collected : Type := list Result * DirectStats * bool.
Definition collect_step (earlyAt : Z) (c : collected) (r : directResult) : M (cstate W) collected :=
  let '(all, st, cancelled) := c in
  if (match err r with Some e => is_quota e | None => false end) then
    recordSourceResult (label r) (lit "shed");;
    mret (all, {| Attempted := Attempted st; OK := OK st; Empty := Empty st; Failed := Failed st;
                  Shed := Shed st + 1 |}, cancelled)
  else
    (if m then on_world (ObserveSeconds (lit "search_source_duration_seconds")
                           [(lit "source", label r)] (dur r)) else mret ());;
    match err r with
    | Some e =>
        handleSourceError (label r) e;;
        mret (all, {| Attempted := Attempted st + 1; OK := OK st; Empty := Empty st;
                      Failed := Failed st + 1; Shed := Shed st |}, cancelled)
    | None =>
        if decide (results r = []) then
          recordSourceResult (label r) (lit "empty");;
          mret (all, {| Attempted := Attempted st + 1; OK := OK st; Empty := Empty st + 1;
                        Failed := Failed st; Shed := Shed st |}, cancelled)
        else
          recordSourceResult (label r) (lit "ok");;
          let all := all ++ results r in
          let st := {| Attempted := Attempted st + 1; OK := OK st + 1; Empty := Empty st;
                       Failed := Failed st; Shed := Shed st |} in
          if negb cancelled && (earlyAt <=? zlen all) then cancel;; mret (all, st, true)
          else mret (all, st, cancelled)
    end.
Fixpoint collect_loop (earlyAt : Z) (c : collected) (ch : list directResult)
    : M (cstate W) collected :=
  match ch with
  | [] => mret c
  | r :: ch => c ← collect_step earlyAt c r; collect_loop earlyAt c ch
  end.
Definition collectResults (ch : list directResult) (earlyAt : Z)
    : M (cstate W) (list Result * DirectStats) :=
  c ← collect_loop earlyAt ([], zero_stats, false) ch; mret c.1.

(** ** The outcome of a source, as a value *)
Inductive kind := KShed | KFailed | KEmpty | KOK.
Definition kind_eqb (a b : kind) : bool :=
  match a, b with
  | KShed, KShed | KFailed, KFailed | KEmpty, KEmpty | KOK, KOK => true
  | _, _ => false
  end.
Definition kind_of (r : directResult) : kind :=
  match err r with
  | Some e => if is_quota e then KShed else KFailed
  | None => if decide (results r = []) then KEmpty else KOK
  end.
Definition ok_results (r : directResult) : list Result :=
  match kind_of r with KOK => results r | _ => [] end.
(** Whether an error marks the engine. *)
Definition marks (r : directResult) : bool :=
  match err r with
  | Some e =>
      negb (is_quota e) &&
      (match as_rate_limited e with Some _ => true | None => false end ||
       bool_decide (label r ∈ oxEscalate) &&
       (is_source_timeout e || negb (is_canceled e) && negb (is_deadline e)))
  | None => false
  end.
Definition count (k : kind) (ch : list directResult) : Z := zlen (filter (λ r, kind_eqb (kind_of r) k) ch).

(** What the results [ch] leave, from [s]: the marks are those of the results that mark. *)
Definition collect_spec (earlyAt : Z) (ch : list directResult) (s : cstate W)
    (c : collected) (s' : cstate W) : Prop :=
  let '(all, st, cancelled) := c in
  all = ch ≫= ok_results ∧
  Attempted st = zlen ch - count KShed ch ∧ OK st = count KOK ch ∧ Empty st = count KEmpty ch ∧
  Failed st = count KFailed ch ∧ Shed st = count KShed ch ∧
  cancelled = bool_decide (count KOK ch ≠ 0) && (earlyAt <=? zlen all) ∧
  cs_cancels s' = (cs_cancels s + if cancelled then 1 else 0)%nat ∧
  ∃ times, length times = length (filter marks ch) ∧
    cs_cache s' = run (zip_with (λ r t, OpMark (label r) t) (filter marks ch) times) <$> cs_cache s.

Lemma count_snoc k ch r : count k (ch ++ [r]) = count k ch + if kind_eqb (kind_of r) k then 1 else 0.
Proof using Type.
  unfold count. rewrite filter_app, zlen_app, filter_cons, filter_nil.
  destruct (kind_eqb _ _); unfold zlen; simpl; lia.
Qed.
Lemma recordSourceResult_run src out s : ∃ w, recordSourceResult src out s =
  ((), CState (cs_cache s) (cs_cancels s) w).
Proof using Type. unfold recordSourceResult. destruct m; [by eexists|]. exists (cs_world s). by destruct s. Qed.
Lemma handleSourceError_run lbl e s : ∃ w t, handleSourceError lbl e s =
  ((), CState ((if match as_rate_limited e with Some _ => true | None => false end ||
                   bool_decide (lbl ∈ oxEscalate) &&
                   (is_source_timeout e || negb (is_canceled e) && negb (is_deadline e))
                then Mark lbl t else id) <$> cs_cache s) (cs_cancels s) w).
Proof using Type.
  unfold handleSourceError.
  assert (∀ out, ∃ w t, (recordSourceResult lbl out;; mark lbl) s =
    ((), CState (Mark lbl t <$> cs_cache s) (cs_cancels s) w)) as Hm.
  { intros out. destruct (recordSourceResult_run lbl out s) as [w Hw].
    exists w, (now w). by rewrite (bind_eq _ _ _ _ _ Hw). }
  destruct (as_rate_limited e); [apply Hm|]. cbn [orb].
  destruct (bool_decide (lbl ∈ oxEscalate)) eqn:Hb; rewrite ?andb_true_r, ?andb_false_r; cbn [andb].
  - destruct (is_source_timeout e); cbn [orb]; [apply Hm|].
    destruct (negb (is_canceled e) && negb (is_deadline e)); [apply Hm|].
    destruct (recordSourceResult_run lbl (lit "fail") s) as [w Hw].
    exists w, 0. by rewrite option_fmap_id.
  - destruct (recordSourceResult_run lbl (lit "fail") s) as [w Hw].
    exists w, 0. by rewrite option_fmap_id.
Qed.
Lemma on_metrics_run (f : W → W) s : ∃ w, (if m then on_world f else mret ()) s =
  ((), CState (cs_cache s) (cs_cancels s) w).
Proof using Type. destruct m; [by eexists|]. exists (cs_world s). by destruct s. Qed.

(** One arrival: what it does to the collected part, and whether it cancels. *)
Definition tally (earlyAt : Z) (c : collected) (r : directResult) : collected * bool :=
  let '(all, st, cancelled) := c in
  let all' := all ++ ok_results r in
  let one k := if kind_eqb (kind_of r) k then 1 else 0 in
  let now_ := kind_eqb (kind_of r) KOK && negb cancelled && (earlyAt <=? zlen all') in
  (all', {| Attempted := Attempted st + 1 - one KShed; OK := OK st + one KOK;
            Empty := Empty st + one KEmpty; Failed := Failed st + one KFailed;
            Shed := Shed st + one KShed |}, cancelled || now_, now_).
Lemma collect_step_run earlyAt c r s : ∃ w t,
  collect_step earlyAt c r s =
    ((tally earlyAt c r).1,
     CState ((if marks r then Mark (label r) t else id) <$> cs_cache s)
            (cs_cancels s + if (tally earlyAt c r).2 then 1 else 0) w).
Proof using Type.
  destruct c as [[all [at_ ok em fa sh]] cancelled].
  unfold collect_step, tally, marks, ok_results, kind_of. destruct (err r) as [e|].
  - destruct (is_quota e) eqn:Hq; cbn -[Z.add Z.sub].
    + destruct (recordSourceResult_run (label r) (lit "shed") s) as [w Hw].
      exists w, 0. rewrite (bind_eq _ _ _ _ _ Hw), option_fmap_id, app_nil_r, orb_false_r, Nat.add_0_r.
      rewrite !Z.add_0_r. by replace (at_ + 1 - 1) with at_ by lia.
    + destruct (on_metrics_run (ObserveSeconds (lit "search_source_duration_seconds")
        [(lit "source", label r)] (dur r)) s) as [w Hw].
      rewrite (bind_eq _ _ _ _ _ Hw).
      destruct (handleSourceError_run (label r) e (CState (cs_cache s) (cs_cancels s) w)) as (w' & t & Hh).
      rewrite (bind_eq _ _ _ _ _ Hh). exists w', t. cbn [cs_cache cs_cancels].
      by rewrite app_nil_r, orb_false_r, Nat.add_0_r, !Z.add_0_r, Z.sub_0_r.
  - destruct (on_metrics_run (ObserveSeconds (lit "search_source_duration_seconds")
        [(lit "source", label r)] (dur r)) s) as [w Hw].
    rewrite (bind_eq _ _ _ _ _ Hw). destruct (decide (results r = [])); cbn -[Z.add Z.sub].
    + destruct (recordSourceResult_run (label r) (lit "empty") (CState (cs_cache s) (cs_cancels s) w))
        as [w' Hw']. rewrite (bind_eq _ _ _ _ _ Hw'). exists w', 0.
      by rewrite option_fmap_id, app_nil_r, orb_false_r, Nat.add_0_r, !Z.add_0_r, Z.sub_0_r.
    + destruct (recordSourceResult_run (label r) (lit "ok") (CState (cs_cache s) (cs_cancels s) w))
        as [w' Hw']. rewrite (bind_eq _ _ _ _ _ Hw'). exists w', 0.
      rewrite option_fmap_id, !Z.add_0_r, Z.sub_0_r. cbn [cs_cache cs_cancels].
      destruct (negb cancelled && (earlyAt <=? zlen (all ++ results r))) eqn:E; cbn.
      * by rewrite orb_true_r, Nat.add_1_r.
      * by rewrite orb_false_r, Nat.add_0_r.
Qed.

Lemma run_snoc l o c : run (l ++ [o]) c = step o (run l c).
Proof using Type. unfold run. by rewrite foldl_app. Qed.
Lemma collect_step_spec earlyAt pre r s0 c s :
  collect_spec earlyAt pre s0 c s →
  let '(c', s') := collect_step earlyAt c r s in collect_spec earlyAt (pre ++ [r]) s0 c' s'.
Proof using Type.
  destruct (collect_step_run earlyAt c r s) as (w & t & ->).
  destruct c as [[all st] cancelled].
  intros (-> & Hat & Hok & Hem & Hfa & Hsh & Hca & Hcs & times & Hlen & Hcache).
  unfold collect_spec, tally. cbn [fst snd Attempted OK Empty Failed Shed cs_cancels cs_cache].
  assert ((pre ++ [r]) ≫= ok_results = (pre ≫= ok_results) ++ ok_results r) as Hb.
  { rewrite bind_app. simpl. by rewrite app_nil_r. }
  rewrite Hb, !count_snoc, zlen_app. change (zlen [r]) with 1.
  pose proof (zlen_nonneg (ok_results r)).
  assert (0 <= count KOK pre) as Hc0 by (unfold count; apply zlen_nonneg).
  assert (∀ b : bool, (bool_decide (count KOK pre + (if b then 1 else 0) ≠ 0)) =
          (bool_decide (count KOK pre ≠ 0) || b)) as Hbd.
  { intros []; [rewrite orb_true_r; apply bool_decide_true; lia|]. by rewrite Z.add_0_r, orb_false_r. }
  set (more := if kind_eqb (kind_of r) KOK && negb cancelled && _ then 1%nat else 0%nat).
  assert (cancelled || (kind_eqb (kind_of r) KOK && negb cancelled &&
            (earlyAt <=? zlen ((pre ≫= ok_results) ++ ok_results r))) =
          bool_decide (count KOK pre + (if kind_eqb (kind_of r) KOK then 1 else 0) ≠ 0) &&
            (earlyAt <=? zlen ((pre ≫= ok_results) ++ ok_results r))) as Hcan.
  { rewrite Hbd, Hca, zlen_app. destruct (kind_eqb (kind_of r) KOK) eqn:Hk.
    - destruct (bool_decide (count KOK pre ≠ 0)) eqn:E, (Z.leb_spec earlyAt (zlen (pre ≫= ok_results))),
        (Z.leb_spec earlyAt (zlen (pre ≫= ok_results) + zlen (ok_results r))); try done; lia.
    - assert (ok_results r = []) as -> by (unfold ok_results; by destruct (kind_of r)).
      change (zlen (@nil Result)) with 0. rewrite Z.add_0_r. by rewrite !orb_false_r. }
  split_and!; try lia; [done|by rewrite Hcan| |].
  - subst more. rewrite Hcs. destruct cancelled; cbn [negb orb andb].
    + rewrite andb_false_r. simpl. lia.
    + rewrite andb_true_r. lia.
  - rewrite filter_app, filter_cons, filter_nil. destruct (marks r).
    + exists (times ++ [t]). rewrite !length_app, Hlen. split; [done|].
      rewrite zip_with_app by done. simpl. rewrite Hcache, <- option_fmap_compose.
      destruct (cs_cache s0); [|done]. simpl. by rewrite run_snoc.
    + exists times. rewrite app_nil_r. by rewrite option_fmap_id.
Qed.
Lemma collect_loop_spec earlyAt ch pre s0 c s :
  collect_spec earlyAt pre s0 c s →
  let '(c', s') := collect_loop earlyAt c ch s in collect_spec earlyAt (pre ++ ch) s0 c' s'.
Proof using Type.
  revert pre c s. induction ch as [|r ch IH]; intros pre c s Hs; [by rewrite app_nil_r|].
  pose proof (collect_step_spec earlyAt pre r s0 c s Hs) as Hr. cbn [collect_loop].
  destruct (collect_step earlyAt c r s) as [c1 s1] eqn:E. rewrite (bind_eq _ _ _ _ _ E).
  specialize (IH _ _ _ Hr). by rewrite <- app_assoc in IH.
Qed.

(** The collected part, for the clients of the collection. *)
Lemma kinds_sum ch : zlen ch = count KOK ch + count KEmpty ch + count KFailed ch + count KShed ch.
Proof using Type.
  induction ch as [|r ch IH] using rev_ind; [done|].
  rewrite zlen_app, !count_snoc, IH. change (zlen [r]) with 1. destruct (kind_of r); simpl; lia.
Qed.
Lemma collect_from_nil earlyAt ch s :
  let '(c, s') := collect_loop earlyAt ([], zero_stats, false) ch s in collect_spec earlyAt ch s c s'.
Proof using Type.
  pose proof (collect_loop_spec earlyAt ch [] s ([], zero_stats, false) s) as Hs.
  destruct (collect_loop _ _ ch s) as [c s']. apply Hs.
  unfold collect_spec, count. cbn. split_and!; try done; try lia. exists []. split; [done|].
  by destruct (cs_cache s).
Qed.
Lemma collect_pure earlyAt ch s : ∃ st s',
  collectResults ch earlyAt s = ((ch ≫= ok_results, st), s') ∧
  Attempted st = OK st + Empty st + Failed st ∧ Attempted st + Shed st = zlen ch ∧
  OK st = count KOK ch.
Proof using Type.
  unfold collectResults. pose proof (collect_from_nil earlyAt ch s) as Hs.
  destruct (collect_loop _ _ ch s) as [[[all st] cancelled] s'] eqn:E. rewrite (bind_eq _ _ _ _ _ E).
  destruct Hs as (-> & Hat & Hok & Hem & Hfa & Hsh & _). pose proof (kinds_sum ch).
  exists st, s'. split_and!; [done|lia..].
Qed.
(** Collecting any sequence of arrivals returns the results of the successful sources in
    arrival order with exact counts - Attempted = OK + Empty + Failed, a shed source counted apart
    - cancels the rest exactly once, when the results of the successful sources reach the
    threshold, and marks in the block cache exactly the engines whose error is a rate limit or,
    on the allowlist, a per-source timeout or a hard error that is no cancellation. *)
Theorem collectResults_spec earlyAt ch s :
  let '((all, st), s') := collectResults ch earlyAt s in
  all = ch ≫= ok_results ∧
  Attempted st = OK st + Empty st + Failed st ∧ Attempted st + Shed st = zlen ch ∧
  OK st = count KOK ch ∧ Empty st = count KEmpty ch ∧ Failed st = count KFailed ch ∧
  cs_cancels s' = (cs_cancels s + if (bool_decide (count KOK ch ≠ 0) && (earlyAt <=? zlen all))%Z
                                  then 1 else 0)%nat ∧
  ∃ times, length times = length (filter marks ch) ∧
    cs_cache s' = run (zip_with (λ r t, OpMark (label r) t) (filter marks ch) times) <$> cs_cache s.
Proof using Type.
  unfold collectResults. pose proof (collect_from_nil earlyAt ch s) as Hs.
  destruct (collect_loop _ _ ch s) as [[[all st] cancelled] s'] eqn:E. rewrite (bind_eq _ _ _ _ _ E).
  cbn [fst]. unfold mret, M_ret.
  destruct Hs as (-> & Hat & Hok & Hem & Hfa & Hsh & -> & Hcs & Ht). pose proof (kinds_sum ch).
  split_and!; try done; lia.
Qed.

(** Whichever case the select takes when a source's context ends, its error is the same, so
    that the outcome does not depend on the race: with the per-source cause it is a timeout that
    marks an allowlisted engine, with the cause of the caller's own deadline or cancellation it
    marks nothing. *)
Theorem runSource_race lbl e cerr cause d :
  is_deadline e = true →
  runSourceWithTimeout TookDone lbl (Err e) (Some (cerr, cause)) d =
  runSourceWithTimeout TookCtx lbl (Err e) (Some (cerr, cause)) d ∧
  (cause = errPerSourceTimeout → lbl ∈ oxEscalate →
     marks (runSourceWithTimeout TookDone lbl (Err e) (Some (cerr, cause)) d) = true) ∧
  (cause = CtxCanceled ∨ cause = CtxDeadlineExceeded →
     marks (runSourceWithTimeout TookDone lbl (Err e) (Some (cerr, cause)) d) = false).
Proof using Type.
  intros He. unfold runSourceWithTimeout, marks. rewrite He. cbn [err label]. split_and!; [done| |].
  - intros -> Hin. rewrite bool_decide_true by done. vm_compute. done.
  - intros Hc. destruct (bool_decide (lbl ∈ oxEscalate)); destruct Hc as [-> | ->]; vm_compute; done.
Qed.
End Collect.
Lemma runSource_race_witness :
  let e := Wrapped (lit "Get") CtxDeadlineExceeded in
  runSourceWithTimeout TookDone (lit "ddg") (Err e) (Some (CtxDeadlineExceeded, errPerSourceTimeout)) 0 =
  runSourceWithTimeout TookCtx (lit "ddg") (Err e) (Some (CtxDeadlineExceeded, errPerSourceTimeout)) 0 ∧
  marks [lit "ddg"] (runSourceWithTimeout TookDone (lit "ddg") (Err e)
    (Some (CtxDeadlineExceeded, errPerSourceTimeout)) 0) = true.
Proof.
  intros e.
  destruct (runSource_race [lit "ddg"] (lit "ddg") e CtxDeadlineExceeded errPerSourceTimeout 0)
    as (H1 & H2 & _); [vm_compute; reflexivity|].
  split; [exact H1|]. apply H2; [reflexivity|]. by apply list_elem_of_singleton.
Defined.
