(* ===== verification/Direct.v ===== *)
(** Package [search], [direct_runners.go], [pacer.go] and [SearchDirect] of [direct.go]: the
    runner of every source, the tiers of the Reddit search, the escalation to the rendering
    browser, and the fan-out. *)
From S2P Require Import Prelude Unicode Utf8 GoStrings GoUrl Floats Json Effects GoTime Results Retry BlockCache Serp Engines SearchEngines RedditOAuth Fanout Collect.
Local Open Scope Z_scope.

(** ** Pacing *)
(** [envIntDefault]: the variable's value, which is empty when it is not set. *)
Definition envIntDefault (value : gostring) (defaultVal : Z) : Z :=
  if decide (value = []) then defaultVal else
  match Atoi value with
  | Some v => if v <? 0 then defaultVal else v
  | None => defaultVal
  end.
(** The minimum spacing and the jitter of the scraper pacer. *)
Definition NewScraperPacer (minMS jitterMS : gostring) : Z * Z :=
  (wrap64 (envIntDefault minMS 1000 * Millisecond), wrap64 (envIntDefault jitterMS 1500 * Millisecond)).

(** ** Tiers *)
Definition isEscalatable (e : error) : bool :=
  if is_canceled e || is_deadline e then false
  else if is_var (lit "reddit: invalid client credentials") e then false
  else if is_var (lit "transient server error") e then true
  else match as_rate_limited e with Some _ => true | None => false end.
Definition tierOutcomeLabel (e : option error) : gostring :=
  match e with
  | None => lit "empty"
  | Some e => match as_rate_limited e with Some _ => lit "rate_limited" | None => lit "error" end
  end.
(** [tierCallResult]: [Done] returns at once, [Next] goes on, skipping a tier or not. *)
Inductive tierCallResult := TierDone (r : result (list Result)) | TierNext (skipNext : bool).
Definition classify_tier1 (r : result (list Result)) : tierCallResult :=
  match r with
  | Val ((_ :: _) as rs) => TierDone (Val rs)
  | Val [] => TierNext false
  | Err e => if is_var (lit "reddit: invalid client credentials") e then TierNext true
             else if negb (isEscalatable e) then TierDone (Err e) else TierNext false
  end.
Definition classify_tier (r : result (list Result)) : tierCallResult :=
  match r with
  | Val ((_ :: _) as rs) => TierDone (Val rs)
  | Val [] => TierNext false
  | Err e => if negb (isEscalatable e) then TierDone (Err e) else TierNext false
  end.
Definition classify_final (r : result (list Result)) : tierCallResult :=
  match r with Val ((_ :: _) as rs) => TierDone (Val rs) | _ => TierNext false end.

Section Direct.
Context {W Node : Type} `{Clock W} `{Host W} `{Metrics W} `{GoQuery Node}.
Notation search_fn := (ctx → gostring → M W (result (list Result))).

(** ** Configuration *)
Record DirectConfig := {
  cfg_Browser : option (BrowserDoer W);
  cfg_FallbackBrowser : option (BrowserDoer W);
  cfg_MojeekBrowser : option (BrowserDoer W);
  cfg_DDG : bool; cfg_Startpage : bool; cfg_Brave : bool; cfg_Reddit : bool; cfg_Bing : bool;
  cfg_Yep : bool; cfg_Wikipedia : bool; cfg_Marginalia : bool; cfg_Mojeek : bool;
  cfg_MarginaliaKey : gostring;
  cfg_MarginaliaBudget : option (M W bool);        (* its Acquire *)
  cfg_YandexKey : gostring;
  cfg_Retry : RetryConfig;
  cfg_Metrics : bool;                               (* a registry is set *)
  (* the limiters: their Wait *)
  cfg_DDGLimiter : option (ctx → M W (option error));
  cfg_StartpageLimiter : option (ctx → M W (option error));
  cfg_BraveLimiter : option (ctx → M W (option error));
  cfg_RedditLimiter : option (ctx → M W (option error));
  cfg_BingLimiter : option (ctx → M W (option error));
  cfg_RedditOAuth : option (gostring → M W (result (list Result)));
  cfg_RedditCookieSearch : option search_fn;
  cfg_RedditBrowserRender : option search_fn;
  cfg_TimeRange : gostring;
  cfg_PerSourceTimeout : Z;
  cfg_EarlyReturnAt : Z;
  cfg_OxBrowserFetch : option (ctx → gostring → M W (result gostring));
  cfg_OxEscalate : list gostring;
  cfg_OxConcurrency : Z;
  cfg_OxRenderDeadline : Z;
  cfg_Pacer : option (ctx → gostring → M W (option error))  (* its Wait *)
}.
(** What the package keeps outside a configuration, and the engines modelled elsewhere. *)
Record Package := {
  defaultMarginaliaBudget : M W bool;
  searchYep : BrowserDoer W → ctx → gostring → gostring → M W (result (list Result));
  searchYandex : ctx → gostring → gostring → M W (result (list Result));
  error_text : error → gostring
}.
Variables (pkg : Package) (cfg : DirectConfig) (browser : BrowserDoer W).
Implicit Types (cx : ctx) (query : gostring).

(** ** Runners; [browser] is the configured one with its fallback *)
(** A limiter that is set is waited on; when that fails the engine is skipped. *)
Definition limited (lim : option (ctx → M W (option error))) cx
    (k : M W (result (list Result))) : M W (result (list Result)) :=
  match lim with
  | None => k
  | Some wait => e ← wait cx; match e with Some _ => mret (Val []) | None => k end
  end.
Definition retried cx (fn : M W (result (list Result))) : M W (result (list Result)) :=
  RetryDo cx (cfg_Retry cfg) fn [].
Definition runDDG cx query : M W (result (list Result)) :=
  limited (cfg_DDGLimiter cfg) cx (retried cx
    (SearchDDGDirect cx browser query (lit "wt-wt") (cfg_Metrics cfg) (cfg_TimeRange cfg))).
Definition runStartpage cx query (language : gostring) : M W (result (list Result)) :=
  limited (cfg_StartpageLimiter cfg) cx (retried cx
    (SearchStartpageDirect cx browser query language (cfg_Metrics cfg) (cfg_TimeRange cfg))).
Definition runBrave cx query : M W (result (list Result)) :=
  limited (cfg_BraveLimiter cfg) cx (retried cx
    (SearchBraveDirect cx browser query (cfg_Metrics cfg) (cfg_TimeRange cfg))).
Definition runBing cx query : M W (result (list Result)) :=
  limited (cfg_BingLimiter cfg) cx (retried cx
    (SearchBingDirect cx browser query (cfg_Metrics cfg) (cfg_TimeRange cfg))).
Definition runWikipedia cx query (language : gostring) : M W (result (list Result)) :=
  let lang := if HasPrefix language (lit "ru") then lit "ru" else lit "en" in
  SearchWikipediaDirect cx browser query lang (cfg_Metrics cfg).
Definition runMarginalia cx query : M W (result (list Result)) :=
  ok ← default (defaultMarginaliaBudget pkg) (cfg_MarginaliaBudget cfg);
  if negb ok then mret (Err ErrMarginaliaQuotaExhausted)
  else searchMarginaliaDirect (error_text pkg) cx browser query (cfg_MarginaliaKey cfg)
         (cfg_Metrics cfg).
Definition runMojeek cx query : M W (result (list Result)) :=
  SearchMojeekDirect cx (default browser (cfg_MojeekBrowser cfg)) query (cfg_Metrics cfg)
    (cfg_TimeRange cfg).

(** The tiers: OAuth, cookie, render; without any of them the legacy search. *)
Definition callTier1OAuth (oauth : gostring → M W (result (list Result))) query
    : M W tierCallResult := r ← oauth query; mret (classify_tier1 r).
Definition callTierFn (fn : search_fn) cx query : M W tierCallResult :=
  r ← fn cx query; mret (classify_tier r).
Definition callTierFnFinal (fn : search_fn) cx query : M W tierCallResult :=
  r ← fn cx query; mret (classify_final r).
(** The tiers after the first. *)
Definition reddit_tier3 cx query : M W (result (list Result)) :=
  match cfg_RedditBrowserRender cfg with
  | Some fn => t ← callTierFnFinal fn cx query;
               match t with TierDone r => mret r | TierNext _ => mret (Val []) end
  | None => mret (Val [])
  end.
Definition reddit_tier2 cx query (skip : bool) : M W (result (list Result)) :=
  match cfg_RedditCookieSearch cfg, skip with
  | Some fn, false =>
      t ← callTierFn fn cx query;
      match t with TierDone r => mret r | TierNext _ => reddit_tier3 cx query end
  | _, _ => reddit_tier3 cx query
  end.
Definition runReddit cx query : M W (result (list Result)) :=
  limited (cfg_RedditLimiter cfg) cx
    (match cfg_RedditOAuth cfg, cfg_RedditCookieSearch cfg, cfg_RedditBrowserRender cfg with
     | None, None, None =>
         retried cx (SearchRedditDirect cx browser query (cfg_Metrics cfg) (cfg_TimeRange cfg))
     | Some oauth, _, _ =>
         t ← callTier1OAuth oauth query;
         match t with TierDone r => mret r | TierNext skip => reddit_tier2 cx query skip end
     | None, _, _ => reddit_tier2 cx query false
     end).

(** ** Escalation to the rendering browser *)
Definition ox_outcome : Type := list Result * gostring.
Definition ox_classify (limited_page : gostring → bool) (parse : gostring → result (list Result))
    (fetched : result gostring) : ox_outcome :=
  match fetched with
  | Err _ => ([], lit "fail")
  | Val html =>
      match parse html with
      | Err _ => ([], lit "fail")
      | Val [] => ([], if limited_page html then lit "captcha" else lit "empty")
      | Val rs => (rs, lit "ok")
      end
  end.
Definition runOxDDG (fetch : gostring → M W (result gostring)) query : M W ox_outcome :=
  h ← fetch (DDGHTMLURL query [range_opts (cfg_TimeRange cfg)]);
  mret (ox_classify IsDDGRateLimited ParseDDGHTML h).
Definition runOxBrave (fetch : gostring → M W (result gostring)) query : M W ox_outcome :=
  h ← fetch (BraveSearchURL query [range_opts (cfg_TimeRange cfg)]);
  mret (ox_classify brave_limited ParseBraveHTML h).
Definition runOxBing (fetch : gostring → M W (result gostring)) query : M W ox_outcome :=
  today ← gets localDay;
  h ← fetch (BingSearchURL today query [range_opts (cfg_TimeRange cfg)]);
  mret (ox_classify IsBingRateLimited ParseBingHTML h).
Definition runOxEngine (fetch : ctx → gostring → M W (result gostring)) cx query (lbl : gostring)
    : M W ox_outcome :=
  let deadline := if cfg_OxRenderDeadline cfg <=? 0 then 8 * Second else cfg_OxRenderDeadline cfg in
  t ← gets now;
  let rctx := WithTimeout cx t deadline in
  if decide (lbl = lit "ddg") then runOxDDG (fetch rctx) query
  else if decide (lbl = lit "brave") then runOxBrave (fetch rctx) query
  else if decide (lbl = lit "bing") then runOxBing (fetch rctx) query
  else mret ([], lit "fail").

(** *** The stateful part: the world and the block cache *)
Definition in_world {A} (k : M W A) : M (cstate W) A := λ s,
  let '(a, w) := k (cs_world s) in (a, CState (cs_cache s) (cs_cancels s) w).
Definition when_m (f : W → W) : M (cstate W) () := in_world (when (cfg_Metrics cfg) f).
(** [cfg.BlockCache.IsBlocked(label)], false without a cache. *)
Definition isBlocked (lbl : gostring) : M (cstate W) bool := λ s,
  match cs_cache s with
  | None => (false, s)
  | Some c => let '(b, c) := IsBlocked lbl (now (cs_world s)) c in
              (b, CState (Some c) (cs_cancels s) (cs_world s))
  end.
Definition unmark (lbl : gostring) : M (cstate W) () :=
  modify (λ s, CState (Unmark lbl <$> cs_cache s) (cs_cancels s) (cs_world s)).
Fixpoint select_blocked (want : bool) (ls : list gostring) : M (cstate W) (list gostring) :=
  match ls with
  | [] => mret []
  | l :: ls => b ← isBlocked l;
               rest ← select_blocked want ls;
               mret (if Bool.eqb b want then l :: rest else rest)
  end.
Definition recordOxEscalation (lbl out : gostring) : M (cstate W) () :=
  when_m (Incr (lit "ox_escalation_total") [(lit "engine", lbl); (lit "outcome", out)]).

(** A slot is taken for each eligible engine while there is one; the others are recorded. *)
Fixpoint acquireOxSlots (slots : nat) (eligible : list gostring) : M (cstate W) (list gostring) :=
  match eligible, slots with
  | [], _ => mret []
  | l :: ls, S slots => rest ← acquireOxSlots slots ls; mret (l :: rest)
  | l :: ls, O => recordOxEscalation l (lit "skipped");; acquireOxSlots O ls
  end.
(** One render: the goroutine of an engine. *)
Definition ox_run (fetch : ctx → gostring → M W (result gostring)) cx query (lbl : gostring)
    : M (cstate W) (list Result) :=
  when_m (GaugeAdd (lit "ox_browser_inflight") 1);;
  out ← in_world (runOxEngine fetch cx query lbl);
  recordOxEscalation lbl out.2;;
  (if decide (out.1 = []) then unmark lbl else mret ());;
  when_m (GaugeAdd (lit "ox_browser_inflight") (-1));;
  mret out.1.
(** The order in which the renders finish. *)
Variable ox_order : list gostring → list gostring.
Definition runOxEscalation cx query (mergedLen earlyAt : Z) : M (cstate W) (list Result) := λ s,
  match cfg_OxBrowserFetch cfg, cfg_OxEscalate cfg, cs_cache s with
  | Some fetch, (_ :: _) as labels, Some _ =>
      if earlyAt <=? mergedLen then ([], s) else
      (eligible ← select_blocked true labels;
       let concurrency := if cfg_OxConcurrency cfg <=? 0 then 2 else cfg_OxConcurrency cfg in
       acquired ← acquireOxSlots (Z.to_nat concurrency) eligible;
       rs ← traverse (ox_run fetch cx query) (ox_order acquired);
       mret (mjoin rs)) s
  | _, _, _ => ([], s)
  end.

(** ** The fan-out *)
Record directJob := {
  j_enabled : bool; j_label : gostring; j_fn : ctx → M W (result (list Result))
}.
Definition job (e : bool) (l : gostring) (f : ctx → M W (result (list Result))) : directJob :=
  {| j_enabled := e; j_label := l; j_fn := f |}.
Definition jobs query (language : gostring) : list directJob :=
  let any_range := bool_decide (cfg_TimeRange cfg = []) in
  [job (cfg_DDG cfg) (lit "ddg") (λ cx, runDDG cx query);
   job (cfg_Startpage cfg) (lit "startpage") (λ cx, runStartpage cx query language);
   job (cfg_Brave cfg) (lit "brave") (λ cx, runBrave cx query);
   job (cfg_Reddit cfg) (lit "reddit") (λ cx, runReddit cx query);
   job (cfg_Bing cfg) (lit "bing") (λ cx, runBing cx query);
   job (cfg_Yep cfg) (lit "yep") (λ cx, searchYep pkg browser cx query (cfg_TimeRange cfg));
   job (bool_decide (cfg_YandexKey cfg ≠ [])) (lit "yandex")
       (λ cx, searchYandex pkg cx query (cfg_TimeRange cfg));
   job (cfg_Wikipedia cfg && any_range) (lit "wikipedia") (λ cx, runWikipedia cx query language);
   job (cfg_Marginalia cfg && any_range) (lit "marginalia") (λ cx, runMarginalia cx query);
   job (cfg_Mojeek cfg) (lit "mojeek") (λ cx, runMojeek cx query)].
Definition applyPacing (js : list directJob) : list directJob :=
  match cfg_Pacer cfg with
  | None => js
  | Some wait =>
      (λ j, if j_enabled j then
              job true (j_label j) (λ cx,
                e ← wait cx (j_label j);
                match e with Some _ => mret (Val []) | None => j_fn j cx end)
            else j) <$> js
  end.
(** The jobs that are launched: the enabled ones whose engine is not marked. *)
Fixpoint launch (js : list directJob) : M (cstate W) (list directJob) :=
  match js with
  | [] => mret []
  | j :: js =>
      if j_enabled j then
        b ← isBlocked (j_label j);
        rest ← launch js;
        mret (if (b : bool) then rest else j :: rest)
      else launch js
  end.
(** The goroutines of the launched jobs: what arrives on the channel, in order. Each is given the
    timeout; how they interleave is the scheduler's, so this is a parameter. *)
Variable fan_out : ctx → Z → list directJob → M W (list directResult).
Definition fan_out_search cx query (language : gostring)
    : M (cstate W) (list Result * DirectStats) :=
  let perSrc := if cfg_PerSourceTimeout cfg =? 0 then defaultPerSourceTimeout
                else cfg_PerSourceTimeout cfg in
  let earlyAt := if cfg_EarlyReturnAt cfg =? 0 then defaultEarlyReturnAt else cfg_EarlyReturnAt cfg in
  let js := applyPacing (jobs query language) in
  if negb (existsb j_enabled js) then mret ([], zero_stats) else
  launched ← launch js;
  ch ← in_world (fan_out cx perSrc launched);
  r ← collectResults (cfg_Metrics cfg) (cfg_OxEscalate cfg) ch earlyAt;
  ox ← runOxEscalation cx query (zlen r.1) earlyAt;
  mret (r.1 ++ ox, r.2).
End Direct.
(** [SearchDirect]: without a browser there is no search; with one, the runners use it with its
    fallback. *)
Definition SearchDirect {W Node : Type} `{Clock W} `{Host W} `{Metrics W} `{GoQuery Node}
    (pkg : Package (W := W)) (cfg : DirectConfig (W := W)) (ox_order : list gostring → list gostring)
    (fan_out : ctx → Z → list directJob → M W (list directResult)) (cx : ctx)
    (query language : gostring) : M (cstate W) (list Result * DirectStats) :=
  match cfg_Browser cfg with
  | None => mret ([], zero_stats)
  | Some b => fan_out_search pkg cfg (newDualBrowser b (cfg_FallbackBrowser cfg)) ox_order fan_out
                cx query language
  end.

(** ** [SearchDirect] as a fan-out *)
Definition search_fan {W} `{Clock W} `{Metrics W} (m : bool) (oxEscalate : list gostring) (earlyAt : Z)
    : fan_ops W directJob directResult collected (cstate W) :=
  {| fo_fn j := j_fn j;
     fo_send b j := runSourceWithTimeout b (j_label j);
     fo_timeout := errPerSourceTimeout;
     fo_none := ([], zero_stats, false);
     fo_receive := collect_step m oxEscalate earlyAt;
     fo_enough c := c.2;
     fo_world := cs_world;
     fo_set_world w s := CState (cs_cache s) (cs_cancels s) w |}.
