(* ===== verification/DirectSpec.v ===== *)
(** What [SearchDirect] and its parts promise: the accounting of a fan-out, the engines it skips,
    the escalation to the rendering browser, the tiers of the Reddit search and the budget of the
    Marginalia search. *)
From S2P Require Import Prelude Unicode Utf8 GoStrings GoUrl Floats Json Effects GoTime Results Retry BlockCache Serp Engines SearchEngines RedditOAuth Fanout Collect Direct.
Local Open Scope Z_scope.

Section Spec.
Context {W Node : Type} `{Clock W} `{Host W} `{Metrics W} `{GoQuery Node}.
Variables (pkg : Package (W := W)) (cfg : DirectConfig (W := W)).
Implicit Types (s : cstate W) (cx : ctx) (query : gostring).

(** *** The cache, as the answers it gives *)
(** A state whose cache gives the same answers from [t] on. *)
Definition same_answers (t : Z) s s' : Prop :=
  cs_world s' = cs_world s ∧ cs_cancels s' = cs_cancels s ∧
  match cs_cache s, cs_cache s' with
  | None, None => True
  | Some c, Some c' => ∀ l t', t <= t' → blocked c' l t' = blocked c l t'
  | _, _ => False
  end.
Lemma same_answers_refl t s : same_answers t s s.
Proof using Type. split_and!; [done..|]. by destruct (cs_cache s). Qed.
Lemma same_answers_trans t s1 s2 s3 :
  same_answers t s1 s2 → same_answers t s2 s3 → same_answers t s1 s3.
Proof using Type.
  intros (K1 & K2 & K3) (K4 & K5 & K6). split_and!; [congruence..|].
  destruct (cs_cache s1), (cs_cache s2), (cs_cache s3); try done.
  intros l t' Ht. by rewrite K6, K3.
Qed.
(** Whether a label is marked, in a state. *)
Definition is_marked s (l : gostring) : bool :=
  match cs_cache s with Some c => blocked c l (now (cs_world s)) | None => false end.
Lemma isBlocked_run l s : ∃ s', isBlocked l s = (is_marked s l, s') ∧
  same_answers (now (cs_world s)) s s'.
Proof using Type.
  unfold isBlocked, is_marked. destruct (cs_cache s) as [c|] eqn:E.
  - pose proof (IsBlocked_blocked l (now (cs_world s)) c) as Ha.
    pose proof (IsBlocked_keeps l (now (cs_world s)) c) as Hk.
    destruct (IsBlocked l _ c) as [b c']. simpl in *. subst b. eexists. split; [done|].
    split_and!; [done..|]. rewrite E. simpl. auto.
  - eexists. split; [done|]. apply same_answers_refl.
Qed.
Lemma same_answers_marked s s' l :
  same_answers (now (cs_world s)) s s' → is_marked s' l = is_marked s l.
Proof using Type.
  unfold is_marked. intros (Hw & _ & Hc). rewrite Hw.
  destruct (cs_cache s), (cs_cache s'); try done. by apply Hc.
Qed.
Lemma select_blocked_run ls s : ∃ s',
  select_blocked true ls s = (filter (is_marked s) ls, s') ∧ same_answers (now (cs_world s)) s s'.
Proof using Type.
  revert s. induction ls as [|l ls IH]; intros s; [exists s; split; [done|apply same_answers_refl]|].
  destruct (isBlocked_run l s) as (s1 & K1 & Hs1). destruct (IH s1) as (s2 & K2 & Hs2).
  pose proof Hs1 as (Hw & _). rewrite Hw in Hs2. exists s2. split.
  - cbn [select_blocked]. rewrite (bind_eq _ _ _ _ _ K1), (bind_eq _ _ _ _ _ K2).
    rewrite filter_cons. unfold mret, M_ret.
    rewrite (list_filter_iff (is_marked s1) (is_marked s)).
    2:{ intros x. by rewrite (same_answers_marked s s1). }
    by destruct (is_marked s l).
  - by eapply same_answers_trans.
Qed.
Lemma launch_run (js : list (directJob (W := W))) s :
  ∃ s', launch js s = (filter (λ j, j_enabled j && negb (is_marked s (j_label j))) js, s') ∧
        same_answers (now (cs_world s)) s s'.
Proof using Type.
  revert s. induction js as [|j js IH]; intros s; [exists s; split; [done|apply same_answers_refl]|].
  cbn [launch]. rewrite filter_cons. destruct (j_enabled j); [|by rewrite decide_False by (intros [])].
  destruct (isBlocked_run (j_label j) s) as (s1 & K1 & Hs1). destruct (IH s1) as (s2 & K2 & Hs2).
  pose proof Hs1 as (Hw & _). rewrite Hw in Hs2. exists s2. split; [|by eapply same_answers_trans].
  rewrite (bind_eq _ _ _ _ _ K1), (bind_eq _ _ _ _ _ K2).
  rewrite (list_filter_iff _ (λ j, j_enabled j && negb (is_marked s (j_label j)))).
  2:{ intros x. by rewrite (same_answers_marked s s1). }
  unfold mret, M_ret. by destruct (is_marked s (j_label j)).
Qed.

(** *** The escalation *)
(** Only metrics are recorded between the two worlds. *)
Definition metric_step (w w' : W) : Prop :=
  (∃ name labels, w' = Incr name labels w) ∨ ∃ name delta, w' = GaugeAdd name delta w.
Definition metered : W → W → Prop := rtc metric_step.
(** What a render of an engine is to fetch, and what is found on the page. *)
Definition ox_page (today : Z) query (lbl : gostring)
    : option (gostring * (gostring → result (list Result))) :=
  let range := [range_opts (cfg_TimeRange cfg)] in
  if decide (lbl = lit "ddg") then Some (DDGHTMLURL query range, ParseDDGHTML)
  else if decide (lbl = lit "brave") then Some (BraveSearchURL query range, ParseBraveHTML)
  else if decide (lbl = lit "bing") then Some (BingSearchURL today query range, ParseBingHTML)
  else None.
Definition ox_time : Z := if 0 <? cfg_OxRenderDeadline cfg then cfg_OxRenderDeadline cfg else 8 * Second.
(** One request for the page of the engine, within the time of a render; none for an engine that
    cannot be rendered. *)
Definition one_render (fetch : ctx → gostring → M W (result gostring)) cx query (lbl : gostring)
    (rs : list Result) (w w' : W) : Prop :=
  match ox_page (localDay w) query lbl with
  | None => rs = [] ∧ w' = w
  | Some (url, parse) => ∃ answer, fetch (WithTimeout cx (now w) ox_time) url w = (answer, w') ∧
      rs = match answer with
           | Val html => match parse html with Val found => found | Err _ => [] end
           | Err _ => []
           end
  end.
(** The renders of a search, one after the other, with nothing but metrics around them. *)
Inductive renders fetch cx query : list (gostring * list Result) → W → W → Prop :=
| renders_none w w' : metered w w' → renders fetch cx query [] w w'
| renders_one lbl rs outs w w1 w2 w' :
    metered w w1 → one_render fetch cx query lbl rs w1 w2 → renders fetch cx query outs w2 w' →
    renders fetch cx query ((lbl, rs) :: outs) w w'.
Lemma renders_before fetch cx query outs w w1 w' :
  metered w w1 → renders fetch cx query outs w1 w' → renders fetch cx query outs w w'.
Proof using Type.
  intros Hm Hr. destruct Hr as [w1 w' Hm'|]; [constructor; by etrans|].
  econstructor; [|done..]. by etrans.
Qed.
Lemma ox_classify_found limited_page parse fetched :
  (ox_classify limited_page parse fetched).1 =
  match fetched with
  | Val html => match parse html with Val found => found | Err _ => [] end
  | Err _ => []
  end.
Proof using Type. destruct fetched as [html|]; [|done]. simpl. by destruct (parse html) as [[|]|]. Qed.
Lemma runOxEngine_one_render fetch cx query l w : ∃ out w',
  runOxEngine cfg fetch cx query l w = (out, w') ∧ one_render fetch cx query l out.1 w w'.
Proof using Type.
  assert ((if cfg_OxRenderDeadline cfg <=? 0 then 8 * Second else cfg_OxRenderDeadline cfg) = ox_time) as Ht.
  { unfold ox_time. destruct (Z.leb_spec (cfg_OxRenderDeadline cfg) 0), (Z.ltb_spec 0 (cfg_OxRenderDeadline cfg)); done || lia. }
  unfold runOxEngine, one_render, ox_page. rewrite Ht. unfold mbind, M_bind, gets, mret, M_ret.
  unfold runOxDDG, runOxBrave, runOxBing, mbind, M_bind, gets, mret, M_ret.
  destruct (decide (l = lit "ddg")); [|destruct (decide (l = lit "brave")); [|destruct (decide (l = lit "bing"))]];
    [..|by eexists _, _].
  all: destruct (fetch _ _ w) as [r w'] eqn:E; eexists _, w'; (split; [reflexivity|]).
  all: exists r; (split; [done|]); apply ox_classify_found.
Qed.

Lemma when_m_run (f : W → W) s : (∀ w, metric_step w (f w)) →
  ∃ w, when_m cfg f s = ((), CState (cs_cache s) (cs_cancels s) w) ∧ metered (cs_world s) w.
Proof using Type.
  intros Hf. eexists. split; [reflexivity|]. simpl. destruct (cfg_Metrics cfg); [|apply rtc_refl].
  by apply rtc_once.
Qed.
Lemma recordOxEscalation_run l out s : ∃ w,
  recordOxEscalation cfg l out s = ((), CState (cs_cache s) (cs_cancels s) w) ∧ metered (cs_world s) w.
Proof using Type. apply when_m_run. intros w. left. by do 2 eexists. Qed.
Lemma inflight_run d s : ∃ w,
  when_m cfg (GaugeAdd (lit "ox_browser_inflight") d) s = ((), CState (cs_cache s) (cs_cancels s) w) ∧
  metered (cs_world s) w.
Proof using Type. apply when_m_run. intros w. right. by do 2 eexists. Qed.
Lemma acquireOxSlots_run n ls s : ∃ w,
  acquireOxSlots cfg n ls s = (take n ls, CState (cs_cache s) (cs_cancels s) w) ∧ metered (cs_world s) w.
Proof using Type.
  revert n s. induction ls as [|l ls IH]; intros n s.
  - exists (cs_world s). rewrite take_nil. split; [by destruct n, s|apply rtc_refl].
  - destruct n as [|n]; cbn [acquireOxSlots].
    + destruct (recordOxEscalation_run l (lit "skipped") s) as (w & K & Hm). rewrite (bind_eq _ _ _ _ _ K).
      destruct (IH O (CState (cs_cache s) (cs_cancels s) w)) as (w' & K' & Hm'). exists w'. rewrite K'.
      split; [done|]. by etrans.
    + destruct (IH n s) as (w & K & Hm). exists w. by rewrite (bind_eq _ _ _ _ _ K).
Qed.
(** What a render without results does to the cache. *)
Definition after_render (l : gostring) (rs : list Result) (c : option DirectBlockCache)
    : option DirectBlockCache := if decide (rs = []) then Unmark l <$> c else c.
Lemma ox_run_run fetch cx query l s : ∃ rs w w1 w2,
  ox_run cfg fetch cx query l s = (rs, CState (after_render l rs (cs_cache s)) (cs_cancels s) w) ∧
  metered (cs_world s) w1 ∧ one_render fetch cx query l rs w1 w2 ∧ metered w2 w.
Proof using Type.
  unfold ox_run. destruct (inflight_run 1 s) as (w1 & K1 & Hm1). rewrite (bind_eq _ _ _ _ _ K1).
  destruct (runOxEngine_one_render fetch cx query l w1) as (out & w2 & E & Hr).
  assert (in_world (runOxEngine cfg fetch cx query l) (CState (cs_cache s) (cs_cancels s) w1) =
    (out, CState (cs_cache s) (cs_cancels s) w2)) as K2 by (unfold in_world; cbn [cs_world]; by rewrite E).
  rewrite (bind_eq _ _ _ _ _ K2).
  destruct (recordOxEscalation_run l out.2 (CState (cs_cache s) (cs_cancels s) w2)) as (w3 & K3 & Hm3).
  rewrite (bind_eq _ _ _ _ _ K3). cbn [cs_cache cs_cancels cs_world] in *.
  assert ((if decide (out.1 = []) then unmark l else mret ()) (CState (cs_cache s) (cs_cancels s) w3) =
    ((), CState (after_render l out.1 (cs_cache s)) (cs_cancels s) w3)) as K4.
  { unfold after_render. by case_decide. }
  rewrite (bind_eq _ _ _ _ _ K4).
  destruct (inflight_run (-1) (CState (after_render l out.1 (cs_cache s)) (cs_cancels s) w3))
    as (w5 & K5 & Hm5). exists out.1, w5, w1, w2. rewrite (bind_eq _ _ _ _ _ K5).
  split_and!; try done. by etrans.
Qed.
Definition after_renders (outs : list (gostring * list Result)) (c : option DirectBlockCache)
    : option DirectBlockCache := foldl (λ c o, after_render o.1 o.2 c) c outs.
Lemma ox_traverse_run fetch cx query ls s : ∃ outs w,
  traverse (ox_run cfg fetch cx query) ls s =
    (snd <$> outs, CState (after_renders outs (cs_cache s)) (cs_cancels s) w) ∧ fst <$> outs = ls ∧
  renders fetch cx query outs (cs_world s) w.
Proof using Type.
  revert s. induction ls as [|l ls IH]; intros s.
  - exists [], (cs_world s). split; [by destruct s|]. split; [done|]. constructor. apply rtc_refl.
  - destruct (ox_run_run fetch cx query l s) as (rs & w & w1 & w2 & K1 & Hm1 & Hr & Hm2).
    destruct (IH (CState (after_render l rs (cs_cache s)) (cs_cancels s) w)) as (outs & w' & K2 & Ho & Hrs).
    exists ((l, rs) :: outs), w'. cbn [traverse]. rewrite (bind_eq _ _ _ _ _ K1), (bind_eq _ _ _ _ _ K2).
    split; [done|]. split; [by rewrite fmap_cons, Ho|].
    econstructor; [exact Hm1|exact Hr|]. by eapply renders_before.
Qed.
(** A render of the engine found nothing. *)
Definition came_back_empty (outs : list (gostring * list Result)) (l : gostring) : bool :=
  existsb (λ o, bool_decide (o.1 = l) && match o.2 with [] => true | _ => false end) outs.
Lemma after_renders_blocked outs c : ∃ c', after_renders outs (Some c) = Some c' ∧
  ∀ l t, blocked c' l t = blocked c l t && negb (came_back_empty outs l).
Proof using Type.
  revert c. induction outs as [|[l0 rs] outs IH]; intros c.
  - exists c. split; [done|]. intros l t. by rewrite andb_true_r.
  - cbn [after_renders foldl]. unfold after_render. cbn [fst snd].
    destruct (decide (rs = [])) as [->|Hne].
    + destruct (IH (Unmark l0 c)) as (c' & K & Hb). exists c'. split; [done|]. intros l t.
      rewrite Hb, Unmark_blocked. cbn [came_back_empty existsb fst snd].
      destruct (decide (l = l0)) as [->|Hl].
      * rewrite bool_decide_true by done. by rewrite andb_false_r.
      * by rewrite bool_decide_false by congruence.
    + destruct (IH c) as (c' & K & Hb). exists c'. split; [done|]. intros l t. rewrite Hb.
      cbn [came_back_empty existsb fst snd]. destruct rs; [done|]. by rewrite andb_false_r.
Qed.
Definition ox_concurrency : Z := if cfg_OxConcurrency cfg <=? 0 then 2 else cfg_OxConcurrency cfg.

(** What the escalation renders and unmarks. *)
Lemma escalation_effect order cx query mergedLen earlyAt s :
  (∀ ls, order ls ≡ₚ ls) →
  let '(rs, s') := runOxEscalation cfg order cx query mergedLen earlyAt s in
  match cfg_OxBrowserFetch cfg, cfg_OxEscalate cfg, cs_cache s with
  | Some fetch, (_ :: _) as labels, Some c =>
      if earlyAt <=? mergedLen then rs = [] ∧ s' = s else
      ∃ outs c',
        fst <$> outs ≡ₚ take (Z.to_nat ox_concurrency)
                          (filter (λ l, blocked c l (now (cs_world s))) labels) ∧
        renders fetch cx query outs (cs_world s) (cs_world s') ∧
        rs = mjoin (snd <$> outs) ∧ cs_cancels s' = cs_cancels s ∧ cs_cache s' = Some c' ∧
        ∀ l t, now (cs_world s) <= t →
          blocked c' l t = blocked c l t && negb (came_back_empty outs l)
  | _, _, _ => rs = [] ∧ s' = s
  end.
Proof using Type.
  intros Hord. unfold runOxEscalation.
  destruct (cfg_OxBrowserFetch cfg) as [fetch|]; [|done].
  destruct (cfg_OxEscalate cfg) as [|l0 ls] eqn:El; [done|]. rewrite <- El. clear El.
  destruct (cs_cache s) as [c|] eqn:Ec; [|done]. destruct (earlyAt <=? mergedLen); [done|].
  destruct (select_blocked_run (cfg_OxEscalate cfg) s) as (s1 & K1 & Hw & Hcan & Hc).
  rewrite (bind_eq _ _ _ _ _ K1). cbv zeta. fold ox_concurrency.
  destruct (acquireOxSlots_run (Z.to_nat ox_concurrency) (filter (is_marked s) (cfg_OxEscalate cfg)) s1)
    as (w2 & K2 & Hm). rewrite (bind_eq _ _ _ _ _ K2).
  destruct (ox_traverse_run fetch cx query
    (order (take (Z.to_nat ox_concurrency) (filter (is_marked s) (cfg_OxEscalate cfg))))
    (CState (cs_cache s1) (cs_cancels s1) w2)) as (outs & w3 & K3 & Ho & Hr).
  rewrite (bind_eq _ _ _ _ _ K3). cbn [cs_cache cs_cancels].
  rewrite Ec in Hc. destruct (cs_cache s1) as [c1|]; [|done].
  destruct (after_renders_blocked outs c1) as (c' & K4 & Hb).
  exists outs, c'. split_and!; [| |done|done|done|].
  - rewrite Ho, Hord. unfold is_marked. by rewrite Ec.
  - rewrite <- Hw. by eapply renders_before.
  - intros l t Ht. by rewrite Hb, Hc.
Qed.
(** C34: The escalation is dormant unless a render function, an allowlist and a block cache are all
    set and the fan-out is below the threshold: otherwise it does nothing at all. When it runs, it
    makes exactly one render for each of the first [OxConcurrency] allowlisted engines that the
    cache reports as blocked and for no other - one request for the engine's page, within the time
    of a render, and nothing else but metrics -, returns what was found on those pages, and
    afterwards an engine is blocked exactly when it was and no render of it came back empty. *)
Theorem runOxEscalation_spec order cx query mergedLen earlyAt s :
  (∀ ls, order ls ≡ₚ ls) →
  let '(rs, s') := runOxEscalation cfg order cx query mergedLen earlyAt s in
  match cfg_OxBrowserFetch cfg, cfg_OxEscalate cfg, cs_cache s with
  | Some fetch, (_ :: _) as labels, Some c =>
      if earlyAt <=? mergedLen then rs = [] ∧ s' = s else
      ∃ outs c',
        fst <$> outs ≡ₚ take (Z.to_nat ox_concurrency)
                          (filter (λ l, blocked c l (now (cs_world s))) labels) ∧
        renders fetch cx query outs (cs_world s) (cs_world s') ∧
        rs = mjoin (snd <$> outs) ∧ cs_cancels s' = cs_cancels s ∧ cs_cache s' = Some c' ∧
        ∀ l t, now (cs_world s) <= t →
          blocked c' l t = blocked c l t && negb (came_back_empty outs l)
  | _, _, _ => rs = [] ∧ s' = s
  end.
Proof using Type. apply escalation_effect. Qed.

(** *** The fan-out *)
(** A scheduler that delivers: one result per launched job, under the job's label. *)
Definition delivers (fan_out : ctx → Z → list (directJob (W := W)) → M W (list directResult)) : Prop :=
  ∀ cx d js w, label <$> (fan_out cx d js w).1 ≡ₚ j_label <$> js.
Lemma launch_none (js : list (directJob (W := W))) s : existsb j_enabled js = false →
  filter (λ j, j_enabled j && negb (is_marked s (j_label j))) js = [].
Proof using Type.
  induction js as [|j js IH]; [done|]. cbn [existsb]. intros [Hj Hr]%orb_false_iff.
  rewrite filter_cons, Hj. by apply IH.
Qed.
Lemma runOxEscalation_dormant order cx query n k s :
  cfg_OxBrowserFetch cfg = None ∨ k <= n → runOxEscalation cfg order cx query n k s = ([], s).
Proof using Type.
  unfold runOxEscalation. intros [-> |Hk]; [done|]. destruct (cfg_OxBrowserFetch cfg); [|done].
  destruct (cfg_OxEscalate cfg); [done|]. destruct (cs_cache s); [|done].
  by rewrite (proj2 (Z.leb_le _ _)).
Qed.
Definition early_at : Z :=
  if cfg_EarlyReturnAt cfg =? 0 then defaultEarlyReturnAt else cfg_EarlyReturnAt cfg.

(** A fan-out asks exactly the enabled engines that the block cache does not report as
    blocked, and accounts for each: Attempted = OK + Empty + Failed, and with the shed ones they
    are all of the launched. Its results are those of the successful engines in arrival order,
    followed by what the escalation renders, which is nothing without a render function or when
    the threshold is reached. *)
Theorem SearchDirect_accounting b order fan_out cx query language s :
  cfg_Browser cfg = Some b → delivers fan_out →
  let launched := filter (λ j, j_enabled j && negb (is_marked s (j_label j)))
    (applyPacing cfg (jobs pkg cfg (newDualBrowser b (cfg_FallbackBrowser cfg)) query language)) in
  let '((rs, st), s') := SearchDirect pkg cfg order fan_out cx query language s in
  Attempted st = OK st + Empty st + Failed st ∧ Attempted st + Shed st = zlen launched ∧
  ∃ ch ox,
    label <$> ch ≡ₚ j_label <$> launched ∧ rs = (ch ≫= ok_results) ++ ox ∧ OK st = count KOK ch ∧
    (cfg_OxBrowserFetch cfg = None ∨ early_at <= zlen (ch ≫= ok_results) → ox = []).
Proof using Type.
  intros Hb Hd. unfold SearchDirect. rewrite Hb. cbv zeta.
  set (js := applyPacing _ _). unfold fan_out_search. fold js. fold early_at. cbv zeta.
  destruct (existsb j_enabled js) eqn:Ee; cbn [negb].
  2:{ rewrite launch_none by done. unfold mret, M_ret. split_and!; [done..|].
      exists [], []. done. }
  destruct (launch_run js s) as (s1 & K1 & _). rewrite (bind_eq _ _ _ _ _ K1).
  set (launched := filter _ js) in *. unfold in_world at 1.
  set (perSrc := if cfg_PerSourceTimeout cfg =? 0 then _ else _).
  pose proof (Hd cx perSrc launched (cs_world s1)) as Hl.
  destruct (fan_out cx perSrc launched (cs_world s1)) as [ch w2] eqn:Ef. cbn [fst] in Hl.
  erewrite bind_eq by (cbv beta; rewrite Ef; reflexivity).
  destruct (collect_pure (cfg_Metrics cfg) (cfg_OxEscalate cfg) early_at ch
    (CState (cs_cache s1) (cs_cancels s1) w2)) as (st & s3 & K3 & K4 & K5 & K6).
  rewrite (bind_eq _ _ _ _ _ K3). cbn [fst snd].
  destruct (runOxEscalation cfg order cx query (zlen (ch ≫= ok_results)) early_at s3) as [ox s4] eqn:K7.
  rewrite (bind_eq _ _ _ _ _ K7). unfold mret, M_ret. split_and!; [done| |].
  - rewrite K5. unfold zlen. f_equal.
    rewrite <- (length_fmap label ch), <- (length_fmap j_label launched). by rewrite Hl.
  - exists ch, ox. split_and!; [done..|]. intros Hdor.
    rewrite runOxEscalation_dormant in K7 by done. by injection K7 as <- _.
Qed.

(** *** The tiers of the Reddit search *)
Lemma classify_final_done r r' : classify_final r = TierDone r' → ∃ rs, r' = Val rs.
Proof using Type. destruct r as [[|]|]; intros [= <-]; eauto. Qed.
Lemma reddit_tier3_Val cx query w : ∃ rs, (reddit_tier3 cfg cx query w).1 = Val rs.
Proof using Type.
  unfold reddit_tier3, callTierFnFinal, mbind, M_bind.
  destruct (cfg_RedditBrowserRender cfg) as [fn|]; [|by eexists].
  destruct (fn cx query w) as [r w1]. simpl. destruct (classify_final r) as [r'|] eqn:E; [|by eexists].
  apply classify_final_done in E as [rs ->]. by eexists.
Qed.
Lemma reddit_tier2_Err cx query skip w e :
  (reddit_tier2 cfg cx query skip w).1 = Err e → isEscalatable e = false.
Proof using Type.
  unfold reddit_tier2, callTierFn, mbind, M_bind.
  destruct (reddit_tier3_Val cx query w) as [rs Hr].
  destruct (cfg_RedditCookieSearch cfg) as [fn|]; [|congruence].
  destruct skip; [congruence|]. destruct (fn cx query w) as [r w1]. simpl.
  destruct (reddit_tier3_Val cx query w1) as [rs1 Hr1].
  destruct r as [[|x rs0]|e0]; simpl; [congruence|done|].
  destruct (isEscalatable e0) eqn:E; simpl; [congruence|]. by intros [= <-].
Qed.
(** With a tier of the Reddit search set, no rate limit and no transient error reaches the
    caller: an error is one that does not escalate. A non-empty OAuth result is returned without
    asking another tier; rejected credentials skip the cookie tier, which belongs to the same
    account, and go to the render tier, whose errors are dropped. *)
Theorem runReddit_tiers b cx query w :
  cfg_RedditLimiter cfg = None →
  (∀ oauth, cfg_RedditOAuth cfg = Some oauth →
     let '(r, w1) := oauth query w in
     (∀ x rs, r = Val (x :: rs) → runReddit cfg b cx query w = (r, w1)) ∧
     (∀ e, r = Err e → is_var (lit "reddit: invalid client credentials") e = true →
        runReddit cfg b cx query w = reddit_tier3 cfg cx query w1) ∧
     (∀ e, r = Err e → isEscalatable e = true →
        runReddit cfg b cx query w = reddit_tier2 cfg cx query false w1)) ∧
  (cfg_RedditOAuth cfg ≠ None ∨ cfg_RedditCookieSearch cfg ≠ None ∨
   cfg_RedditBrowserRender cfg ≠ None →
   ∀ e, (runReddit cfg b cx query w).1 = Err e → isEscalatable e = false).
Proof using Type.
  intros Hl. unfold runReddit. rewrite Hl. cbn [limited]. split.
  - intros oauth ->. destruct (oauth query w) as [r w1] eqn:E.
    assert (callTier1OAuth oauth query w = (classify_tier1 r, w1)) as K.
    { unfold callTier1OAuth. by rewrite (bind_eq _ _ _ _ _ E). }
    rewrite (bind_eq _ _ _ _ _ K). split_and!.
    + by intros x rs ->.
    + intros e -> Hv. cbn [classify_tier1]. rewrite Hv. unfold reddit_tier2.
      by destruct (cfg_RedditCookieSearch cfg).
    + intros e -> He. cbn [classify_tier1]. rewrite He. cbn [negb]. unfold isEscalatable in He.
      destruct (is_canceled e || is_deadline e); [done|].
      by destruct (is_var (lit "reddit: invalid client credentials") e).
  - intros Ht e. destruct (cfg_RedditOAuth cfg) as [oauth|].
    + destruct (oauth query w) as [r w1] eqn:E.
      assert (callTier1OAuth oauth query w = (classify_tier1 r, w1)) as K.
      { unfold callTier1OAuth. by rewrite (bind_eq _ _ _ _ _ E). }
      rewrite (bind_eq _ _ _ _ _ K). destruct r as [[|x rs]|e0]; cbn [classify_tier1];
        [apply reddit_tier2_Err|done|].
      destruct (is_var _ e0); [apply reddit_tier2_Err|].
      destruct (isEscalatable e0) eqn:E0; cbn [negb]; [apply reddit_tier2_Err|].
      by intros [= <-].
    + destruct (cfg_RedditCookieSearch cfg), (cfg_RedditBrowserRender cfg);
        try apply reddit_tier2_Err. naive_solver.
Qed.
End Spec.

(** ** A world without state: one refusing browser, one job at a time *)
Section Demo.
#[local] Existing Instances demo_clock demo_host demo_html.
#[local] Instance demo_metrics : Metrics unit :=
  {| Incr := λ _ _ w, w; ObserveSeconds := λ _ _ _ w, w; GaugeAdd := λ _ _ w, w |}.
Definition one_by_one (cx : ctx) (d : Z) (js : list (directJob (W := unit)))
    : M unit (list directResult) :=
  traverse (λ j, r ← j_fn j cx; mret (runSourceWithTimeout TookDone (j_label j) r None d)) js.
Lemma one_by_one_delivers : delivers one_by_one.
Proof.
  intros cx d js w. assert (label <$> (one_by_one cx d js w).1 = j_label <$> js) as ->; [|done].
  revert w. unfold one_by_one. induction js as [|j js IH]; intros w; [done|].
  cbn [traverse]. unfold mbind, M_bind, mret, M_ret. destruct (j_fn j cx w) as [r w1].
  specialize (IH w1). unfold mbind, M_bind, mret, M_ret in IH.
  destruct (traverse _ js w1) as [rs w2]. cbn [fst] in *. rewrite !fmap_cons, IH. by destruct r.
Qed.
Definition demo_pkg : Package (W := unit) :=
  {| defaultMarginaliaBudget := mret true; searchYep := λ _ _ _ _, mret (Val []);
     searchYandex := λ _ _ _, mret (Val []); error_text := λ _, [] |}.
(** DuckDuckGo, Brave and Reddit, the last by OAuth with rejected credentials; Brave is allowed to
    escalate, and every render finds an empty page. *)
Definition demo_cfg : DirectConfig (W := unit) :=
  {| cfg_Browser := Some refusing; cfg_FallbackBrowser := None; cfg_MojeekBrowser := None;
     cfg_DDG := true; cfg_Startpage := false; cfg_Brave := true; cfg_Reddit := true;
     cfg_Bing := false; cfg_Yep := false; cfg_Wikipedia := false; cfg_Marginalia := false;
     cfg_Mojeek := false; cfg_MarginaliaKey := []; cfg_MarginaliaBudget := None;
     cfg_YandexKey := [];
     cfg_Retry := {| MaxRetries := 0; InitialWait := 0; MaxWait := 0; Multiplier := fone;
                     JitterPct := fzero |};
     cfg_Metrics := true; cfg_DDGLimiter := None; cfg_StartpageLimiter := None;
     cfg_BraveLimiter := None; cfg_RedditLimiter := None; cfg_BingLimiter := None;
     cfg_RedditOAuth := Some (λ _, mret (Err ErrCredentialInvalid));
     cfg_RedditCookieSearch := None; cfg_RedditBrowserRender := None; cfg_TimeRange := [];
     cfg_PerSourceTimeout := 0; cfg_EarlyReturnAt := 0;
     cfg_OxBrowserFetch := Some (λ _ _, mret (Val [])); cfg_OxEscalate := [lit "brave"];
     cfg_OxConcurrency := 0; cfg_OxRenderDeadline := 0; cfg_Pacer := None |}.
Definition demo_state : cstate unit :=
  {| cs_cache := Some (Mark (lit "brave") 0 (NewDirectBlockCache 0 0)); cs_cancels := 0;
     cs_world := () |}.

Lemma SearchDirect_accounting_witness :
  (SearchDirect demo_pkg demo_cfg id one_by_one demo_ctx (lit "q") (lit "en") demo_state).1.2 =
    {| Attempted := 2; OK := 0; Empty := 1; Failed := 1; Shed := 0 |} ∧
  Attempted (SearchDirect demo_pkg demo_cfg id one_by_one demo_ctx (lit "q") (lit "en")
               demo_state).1.2 = 2.
Proof.
  split; [vm_compute; reflexivity|].
  pose proof (SearchDirect_accounting demo_pkg demo_cfg refusing id one_by_one demo_ctx (lit "q")
    (lit "en") demo_state eq_refl one_by_one_delivers) as K.
  assert (zlen (filter (λ j, j_enabled j && negb (is_marked demo_state (j_label j)))
    (applyPacing demo_cfg (jobs demo_pkg demo_cfg (newDualBrowser refusing None) (lit "q") (lit "en"))))
    = 2) as L by (vm_compute; reflexivity).
  assert (Shed (SearchDirect demo_pkg demo_cfg id one_by_one demo_ctx (lit "q") (lit "en")
            demo_state).1.2 = 0) as Z0 by (vm_compute; reflexivity).
  cbv zeta in K. change (cfg_FallbackBrowser demo_cfg) with (@None (BrowserDoer unit)) in K.
  rewrite L in K.
  destruct (SearchDirect _ _ _ _ _ _ _ _) as [[rs st] s']. destruct K as (_ & K & _).
  cbn [fst snd] in *. lia.
Defined.
Lemma runOxEscalation_spec_witness :
  ∃ c', cs_cache (runOxEscalation demo_cfg id demo_ctx (lit "q") 0 10 demo_state).2 = Some c' ∧
        blocked c' (lit "brave") 0 = false.
Proof.
  pose proof (runOxEscalation_spec demo_cfg id demo_ctx (lit "q") 0 10 demo_state) as K.
  destruct (runOxEscalation _ _ _ _ _ _ _) as [rs s'] eqn:E.
  assert (∀ ls : list gostring, id ls ≡ₚ ls) as Hid by done. specialize (K Hid).
  cbn -[Mark NewDirectBlockCache] in K. destruct K as (outs & c' & Ho & _ & _ & _ & Hc & Hb).
  exists c'. split; [exact Hc|].
  assert (s' = (runOxEscalation demo_cfg id demo_ctx (lit "q") 0 10 demo_state).2) as Hs by by rewrite E.
  revert Hc. rewrite Hs. clear. intros Hc. vm_compute in Hc. injection Hc as <-. vm_compute. reflexivity.
Defined.
Lemma runReddit_tiers_witness :
  runReddit demo_cfg refusing demo_ctx (lit "q") () = (Val [], ()) ∧
  ∀ e, (runReddit demo_cfg refusing demo_ctx (lit "q") ()).1 = Err e → isEscalatable e = false.
Proof.
  split; [vm_compute; reflexivity|].
  apply (runReddit_tiers demo_cfg refusing demo_ctx (lit "q") () eq_refl). left. discriminate.
Defined.
End Demo.
