(* ===== verification/FanoutSpec.v ===== *)
(** The fan-out of [SearchDirect] is one of [Fanout]: what every interleaving collects, which
    engines it can mark, and that it ends. *)
From S2P Require Import Prelude Unicode Utf8 GoStrings Floats Effects Results Retry BlockCache SearchEngines Fanout FanoutLemmas Collect Direct.
Local Open Scope Z_scope.

Section SearchFan.
Context {W : Type} `{Clock W} `{Metrics W}.
Notation directJob := (directJob (W := W)).
Notation leg := (leg (J := directJob) (R := directResult)).
Notation fan_state := (fan_state (J := directJob) (R := directResult) (C := collected) (St := cstate W)).
Variables (caller : ctx) (m : bool) (oxEscalate : list gostring) (perSrc earlyAt : Z) (cap : nat).
Notation K := (search_fan m oxEscalate earlyAt).
Notation fstep := (fstep K caller perSrc cap).
Notation frun := (frun K caller perSrc cap).
Notation fanout_init := (fanout_init K caller).

(** What [collectResults] returns. *)
Definition f_result (s : fan_state) : list Result * DirectStats := (f_col s).1.

(** The collection keeps the laws. *)
Lemma search_laws : fan_laws K (collect_spec oxEscalate earlyAt).
Proof using Type.
  split; try done.
  - intros s. unfold collect_spec, count. cbn. split_and!; try done; try lia. exists [].
    by destruct (cs_cache s).
  - intros got s0 c s r. apply collect_step_spec.
Qed.
Notation inv P := (inv K (collect_spec oxEscalate earlyAt) caller P).

(** ** What a leg sends *)
Definition arrival (done : option ended) (l : leg) (r : directResult) : Prop :=
  label r = j_label (l_job l) ∧
  match err r with
  | None => l_fn l = Some (Val (results r))
  | Some e => results r = [] ∧
      (l_fn l = Some (Err e) ∨ e = errPerSourceTimeout ∨ ∃ c, done = Some c ∧ e = c.2)
  end.
Lemma send_arrival done (l : leg) b fr c d :
  ready b c (l_fn l) = Some fr → c = None ∨ c = Some (timed_out K) ∨ c = done →
  arrival done l (fo_send K b (l_job l) fr c d).
Proof using Type.
  intros Hready Hc. unfold arrival. simpl.
  assert (∀ e cause, c = Some (e, cause) → cause = errPerSourceTimeout ∨ ∃ c', done = Some c' ∧ cause = c'.2) as Hcause.
  { intros e cause ->. destruct Hc as [?|[[= -> ->]| <-]]; [done|by left|]. right. by exists (e, cause). }
  destruct b; simpl in *.
  - destruct fr as [rs|e]; simpl; [done|]. split; [done|]. split; [done|].
    destruct c as [[e' cause]|]; [|by left]. destruct (is_deadline e); [|by left].
    right. by eapply Hcause.
  - destruct c as [[e' cause]|]; [|done]. simpl. split; [done|]. split; [done|].
    right. by eapply Hcause.
Qed.
Lemma got_arrival P js s0 (s : fan_state) r : inv P js s0 s → r ∈ f_got s → ∃ l, l ∈ f_legs s ∧ arrival (f_done s) l r.
Proof using Type.
  intros Hinv Hr. destruct (got_sent _ _ _ _ _ _ _ _ Hinv Hr) as (l & b & fr & c & d & Hl & -> & Hb & Hc).
  exists l. split; [done|]. by apply send_arrival.
Qed.
Lemma finished_labels P js s0 (s : fan_state) : inv P js s0 s → finished s = true → label <$> f_got s ≡ₚ j_label <$> js.
Proof using Type.
  apply finished_sent. intros b j fr c d. by destruct b, fr, c as [[]|].
Qed.
Lemma collected_eq ch (s0 s : cstate W) c :
  collect_spec oxEscalate earlyAt ch s0 c s → (collectResults m oxEscalate ch earlyAt s0).1 = c.1.
Proof using Type.
  intros Hc. unfold collectResults. pose proof (collect_from_nil m oxEscalate earlyAt ch s0) as Hs.
  destruct (collect_loop _ _ _ _ ch s0) as [c' s'] eqn:E. rewrite (bind_eq _ _ _ _ _ E). simpl.
  destruct c as [[all [a o e f sh]] b], c' as [[all' [a' o' e' f' sh']] b']. simpl in *.
  destruct Hc as (-> & Ha & Ho & He & Hf & Hsh & _), Hs as (-> & Ha' & Ho' & He' & Hf' & Hsh' & _).
  simpl in *. by subst.
Qed.
(** ** Properties *)
(** C4: Every interleaving of the fan-out - however the sources' goroutines, timers, the caller's
    cancellation and the collection that may cancel the rest are scheduled - that has finished
    has received exactly one result per launched source, and returns what the sequential
    collection returns on those results in the order of arrival, so that attempted and shed
    sources add up to the launched ones. Each received result is the one its own source's
    function returned, or carries no results and the cause its context ended with: a function
    that returns after its leg has sent adds nothing. *)
Theorem fanout_collects js (s0 : cstate W) ls s :
  frun ls (fanout_init js s0) = Some s → finished s = true →
  label <$> f_got s ≡ₚ j_label <$> js ∧
  (collectResults m oxEscalate (f_got s) earlyAt s0).1 = f_result s ∧
  Attempted (f_result s).2 + Shed (f_result s).2 = zlen js ∧
  ∀ r, r ∈ f_got s → ∃ l, l ∈ f_legs s ∧ arrival (f_done s) l r.
Proof using Type.
  intros Hrun%(run_any _ _ search_laws) Hfin. pose proof (finished_labels _ _ _ _ Hrun Hfin) as Hlab.
  pose proof (collected_eq _ _ _ _ (inv_col _ _ _ _ _ _ _ Hrun)) as Hcol. split_and!; try done.
  - destruct (collect_pure m oxEscalate earlyAt (f_got s) s0) as (st & s' & Hc & _ & Hsum & _).
    unfold f_result. rewrite <- Hcol, Hc. simpl. rewrite Hsum. unfold zlen.
    apply Permutation_length in Hlab. rewrite !length_fmap in Hlab. by rewrite Hlab.
  - intros r. by eapply got_arrival.
Qed.

Notation timer_fired := (timer_fired K caller perSrc cap).
(** What a marking result says when it was sent after its leg's context had ended, besides an
    error of the source's own. *)
Lemma send_marks fired done (l : leg) b fr c d e :
  let r := fo_send K b (l_job l) fr c d in
  ready b c (l_fn l) = Some fr → ended_by K fired done c → err r = Some e →
  l_fn l = Some (Err e) ∨ (e = errPerSourceTimeout ∧ fired) ∨ ∃ x, done = Some x ∧ e = x.2.
Proof using Type.
  intros r Hready Hc He.
  assert (∀ e0, c = Some (e0, e) → (e = errPerSourceTimeout ∧ fired) ∨ ∃ x, done = Some x ∧ e = x.2) as Hcause.
  { intros e0 ->. destruct Hc as [|[[[= ->] ?]|(x & [= <-] & Hd)]]; [done|by left|]. right. by exists (e0, e). }
  subst r. destruct b; simpl in *.
  - destruct fr as [rs|e1]; simpl in He; [done|]. injection He as <-.
    destruct c as [[e0 cause]|]; [|by left]. destruct (is_deadline e1); [|by left].
    right. by eapply Hcause.
  - destruct c as [[e0 cause]|]; [|done]. injection He as <-. right. by eapply Hcause.
Qed.
(** C7: Whatever the interleaving, the block cache is marked once for each result received that
    marks, in order, and a marking result is from a rate-limited or an allowlisted source and says
    one of three things: the error that the function of one of that source's legs returned; that
    the leg's own timer fired - the time of a source had passed since it started, with the common
    context not ended - when the source is on the allowlist; or a cause of the caller's own with
    which the caller had ended its context. So the cancellation of the rest when enough results are
    in, and a caller that cancels or reaches its deadline without a cause, mark nothing. *)
Theorem fanout_marks js (s0 : cstate W) ls s :
  frun ls (fanout_init js s0) = Some s →
  (∃ times, length times = length (filter (marks oxEscalate) (f_got s)) ∧
     cs_cache (f_cs s) = run (zip_with (λ r t, OpMark (label r) t)
                                (filter (marks oxEscalate) (f_got s)) times) <$> cs_cache s0) ∧
  ∀ r, r ∈ f_got s → marks oxEscalate r = true →
    ∃ i l e, f_legs s !! i = Some l ∧ label r = j_label (l_job l) ∧ err r = Some e ∧
      (is_Some (as_rate_limited e) ∨ label r ∈ oxEscalate) ∧
      (l_fn l = Some (Err e) ∨
       e = errPerSourceTimeout ∧ label r ∈ oxEscalate ∧ timer_fired js s0 ls i ∨
       ∃ ctx_error, LCaller ctx_error e ∈ ls ∧ f_done s = Some (ctx_error, e) ∧
         e ≠ CtxCanceled ∧ e ≠ CtxDeadlineExceeded).
Proof using Type.
  intros Hrun.
  assert (inv (λ c, LCaller c.1 c.2 ∈ ls) js s0 s) as Hinv.
  { apply (run_init _ _ search_laws caller perSrc cap _ _ _ ls); [|done]. apply Forall_forall.
    intros lb Hlb. by destruct lb. }
  split.
  { pose proof (inv_col _ _ _ _ _ _ _ Hinv) as Hc. unfold collect_spec in Hc.
    destruct (f_col s) as [[all st] b]. destruct Hc as (_ & _ & _ & _ & _ & _ & _ & _ & Ht). exact Ht. }
  intros r Hr Hm.
  destruct (got_past _ _ search_laws _ _ _ _ _ _ _ _ Hrun Hr) as (i & l & c & b & fr & d & Hi & -> & Hb & Hc).
  set (r := fo_send K b (l_job l) fr c d) in *. unfold marks in Hm.
  destruct (err r) as [e|] eqn:He; [|done]. apply andb_true_iff in Hm as [_ Hm].
  assert (label r = j_label (l_job l)) as Hlab by (subst r; by destruct b, fr, c as [[]|]).
  exists i, l, e. split; [done|]. split; [done|]. split; [done|].
  assert (is_Some (as_rate_limited e) ∨ label r ∈ oxEscalate) as Hwho.
  { destruct (as_rate_limited e); [by left; eexists|]. right.
    destruct (bool_decide _) eqn:Hin in Hm; [by apply bool_decide_eq_true_1 in Hin|done]. }
  split; [done|].
  destruct (send_marks _ _ _ _ _ _ _ _ Hb Hc He) as [Hown|[[-> Hf]|([e0 e'] & Hd & Hee)]]; [by left| |].
  - right. left. split_and!; [done| |done]. by destruct Hwho as [[? [=]]|].
  - simpl in Hee. subst e'. right. right. exists e0. destruct (inv_done _ _ _ _ _ _ _ Hinv _ Hd) as [[= -> ->]|Hcaller].
    + exfalso. cbn in Hm. by rewrite andb_false_r in Hm.
    + split_and!; [done|done|..]; intros ->; cbn in Hm; by rewrite andb_false_r in Hm.
Qed.

(** C5: The fan-out returns whatever its sources do. A run has at most five steps per launched
    source and one more besides those of the world; and from every state it can reach, with the
    channel as large as the code makes it, it can go on to its end without any source's function
    ever returning and without the caller's cancelling, only by letting time pass: the send
    of a leg never blocks, and a leg's own timer or the caller's deadline ends its wait. *)
Theorem fanout_returns js (s0 : cstate W) ls s :
  (∀ w t, ∃ w', now w <= now w' ∧ t <= now w') → (length js <= cap)%nat →
  frun ls (fanout_init js s0) = Some s →
  (length (filter (λ lb, negb (is_world lb)) ls) <= 5 * length js + 1)%nat ∧
  ∃ ls' s', Forall (λ lb, on_its_own lb = true) ls' ∧ frun ls' s = Some s' ∧ finished s' = true.
Proof using Type. apply (legs_return _ _ search_laws). Qed.
(** C6: When enough results are in the rest of the fan-out waits for nothing: once the collection
    has cancelled the common context - or the caller's context has ended - every maximal run of
    the steps that start a leg, send and receive ends the search, with no function of a source
    returning and no time passing; and such a run has at most five steps per
    launched source and one more. *)
Theorem fanout_early_return js (s0 : cstate W) ls s ls' s' :
  (length js <= cap)%nat → frun ls (fanout_init js s0) = Some s →
  (f_col s).2 = true ∨ is_Some (f_done s) →
  Forall (λ lb, prompt lb = true) ls' → frun ls' s = Some s' →
  (∀ lb, prompt lb = true → fstep lb s' = None) →
  finished s' = true ∧ (length ls' <= 5 * length js + 1)%nat.
Proof using Type. apply (legs_early_return _ _ search_laws). Qed.
End SearchFan.

(** ** Two sources: the first answers, the second never does *)
Section Demo.
#[local] Instance demo_clock : Clock Z := {|
  now w := w; ctx_err _ _ := None; wait_or_done _ d w := (None, w + d); random w := (fzero, w);
  retry_hook _ _ _ _ w := w
|}.
#[local] Instance demo_metrics : Metrics Z :=
  {| Incr := λ _ _ w, w; ObserveSeconds := λ _ _ _ w, w; GaugeAdd := λ _ _ w, w |}.
Definition demo_caller : ctx := Ctx (Some (60 * Second)) 0.
Definition demo_jobs : list (directJob (W := Z)) :=
  [{| j_enabled := true; j_label := lit "bing"; j_fn := λ _, mret (Val [zero_Result; zero_Result]) |};
   {| j_enabled := true; j_label := lit "ddg"; j_fn := λ _, mret (Val [zero_Result]) |}].
Definition demo_start : cstate Z := CState (Some (NewDirectBlockCache 0 0)) 0 0.
Definition demo_run early := frun (search_fan true [lit "ddg"] early) demo_caller (6 * Second) 2.
(** [ddg] is left to its timer, and its function returns when it is too late. *)
Definition slow_ddg : list (move (W := Z)) :=
  [LStart 1; LStart 0; LFn 0; LSend 0 TookDone; LRecv; LWorld (7 * Second); LTimeout 1;
   LSend 1 TookCtx; LFn 1; LRecv].
(** The results of [bing] are enough: [ddg] is cancelled. *)
Definition cancelled_ddg : list (move (W := Z)) := [LStart 0; LStart 1; LFn 0; LSend 0 TookDone; LRecv].
Definition demo_init := fanout_init (search_fan true [lit "ddg"] 0) demo_caller demo_jobs demo_start.

Lemma fanout_collects_witness : ∃ s,
  demo_run 10 slow_ddg demo_init = Some s ∧
  (collectResults true [lit "ddg"] (f_got s) 10 demo_start).1 = f_result s ∧
  length (f_result s).1 = 2%nat ∧ Failed (f_result s).2 = 1.
Proof.
  eexists. split; [vm_compute; reflexivity|].
  match goal with |- (collectResults _ _ (f_got ?s) _ _).1 = _ ∧ _ =>
    pose proof (fanout_collects demo_caller true [lit "ddg"] (6 * Second) 10 2 demo_jobs demo_start
                  slow_ddg s eq_refl eq_refl) as (_ & K & _) end.
  split; [exact K|]. split; vm_compute; reflexivity.
Defined.
Lemma fanout_marks_witness : ∃ s,
  demo_run 10 slow_ddg demo_init = Some s ∧
  (label <$> filter (marks [lit "ddg"]) (f_got s)) = [lit "ddg"] ∧
  ∀ r, r ∈ f_got s → marks [lit "ddg"] r = true →
    ∃ i l e, f_legs s !! i = Some l ∧ label r = j_label (l_job l) ∧ err r = Some e ∧
      (is_Some (as_rate_limited e) ∨ label r ∈ [lit "ddg"]) ∧
      (l_fn l = Some (Err e) ∨
       e = errPerSourceTimeout ∧ label r ∈ [lit "ddg"] ∧
         timer_fired (search_fan true [lit "ddg"] 10) demo_caller (6 * Second) 2 demo_jobs demo_start
           slow_ddg i ∨
       ∃ ctx_error, LCaller ctx_error e ∈ slow_ddg ∧ f_done s = Some (ctx_error, e) ∧
         e ≠ CtxCanceled ∧ e ≠ CtxDeadlineExceeded).
Proof.
  eexists. split; [vm_compute; reflexivity|]. split; [vm_compute; reflexivity|].
  refine (proj2 (fanout_marks demo_caller true [lit "ddg"] (6 * Second) 10 2 demo_jobs demo_start
                  slow_ddg _ _)). reflexivity.
Defined.
Lemma fanout_returns_witness : ∃ s,
  demo_run 10 [LStart 0; LStart 1] demo_init = Some s ∧ finished s = false ∧
  ∃ ls' s', Forall (λ lb, on_its_own lb = true) ls' ∧ demo_run 10 ls' s = Some s' ∧
    finished s' = true.
Proof.
  eexists. split; [vm_compute; reflexivity|]. split; [reflexivity|].
  refine (proj2 (fanout_returns demo_caller true [lit "ddg"] (6 * Second) 10 2 demo_jobs demo_start
                  [LStart 0; LStart 1] _ _ _ _)); [|cbn; lia|reflexivity].
  intros w t. exists (Z.max w t). cbn. lia.
Defined.
Lemma fanout_early_return_witness : ∃ s s',
  demo_run 2 cancelled_ddg demo_init = Some s ∧ (f_col s).2 = true ∧ finished s = false ∧
  demo_run 2 [LSend 1 TookCtx; LRecv] s = Some s' ∧ finished s' = true.
Proof.
  do 2 eexists. split; [vm_compute; reflexivity|]. split; [reflexivity|]. split; [reflexivity|].
  split; [vm_compute; reflexivity|].
  refine (proj1 (fanout_early_return demo_caller true [lit "ddg"] (6 * Second) 2 2 demo_jobs demo_start
                  cancelled_ddg _ [LSend 1 TookCtx; LRecv] _ _ _ _ _ _ _));
    [cbn; lia|vm_compute; reflexivity|left; vm_compute; reflexivity|by repeat constructor
    |vm_compute; reflexivity|].
  intros [| [|[|]]| | | |[|[|]] |] Hp; try discriminate Hp; vm_compute; reflexivity.
Defined.
End Demo.
