(* ===== verification/DirectRun.v ===== *)
(** [SearchDirect] of package [search] from end to end: the launch, the fan-out under any
    interleaving of its goroutines, and the escalation to a rendering browser on what the fan-out
    leaves in the block cache. *)
From S2P Require Import Prelude Unicode Utf8 GoStrings GoUrl Floats Json Effects GoTime Results Retry BlockCache Serp Engines SearchEngines RedditOAuth Fanout FanoutLemmas Collect Direct DirectSpec FanoutSpec.
Local Open Scope Z_scope.

Section Run.
Context {W Node : Type} `{Clock W} `{Host W} `{Metrics W} `{GoQuery Node}.
Variables (pkg : Package (W := W)) (cfg : DirectConfig (W := W)) (ox_order : list gostring → list gostring).
Notation directJob := (directJob (W := W)).
Notation move := (move (W := W)).
Implicit Types (s : cstate W) (cx : ctx) (query language : gostring).

Definition source_timeout : Z :=
  if cfg_PerSourceTimeout cfg =? 0 then defaultPerSourceTimeout else cfg_PerSourceTimeout cfg.
Definition paced_jobs (b : BrowserDoer W) query language : list directJob :=
  applyPacing cfg (jobs pkg cfg (newDualBrowser b (cfg_FallbackBrowser cfg)) query language).
(** [make(chan directResult, enabled)] *)
Definition channel_size (js : list directJob) : nat := length (filter j_enabled js).
Definition legs_run cx (js : list directJob) (ls : list move) :=
  frun (search_fan (cfg_Metrics cfg) (cfg_OxEscalate cfg) (early_at cfg)) cx source_timeout (channel_size js) ls.
Definition legs_start cx (launched : list directJob) s :=
  fanout_init (search_fan (cfg_Metrics cfg) (cfg_OxEscalate cfg) (early_at cfg)) cx launched s.
(** The search with the interleaving [ls] of its goroutines; [None] while that has not finished. *)
Definition search_run cx query language (ls : list move) s
    : option ((list Result * DirectStats) * cstate W) :=
  match cfg_Browser cfg with
  | None => Some (([], zero_stats), s)
  | Some b =>
      let js := paced_jobs b query language in
      if negb (existsb j_enabled js) then Some (([], zero_stats), s) else
      let '(launched, s1) := launch js s in
      fs ← legs_run cx js ls (legs_start cx launched s1);
      if finished fs then
        let '(merged, stats) := f_result fs in
        let '(ox, s2) := runOxEscalation cfg ox_order cx query (zlen merged) (early_at cfg) (f_cs fs) in
        Some ((merged ++ ox, stats), s2)
      else None
  end.

(** ** The cache before the fan-out and after it *)
Definition held_back s (l : gostring) (t : Z) : Prop :=
  match cs_cache s with Some c => blocked c l t = true | None => False end.
Lemma isBlocked_older l s l' t : held_back (isBlocked l s).2 l' t → held_back s l' t.
Proof using Type.
  unfold isBlocked, held_back. destruct (cs_cache s) as [c|] eqn:E; [|simpl; by rewrite E].
  pose proof (IsBlocked_older l (now (cs_world s)) c) as Ho.
  destruct (IsBlocked l _ c) as [r c']. simpl in *. by apply blocked_older.
Qed.
Lemma launch_older (js : list directJob) s l t : held_back (launch js s).2 l t → held_back s l t.
Proof using Type.
  revert s. induction js as [|j js IH]; intros s; [done|]. cbn [launch].
  destruct (j_enabled j); [|apply IH].
  destruct (isBlocked (j_label j) s) as [bl s1] eqn:E1. rewrite (bind_eq _ _ _ _ _ E1).
  destruct (launch js s1) as [rest s2] eqn:E2. rewrite (bind_eq _ _ _ _ _ E2).
  specialize (IH s1). rewrite E2 in IH. unfold mret, M_ret. simpl in *. intros Hs%IH.
  apply (isBlocked_older (j_label j)). by rewrite E1.
Qed.
Lemma collected_older oxEscalate earlyAt ch s c s' l t :
  collect_spec oxEscalate earlyAt ch s c s' → held_back s' l t →
  held_back s l t ∨ ∃ r, r ∈ ch ∧ label r = l ∧ marks oxEscalate r = true.
Proof using Type.
  destruct c as [[all st] cancelled]. intros (_ & _ & _ & _ & _ & _ & _ & _ & times & _ & Hc).
  unfold held_back. rewrite Hc. destruct (cs_cache s) as [c|]; [|done]. simpl.
  intros [Hb|Hin]%run_marks_blocked; [by left|]. right.
  apply list_elem_of_fmap in Hin as (r & -> & [Hm Hr]%list_elem_of_filter). exists r.
  split_and!; [done..|]. by apply Is_true_true.
Qed.
(** When the escalation is dormant, a search collects what arrives and no more. *)
Lemma SearchDirect_dormant b cx query language ch launched s s1 merged st :
  cfg_Browser cfg = Some b → existsb j_enabled (paced_jobs b query language) = true →
  launch (paced_jobs b query language) s = (launched, s1) →
  (collectResults (cfg_Metrics cfg) (cfg_OxEscalate cfg) ch (early_at cfg) s1).1 = (merged, st) →
  cfg_OxBrowserFetch cfg = None ∨ early_at cfg <= zlen merged →
  (SearchDirect pkg cfg ox_order (λ _ _ _ w, (ch, w)) cx query language s).1 = (merged, st).
Proof using Type.
  intros Hb He Hl Hc Hd. unfold SearchDirect. rewrite Hb. unfold fan_out_search. cbv zeta.
  fold (paced_jobs b query language). fold (early_at cfg). rewrite He. cbn [negb].
  rewrite (bind_eq _ _ _ _ _ Hl).
  destruct (collectResults _ _ ch (early_at cfg) s1) as [r s2] eqn:E. simpl in Hc. subst r.
  erewrite bind_eq by (unfold in_world; reflexivity).
  replace (CState (cs_cache s1) (cs_cancels s1) (cs_world s1)) with s1 by by destruct s1.
  rewrite (bind_eq _ _ _ _ _ E). cbn [fst snd].
  erewrite bind_eq by (apply runOxEscalation_dormant; exact Hd).
  unfold mret, M_ret. simpl. by rewrite app_nil_r.
Qed.
(** The renders from [s] to [s']: none without a function to render with. *)
Definition rendered_all cx query (outs : list (gostring * list Result)) s s' : Prop :=
  match cfg_OxBrowserFetch cfg with
  | Some fetch => renders cfg fetch cx query outs (cs_world s) (cs_world s')
  | None => outs = [] ∧ s' = s
  end.
(** What the escalation renders after a fan-out. *)
Lemma escalation_renders cx query n s rs s' :
  (∀ l, ox_order l ≡ₚ l) → runOxEscalation cfg ox_order cx query n (early_at cfg) s = (rs, s') →
  ∃ outs, rs = mjoin (snd <$> outs) ∧ rendered_all cx query outs s s' ∧
    zlen outs <= ox_concurrency cfg ∧
    (∀ l, l ∈ fst <$> outs → l ∈ cfg_OxEscalate cfg ∧ held_back s l (now (cs_world s))) ∧
    (cfg_OxBrowserFetch cfg = None ∨ early_at cfg <= n → outs = [] ∧ s' = s).
Proof using Type.
  intros Hord Hrun. pose proof (escalation_effect cfg ox_order cx query n (early_at cfg) s Hord) as Hs.
  rewrite Hrun in Hs. clear Hrun.
  assert (0 < ox_concurrency cfg) as Hpos by (unfold ox_concurrency; destruct (Z.leb_spec (cfg_OxConcurrency cfg) 0); lia).
  assert (rs = [] ∧ s' = s → ∃ outs, rs = mjoin (snd <$> outs) ∧ rendered_all cx query outs s s' ∧
    zlen outs <= ox_concurrency cfg ∧
    (∀ l, l ∈ fst <$> outs → l ∈ cfg_OxEscalate cfg ∧ held_back s l (now (cs_world s))) ∧
    (cfg_OxBrowserFetch cfg = None ∨ early_at cfg <= n → outs = [] ∧ s' = s)) as Hnone.
  { intros [-> ->]. exists []. split_and!; try done; [|unfold zlen; simpl; lia|by intros l ?%elem_of_nil].
    unfold rendered_all. destruct (cfg_OxBrowserFetch cfg); [|done]. constructor. apply rtc_refl. }
  unfold rendered_all in *. destruct (cfg_OxBrowserFetch cfg) as [fetch|]; [|by apply Hnone].
  destruct (cfg_OxEscalate cfg) as [|l0 labels]; [by apply Hnone|].
  destruct (cs_cache s) as [c|] eqn:Ec; [|by apply Hnone].
  destruct (Z.leb_spec (early_at cfg) n); [by apply Hnone|].
  destruct Hs as (outs & c' & Hf & Hr & -> & _). exists outs. split_and!; try done.
  - unfold zlen. rewrite <- (length_fmap fst outs), Hf, length_take. lia.
  - intros l. rewrite Hf. intros (i & Hi & _)%elem_of_take. apply list_elem_of_lookup_2 in Hi.
    apply list_elem_of_filter in Hi as [Hb Hl]. split; [done|]. unfold held_back. rewrite Ec.
    by apply Is_true_true.
  - intros [?|?]; [done|lia].
Qed.
(** The results of a fan-out come from the functions of its sources. *)
Lemma answers_of_sources (launched : list directJob) cx size s0 ls fs r :
  frun (search_fan (cfg_Metrics cfg) (cfg_OxEscalate cfg) (early_at cfg)) cx source_timeout size ls
    (legs_start cx launched s0) = Some fs →
  r ∈ f_got fs → err r = None →
  ∃ j cx' w, j ∈ launched ∧ label r = j_label j ∧ (j_fn j cx' w).1 = Val (results r).
Proof using Type.
  intros Hrun%(run_any _ _ (search_laws _ _ _)) Hr He.
  destruct (got_arrival _ _ _ _ _ _ _ _ _ Hrun Hr) as (l & Hl & Hlab & Hok). rewrite He in Hok.
  eapply leg_answer in Hok as (Hj & w & Hw); [|exact Hrun|exact Hl].
  by exists (l_job l), (l_ctx l), w.
Qed.

(** The fan-out of a search under the interleaving [ls] has ended: what has arrived and the state it
    leaves. Without an enabled engine there is no fan-out. *)
Definition fan_out_ended cx (js launched : list directJob) (ls : list move) s
    (ch : list directResult) s1 : Prop :=
  if existsb j_enabled js then
    ∃ s0 fs, launch js s = (launched, s0) ∧ legs_run cx js ls (legs_start cx launched s0) = Some fs ∧
      finished fs = true ∧ ch = f_got fs ∧ s1 = f_cs fs
  else ch = [] ∧ s1 = s.
(** C3: A search from end to end, whatever the interleaving of its goroutines, timers and
    cancellations. When it has ended, each enabled engine that the cache did not hold back has
    given one result: the engines are all accounted for, and every
    result that is returned is one that its own engine's function returned, in the order of arrival,
    followed by what was rendered. After the fan-out nothing is done but the renders, one request
    each, and their metrics: they are at most [OxConcurrency], each of an engine
    on the allowlist and either held back by the cache the search began with or marked for its own
    outcome in this search. When nothing is to be rendered, nothing is done after the fan-out, and
    the search returns what [SearchDirect] does on the results in their order of arrival. *)
Theorem search_run_spec b cx query language ls s rs st s' :
  cfg_Browser cfg = Some b → (∀ l, ox_order l ≡ₚ l) →
  search_run cx query language ls s = Some ((rs, st), s') →
  let js := paced_jobs b query language in
  let launched := filter (λ j, j_enabled j && negb (is_marked s (j_label j))) js in
  ∃ ch s1 outs,
    fan_out_ended cx js launched ls s ch s1 ∧ rendered_all cx query outs s1 s' ∧
    label <$> ch ≡ₚ j_label <$> launched ∧ rs = (ch ≫= ok_results) ++ mjoin (snd <$> outs) ∧
    Attempted st = OK st + Empty st + Failed st ∧ Attempted st + Shed st = zlen launched ∧
    (∀ r, r ∈ ch → err r = None →
       ∃ j cx' w, j ∈ launched ∧ label r = j_label j ∧ (j_fn j cx' w).1 = Val (results r)) ∧
    zlen outs <= ox_concurrency cfg ∧
    (∀ l, l ∈ fst <$> outs → l ∈ cfg_OxEscalate cfg ∧
       ((∃ t, held_back s l t) ∨ ∃ r, r ∈ ch ∧ label r = l ∧ marks (cfg_OxEscalate cfg) r = true)) ∧
    (cfg_OxBrowserFetch cfg = None ∨ early_at cfg <= zlen (ch ≫= ok_results) →
     outs = [] ∧ s' = s1 ∧
     (SearchDirect pkg cfg ox_order (λ _ _ _ w, (ch, w)) cx query language s).1 = (rs, st)).
Proof using Type.
  intros Hb Hord. unfold search_run, fan_out_ended. rewrite Hb. cbv zeta.
  set (js := paced_jobs b query language). destruct (existsb j_enabled js) eqn:Ee; cbn [negb].
  2:{ intros [= <- <- <-]. rewrite launch_none by done. exists [], s, [].
      split_and!; try done.
      - unfold rendered_all. destruct (cfg_OxBrowserFetch cfg); [|done]. constructor. apply rtc_refl.
      - by intros r ?%elem_of_nil.
      - unfold ox_concurrency, zlen. simpl. case_match; lia.
      - by intros l ?%elem_of_nil.
      - intros _. unfold SearchDirect. rewrite Hb. unfold fan_out_search. cbv zeta.
        fold (paced_jobs b query language). fold js. by rewrite Ee. }
  destruct (launch_run js s) as (s1 & Hl & _). rewrite Hl.
  set (launched := filter _ js) in *.
  destruct (legs_run cx js ls (legs_start cx launched s1)) as [fs|] eqn:Hrun; [|done]. simpl.
  destruct (finished fs) eqn:Hfin; [|done].
  pose proof (run_any _ _ (search_laws _ _ _) _ _ _ _ _ _ _ Hrun) as Hinv.
  pose proof (finished_labels _ _ _ _ _ _ _ _ Hinv Hfin) as Hlab.
  pose proof (collected_eq (cfg_Metrics cfg) _ _ _ _ _ _ (inv_col _ _ _ _ _ _ _ Hinv)) as Hcol.
  change (f_col fs).1 with (f_result fs) in Hcol.
  destruct (collect_pure (cfg_Metrics cfg) (cfg_OxEscalate cfg) (early_at cfg) (f_got fs) s1)
    as (st1 & s3 & Hc & Hatt & Hsum & _). rewrite Hc in Hcol. simpl in Hcol. rewrite <- Hcol in *.
  destruct (runOxEscalation _ _ _ _ _ _ (f_cs fs)) as [ox s2] eqn:Eox.
  destruct (escalation_renders _ _ _ _ _ _ Hord Eox) as (outs & -> & Hrs & Hn & Hren & Hdor).
  intros [= <- <- <-]. exists (f_got fs), (f_cs fs), outs. split_and!; try done.
  - by exists s1, fs.
  - rewrite Hsum. unfold zlen. by rewrite <- (length_fmap label), Hlab, length_fmap.
  - intros r. by eapply answers_of_sources.
  - intros l Hl1. destruct (Hren l Hl1) as [Hin Hh]. split; [done|].
    destruct (collected_older _ _ _ _ _ _ _ _ (inv_col _ _ _ _ _ _ _ Hinv) Hh) as [Hh1|]; [left|by right].
    eexists. apply (launch_older js). rewrite Hl. exact Hh1.
  - intros Hd. destruct (Hdor Hd) as [-> ->]. split_and!; [done..|]. simpl. rewrite app_nil_r.
    by eapply SearchDirect_dormant; [..|rewrite Hc|].
Qed.

(** Whatever has happened so far, the search can come to its end without any engine answering and
    without the caller's cancelling, only by letting time pass. *)
Lemma search_run_ends b cx query language ls s launched s1 fs :
  (∀ w t, ∃ w', now w <= now w' ∧ t <= now w') →
  cfg_Browser cfg = Some b → existsb j_enabled (paced_jobs b query language) = true →
  launch (paced_jobs b query language) s = (launched, s1) →
  legs_run cx (paced_jobs b query language) ls (legs_start cx launched s1) = Some fs →
  ∃ ls', Forall (λ lb, on_its_own lb = true) ls' ∧ is_Some (search_run cx query language (ls ++ ls') s).
Proof using Type.
  intros Hclock Hb He Hl Hrun. set (js := paced_jobs b query language) in *.
  assert (length launched <= channel_size js)%nat as Hcap.
  { destruct (launch_run js s) as (s2 & Hl2 & _). rewrite Hl in Hl2. injection Hl2 as -> _.
    unfold channel_size. clear. induction js as [|j js IH]; [done|]. rewrite !filter_cons.
    destruct (j_enabled j); simpl; [|done]. destruct (negb _); simpl; lia. }
  destruct (legs_return _ _ (search_laws _ _ _) _ _ _ _ _ _ _ Hclock Hcap Hrun) as (_ & ls' & fs' & Hown & Hrun' & Hfin).
  exists ls'. split; [done|]. unfold search_run. rewrite Hb. cbv zeta. fold js. rewrite He. cbn [negb].
  rewrite Hl. unfold legs_run in *. rewrite frun_app, Hrun. simpl. rewrite Hrun'. simpl. rewrite Hfin.
  destruct (f_result fs'). destruct (runOxEscalation _ _ _ _ _ _ _). by eexists.
Qed.
End Run.

(** ** DuckDuckGo refused, Yep with a result, and Brave held back by the cache, so that it is rendered *)
Section Demo.
#[local] Existing Instances Engines.demo_clock Engines.demo_host Engines.demo_html.
#[local] Instance demo_metrics : Metrics unit :=
  {| Incr := λ _ _ w, w; ObserveSeconds := λ _ _ _ w, w; GaugeAdd := λ _ _ w, w |}.
Definition demo_pkg : Package (W := unit) :=
  {| defaultMarginaliaBudget := mret true; searchYep := λ _ _ _ _, mret (Val [zero_Result]);
     searchYandex := λ _ _ _, mret (Val []); error_text := λ _, [] |}.
Definition demo_cfg : DirectConfig (W := unit) :=
  {| cfg_Browser := Some refusing; cfg_FallbackBrowser := None; cfg_MojeekBrowser := None;
     cfg_DDG := true; cfg_Startpage := false; cfg_Brave := true; cfg_Reddit := false;
     cfg_Bing := false; cfg_Yep := true; cfg_Wikipedia := false; cfg_Marginalia := false;
     cfg_Mojeek := false; cfg_MarginaliaKey := []; cfg_MarginaliaBudget := None;
     cfg_YandexKey := [];
     cfg_Retry := {| MaxRetries := 0; InitialWait := 0; MaxWait := 0; Multiplier := fone;
                     JitterPct := fzero |};
     cfg_Metrics := true; cfg_DDGLimiter := None; cfg_StartpageLimiter := None;
     cfg_BraveLimiter := None; cfg_RedditLimiter := None; cfg_BingLimiter := None;
     cfg_RedditOAuth := None; cfg_RedditCookieSearch := None; cfg_RedditBrowserRender := None;
     cfg_TimeRange := []; cfg_PerSourceTimeout := 0; cfg_EarlyReturnAt := 0;
     cfg_OxBrowserFetch := Some (λ _ _, mret (Val [])); cfg_OxEscalate := [lit "brave"];
     cfg_OxConcurrency := 0; cfg_OxRenderDeadline := 0; cfg_Pacer := None |}.
Definition demo_state : cstate unit :=
  {| cs_cache := Some (Mark (lit "brave") 0 (NewDirectBlockCache 0 0)); cs_cancels := 0;
     cs_world := () |}.
Definition yep_first : list (move (W := unit)) :=
  [LStart 1; LStart 0; LFn 1; LSend 1 TookDone; LFn 0; LRecv; LSend 0 TookDone; LRecv].
Definition demo_search := search_run demo_pkg demo_cfg id Engines.demo_ctx (lit "q") (lit "en") yep_first demo_state.
Lemma search_run_spec_witness : ∃ rs st s',
  demo_search = Some ((rs, st), s') ∧ length rs = 1%nat ∧ (Attempted st, OK st, Shed st) = (2, 1, 0) ∧
  ∃ ch outs, label <$> ch ≡ₚ [lit "ddg"; lit "yep"] ∧
    rs = (ch ≫= ok_results) ++ mjoin (snd <$> outs) ∧
    ∀ l, l ∈ fst <$> outs → l ∈ [lit "brave"].
Proof.
  assert ((λ r, (length r.1.1, (Attempted r.1.2, OK r.1.2, Shed r.1.2))) <$> demo_search =
          Some (1%nat, (2, 1, 0))) as T by (vm_compute; reflexivity).
  destruct demo_search as [[[rs st] s']|] eqn:E; [|discriminate T]. injection T as T1 T2 T3 T4.
  destruct (search_run_spec demo_pkg demo_cfg id refusing Engines.demo_ctx (lit "q") (lit "en") yep_first
    demo_state rs st s' eq_refl (λ l, Permutation_refl l) E) as (ch & s1 & outs & _ & _ & Hl & Hrs & _ & _ & _ & _ & Hin & _).
  exists rs, st, s'. split; [done|]. split; [exact T1|]. split; [by rewrite T2, T3, T4|].
  exists ch, outs. split_and!; [exact Hl|exact Hrs|]. intros l Hl1. exact (proj1 (Hin l Hl1)).
Defined.
End Demo.
