(* ===== verification/FactVerify.v ===== *)
(** Package [llm], [factverify.go]: what a language model answers is parsed, and every fact of
    the answer is checked against the text of the sources it cites: its quote must occur there
    and the numbers it states must occur in the quote. Unicode normalization (NFC, of
    golang.org/x/text) is a parameter. *)
From S2P Require Import Prelude Unicode Utf8 GoStrings Regex Json Effects Results Floats SearchEngines.
Local Open Scope Z_scope.

(** ** Data *)
Record FactItem := {
  Point : gostring; Sources : list Z; Quote : gostring; Status : gostring; HeldReason : gostring
}.
Record StructuredOutput := { Answer : gostring; Facts : list FactItem }.
Definition zero_FactItem : FactItem :=
  {| Point := []; Sources := []; Quote := []; Status := []; HeldReason := [] |}.
Definition zero_StructuredOutput : StructuredOutput := {| Answer := []; Facts := [] |}.
Definition dec_FactItem : dec FactItem := dec_struct (λ prev kvs,
  p ← field (lit "point") dec_string (Point prev) kvs;
  s ← field (lit "sources") (dec_list 0 dec_int) (Sources prev) kvs;
  q ← field (lit "quote") dec_string (Quote prev) kvs;
  st ← field (lit "status") dec_string (Status prev) kvs;
  h ← field (lit "held_reason") dec_string (HeldReason prev) kvs;
  Some {| Point := p; Sources := s; Quote := q; Status := st; HeldReason := h |}).
Definition dec_StructuredOutput : dec StructuredOutput := dec_struct (λ prev kvs,
  a ← field (lit "answer") dec_string (Answer prev) kvs;
  fs ← field (lit "facts") (dec_list zero_FactItem dec_FactItem) (Facts prev) kvs;
  Some {| Answer := a; Facts := fs |}).

Definition FactStatusVerified : gostring := lit "verified".
Definition FactStatusHeld : gostring := lit "held".
Definition HeldNoQuote : gostring := lit "no_quote".
Definition HeldBadSourceIndex : gostring := lit "bad_source_index".
Definition HeldQuoteTooShort : gostring := lit "quote_too_short".
Definition HeldQuoteNotInSource : gostring := lit "quote_not_in_source".
Definition HeldNumberNotInQuote : gostring := lit "number_not_in_quote".
Definition minFactQuoteLen : Z := 20.

(** ** Normalization *)
(** The digits just before a rune: the loop of [ndDigitValue]. The longest run of digits in the
    tables is of fifty. *)
Fixpoint nd_count (fuel : nat) (r v : rune) : rune :=
  match fuel with
  | O => v
  | S fuel => if IsDigit (r - v - 1) then nd_count fuel r (v + 1) else v
  end.
Definition ndDigitValue (r : rune) : rune := nd_count 64 r 0 mod 10.

Definition factNormalizeRune (r : rune) : rune :=
  if (57 <? r) && IsDigit r then 48 + ndDigitValue r
  else if bool_decide (r ∈ [8216; 8217; 8218; 8219]) then 39
  else if bool_decide (r ∈ [8220; 8221; 8222; 8223; 171; 187]) then 34
  else if bool_decide (r ∈ [8211; 8212; 8722]) then 45
  else if bool_decide (r ∈ [1105; 1025]) then 1077
  else if bool_decide (r ∈ [173; 8203; 8204; 8205; 8288; 65279]) then -1
  else if bool_decide (r ∈ [160; 8239; 8201]) then 32
  else r.

(** ** Numbers *)
(** [[0-9]+(?:[.,][0-9]+)*\b(?: [0-9]{3}\b)*(?:[.,][0-9]+)?] *)
Definition re_digit : re := RClass digit_byte.
Definition re_mark : re := RClass (λ c, (c =? 46) || (c =? 44)).
Definition factNumberRe : re :=
  RSeq (RPlus re_digit)
 (RSeq (RStar (RSeq re_mark (RPlus re_digit)))
 (RSeq RWordB
 (RSeq (RStar (RSeq (RChar 32) (RSeq (RRepeat 3 re_digit) RWordB)))
       (ROpt (RSeq re_mark (RPlus re_digit)))))).

Definition byte_at (s : gostring) (i : nat) : Z := default (-1) (s !! i).
Definition number_token (s : gostring) (m : nat * nat) : gostring :=
  let tok := take (m.2 - m.1) (drop m.1 s) in
  if (0 <? m.1)%nat && (byte_at s (m.1 - 1) =? 45) &&
     ((m.1 =? 1)%nat || negb (digit_byte (byte_at s (m.1 - 2))))
  then 45 :: tok else tok.
Definition factNumberTokens (s : gostring) : list gostring :=
  number_token s <$> FindAllStringIndex factNumberRe s.

Definition splitNumberSign (token : gostring) : gostring * gostring :=
  if HasPrefix token [45] then ([45], drop 1 token) else ([], token).
Fixpoint split_number (cur body : gostring) : list gostring * list Z :=
  match body with
  | [] => ([cur], [])
  | c :: body =>
      if (c =? 46) || (c =? 44) || (c =? 32)
      then let '(groups, seps) := split_number [] body in (cur :: groups, c :: seps)
      else split_number (cur ++ [c]) body
  end.
Definition splitNumberToken (body : gostring) : list gostring * list Z := split_number [] body.
Definition allThreeDigit (groups : list gostring) : bool :=
  forallb (λ g, zlen g =? 3) groups.

Definition canonicalNumber (v : gostring) : gostring :=
  let neg := HasPrefix v [45] in
  let v := if neg then drop 1 v else v in
  let '(intPart, frac, hasFrac) := Cut v [46] in
  let intPart := TrimLeftByte intPart 48 in
  let intPart := if decide (intPart = []) then [48] else intPart in
  let frac := if hasFrac : bool then TrimRightByte frac 48 else frac in
  let hasFrac := if hasFrac : bool then bool_decide (frac ≠ []) else false in
  let out := if hasFrac : bool then intPart ++ [46] ++ frac else intPart in
  if neg && bool_decide (out ≠ [48]) then 45 :: out else out.

Definition numberForms (token : gostring) : list gostring :=
  let '(sign, body) := splitNumberSign token in
  let '(groups, seps) := splitNumberToken body in
  let n := length groups in
  let thousands :=
    if (1 <? n)%nat && allThreeDigit (drop 1 groups)
    then [canonicalNumber (sign ++ Join groups [])] else [] in
  let decimal :=
    if (1 <? n)%nat && negb (byte_at seps (n - 2) =? 32) &&
       allThreeDigit (take (n - 2) (drop 1 groups))
    then [canonicalNumber (sign ++ Join (take (n - 1) groups) [] ++ [46] ++
                           default [] (groups !! (n - 1)%nat))] else [] in
  match thousands ++ decimal with
  | [] => if (n =? 1)%nat then [canonicalNumber token] else [token]
  | forms => forms
  end.

(** ** The checks *)
Section Verify.
Context {W : Type} `{Metrics W}.
Variable nfc : gostring → gostring.

Definition normalizeFactText (s : gostring) : gostring :=
  Join (Fields (StringsMap factNormalizeRune (StringsToLower (nfc s)))) [32].

Definition factNumbersCovered (point quote : gostring) : bool :=
  let need := factNumberTokens (normalizeFactText point) in
  if decide (need = []) then true else
  let have := factNumberTokens (normalizeFactText quote) ≫= numberForms in
  forallb (λ tok, existsb (λ form, bool_decide (form ∈ have)) (numberForms tok)) need.

Definition verifyFact (f : FactItem) (numSources : Z) (haystacks : gmap Z gostring)
    : gostring * gostring :=
  if decide (TrimSpace (Quote f) = []) then (FactStatusHeld, HeldNoQuote)
  else if negb (existsb (λ idx, (1 <=? idx) && (idx <=? numSources)) (Sources f))
  then (FactStatusHeld, HeldBadSourceIndex)
  else
    let quote := normalizeFactText (Quote f) in
    if RuneCount quote <? minFactQuoteLen then (FactStatusHeld, HeldQuoteTooShort)
    else if negb (existsb (λ idx, match haystacks !! idx with
                                  | Some h => Contains h quote | None => false end) (Sources f))
    then (FactStatusHeld, HeldQuoteNotInSource)
    else if negb (factNumbersCovered (Point f) (Quote f))
    then (FactStatusHeld, HeldNumberNotInQuote)
    else (FactStatusVerified, []).

(** The text a source is searched in: its fetched content, or else its snippet. *)
Definition source_text (contents : gmap gostring gostring) (r : Result) : gostring :=
  let h := default [] (contents !! r_URL r) in if decide (h = []) then r_Content r else h.
Definition build_haystacks (results : list Result) (contents : gmap gostring gostring)
    : gmap Z gostring :=
  foldl (λ m p, let '(i, r) := p in
           if decide (source_text contents r = []) then m
           else <[i + 1 := normalizeFactText (source_text contents r)]> m)
        ∅ (imap (λ i r, (Z.of_nat i, r)) results).

(** [reg]: whether the client has a registry, which may be nil. *)
Variable reg : bool.
Definition annotate (f : FactItem) (sr : gostring * gostring) : FactItem :=
  {| Point := Point f; Sources := Sources f; Quote := Quote f; Status := sr.1;
     HeldReason := sr.2 |}.
Definition verify_one (numSources : Z) (haystacks : gmap Z gostring) (f : FactItem)
    : M W FactItem :=
  let sr := verifyFact f numSources haystacks in
  _ ← (if decide (sr.1 = FactStatusVerified)
       then when reg (Incr (lit "llm_facts_verified_total") [])
       else when reg (Incr (lit "llm_facts_held_total") [(lit "reason", sr.2)]));
  mret (annotate f sr).
Definition verifyFacts (facts : list FactItem) (results : list Result)
    (contents : gmap gostring gostring) : M W (list FactItem) :=
  if decide (facts = []) then mret facts else
  traverse (verify_one (zlen results) (build_haystacks results contents)) facts.

(** [ExtractJSONAnswer], of [summarize.go]: the value of the answer member of a document that
    does not parse. *)
Fixpoint answer_loop (s : gostring) : gostring :=
  match s with
  | [] => []
  | c :: s' =>
      if c =? 92 then
        match s' with
        | 34 :: s'' => 34 :: answer_loop s''
        | 110 :: s'' => 10 :: answer_loop s''
        | _ => c :: answer_loop s'
        end
      else if c =? 34 then [] else c :: answer_loop s'
  end.
Definition ExtractJSONAnswer (raw : gostring) : gostring :=
  let prefix := [34] ++ lit "answer" ++ [34] in
  match find_sub raw prefix with
  | None => []
  | Some idx =>
      match TrimSpace (drop (idx + length prefix) raw) with
      | 58 :: rest =>
          match TrimSpace rest with
          | 34 :: rest => answer_loop rest
          | _ => []
          end
      | _ => []
      end
  end.

Definition parseStructuredOutput (raw : gostring) (results : list Result)
    (contents : gmap gostring gostring) : M W StructuredOutput :=
  match Unmarshal zero_StructuredOutput dec_StructuredOutput raw with
  | None =>
      let answer := ExtractJSONAnswer raw in
      mret {| Answer := if decide (answer = []) then raw else answer; Facts := [] |}
  | Some out =>
      facts ← verifyFacts (Facts out) results contents;
      mret {| Answer := Answer out; Facts := facts |}
  end.
End Verify.

(** ** Examples *)
Definition demo_tokens (s : string) : list gostring := factNumberTokens (lit s).
Lemma tokens_ex :
  demo_tokens "grew 1 234 567 to -15 or 15-20, then 2024 5678" =
    [lit "1 234 567"; lit "-15"; lit "15"; lit "20"; lit "2024"; lit "5678"] ∧
  demo_tokens "v1.55.0 and 3.5kg" = [lit "1.55.0"; lit "3.5"] ∧
  demo_tokens "the 1990s, 20th, 500mg" = [].
Proof. vm_compute. done. Qed.
Lemma forms_ex :
  numberForms (lit "1,234") = [lit "1234"; lit "1.234"] ∧
  numberForms (lit "1.5") = [lit "1.5"] ∧ numberForms (lit "1.2.3.4") = [lit "1.2.3.4"] ∧
  numberForms (lit "-15") = [lit "-15"] ∧ numberForms (lit "-0") = [lit "0"] ∧
  numberForms (lit "12 345.60") = [lit "12345.6"].
Proof. vm_compute. done. Qed.
Lemma answer_ex : ExtractJSONAnswer ([123; 34] ++ lit "answer" ++ [34] ++ lit " : " ++ [34] ++
  lit "a\nb\" ++ [34] ++ lit "c" ++ [34; 44]) = lit "a" ++ [10] ++ lit "b" ++ [34] ++ lit "c".
Proof. vm_compute. done. Qed.
