(* ===== verification/FactNumbers.v ===== *)
(** The numbers of fact verification: what the canonical form and the readings of a number token
    mean. A decimal numeral stands for a value; two numerals have the same canonical form exactly
    when they have the same value. *)
From S2P Require Import Prelude Unicode Utf8 GoStrings GoUrl Regex FactVerify.
Local Open Scope Z_scope.

(** ** Digit strings *)
Definition digits (s : gostring) : Prop := Forall (λ c, digit_byte c = true) s.
Definition dval (s : gostring) : Z := foldl (λ a c, a * 10 + (c - 48)) 0 s.

Lemma foldl_dval s a : foldl (λ a c, a * 10 + (c - 48)) a s = a * 10 ^ zlen s + dval s.
Proof.
  unfold dval. revert a. induction s as [|c s IH]; intros a; cbn [foldl].
  - rewrite zlen_nil. lia.
  - rewrite IH, (IH (0 * 10 + (c - 48))), zlen_cons, Z.pow_add_r by auto with zarith go. lia.
Qed.
Lemma dval_app a b : dval (a ++ b) = dval a * 10 ^ zlen b + dval b.
Proof. unfold dval at 1. rewrite foldl_app. apply foldl_dval. Qed.
Lemma dval_cons c s : dval (c :: s) = (c - 48) * 10 ^ zlen s + dval s.
Proof. change (c :: s) with ([c] ++ s). rewrite dval_app. done. Qed.
Lemma digit_bounds c : digit_byte c = true ↔ 48 <= c <= 57.
Proof.
  unfold digit_byte, between. rewrite andb_true_iff. split.
  - intros [? ?]. zbool. lia.
  - intros [? ?]. split; by apply Z.leb_le.
Qed.
Lemma dval_bounds s : digits s → 0 <= dval s < 10 ^ zlen s.
Proof.
  induction 1 as [|c s Hc%digit_bounds _ IH]; [done|].
  rewrite dval_cons, zlen_cons, Z.pow_add_r by auto with zarith go. nia.
Qed.
Lemma dval_inj s t : digits s → digits t → length s = length t → dval s = dval t → s = t.
Proof.
  intros Hs. revert t. induction Hs as [|c s Hc%digit_bounds Hs IH]; intros t Ht Hl Hd.
  { by destruct t. }
  destruct t as [|d t]; [done|]. inv_clear Ht. apply digit_bounds in H1.
  injection Hl as Hl. rewrite !dval_cons in Hd. unfold zlen in Hd. rewrite <- Hl in Hd.
  pose proof (dval_bounds _ Hs). pose proof (dval_bounds _ H2). unfold zlen in *.
  rewrite <- Hl in *. assert (c = d) as -> by nia. f_equal. apply IH; [done..|nia].
Qed.
Lemma digits_app a b : digits (a ++ b) ↔ digits a ∧ digits b.
Proof. apply Forall_app. Qed.
Lemma digits_not_in s c : digits s → digit_byte c = false → c ∉ s.
Proof. intros Hs Hc Hin. eapply Forall_forall in Hs; [|done]. congruence. Qed.

(** ** Numerals *)
Record numeral := Num { n_neg : bool; n_int : gostring; n_frac : option gostring }.
Definition numeral_wf (n : numeral) : Prop :=
  digits (n_int n) ∧ digits (default [] (n_frac n)).
Definition print_numeral (n : numeral) : gostring :=
  (if n_neg n then [45] else []) ++ n_int n ++
  match n_frac n with Some f => 46 :: f | None => [] end.
(** The value is the mantissa divided by a power of ten. *)
Definition n_scale (n : numeral) : Z := zlen (default [] (n_frac n)).
Definition n_mant (n : numeral) : Z :=
  (if n_neg n then -1 else 1) * dval (n_int n ++ default [] (n_frac n)).
Definition same_value (a b : numeral) : Prop :=
  n_mant a * 10 ^ n_scale b = n_mant b * 10 ^ n_scale a.

(** The canonical numerals: no leading zero, no trailing zero, no negative zero. *)
Definition canon (n : numeral) : numeral :=
  let i := TrimLeftByte (n_int n) 48 in
  let i := if decide (i = []) then [48] else i in
  let f := match n_frac n with
           | Some f => let f := TrimRightByte f 48 in if decide (f = []) then None else Some f
           | None => None
           end in
  Num (n_neg n && negb (bool_decide (i = [48]) && bool_decide (f = None))) i f.
Record canonical (n : numeral) : Prop := {
  ca_wf : numeral_wf n;
  ca_int : n_int n = [48] ∨ (∃ c s, n_int n = c :: s ∧ c ≠ 48);
  ca_frac : ∀ f, n_frac n = Some f → ∃ s c, f = s ++ [c] ∧ c ≠ 48;
  ca_zero : n_int n = [48] → n_frac n = None → n_neg n = false
}.

Lemma TrimLeftByte_spec s : ∃ n, s = replicate n 48 ++ TrimLeftByte s 48 ∧
  (TrimLeftByte s 48 = [] ∨ ∃ c k, TrimLeftByte s 48 = c :: k ∧ c ≠ 48).
Proof.
  induction s as [|c s (n & E & IH)]; [by exists 0%nat; split; [|left]|]. simpl.
  destruct (Z.eqb_spec c 48) as [->|Hc].
  - exists (S n). simpl. split; [by rewrite <- E|done].
  - exists 0%nat. split; [done|]. right. eauto.
Qed.
Lemma TrimRightByte_spec s : ∃ n, s = TrimRightByte s 48 ++ replicate n 48 ∧
  (TrimRightByte s 48 = [] ∨ ∃ k c, TrimRightByte s 48 = k ++ [c] ∧ c ≠ 48).
Proof.
  unfold TrimRightByte. destruct (TrimLeftByte_spec (reverse s)) as (n & E & Hc).
  exists n. split.
  - apply (f_equal reverse) in E. rewrite reverse_involutive, reverse_app, reverse_replicate in E.
    done.
  - destruct Hc as [->|(c & k & -> & ?)]; [by left|]. right. exists (reverse k), c.
    split; [by rewrite reverse_cons|done].
Qed.
Lemma dval_zeros n : dval (replicate n 48) = 0.
Proof. induction n as [|n IH]; [done|]. simpl. rewrite dval_cons, IH. lia. Qed.
Lemma zlen_replicate {A} n (x : A) : zlen (replicate n x) = Z.of_nat n.
Proof. unfold zlen. by rewrite length_replicate. Qed.

(** Stripping keeps the value. *)
Lemma canon_int s : digits s →
  let i := if decide (TrimLeftByte s 48 = []) then [48] else TrimLeftByte s 48 in
  digits i ∧ dval i = dval s ∧ (i = [48] ∨ ∃ c k, i = c :: k ∧ c ≠ 48).
Proof.
  intros Hs. destruct (TrimLeftByte_spec s) as (n & E & Hc). simpl.
  rewrite E in Hs. apply digits_app in Hs as [_ Hs].
  assert (dval s = dval (TrimLeftByte s 48)) as Hv.
  { rewrite E at 1. by rewrite dval_app, dval_zeros. }
  case_decide as Hd.
  - rewrite Hd in Hv. split_and!; [repeat constructor|by rewrite Hv|by left].
  - split_and!; [done..|]. destruct Hc; [done|by right].
Qed.
Lemma canon_frac s : digits s → ∃ n, dval s = dval (TrimRightByte s 48) * 10 ^ n ∧
  zlen s = zlen (TrimRightByte s 48) + n ∧ 0 <= n ∧ digits (TrimRightByte s 48) ∧
  (TrimRightByte s 48 = [] ∨ ∃ k c, TrimRightByte s 48 = k ++ [c] ∧ c ≠ 48).
Proof.
  intros Hs. destruct (TrimRightByte_spec s) as (n & E & Hc). exists (Z.of_nat n).
  rewrite E in Hs. apply digits_app in Hs as [Hs _]. split_and!; [..|lia|done|done].
  - rewrite E at 1. rewrite dval_app, dval_zeros, zlen_replicate. lia.
  - rewrite E at 1. by rewrite zlen_app, zlen_replicate.
Qed.

Lemma n_scale_nonneg n : 0 <= n_scale n.
Proof. apply zlen_nonneg. Qed.
Lemma pow10_pos k : 0 <= k → 0 < 10 ^ k.
Proof. intros. by apply Z.pow_pos_nonneg. Qed.
#[local] Hint Resolve n_scale_nonneg pow10_pos : core.

Lemma same_value_sym a b : same_value a b → same_value b a.
Proof. unfold same_value. lia. Qed.
Lemma same_value_trans a b c : same_value a b → same_value b c → same_value a c.
Proof.
  unfold same_value. intros H1 H2.
  assert (0 < 10 ^ n_scale b) by auto. apply (Z.mul_reg_r _ _ (10 ^ n_scale b)); [lia|].
  transitivity (n_mant a * 10 ^ n_scale b * 10 ^ n_scale c); [lia|]. rewrite H1.
  transitivity (n_mant b * 10 ^ n_scale c * 10 ^ n_scale a); [lia|]. rewrite H2. lia.
Qed.

Lemma canon_canonical n : numeral_wf n → canonical (canon n).
Proof.
  intros [Hi Hf]. destruct (canon_int _ Hi) as (Hi' & _ & Hi0). unfold canon. simpl in *.
  set (i := if decide (TrimLeftByte (n_int n) 48 = []) then _ else _) in *. clearbody i.
  destruct (n_frac n) as [f|]; simpl in *.
  - destruct (canon_frac f Hf) as (k & _ & _ & _ & Hd & Hc). case_decide as E; split; simpl.
    + split; [done|constructor].
    + done.
    + done.
    + intros -> _. rewrite bool_decide_true by done. apply andb_false_r.
    + by split.
    + done.
    + intros ? [= <-]. destruct Hc; [done|done].
    + done.
  - split; simpl; [split; [done|constructor]|done|done|].
    intros -> _. rewrite !bool_decide_true by done. apply andb_false_r.
Qed.

Lemma sign_zero (b z : bool) k : (z = true → k = 0) →
  (if b && negb z then -1 else 1) * k = (if b then -1 else 1) * k.
Proof. intros Hk. destruct b, z; simpl; try done. rewrite Hk by done. done. Qed.
Lemma canon_value n : numeral_wf n → same_value (canon n) n.
Proof.
  intros [Hi Hf]. destruct (canon_int _ Hi) as (Hi' & Hv & _).
  unfold same_value, canon, n_mant, n_scale. simpl in *.
  set (i := if decide (TrimLeftByte (n_int n) 48 = []) then _ else _) in *. clearbody i.
  assert (∀ z : bool, bool_decide (i = [48]) && z = true → dval i = 0) as Hz.
  { by intros z [->%bool_decide_eq_true_1 _]%andb_true_iff. }
  destruct (n_frac n) as [f|]; simpl in *.
  - destruct (canon_frac f Hf) as (k & Hfv & Hl & Hk & _ & _).
    destruct (decide (TrimRightByte f 48 = [])) as [E|E]; simpl.
    + rewrite E in Hfv. change (dval []) with 0 in Hfv.
      rewrite sign_zero by (intros Hb; rewrite app_nil_r; eauto).
      rewrite app_nil_r, dval_app, Hv, Hfv. change (zlen (@nil Z)) with 0. lia.
    + rewrite sign_zero by (rewrite andb_false_r; done).
      rewrite !dval_app, Hl, Z.pow_add_r, Hfv, Hv by auto with zarith go. lia.
  - rewrite !app_nil_r, sign_zero by eauto. by rewrite Hv.
Qed.

(** A canonical numeral is the only one of its value. *)
Lemma canonical_int_inj s t : digits s → digits t →
  (s = [48] ∨ ∃ c k, s = c :: k ∧ c ≠ 48) → (t = [48] ∨ ∃ c k, t = c :: k ∧ c ≠ 48) →
  dval s = dval t → s = t.
Proof.
  assert (∀ s t, digits s → digits t → s ≠ [] → (t = [48] ∨ ∃ c k, t = c :: k ∧ c ≠ 48) →
    (length s < length t)%nat → dval s ≠ dval t) as Hlt.
  { clear. intros s t Hs Ht Hne [->|(c & k & -> & Hc)] Hl.
    { destruct s; [done|]. simpl in Hl. lia. }
    inv_clear Ht. apply digit_bounds in H1. pose proof (dval_bounds _ Hs).
    pose proof (dval_bounds _ H2). rewrite dval_cons.
    assert (10 ^ zlen s <= 10 ^ zlen k).
    { apply Z.pow_le_mono_r; [lia|]. unfold zlen. simpl in Hl. lia. }
    nia. }
  intros Hs Ht Cs Ct Hd.
  assert (s ≠ []) by (by destruct Cs as [->|(? & ? & -> & _)]).
  assert (t ≠ []) by (by destruct Ct as [->|(? & ? & -> & _)]).
  destruct (decide (length s = length t)); [by apply dval_inj|]. exfalso.
  destruct (decide (length s < length t)%nat); [by apply (Hlt s t)|].
  apply (Hlt t s); [done..|lia|done].
Qed.

(** The mantissa of a numeral with a canonical fraction is not a multiple of ten. *)
Lemma canonical_mant_last n : canonical n → 0 < n_scale n → n_mant n mod 10 ≠ 0.
Proof.
  intros Hc Hs. unfold n_mant, n_scale in *. destruct (n_frac n) as [f|] eqn:E; [|done]. simpl in *.
  destruct (ca_frac n Hc f E) as (s & c & -> & Hn).
  destruct (ca_wf n Hc) as [_ Hf]. rewrite E in Hf. simpl in Hf.
  apply digits_app in Hf as [_ Hf]. inv_clear Hf. apply digit_bounds in H1.
  rewrite !app_assoc, dval_app. change (zlen [c]) with 1. change (dval [c]) with (c - 48).
  destruct (n_neg n).
  - intros Hm. apply Z.mod_divide in Hm as [q Hq]; [|done]. lia.
  - intros Hm. apply Z.mod_divide in Hm as [q Hq]; [|done]. lia.
Qed.
Lemma canonical_same_scale a b : canonical a → canonical b → same_value a b →
  n_scale a <= n_scale b → n_scale a = n_scale b.
Proof.
  intros Ha Hb Hv Hle. destruct (decide (n_scale a = n_scale b)); [done|]. exfalso.
  apply (canonical_mant_last b Hb); [pose proof (n_scale_nonneg a); lia|].
  unfold same_value in Hv. replace (n_scale b) with (n_scale b - n_scale a + n_scale a) in Hv by lia.
  rewrite Z.pow_add_r in Hv by (pose proof (n_scale_nonneg a); lia).
  assert (n_mant b = n_mant a * 10 ^ (n_scale b - n_scale a)) as ->.
  { pose proof (pow10_pos _ (n_scale_nonneg a)).
    apply (Z.mul_reg_r _ _ (10 ^ n_scale a)); [lia|]. rewrite <- Hv. lia. }
  replace (n_scale b - n_scale a) with (n_scale b - n_scale a - 1 + 1) by lia.
  rewrite Z.pow_add_r by lia. apply Z.mod_divide; [done|].
  exists (n_mant a * 10 ^ (n_scale b - n_scale a - 1)). lia.
Qed.
Lemma canonical_inj a b : canonical a → canonical b → same_value a b → a = b.
Proof.
  intros Ha Hb Hv.
  assert (n_scale a = n_scale b) as Hs.
  { destruct (Z.le_ge_cases (n_scale a) (n_scale b)); [by apply canonical_same_scale|].
    symmetry. apply canonical_same_scale; [done..|by apply same_value_sym|done]. }
  assert (n_mant a = n_mant b) as Hm.
  { unfold same_value in Hv. rewrite Hs in Hv.
    pose proof (pow10_pos _ (n_scale_nonneg b)). by apply Z.mul_reg_r in Hv; [|lia]. }
  destruct (ca_wf a Ha) as [Hia Hfa], (ca_wf b Hb) as [Hib Hfb].
  unfold n_mant in Hm. unfold n_scale in Hs. rewrite !dval_app, Hs in Hm.
  pose proof (dval_bounds _ Hia). pose proof (dval_bounds _ Hib).
  pose proof (dval_bounds _ Hfa) as Ba. pose proof (dval_bounds _ Hfb) as Bb. rewrite Hs in Ba.
  set (p := 10 ^ zlen (default [] (n_frac b))) in *.
  assert (dval (n_int a) = dval (n_int b) ∧ dval (default [] (n_frac a)) = dval (default [] (n_frac b)))
    as [Hi Hf].
  { assert (0 <= dval (n_int a) * p) by nia. assert (0 <= dval (n_int b) * p) by nia.
    apply (Z.div_mod_unique p); [by left..|]. destruct (n_neg a), (n_neg b); lia. }
  apply canonical_int_inj in Hi; [|done..|by apply ca_int|by apply ca_int].
  apply dval_inj in Hf; [|done..|unfold zlen in Hs; lia].
  assert (n_frac a = n_frac b) as Hf'.
  { destruct (n_frac a) as [f|] eqn:Ea, (n_frac b) as [g|] eqn:Eb; simpl in Hf; subst; try done.
    - destruct (ca_frac a Ha [] Ea) as ([] & ? & ? & _); done.
    - destruct (ca_frac b Hb [] Eb) as ([] & ? & ? & _); done. }
  assert (n_neg a = n_neg b) as Hn.
  { destruct (ca_int a Ha) as [Ei|(c & s & Ei & Hc)].
    - destruct (n_frac a) as [f|] eqn:Ea.
      + destruct (ca_frac a Ha f Ea) as (s & c & -> & Hc). rewrite <- Hf', Hi, <- Hi, Ei in *. simpl in *.
        apply digits_app in Hfa as [Hsd Hcd]. inv_clear Hcd. apply digit_bounds in H3.
        rewrite dval_app in Hm. change (dval [48]) with 0 in Hm. change (dval [c]) with (c - 48) in Hm.
        change (zlen [c]) with 1 in Hm. pose proof (dval_bounds _ Hsd).
        destruct (n_neg a), (n_neg b); lia.
      + rewrite (ca_zero a Ha Ei Ea). rewrite (ca_zero b Hb); congruence.
    - rewrite <- Hi, Ei in *. inv_clear Hia. apply digit_bounds in H3. rewrite dval_cons in *.
      pose proof (dval_bounds _ H4). pose proof (pow10_pos _ (zlen_nonneg s)).
      destruct (n_neg a), (n_neg b); nia. }
  destruct a, b; simpl in *; congruence.
Qed.

(** ** Printing *)
Lemma digits_no_minus s k : digits s → (∀ k', k ≠ 45 :: k') → HasPrefix (s ++ k) [45] = false.
Proof.
  intros Hs Hk. destruct s as [|c s]; cbn [app].
  - destruct k as [|c k]; [done|]. cbn [HasPrefix]. destruct (Z.eqb_spec 45 c) as [<-|]; [|done].
    exfalso. by eapply Hk.
  - inv_clear Hs. apply digit_bounds in H1. cbn [HasPrefix]. destruct (Z.eqb_spec 45 c); [lia|done].
Qed.
Definition frac_suffix (f : option gostring) : gostring :=
  match f with Some f => 46 :: f | None => [] end.
Lemma frac_no_minus f k : frac_suffix f ≠ 45 :: k.
Proof. by destruct f. Qed.

Lemma canonicalNumber_print n : numeral_wf n →
  canonicalNumber (print_numeral n) = print_numeral (canon n).
Proof.
  intros [Hi Hf]. assert (46 ∉ n_int n) as Hdot by by eapply digits_not_in.
  set (body := n_int n ++ frac_suffix (n_frac n)).
  assert (print_numeral n = (if n_neg n then [45] else []) ++ body) as -> by done.
  unfold canonicalNumber, canon.
  assert (HasPrefix ((if n_neg n then [45] else []) ++ body) [45] = n_neg n) as ->.
  { destruct (n_neg n); [apply HasPrefix_app|]. apply (digits_no_minus (n_int n)); [done|].
    intros k. apply frac_no_minus. }
  assert ((if n_neg n then drop 1 ((if n_neg n then [45] else []) ++ body)
           else (if n_neg n then [45] else []) ++ body) = body) as ->
    by (by destruct (n_neg n)).
  unfold print_numeral. simpl.
  set (i := if decide (TrimLeftByte (n_int n) 48 = []) then _ else _).
  subst body. destruct (n_frac n) as [f|]; simpl.
  - rewrite Cut_byte by done. fold i.
    destruct (decide (TrimRightByte f 48 = [])) as [E|E].
    + rewrite (bool_decide_false (TrimRightByte f 48 ≠ [])) by (by intros []).
      rewrite app_nil_r, bool_decide_not. simpl. rewrite andb_true_r.
      destruct (n_neg n), (bool_decide (i = [48])); done.
    + rewrite (bool_decide_true (TrimRightByte f 48 ≠ [])) by done.
      rewrite (bool_decide_false (Some (TrimRightByte f 48) = None)) by done. rewrite andb_false_r.
      rewrite (bool_decide_true (i ++ 46 :: TrimRightByte f 48 ≠ [48])); [by destruct (n_neg n)|].
      intros Ec. destruct i as [|c [|]]; simpl in Ec; by simplify_eq.
  - rewrite app_nil_r, Cut_no_byte by done. fold i. rewrite app_nil_r, bool_decide_not.
    rewrite andb_true_r. destruct (n_neg n), (bool_decide (i = [48])); done.
Qed.

Lemma print_numeral_inj a b : numeral_wf a → numeral_wf b →
  print_numeral a = print_numeral b → a = b.
Proof.
  intros [Hia _] [Hib _] E. unfold print_numeral in E.
  fold (frac_suffix (n_frac a)) (frac_suffix (n_frac b)) in E.
  assert (n_neg a = n_neg b) as Hn.
  { assert (∀ n, digits (n_int n) → HasPrefix ((if n_neg n then [45] else []) ++
      n_int n ++ frac_suffix (n_frac n)) [45] = n_neg n) as Hp.
    { intros n Hd. destruct (n_neg n); [apply HasPrefix_app|].
      apply (digits_no_minus (n_int n)); [done|apply frac_no_minus]. }
    by rewrite <- (Hp a Hia), <- (Hp b Hib), E. }
  rewrite Hn in E. apply app_inv_head in E.
  assert (Cut (n_int a ++ frac_suffix (n_frac a)) [46] = Cut (n_int b ++ frac_suffix (n_frac b)) [46])
    as Ec by by rewrite E.
  assert (46 ∉ n_int a ∧ 46 ∉ n_int b) as [Ha Hb] by (split; by eapply digits_not_in).
  destruct a as [na ia [fa|]], b as [nb ib [fb|]]; simpl in *;
    rewrite ?app_nil_r, ?Cut_byte, ?Cut_no_byte in Ec by done; congruence.
Qed.

Lemma canonical_inj_value a b :
  numeral_wf a → numeral_wf b →
  canonicalNumber (print_numeral a) = canonicalNumber (print_numeral b) ↔ same_value a b.
Proof.
  intros Ha Hb. rewrite !canonicalNumber_print by done.
  pose proof (canon_canonical a Ha) as Ca. pose proof (canon_canonical b Hb) as Cb. split.
  - intros E. apply print_numeral_inj in E; [|by apply ca_wf..].
    eapply same_value_trans; [apply same_value_sym, canon_value; done|]. rewrite E.
    by apply canon_value.
  - intros Hv. f_equal. apply canonical_inj; [done..|].
    eapply same_value_trans; [by apply canon_value|].
    eapply same_value_trans; [done|]. by apply same_value_sym, canon_value.
Qed.

(** C22: two decimal numerals have the same canonical form exactly when they have the same value:
    leading zeros, trailing zeros of a fraction and the sign of zero do not matter, and nothing
    else is identified. *)
Theorem canonicalNumber_value a b :
  numeral_wf a → numeral_wf b →
  canonicalNumber (print_numeral a) = canonicalNumber (print_numeral b) ↔ same_value a b.
Proof. apply canonical_inj_value. Qed.
Lemma canonicalNumber_value_witness :
  same_value (Num true (lit "007") (Some (lit "50"))) (Num true (lit "7") (Some (lit "5"))) ∧
  canonicalNumber (lit "-007.50") = canonicalNumber (lit "-7.5").
Proof.
  split; [vm_compute; reflexivity|].
  apply (canonicalNumber_value (Num true (lit "007") (Some (lit "50")))
           (Num true (lit "7") (Some (lit "5")))); [..|vm_compute; reflexivity].
  all: split; repeat constructor.
Defined.
