(* ===== verification/FactTokens.v ===== *)
(** The number tokens of fact verification: every match of the number pattern is a well-formed
    token, and the forms of a token are the canonical forms of its readings, so two tokens share
    a form exactly when they share a reading by value. *)
From S2P Require Import Prelude Unicode Utf8 GoStrings GoUrl Regex FactVerify FactNumbers.
Local Open Scope Z_scope.

(** ** Tokens: a sign, a group of digits, and further groups each after a separator *)
Record token := Tok { t_neg : bool; t_first : gostring; t_rest : list (Z * gostring) }.
Definition is_sep (c : Z) : bool := (c =? 46) || (c =? 44) || (c =? 32).
Definition group_wf (p : Z * gostring) : Prop := is_sep p.1 = true ∧ digits p.2 ∧ p.2 ≠ [].
Definition token_wf (t : token) : Prop :=
  digits (t_first t) ∧ t_first t ≠ [] ∧ Forall group_wf (t_rest t).
Definition print_groups (rest : list (Z * gostring)) : gostring := rest ≫= λ p, p.1 :: p.2.
Definition print_body (t : token) : gostring := t_first t ++ print_groups (t_rest t).
Definition print_token (t : token) : gostring :=
  (if t_neg t then [45] else []) ++ print_body t.

(** ** The tokens of a text are well-formed *)
Lemma lang_digits w : lang (RPlus re_digit) w → digits w ∧ w ≠ [].
Proof.
  intros (v & k & -> & Hv & Hk)%lang_plus. inversion Hv; subst. split; [|done].
  constructor; [done|]. revert k Hk. apply lang_star_ind; [constructor|].
  intros v w Hd Hw. inversion Hd; subst. by constructor.
Qed.
Lemma lang_mark_group w : lang (RSeq re_mark (RPlus re_digit)) w →
  ∃ p, w = print_groups [p] ∧ group_wf p.
Proof.
  inversion 1; subst. inversion H2; subst. apply lang_digits in H4 as [Hd Hne].
  exists (c, w0). split; [unfold print_groups; simpl; by rewrite app_nil_r|].
  split; [simpl|done]. unfold is_sep. by rewrite H1.
Qed.
Lemma lang_space_group w : lang (RSeq (RChar 32) (RSeq (RRepeat 3 re_digit) RWordB)) w →
  ∃ p, w = print_groups [p] ∧ group_wf p.
Proof.
  intros Hl. simpl in Hl.
  repeat match goal with
  | H : lang (RSeq _ _) _ |- _ => inv_clear H
  | H : lang (RChar _) _ |- _ => inv_clear H
  | H : lang re_digit _ |- _ => inv_clear H
  | H : lang RWordB _ |- _ => inv_clear H
  end.
  eexists (c, [_; _; _]). split; [reflexivity|].
  split; [|split; [|done]]; simpl.
  - unfold is_sep. rewrite H0. by rewrite !orb_true_r.
  - by repeat constructor.
Qed.
Lemma print_groups_app a b : print_groups (a ++ b) = print_groups a ++ print_groups b.
Proof. apply bind_app. Qed.
Lemma lang_groups a w : (∀ w, lang a w → ∃ p, w = print_groups [p] ∧ group_wf p) →
  lang (RStar a) w → ∃ rest, w = print_groups rest ∧ Forall group_wf rest.
Proof.
  intros Ha. revert w. apply lang_star_ind; [by exists []|].
  intros v w (p & -> & Hp)%Ha (rest & -> & Hr). exists (p :: rest).
  split; [by rewrite <- print_groups_app|by constructor].
Qed.
Lemma lang_number w : lang factNumberRe w →
  ∃ t, w = print_body t ∧ t_neg t = false ∧ token_wf t.
Proof.
  unfold factNumberRe.
  intros (f & k1 & -> & [Hf Hne]%lang_digits & Hl)%lang_seq.
  apply lang_seq in Hl as (w1 & k2 & -> & (r1 & -> & Hr1)%(lang_groups _ _ lang_mark_group) & Hl).
  apply lang_seq in Hl as (w2 & k3 & -> & ->%lang_wordb & Hl).
  apply lang_seq in Hl as (w3 & w4 & -> & (r2 & -> & Hr2)%(lang_groups _ _ lang_space_group) & Hl).
  assert (∃ r3, w4 = print_groups r3 ∧ Forall group_wf r3) as (r3 & -> & Hr3).
  { apply lang_opt in Hl as [->|(p & -> & Hp)%lang_mark_group]; [by exists []|].
    exists [p]. split; [done|by constructor]. }
  exists (Tok false f (r1 ++ r2 ++ r3)). split; [|split; [done|]].
  - unfold print_body. simpl. by rewrite !print_groups_app.
  - split; [done|split; [done|]]. simpl. by rewrite !Forall_app.
Qed.

(** The tokens of a text, parsed. *)
Definition number_in (s : gostring) (t : token) : Prop :=
  print_token t ∈ factNumberTokens s ∧ token_wf t.
Lemma tokens_wf s x : x ∈ factNumberTokens s → ∃ t, x = print_token t ∧ number_in s t.
Proof.
  intros Hx. assert (∃ t, x = print_token t ∧ token_wf t) as (t & -> & Ht).
  { apply list_elem_of_fmap in Hx as (m & -> & Hm).
    pose proof (FindAll_lang factNumberRe s) as Hl. rewrite Forall_forall in Hl.
    destruct (lang_number _ (Hl m Hm)) as (t & E & Hn & Hwf). unfold number_token.
    rewrite E. destruct (_ && _).
    - exists (Tok true (t_first t) (t_rest t)). done.
    - exists t. split; [|done]. unfold print_token. by rewrite Hn. }
  by exists t.
Qed.

(** ** Splitting a token *)
Lemma is_sep_digit c : digit_byte c = true → is_sep c = false.
Proof.
  intros Hc%digit_bounds. unfold is_sep.
  rewrite !(proj2 (Z.eqb_neq c _)) by lia. done.
Qed.
Lemma split_number_digits cur d rest : digits d →
  split_number cur (d ++ rest) = split_number (cur ++ d) rest.
Proof.
  intros Hd. revert cur. induction Hd as [|c d Hc%is_sep_digit Hd IH]; intros cur; cbn [app split_number].
  { by rewrite app_nil_r. }
  unfold is_sep in Hc. rewrite Hc, IH, <- app_assoc. done.
Qed.
Lemma split_number_groups cur rest : Forall group_wf rest →
  split_number cur (print_groups rest) = (cur :: (snd <$> rest), fst <$> rest).
Proof.
  intros Hr. revert cur. induction Hr as [|[c d] rest (Hc & Hd & _) Hr IH]; intros cur; [done|].
  change (print_groups ((c, d) :: rest)) with (c :: (d ++ print_groups rest)).
  cbn [split_number]. simpl in Hc. unfold is_sep in Hc. rewrite Hc.
  by rewrite split_number_digits, IH by done.
Qed.
Lemma split_token t : token_wf t →
  splitNumberSign (print_token t) = (if t_neg t then [45] else [], print_body t) ∧
  splitNumberToken (print_body t) = (t_first t :: (snd <$> t_rest t), fst <$> t_rest t).
Proof.
  intros (Hf & Hne & Hr). split.
  - unfold splitNumberSign, print_token. destruct (t_neg t).
    + by rewrite HasPrefix_app.
    + unfold print_body at 1. simpl. rewrite digits_no_minus; [done|done|].
      intros k. destruct Hr as [|[c d] rest (Hc & _)]; [done|]. intros [= -> _]. done.
  - unfold splitNumberToken, print_body.
    by rewrite split_number_digits, split_number_groups by done.
Qed.
Lemma print_token_inj t u : token_wf t → token_wf u → print_token t = print_token u → t = u.
Proof.
  intros Ht Hu E. destruct (split_token t Ht) as [St Bt], (split_token u Hu) as [Su Bu].
  rewrite E, Su in St. injection St as Hn Hb. rewrite <- Hb, Bu in Bt. injection Bt as Hf Hs Hg.
  destruct t as [[] f r], u as [[] g q]; simpl in *; try done; subst; f_equal;
    clear -Hs Hg; revert q Hs Hg; induction r as [|[] r IH]; intros [|[] q] Hs Hg; simplify_eq/=;
    by f_equal; auto.
Qed.

(** ** Readings *)
Definition three (p : Z * gostring) : Prop := zlen p.2 = 3.
Definition glue (rest : list (Z * gostring)) : gostring := rest ≫= snd.
(** What a token may stand for: a plain integer; an integer with grouped thousands; a decimal
    whose integer part may be grouped. A token with no reading is a version or an identifier. *)
Inductive reading : token → numeral → Prop :=
| read_plain neg g : reading (Tok neg g []) (Num neg g None)
| read_thousands neg g rest : rest ≠ [] → Forall three rest →
    reading (Tok neg g rest) (Num neg (g ++ glue rest) None)
| read_decimal neg g mid s d : s ≠ 32 → Forall three mid →
    reading (Tok neg g (mid ++ [(s, d)])) (Num neg (g ++ glue mid) (Some d)).
#[local] Hint Constructors reading : core.

Lemma digits_glue rest : Forall group_wf rest → digits (glue rest).
Proof.
  induction 1 as [|p rest (_ & Hd & _) _ IH]; [constructor|]. apply digits_app. done.
Qed.
Lemma reading_wf t n : token_wf t → reading t n → numeral_wf n.
Proof.
  intros (Hf & _ & Hr) Hn. destruct Hn; simpl in *; split; simpl; try done; try constructor.
  - apply digits_app. split; [done|by apply digits_glue].
  - apply digits_app. apply Forall_app in Hr as [Hr _]. split; [done|by apply digits_glue].
  - apply Forall_app in Hr as [_ Hr]. by apply Forall_singleton in Hr as (_ & ? & _).
Qed.

Lemma Join_nil l : Join l [] = mjoin l.
Proof.
  induction l as [|x [|y l] IH]; [done|by simpl; rewrite app_nil_r|].
  rewrite Join_cons, IH by done. done.
Qed.
Lemma glue_join rest : mjoin (snd <$> rest) = glue rest.
Proof. unfold glue. induction rest as [|[s d] rest IH]; [done|]. by rewrite fmap_cons, bind_cons, <- IH. Qed.
Lemma allThreeDigit_spec rest : allThreeDigit (snd <$> rest) = true ↔ Forall three rest.
Proof.
  unfold allThreeDigit, three. induction rest as [|[s d] rest IH]; [by split; [constructor|]|].
  rewrite fmap_cons, Forall_cons. simpl. by rewrite andb_true_iff, Z.eqb_eq, IH.
Qed.

Lemma reading_nil neg g n : reading (Tok neg g []) n → n = Num neg g None.
Proof.
  inversion 1; subst; [done|done|].
  match goal with E : _ ++ [_] = [] |- _ => by destruct (app_cons_not_nil _ _ _ (eq_sym E)) end.
Qed.
Lemma reading_snoc neg g mid s d n :
  reading (Tok neg g (mid ++ [(s, d)])) n ↔
  (Forall three (mid ++ [(s, d)]) ∧ n = Num neg (g ++ glue (mid ++ [(s, d)])) None) ∨
  (s ≠ 32 ∧ Forall three mid ∧ n = Num neg (g ++ glue mid) (Some d)).
Proof.
  split.
  - inversion 1; subst.
    + by destruct mid.
    + by left.
    + match goal with E : _ ++ [_] = _ ++ [_] |- _ => apply app_inj_tail in E as [? ?] end.
      simplify_eq. by right.
  - intros [[H3 ->]|(Hs & H3 & ->)]; [|by constructor]. constructor; [by destruct mid|done].
Qed.

(** The forms of a token with a rest, and of one without. *)
Lemma numberForms_plain neg g : digits g → g ≠ [] →
  numberForms (print_token (Tok neg g [])) = [canonicalNumber (print_numeral (Num neg g None))].
Proof.
  intros Hd Hne. unfold numberForms. destruct (split_token (Tok neg g [])) as [E1 E2].
  { split; [done|split; [done|constructor]]. }
  rewrite E1, E2. simpl. done.
Qed.
Lemma numberForms_snoc neg g mid s d : token_wf (Tok neg g (mid ++ [(s, d)])) →
  numberForms (print_token (Tok neg g (mid ++ [(s, d)]))) =
  match (if allThreeDigit (snd <$> (mid ++ [(s, d)]))
         then [canonicalNumber (print_numeral (Num neg (g ++ glue (mid ++ [(s, d)])) None))] else []) ++
        (if negb (s =? 32) && allThreeDigit (snd <$> mid)
         then [canonicalNumber (print_numeral (Num neg (g ++ glue mid) (Some d)))] else []) with
  | [] => [print_token (Tok neg g (mid ++ [(s, d)]))]
  | forms => forms
  end.
Proof.
  intros Hwf. unfold numberForms. destruct (split_token _ Hwf) as [-> ->].
  cbn [t_neg t_first t_rest].
  set (n := length (g :: (snd <$> (mid ++ [(s, d)])))).
  assert (n = S (S (length mid))) as Hn.
  { subst n. simpl. rewrite length_fmap, length_app. simpl. lia. }
  assert ((1 <? n)%nat = true) as -> by (rewrite Hn; done).
  assert ((n =? 1)%nat = false) as -> by (rewrite Hn; done).
  replace (n - 2)%nat with (length mid) by lia. replace (n - 1)%nat with (S (length mid)) by lia.
  assert (byte_at (fst <$> (mid ++ [(s, d)])) (length mid) = s) as ->.
  { unfold byte_at. rewrite fmap_app, lookup_app_r, length_fmap, Nat.sub_diag by (rewrite length_fmap; lia).
    done. }
  change (drop 1 (g :: ?x)) with x.
  assert (take (length mid) (snd <$> (mid ++ [(s, d)])) = snd <$> mid) as Ht.
  { rewrite fmap_app. apply take_app_length'. by rewrite length_fmap. }
  rewrite Ht. cbn [take]. rewrite Ht.
  assert ((g :: (snd <$> (mid ++ [(s, d)]))) !! S (length mid) = Some d) as ->.
  { rewrite lookup_cons. rewrite fmap_app, lookup_app_r, length_fmap, Nat.sub_diag by (rewrite length_fmap; lia). done. }
  rewrite !Join_nil. cbn [mjoin list_join]. rewrite !glue_join.
  unfold print_numeral. cbn [n_neg n_int n_frac]. rewrite app_nil_r.
  reflexivity.
Qed.

Lemma numberForms_spec t f : token_wf t →
  f ∈ numberForms (print_token t) ↔
  (∃ n, reading t n ∧ f = canonicalNumber (print_numeral n)) ∨
  ((¬ ∃ n, reading t n) ∧ f = print_token t).
Proof.
  intros Hwf. destruct t as [neg g rest]. destruct rest as [|[s d] mid _] using rev_ind.
  - destruct Hwf as (Hd & Hne & _). rewrite numberForms_plain, list_elem_of_singleton by done. split.
    + intros ->. left. eauto.
    + intros [(n & Hn & ->)|[Hn _]]; [|by destruct Hn; eauto].
      by apply reading_nil in Hn as ->.
  - rewrite numberForms_snoc by done. setoid_rewrite reading_snoc.
    set (N1 := Num neg (g ++ glue (mid ++ [(s, d)])) None). set (N2 := Num neg (g ++ glue mid) (Some d)).
    assert (∀ A B C : Prop,
      (∃ n, (A ∧ n = N1 ∨ B ∧ C ∧ n = N2) ∧ f = canonicalNumber (print_numeral n)) ↔
      (A ∧ f = canonicalNumber (print_numeral N1)) ∨
      (B ∧ C ∧ f = canonicalNumber (print_numeral N2))) as -> by naive_solver.
    assert (∀ A B C : Prop, (∃ n, A ∧ n = N1 ∨ B ∧ C ∧ n = N2) ↔ A ∨ (B ∧ C)) as -> by naive_solver.
    rewrite <- !allThreeDigit_spec.
    generalize (print_token (Tok neg g (mid ++ [(s, d)]))) as lit0.
    generalize (canonicalNumber (print_numeral N1)), (canonicalNumber (print_numeral N2)).
    intros c1 c2 l. destruct (allThreeDigit (snd <$> (mid ++ _))), (allThreeDigit (snd <$> mid)),
      (Z.eqb_spec s 32); cbn [negb andb app]; set_solver.
Qed.

(** ** Sharing a form *)
(** Two tokens stand for the same number: some readings of them have the same value; a token with
    no reading, a version or an identifier, only agrees with itself. *)
Definition same_number (t u : token) : Prop :=
  (∃ n m, reading t n ∧ reading u m ∧ same_value n m) ∨ (t = u ∧ ¬ ∃ n, reading t n).

Definition seps (s : gostring) : gostring := filter (λ c, is_sep c = true) s.
Lemma seps_digits s : digits s → seps s = [].
Proof.
  induction 1 as [|c s Hc%is_sep_digit _ IH]; [done|]. unfold seps in *.
  rewrite filter_cons_False by congruence. done.
Qed.
Lemma seps_sign (b : bool) s : seps ((if b then [45] else []) ++ s) = seps s.
Proof. by destruct b. Qed.
Lemma seps_app a b : seps (a ++ b) = seps a ++ seps b.
Proof. apply filter_app. Qed.
Lemma seps_numeral n : numeral_wf n → seps (print_numeral n) = [] ∨ seps (print_numeral n) = [46].
Proof.
  intros [Hi Hf]. unfold print_numeral. rewrite seps_sign, seps_app, (seps_digits (n_int n)) by done.
  destruct (n_frac n) as [f|]; [|by left]. right. change (46 :: f) with ([46] ++ f).
  by rewrite seps_app, (seps_digits f).
Qed.
Lemma seps_groups rest : Forall group_wf rest → seps (print_groups rest) = fst <$> rest.
Proof.
  induction 1 as [|[c d] rest (Hc & Hd & _) _ IH]; [done|]. cbn [fst snd] in Hc, Hd.
  change (print_groups ((c, d) :: rest)) with ([c] ++ d ++ print_groups rest).
  rewrite !seps_app, (seps_digits d), IH by done. unfold seps at 1.
  by rewrite filter_cons_True.
Qed.
Lemma literal_not_canonical t m : token_wf t → (¬ ∃ n, reading t n) → numeral_wf m →
  print_token t ≠ canonicalNumber (print_numeral m).
Proof.
  intros (Hd & _ & Hr) Hn Hm E. rewrite canonicalNumber_print in E by done.
  destruct t as [neg g rest]. apply (f_equal seps) in E. unfold print_token, print_body in E.
  cbn [t_neg t_first t_rest] in *.
  rewrite seps_sign, seps_app, seps_digits, seps_groups in E by done. cbn [app] in E.
  apply Hn. destruct (seps_numeral (canon m)) as [K|K]; [apply ca_wf, canon_canonical; done|..];
    rewrite K in E.
  - destruct rest; [eauto|done].
  - destruct rest as [|[s d] [|]]; simplify_eq/=.
    eexists. by apply (read_decimal neg g [] 46 d).
Qed.

Lemma shared_form t u : token_wf t → token_wf u →
  (∃ f, f ∈ numberForms (print_token t) ∧ f ∈ numberForms (print_token u)) ↔ same_number t u.
Proof.
  intros Ht Hu. setoid_rewrite numberForms_spec; [|done..]. unfold same_number. split.
  - intros (f & [(n & Hn & ->)|[Hn ->]] & [(m & Hm & E)|[Hm E]]).
    + left. exists n, m. split_and!; [done..|].
      apply canonical_inj_value in E; eauto using reading_wf.
    + exfalso. by eapply literal_not_canonical; [| |eapply (reading_wf t n)|symmetry].
    + exfalso. by eapply (literal_not_canonical t m); [| |eapply (reading_wf u m)|].
    + right. split; [by apply print_token_inj|done].
  - intros [(n & m & Hn & Hm & Hv)|[-> Hn]].
    + exists (canonicalNumber (print_numeral n)). split; [left; eauto|]. left. exists m.
      split; [done|]. apply canonical_inj_value; eauto using reading_wf.
    + exists (print_token u). split; right; done.
Qed.
