(* ===== verification/FactVerifySpec.v ===== *)
(** What fact verification shows: the number rule compares values, a verified fact is supported
    by the text of a source it cites, every fact of an answer is kept and counted, and the limits
    of the number rule. *)
From S2P Require Import Prelude Unicode Utf8 GoStrings GoUrl Regex Json Effects Results Floats SearchEngines FactVerify FactNumbers FactTokens.
Local Open Scope Z_scope.

Section Spec.
Variable nfc : gostring → gostring.
Notation normalize := (normalizeFactText nfc).

(** C17: the number rule compares values: the numbers of the point are covered exactly when each of
    them stands for the same number as one of the quote: some readings have the same value (an
    integer, grouped thousands, a decimal), and versions and identifiers agree literally. *)
Theorem factNumbersCovered_spec point quote :
  factNumbersCovered nfc point quote = true ↔
  ∀ t, number_in (normalize point) t → ∃ u, number_in (normalize quote) u ∧ same_number t u.
Proof.
  unfold factNumbersCovered. set (P := normalize point). set (Q := normalize quote).
  case_decide as E.
  { split; [|done]. intros _ t [Ht _]. rewrite E in Ht. set_solver. }
  rewrite forallb_forall. setoid_rewrite existsb_exists. setoid_rewrite bool_decide_eq_true. split.
  - intros Hall t Ht. destruct (Hall (print_token t)) as (f & Hf & Hq).
    { apply list_elem_of_In, Ht. }
    apply list_elem_of_bind in Hq as (x & Hq & (u & -> & Hu)%tokens_wf). exists u. split; [done|].
    apply shared_form; [apply Ht|apply Hu|]. exists f. by rewrite list_elem_of_In.
  - intros Hall x (t & -> & Ht)%list_elem_of_In%tokens_wf. destruct (Hall t Ht) as (u & Hu & Hs).
    apply shared_form in Hs as (f & Hf & Hg); [|apply Ht|apply Hu]. exists f.
    split; [by apply list_elem_of_In|]. apply list_elem_of_bind. exists (print_token u).
    split; [done|apply Hu].
Qed.

(** ** One fact *)
(** The source an index stands for, and the text it is searched in. *)
Definition cited_text (results : list Result) (contents : gmap gostring gostring) (idx : Z)
    : option gostring :=
  if decide (1 <= idx) then
    r ← results !! Z.to_nat (idx - 1);
    if decide (source_text contents r = []) then None
    else Some (normalize (source_text contents r))
  else None.
Lemma build_haystacks_lookup results contents idx :
  build_haystacks nfc results contents !! idx = cited_text results contents idx.
Proof.
  unfold build_haystacks, cited_text.
  assert (∀ (l : list Result) k (m : gmap Z gostring), 0 <= k →
    foldl (λ m p, let '(i, r) := p in
             if decide (source_text contents r = []) then m
             else <[i + 1 := normalize (source_text contents r)]> m) m
      (imap (λ i r, (Z.of_nat i + k, r)) l) !! idx =
    match (if decide (k + 1 <= idx) then
             r ← l !! Z.to_nat (idx - 1 - k);
             if decide (source_text contents r = []) then None
             else Some (normalize (source_text contents r))
           else None) with Some x => Some x | None => m !! idx end) as Hgen.
  { induction l as [|r l IH]; intros k m Hk; cbn [imap foldl].
    { by case_decide. }
    rewrite (imap_ext _ (λ i r, (Z.of_nat i + (k + 1), r))) by (intros; simpl; f_equal; lia).
    rewrite IH by lia. destruct (decide (idx = k + 1)) as [->|Hne].
    - rewrite (decide_False (P := k + 1 + 1 <= k + 1)), (decide_True (P := k + 1 <= k + 1)) by lia.
      replace (Z.to_nat (k + 1 - 1 - k)) with 0%nat by lia. simpl.
      case_decide; [done|]. by rewrite lookup_insert_eq.
    - destruct (decide (k + 1 <= idx)).
      + rewrite decide_True by lia.
        replace (Z.to_nat (idx - 1 - k)) with (S (Z.to_nat (idx - 1 - (k + 1)))) by lia.
        rewrite lookup_cons. cbv iota. destruct (l !! _ ≫= _); [done|]. case_decide; [done|].
        by rewrite lookup_insert_ne by lia.
      + rewrite decide_False by lia. case_decide; [done|]. by rewrite lookup_insert_ne by lia. }
  specialize (Hgen results 0 ∅ ltac:(lia)).
  rewrite (imap_ext _ (λ i r, (Z.of_nat i + 0, r))) by (intros; f_equal; lia).
  rewrite Hgen, lookup_empty, Z.sub_0_r. change (0 + 1) with 1.
  clear Hgen. by repeat case_match.
Qed.

(** What it takes to support a fact. *)
Record supported (results : list Result) (contents : gmap gostring gostring) (f : FactItem)
    : Prop := {
  sup_quote : TrimSpace (Quote f) ≠ [];
  sup_length : minFactQuoteLen <= RuneCount (normalize (Quote f));
  sup_source : ∃ idx text, idx ∈ Sources f ∧ cited_text results contents idx = Some text ∧
                 Contains text (normalize (Quote f)) = true;
  sup_numbers : factNumbersCovered nfc (Point f) (Quote f) = true
}.
Definition hold_reasons : list gostring :=
  [HeldNoQuote; HeldBadSourceIndex; HeldQuoteTooShort; HeldQuoteNotInSource; HeldNumberNotInQuote].

Lemma cited_text_range results contents idx text :
  cited_text results contents idx = Some text → 1 <= idx <= zlen results.
Proof.
  unfold cited_text. case_decide; [|done]. destruct (results !! _) eqn:E; [|done].
  apply lookup_lt_Some in E. unfold zlen. intros _. lia.
Qed.
Lemma verifyFact_verdict results contents f :
  let v := verifyFact nfc f (zlen results) (build_haystacks nfc results contents) in
  (supported results contents f ∧ v = (FactStatusVerified, [])) ∨
  (¬ supported results contents f ∧ v.1 = FactStatusHeld ∧ v.2 ∈ hold_reasons).
Proof.
  unfold verifyFact, hold_reasons. cbv zeta. case_decide as Eq.
  { right. split; [by intros []|set_solver]. }
  destruct (existsb _ (Sources f)) eqn:Ei; cbn [negb].
  2: { right. split; [|set_solver]. intros [_ _ (idx & text & Hi & Hc & _) _].
       apply cited_text_range in Hc. rewrite <- not_true_iff_false, existsb_exists in Ei.
       apply Ei. exists idx. rewrite <- list_elem_of_In, andb_true_iff, !Z.leb_le. done. }
  destruct (Z.ltb_spec (RuneCount (normalize (Quote f))) minFactQuoteLen) as [Hl|Hl].
  { right. split; [intros []; lia|set_solver]. }
  match goal with |- context [existsb ?g (Sources f)] => destruct (existsb g (Sources f)) eqn:Es end;
    cbn [negb].
  2: { right. split; [|set_solver]. intros [_ _ (idx & text & Hi & Hc & Ht) _].
       rewrite <- not_true_iff_false, existsb_exists in Es. apply Es. exists idx.
       split; [by apply list_elem_of_In|]. cbv beta. by rewrite build_haystacks_lookup, Hc. }
  destruct (factNumbersCovered _ _ _) eqn:En; cbn [negb].
  - left. split; [|done]. split; [done..| |done].
    apply existsb_exists in Es as (idx & Hi%list_elem_of_In & Ht).
    rewrite build_haystacks_lookup in Ht. destruct (cited_text _ _ _) as [text|] eqn:Ec; [|done].
    eauto.
  - right. split; [intros []; congruence|set_solver].
Qed.

(** ** The facts of an answer *)
Section Facts.
Context {W : Type} `{Metrics W}.
Variable reg : bool.
Variables (results : list Result) (contents : gmap gostring gostring).

(** What becomes of a fact, and how it is counted. *)
Definition judged (f g : FactItem) : Prop :=
  Point g = Point f ∧ Sources g = Sources f ∧ Quote g = Quote f ∧
  ((supported results contents f ∧ Status g = FactStatusVerified ∧ HeldReason g = []) ∨
   (¬ supported results contents f ∧ Status g = FactStatusHeld ∧ HeldReason g ∈ hold_reasons)).
Definition count_fact (w : W) (g : FactItem) : W :=
  if decide (Status g = FactStatusVerified) then Incr (lit "llm_facts_verified_total") [] w
  else Incr (lit "llm_facts_held_total") [(lit "reason", HeldReason g)] w.

Lemma verify_one_run n hs f w :
  verify_one nfc reg n hs f w =
  (annotate f (verifyFact nfc f n hs),
   if reg then count_fact w (annotate f (verifyFact nfc f n hs)) else w).
Proof.
  unfold verify_one, count_fact. cbn [Status HeldReason annotate].
  destruct (decide ((verifyFact nfc f n hs).1 = FactStatusVerified)), reg; reflexivity.
Qed.
Lemma verify_all facts w : ∃ out,
  traverse (verify_one nfc reg (zlen results) (build_haystacks nfc results contents)) facts w =
    (out, if reg then foldl count_fact w out else w) ∧ Forall2 judged facts out.
Proof.
  revert w. induction facts as [|f facts IH]; intros w.
  { exists []. split; [by destruct reg|constructor]. }
  set (v := verifyFact nfc f (zlen results) (build_haystacks nfc results contents)).
  destruct (IH (if reg then count_fact w (annotate f v) else w)) as (out & E & Hout).
  exists (annotate f v :: out). split.
  - cbn [traverse]. rewrite (bind_eq _ _ _ _ _ (verify_one_run _ _ f w)). fold v.
    rewrite (bind_eq _ _ _ _ _ E). by destruct reg.
  - constructor; [|done]. unfold judged. cbn.
    destruct (verifyFact_verdict results contents f) as [[Hs Hv]|(Hs & Hv)]; fold v in Hv.
    + rewrite Hv. auto 10.
    + auto 10.
Qed.

(** C16: an answer keeps every fact it states, in order, with its point, its sources and its quote:
    a fact is marked verified exactly when its quote is long enough, occurs in the text of a source
    it cites and covers the numbers of its point, and is held with a reason otherwise; each is
    counted once. An answer that does not parse has no facts and is never empty unless the
    model's text was. *)
Theorem parseStructuredOutput_spec raw w :
  let '(out, w') := parseStructuredOutput nfc reg raw results contents w in
  match Unmarshal zero_StructuredOutput dec_StructuredOutput raw with
  | Some o => Answer out = Answer o ∧ Forall2 judged (Facts o) (Facts out) ∧
              w' = if reg then foldl count_fact w (Facts out) else w
  | None => Facts out = [] ∧ w' = w ∧ (raw ≠ [] → Answer out ≠ [])
  end.
Proof.
  unfold parseStructuredOutput. destruct (Unmarshal _ _ raw) as [o|].
  - unfold verifyFacts. case_decide as E.
    + cbn. rewrite E. split; [done|]. split; [constructor|by destruct reg].
    + destruct (verify_all (Facts o) w) as (out & K & Hout). by rewrite (bind_eq _ _ _ _ _ K).
  - cbn. split_and!; [done..|]. intros Hr. by case_decide.
Qed.
End Facts.

(** ** The reach of the number rule *)
(** Every digit is followed by a word character: the numbers carry a suffix (1990s, 500mg). *)
Definition suffixed (s : gostring) : Prop :=
  ∀ a c b, s = a ++ c :: b → digit_byte c = true → is_word (head b) = true.

Lemma digit_word c : digit_byte c = true → word_byte c = true.
Proof. unfold word_byte, digit_byte. by intros ->. Qed.
Lemma mark_not_word c : (c =? 46) || (c =? 44) = true → word_byte c = false.
Proof. intros [->%Z.eqb_eq| ->%Z.eqb_eq]%orb_true_iff; done. Qed.
Lemma matches_digits p s p' s' : matches (RPlus re_digit) p s p' s' →
  ∃ d a, s = a ++ d :: s' ∧ p' = Some d ∧ digit_byte d = true.
Proof.
  inversion 1 as [|? ? ? ? p1 s1 ? ? H1 H2| | | | |]; subst. inversion H1; subst. clear H H1.
  remember (RStar re_digit) as r eqn:E. remember (Some c) as q eqn:Eq.
  assert (digit_byte c = true) as Hc by done. clear H3. revert c Eq Hc.
  induction H2 as [| | |a ? t ? t1 ? t2 Ha _ Hs IH| | |]; intros d Eq Hd; simplify_eq.
  - by exists d, [].
  - inversion Ha; subst. destruct (IH eq_refl c eq_refl ltac:(done)) as (x & k & -> & -> & Hx).
    by exists x, (d :: k).
Qed.
Lemma suffixed_no_match s a b p : suffixed s → s = a ++ b → match_at factNumberRe p b = None.
Proof.
  intros Hs ->. destruct (match_at factNumberRe p b) as [rest|] eqn:E; [|done]. exfalso.
  apply match_at_matches in E as [p' Hm]. unfold factNumberRe in Hm.
  apply matches_seq_inv in Hm as (p1 & s1 & (d & x & -> & -> & Hd)%matches_digits & Hm).
  assert (is_word (head s1) = true) as Hw.
  { apply (Hs (a ++ x) d); [by rewrite <- app_assoc|done]. }
  apply matches_seq_inv in Hm as (p2 & s2 & [[-> ->]|(q & s3 & Hg & _)]%matches_star_inv & Hm).
  2: { apply matches_seq_inv in Hg as (? & ? & (c & -> & _ & Hc)%matches_class_inv & _).
       simpl in Hw. by rewrite mark_not_word in Hw. }
  apply matches_seq_inv in Hm as (p3 & s3 & (_ & _ & Hx)%matches_wordb_inv & _).
  simpl in Hx. by rewrite digit_word, Hw in Hx.
Qed.

(** a number directly followed by a letter is invisible to the number rule: when every digit of
    the (normalized) point is followed by a word character, as in a decade or a dose, the point
    has no number tokens and any quote covers it. *)
Theorem suffixed_numbers_unchecked point quote :
  suffixed (normalize point) →
  factNumberTokens (normalize point) = [] ∧ factNumbersCovered nfc point quote = true.
Proof.
  intros Hs. assert (factNumberTokens (normalize point) = []) as E.
  { unfold factNumberTokens. rewrite FindAll_nil; [done|].
    intros a b p E. by eapply suffixed_no_match. }
  split; [done|]. unfold factNumbersCovered. by rewrite E.
Qed.
End Spec.

(** ** Digits of other scripts *)
Definition digit_runes : list rune := digit_ranges ≫= λ p, seqZ p.1 (p.2 - p.1 + 1).
Lemma IsDigit_runes r : IsDigit r = true ↔ r ∈ digit_runes.
Proof.
  unfold IsDigit, in_ranges, digit_runes. rewrite existsb_exists, list_elem_of_bind. split.
  - intros (p & Hp%list_elem_of_In & Hr). exists p. split; [|done]. apply elem_of_seqZ. zbool. lia.
  - intros (p & Hr%elem_of_seqZ & Hp). exists p. split; [by apply list_elem_of_In|].
    apply andb_true_iff. rewrite !Z.leb_le. lia.
Qed.
(** normalization leaves only ASCII digits: the digit of any script becomes the ASCII digit of
    its value, which is zero at the start of a run of digits and counts up from there; the loop
    that finds the value stops at the start of the run. *)
Theorem normalized_digits r :
  IsDigit r = true →
  IsDigit (r - nd_count 64 r 0 - 1) = false ∧
  48 <= factNormalizeRune r <= 57 ∧
  (IsDigit (r - 1) = false → factNormalizeRune r = 48) ∧
  (IsDigit (r - 1) = true →
   factNormalizeRune r = 48 + (factNormalizeRune (r - 1) - 48 + 1) mod 10).
Proof.
  intros Hr%IsDigit_runes. revert r Hr. apply Forall_forall.
  apply (bool_decide_unpack (Forall _ _)). vm_compute. exact I.
Qed.

(** ** Witnesses *)
Lemma suffixed_numbers_unchecked_witness :
  normalizeFactText id (lit "Sales peaked in the 1990s.") = lit "sales peaked in the 1990s." ∧
  factNumbersCovered id (lit "Sales peaked in the 1990s.") (lit "sales peaked in the 1980s") = true.
Proof.
  assert (normalizeFactText id (lit "Sales peaked in the 1990s.") = lit "sales peaked in the 1990s.")
    as E by (vm_compute; reflexivity).
  split; [exact E|]. apply suffixed_numbers_unchecked. rewrite E.
  intros a c b Hs Hc.
  assert (∀ n, (n < 27)%nat → digit_byte (byte_at (lit "sales peaked in the 1990s.") n) = true →
    is_word (head (drop (S n) (lit "sales peaked in the 1990s."))) = true) as Hall.
  { intros n Hn. do 27 (destruct n as [|n]; [vm_compute; congruence|]). lia. }
  assert (length a < 27)%nat as Hl.
  { apply (f_equal length) in Hs. rewrite length_app in Hs. simpl in Hs. lia. }
  specialize (Hall (length a) Hl). rewrite Hs in Hall. unfold byte_at in Hall.
  rewrite lookup_app_r, Nat.sub_diag in Hall by lia.
  replace (S (length a)) with (length (a ++ [c])) in Hall by (rewrite length_app; simpl; lia).
  change (a ++ c :: b) with (a ++ [c] ++ b) in Hall. rewrite app_assoc, drop_app_length in Hall.
  by apply Hall.
Defined.
Lemma normalized_digits_witness : IsDigit 1635 = true ∧ 48 <= factNormalizeRune 1635 <= 57.
Proof. split; [reflexivity|]. by apply (normalized_digits 1635). Defined.
