(* ===== verification/Llm.v ===== *)
(** Package [llm]: the client ([client.go], [optional.go], [multimodal.go]), query rewriting
    ([query.go]) and summarization ([summarize.go]). The transport of go-kit/llm is a record of
    operations; a prompt template is a function of its arguments, since the templates are
    variables that a consumer may replace. *)
From S2P Require Import Prelude Unicode Utf8 GoStrings Floats Json Effects GoTime Results Retry SearchEngines TextTools FactVerify.
Local Open Scope Z_scope.

Definition ErrUnavailable : error := ErrVar (lit "llm: unavailable").

(** Per-call options, re-exported from the kit. *)
Inductive ChatOption :=
| WithChatModel (model : gostring)
| WithChatTemperature (t : float)
| WithChatMaxTokens (n : Z)
| WithReasoningEffort (effort : gostring).
Record ImagePart := { ip_URL : gostring; ip_MIMEType : gostring }.
Record Prompts := {
  RewriteQueryPrompt : gostring → gostring;
  PromptBase : gostring → gostring → gostring → gostring → gostring;
  PromptDeep : gostring → gostring → gostring → gostring → gostring;
  ExpandWebQueryPrompt : gostring → gostring → gostring → gostring;
  ExpandQueryPrompt : gostring → gostring → gostring → gostring
}.

(** [stripFences]. *)
Definition fence : gostring := [96; 96; 96].
Definition stripFences (s : gostring) : gostring :=
  let s := TrimPrefix s (fence ++ lit "json") in
  let s := TrimPrefix s fence in
  let s := TrimSuffix s fence in
  TrimSpace s.

(** ** Configuration *)
Section Config.
Context {W Callback Endpoint Kit : Type}.
Record config := {
  apiBase : gostring; apiKey : gostring; proxyURLs : list gostring; proxyKeys : list gostring;
  fallbacks : list gostring; model : gostring; modelChain : list gostring;
  chainObserver : option Callback; filterObserver : option Callback;
  cooldownObserver : option Callback;
  cooldownDuration : Z; perAttemptTimeout : Z;
  c_temperature : float; c_maxTokens : Z; c_metrics : bool;
  reasoningEffortModels : list gostring
}.
Definition defaultTemperature : float := flit 3 1.
Definition defaultMaxTokens : Z := 2000.
Definition default_config : config :=
  {| apiBase := []; apiKey := []; proxyURLs := []; proxyKeys := []; fallbacks := []; model := [];
     modelChain := []; chainObserver := None; filterObserver := None; cooldownObserver := None;
     cooldownDuration := 0; perAttemptTimeout := 0; c_temperature := defaultTemperature;
     c_maxTokens := defaultMaxTokens; c_metrics := false; reasoningEffortModels := [] |}.
(** An [Option] changes a configuration. *)
Definition Option_ : Type := config → config.
Definition applied (opts : list Option_) : config := foldl (λ c o, o c) default_config opts.

(** [LLM_COOLDOWN_SECONDS] is an argument, empty when it is not set. *)
Definition defaultCooldownDuration : Z := 5 * Minute.
Definition resolveCooldownDuration (env : gostring) (explicit : Z) : Z :=
  if 0 <? explicit then explicit else
  match (if decide (env = []) then None else Atoi env) with
  | Some n => if 0 <? n then wrap64 (n * Second) else defaultCooldownDuration
  | None => defaultCooldownDuration
  end.

Definition buildProxySpecs (urls keys : list gostring) (primaryKey : gostring)
    : list (gostring * gostring) :=
  imap (λ i u, (u, match keys !! i with
                   | Some k => if decide (k = []) then primaryKey else k
                   | None => primaryKey
                   end)) urls.

(** What the kit's client is built with. *)
Inductive KitOption :=
| WithEndpoints (eps : list Endpoint)
| WithModelCooldown (Default : Z)
| WithModelCooldownObserver (f : Callback)
| WithEndpointAttemptObserver (f : Callback)
| WithPerAttemptTimeout (d : Z)
| WithFallbackKeys (keys : list gostring)
| WithReasoningEffortModels (models : list gostring).
Definition given {A B} (o : option A) (f : A → B) : list B :=
  match o with Some a => [f a] | None => [] end.
(** The options both chain modes add. *)
Definition chain_options (env : gostring) (cfg : config) (eps : list Endpoint) : list KitOption :=
  [WithEndpoints eps; WithModelCooldown (resolveCooldownDuration env (cooldownDuration cfg))] ++
  given (cooldownObserver cfg) WithModelCooldownObserver ++
  given (chainObserver cfg) WithEndpointAttemptObserver ++
  (if 0 <? perAttemptTimeout cfg then [WithPerAttemptTimeout (perAttemptTimeout cfg)] else []).

(** The endpoint builders of the kit, which ask the service for its models, and its client. *)
Variable BuildMultiProxyEndpointsFiltered :
  list (gostring * gostring) → gostring → list gostring → option Callback → M W (list Endpoint).
Variable BuildModelChainEndpointsFiltered :
  gostring → gostring → gostring → list gostring → option Callback → M W (list Endpoint).
Variable NewKit : gostring → gostring → gostring → list KitOption → Kit.
Record Client := {
  kit : option Kit; temperature : float; maxTokens : Z; metrics : bool; disabled : bool;
  primaryModel : gostring
}.

(** The options of the mode: several proxies or one endpoint under a chain of models, or the
    keys of the single-model mode. *)
Definition mode_options (env : gostring) (cfg : config) : M W (list KitOption) :=
  if decide (modelChain cfg ≠ []) then
    if 1 <? zlen (proxyURLs cfg) then
      eps ← BuildMultiProxyEndpointsFiltered
              (buildProxySpecs (proxyURLs cfg) (proxyKeys cfg) (apiKey cfg))
              (model cfg) (modelChain cfg) (filterObserver cfg);
      mret (chain_options env cfg eps)
    else
      eps ← BuildModelChainEndpointsFiltered (apiBase cfg) (apiKey cfg) (model cfg)
              (modelChain cfg) (filterObserver cfg);
      mret (chain_options env cfg eps)
  else mret (if decide (fallbacks cfg ≠ []) then [WithFallbackKeys (fallbacks cfg)] else []).
Definition effort_options (cfg : config) : list KitOption :=
  if decide (reasoningEffortModels cfg ≠ [])
  then [WithReasoningEffortModels (reasoningEffortModels cfg)] else [].
Definition kit_options (env : gostring) (cfg : config) : M W (list KitOption) :=
  base ← mode_options env cfg; mret (base ++ effort_options cfg).
Definition New (env : gostring) (opts : list Option_) : M W Client :=
  let cfg := applied opts in
  kitOpts ← kit_options env cfg;
  mret {| kit := Some (NewKit (apiBase cfg) (apiKey cfg) (model cfg) kitOpts);
          temperature := c_temperature cfg; maxTokens := c_maxTokens cfg;
          metrics := c_metrics cfg; disabled := false; primaryModel := model cfg |}.
Definition NewOptional (env : gostring) (opts : list Option_) : M W (Client * bool) :=
  let cfg := applied opts in
  if decide (apiKey cfg = []) then
    mret ({| kit := None; temperature := c_temperature cfg; maxTokens := c_maxTokens cfg;
             metrics := c_metrics cfg; disabled := true; primaryModel := [] |}, false)
  else c ← New env opts; mret (c, true).
End Config.
Arguments config : clear implicits.
Arguments KitOption : clear implicits.
Arguments Client : clear implicits.

(** ** Calls *)
(** The transport: one chat request, with the system message (empty for none). *)
Class LLMKit (Kit W : Type) := {
  kit_Complete : Kit → ctx → gostring → gostring → list ChatOption → M W (result gostring);
  kit_CompleteMultimodal : Kit → ctx → gostring → list ImagePart → M W (result gostring)
}.
Section Client.
Context {Kit W : Type} `{Clock W} `{Metrics W} `{LLMKit Kit W}.
Implicit Types c : Client Kit.

(** [metrics.TrackCall], which accepts a nil registry. *)
Definition TrackCall (reg : bool) (callName errName : gostring) (fn : M W (result gostring))
    : M W (result gostring) :=
  when reg (Incr callName []);;
  r ← fn;
  (match r with Err _ => when reg (Incr errName []) | Val _ => mret () end);;
  mret r.
Definition stripped (r : result gostring) : result gostring :=
  match r with Val raw => Val (stripFences raw) | Err e => Err e end.
(** A client is disabled exactly when it has no kit, as [New] and [NewOptional] build it. *)
Definition with_kit c (f : Kit → M W (result gostring)) : M W (result gostring) :=
  match disabled c, kit c with
  | false, Some k =>
      r ← TrackCall (metrics c) (lit "llm_calls_total") (lit "llm_errors_total") (f k);
      mret (stripped r)
  | _, _ => mret (Err ErrUnavailable)
  end.
Definition CompleteParams c (cx : ctx) (prompt : gostring) (temp : float) (maxTok : Z)
    (opts : list ChatOption) : M W (result gostring) :=
  with_kit c (λ k, kit_Complete k cx [] prompt
                     ([WithChatTemperature temp; WithChatMaxTokens maxTok] ++ opts)).
Definition Complete c (cx : ctx) (prompt : gostring) (opts : list ChatOption)
    : M W (result gostring) :=
  if disabled c then mret (Err ErrUnavailable)
  else CompleteParams c cx prompt (temperature c) (maxTokens c) opts.
Definition CompleteWithSystem c (cx : ctx) (system prompt : gostring) (opts : list ChatOption)
    : M W (result gostring) :=
  with_kit c (λ k, kit_Complete k cx system prompt
                     ([WithChatTemperature (temperature c); WithChatMaxTokens (maxTokens c)] ++ opts)).
Definition CompleteMultimodal c (cx : ctx) (prompt : gostring) (images : list ImagePart)
    : M W (result gostring) :=
  with_kit c (λ k, kit_CompleteMultimodal k cx prompt images).

(** ** Queries *)
Variable pr : Prompts.
Definition rewriteQueryMaxLen : Z := 200.
Definition no_reasoning : list ChatOption := [WithReasoningEffort (lit "none")].
Definition RewriteQuery c (cx : ctx) (query : gostring) : M W gostring :=
  r ← CompleteParams c cx (RewriteQueryPrompt pr query) (flit 3 1) 100 no_reasoning;
  match r with
  | Err _ => mret query
  | Val raw =>
      if decide (TrimSpace raw = []) then mret query else
      let rewritten := TrimSpace raw in
      if (rewriteQueryMaxLen <? zlen rewritten) || Contains rewritten [10] then mret query
      else mret rewritten
  end.
(** The two expansions differ in the prompt and the text of the error. *)
Definition expand (what : gostring) (prompt : gostring → gostring → gostring → gostring) c
    (cx : ctx) (query : gostring) (n : Z) : M W (outcome (result (list gostring))) :=
  r ← CompleteParams c cx (prompt (Itoa n) query (Itoa n)) (flit 7 1) 250 no_reasoning;
  match r with
  | Err e => mret (Ok (Err e))
  | Val raw =>
      match Unmarshal [] (dec_list [] dec_string) raw with
      | None => mret (Ok (Err (Wrapped (what ++ lit ": parse failed") (ErrMsg []))))
      | Some variants =>
          mret (if n <? zlen variants then
                  let* vs := slice variants 0 n in Ok (Val vs)
                else Ok (Val variants))
      end
  end.
Definition ExpandWebSearchQueries := expand (lit "expand web") (ExpandWebQueryPrompt pr).
Definition ExpandSearchQueries := expand (lit "expand") (ExpandQueryPrompt pr).

(** ** Sources in a prompt *)
Definition source_header (i : nat) (r : Result) : gostring :=
  [10; 91] ++ Itoa (Z.of_nat i + 1) ++ lit "] " ++ r_Title r ++ [10] ++ lit "URL: " ++ r_URL r ++ [10].
Definition source_body (contents : gmap gostring gostring) (totalBudget : Z)
    (charsPerToken : float) (weight : option float) (r : Result) : outcome gostring :=
  let content := default [] (contents !! r_URL r) in
  match weight with
  | Some w =>
      if decide (content ≠ []) then
        let* content := TruncateToTokenBudget content (to_int (Ceil (fmul (of_int totalBudget) w))) charsPerToken in
        Ok (lit "Content: " ++ content ++ [10])
      else Ok (if decide (r_Content r = []) then [] else lit "Snippet: " ++ r_Content r ++ [10])
  | None => Ok (if decide (r_Content r = []) then [] else lit "Snippet: " ++ r_Content r ++ [10])
  end.
Fixpoint sources_loop (contents : gmap gostring gostring) (totalBudget : Z)
    (charsPerToken : float) (weights : list float) (i : nat) (results : list Result)
    (sb : gostring) : outcome gostring :=
  match results with
  | [] => Ok sb
  | r :: results =>
      let* body := source_body contents totalBudget charsPerToken (weights !! i) r in
      sources_loop contents totalBudget charsPerToken weights (S i) results
        (sb ++ source_header i r ++ body)
  end.
Definition BuildSourcesTextWeighted (results : list Result) (contents : gmap gostring gostring)
    (totalBudget : Z) (charsPerToken : float) (weights : list float) : outcome gostring :=
  sources_loop contents totalBudget charsPerToken weights 0 results [].
Definition rankedWeights : list float := [flit 30 2; flit 25 2; flit 20 2; flit 15 2; flit 10 2].
Definition BuildSourcesText (results : list Result) (contents : gmap gostring gostring)
    (totalBudget : Z) (charsPerToken : float) : outcome gostring :=
  BuildSourcesTextWeighted results contents totalBudget charsPerToken rankedWeights.

(** ** Summaries *)
Variables (nfc : gostring → gostring) (TypeInstructions : QueryType → gostring).
Definition currentDate : M W gostring :=
  gets (λ w, format_date (lit "-") (now w / (24 * Hour))).
Record SummarizeOpts := {
  so_Query : gostring; so_Instruction : gostring; so_TotalBudget : Z; so_CharsPerToken : float;
  so_MaxOutputTokens : Z; so_DisableReasoning : bool
}.
(** What every summary does with the reply. *)
Definition answered c (results : list Result) (contents : gmap gostring gostring)
    (call : M W (result gostring)) : M W (outcome (result StructuredOutput)) :=
  r ← call;
  match r with
  | Err e => mret (Ok (Err e))
  | Val raw =>
      out ← parseStructuredOutput nfc (metrics c) raw results contents; mret (Ok (Val out))
  end.
Definition with_sources {A} (srcs : outcome gostring) (k : gostring → M W (outcome A))
    : M W (outcome A) :=
  match srcs with Ok s => k s | Panic => mret Panic | OutOfFuel => mret OutOfFuel end.
Definition SummarizeWithInstruction c (cx : ctx) (query instruction : gostring) (maxTok : Z)
    (charsPerToken : float) results contents : M W (outcome (result StructuredOutput)) :=
  with_sources (BuildSourcesText results contents maxTok charsPerToken) (λ srcs,
    date ← currentDate;
    answered c results contents (Complete c cx (PromptBase pr date instruction query srcs) [])).
Definition Summarize c (cx : ctx) (query : gostring) (maxTok : Z) (charsPerToken : float)
    results contents : M W (outcome (result StructuredOutput)) :=
  SummarizeWithInstruction c cx query (TypeInstructions (DetectQueryType query)) maxTok
    charsPerToken results contents.
Definition deep_section (instruction : gostring) : gostring :=
  if decide (instruction = []) then [] else instruction ++ [10; 10].
Definition SummarizeDeep c (cx : ctx) (query instruction : gostring) (maxTok : Z)
    (charsPerToken : float) results contents : M W (outcome (result StructuredOutput)) :=
  with_sources (BuildSourcesText results contents maxTok charsPerToken) (λ srcs,
    date ← currentDate;
    answered c results contents
      (Complete c cx (PromptDeep pr date (deep_section instruction) query srcs) [])).
(** [SummarizeWithOpts], [SummarizeDeepWithOpts] and [SummarizeWithTier]: the prompt, the cap on the
    output and the options of the call. *)
Definition base_prompt (o : SummarizeOpts) (date srcs : gostring) : gostring :=
  PromptBase pr date
    (if decide (so_Instruction o = []) then TypeInstructions (DetectQueryType (so_Query o))
     else so_Instruction o) (so_Query o) srcs.
Definition deep_prompt (o : SummarizeOpts) (date srcs : gostring) : gostring :=
  PromptDeep pr date (deep_section (so_Instruction o)) (so_Query o) srcs.
Definition with_opts c (cx : ctx) (o : SummarizeOpts) results contents (srcs : outcome gostring)
    (prompt : gostring → gostring → gostring) (chatOpts : list ChatOption)
    : M W (outcome (result StructuredOutput)) :=
  with_sources srcs (λ srcs,
    date ← currentDate;
    let maxOut := if so_MaxOutputTokens o =? 0 then maxTokens c else so_MaxOutputTokens o in
    answered c results contents
      (CompleteParams c cx (prompt date srcs) (temperature c) maxOut
         ((if so_DisableReasoning o then no_reasoning else []) ++ chatOpts))).
Definition SummarizeWithOpts c cx (o : SummarizeOpts) results contents :=
  with_opts c cx o results contents
    (BuildSourcesText results contents (so_TotalBudget o) (so_CharsPerToken o)) (base_prompt o) [].
Definition SummarizeDeepWithOpts c cx (o : SummarizeOpts) results contents :=
  with_opts c cx o results contents
    (BuildSourcesText results contents (so_TotalBudget o) (so_CharsPerToken o)) (deep_prompt o) [].
Definition SummarizeWithTier c cx (o : SummarizeOpts) results contents (weights : list float)
    (useDeepPrompt : bool) (chatOpts : list ChatOption) :=
  with_opts c cx o results contents
    (BuildSourcesTextWeighted results contents (so_TotalBudget o) (so_CharsPerToken o) weights)
    (if useDeepPrompt then deep_prompt o else base_prompt o) chatOpts.
(** [SummarizeToJSON]: the parsed value, or the raw reply when it does not parse. *)
Definition SummarizeToJSON {T : Type} (zero : T) (dec_T : dec T) c cx (query instruction : gostring)
    (maxTok : Z) (charsPerToken : float) results contents
    : M W (outcome (result (option T * gostring))) :=
  with_sources (BuildSourcesText results contents maxTok charsPerToken) (λ srcs,
    r ← Complete c cx (instruction ++ [10; 10] ++ lit "Query: " ++ query ++ [10; 10] ++
                       lit "Sources:" ++ [10] ++ srcs) [];
    mret (Ok match r with
             | Err e => Err e
             | Val raw => match Unmarshal zero dec_T raw with
                          | Some v => Val (Some v, [])
                          | None => Val (None, raw)
                          end
             end)).
End Client.
