(* ===== verification/LlmSpec.v ===== *)
(** What the client of the language model promises: a rewritten query is safe to send on, an
    expansion is bounded, an unavailable client does nothing, a chain of models always has its
    cool-down, and the time of that cool-down is positive within bounds. *)
From S2P Require Import Prelude Unicode Utf8 GoStrings Floats Json Effects GoTime Results Retry SearchEngines TextTools FactVerify Llm.
Local Open Scope Z_scope.

(** ** Calls *)
Section Calls.
Context {Kit W : Type} `{Clock W} `{Metrics W} `{LLMKit Kit W}.
Implicit Types c : Client Kit.

Definition unavailable c : Prop := disabled c = true ∨ kit c = None.
(** The world after a call whose counters are on. *)
Definition counted (m : bool) (name : gostring) (w : W) : W := if m then Incr name [] w else w.
Lemma with_kit_unavailable c f w : unavailable c → with_kit c f w = (Err ErrUnavailable, w).
Proof. unfold with_kit. intros [-> | ->]; by destruct (disabled c). Qed.
Lemma with_kit_spec c f k w : disabled c = false → kit c = Some k →
  with_kit c f w =
  let '(r, w) := f k (counted (metrics c) (lit "llm_calls_total") w) in
  (stripped r, match r with Err _ => counted (metrics c) (lit "llm_errors_total") w | Val _ => w end).
Proof.
  intros Hd Hk. unfold with_kit, TrackCall, counted, when. rewrite Hd, Hk.
  unfold mbind, M_bind, mret, M_ret, modify.
  destruct (metrics c); simpl; by destruct (f k _) as [[a|e] w'].
Qed.

(** an unavailable client answers every kind of call with the sentinel and does nothing else;
    a rewrite then gives the query back. *)
Theorem unavailable_silent c (pr : Prompts) cx prompt query system images opts n w :
  unavailable c →
  Complete c cx prompt opts w = (Err ErrUnavailable, w) ∧
  CompleteWithSystem c cx system prompt opts w = (Err ErrUnavailable, w) ∧
  CompleteMultimodal c cx prompt images w = (Err ErrUnavailable, w) ∧
  RewriteQuery pr c cx query w = (query, w) ∧
  ExpandWebSearchQueries pr c cx query n w = (Ok (Err ErrUnavailable), w) ∧
  ExpandSearchQueries pr c cx query n w = (Ok (Err ErrUnavailable), w).
Proof.
  intros Hu. unfold Complete, CompleteWithSystem, CompleteMultimodal, RewriteQuery,
    ExpandWebSearchQueries, ExpandSearchQueries, expand, CompleteParams.
  split_and!; try (by apply with_kit_unavailable);
    try (by erewrite bind_eq by by apply with_kit_unavailable).
  destruct (disabled c) eqn:Hd; [done|]. by apply with_kit_unavailable.
Qed.

(** a rewritten query is the query itself, or what the model answered, without fences and
    surrounding space, when that is one non-empty line of at most 200 bytes. *)
Theorem RewriteQuery_safe c (pr : Prompts) cx query w :
  let '(reply, w') := CompleteParams c cx (RewriteQueryPrompt pr query) (flit 3 1) 100
                        [WithReasoningEffort (lit "none")] w in
  let '(q, w'') := RewriteQuery pr c cx query w in
  w'' = w' ∧
  (q = query ∨
   ∃ raw, reply = Val raw ∧ q = TrimSpace raw ∧ q ≠ [] ∧ zlen q <= 200 ∧ 10 ∉ q).
Proof.
  unfold RewriteQuery. destruct (CompleteParams _ _ _ _ _ _ w) as [reply w'] eqn:E.
  unfold no_reasoning. erewrite bind_eq by exact E.
  destruct reply as [raw|e]; [|by split; [|left]].
  case_decide as Hn; [by split; [|left]|].
  destruct (_ || _) eqn:Hbad; simpl; (split; [done|]); [by left|right].
  apply orb_false_iff in Hbad as [Hl Hc]. unfold rewriteQueryMaxLen in Hl.
  exists raw. split_and!; [done..|lia|].
  intros (a & b & Hab)%list_elem_of_split. assert (Contains (TrimSpace raw) [10] = true) as Hx
    by (apply Contains_spec; exists a, b; by rewrite Hab). congruence.
Qed.

(** an expansion for a count that is not negative never panics and gives at most that many
    queries, the first ones of the reply; the only other ends are the error of the call and a
    reply that is not a list of strings. A negative count panics on a list, however short. *)
Theorem expand_bounded what c prompt cx query n w :
  match (expand what prompt c cx query n w).1,
        (CompleteParams c cx (prompt (Itoa n) query (Itoa n)) (flit 7 1) 250
           [WithReasoningEffort (lit "none")] w).1 with
  | Ok (Val vs), Val raw =>
      0 <= n ∧ zlen vs <= n ∧ ∃ all, Unmarshal [] (dec_list [] dec_string) raw = Some all ∧
        vs = take (Z.to_nat n) all
  | Ok (Err e), Err e' => e = e'
  | Ok (Err _), Val raw => Unmarshal [] (dec_list [] dec_string) raw = None
  | Panic, Val raw => n < 0 ∧ Unmarshal [] (dec_list [] dec_string) raw ≠ None
  | _, _ => False
  end.
Proof.
  unfold expand. destruct (CompleteParams _ _ _ _ _ _ w) as [reply w'] eqn:E.
  unfold no_reasoning. erewrite bind_eq by exact E.
  destruct reply as [raw|e]; [|done].
  destruct (Unmarshal _ _ raw) as [all|] eqn:Hu; [|done]. simpl.
  pose proof (zlen_nonneg all).
  destruct (n <? zlen all) eqn:Hn; simpl.
  - unfold slice. destruct (Z.leb_spec 0 n); simpl; [|split; [lia|congruence]].
    rewrite (proj2 (Z.leb_le n (zlen all))) by lia. rewrite Z.sub_0_r, drop_0.
    split_and!; [done| |by exists all]. unfold zlen. rewrite length_take. lia.
  - split_and!; [lia|lia|]. exists all. split; [done|]. rewrite take_ge; [done|]. unfold zlen in *. lia.
Qed.
End Calls.

(** ** The policy of the chain *)
Section Chain.
Context {W Callback Endpoint Kit : Type}.
Variable multi : list (gostring * gostring) → gostring → list gostring → option Callback →
  M W (list Endpoint).
Variable single : gostring → gostring → gostring → list gostring → option Callback →
  M W (list Endpoint).
Notation kit_options := (kit_options multi single).
Implicit Types cfg : config Callback.

Definition is_endpoints (o : KitOption Callback Endpoint) : bool :=
  match o with WithEndpoints _ => true | _ => false end.

Lemma mode_options_spec env cfg w :
  let '(base, _) := mode_options multi single env cfg w in
  (modelChain cfg ≠ [] ∧ ∃ eps, base = chain_options env cfg eps) ∨
  (modelChain cfg = [] ∧
   base = if decide (fallbacks cfg ≠ []) then [WithFallbackKeys (fallbacks cfg)] else []).
Proof.
  unfold mode_options. destruct (decide (modelChain cfg ≠ [])) as [Hc|Hc].
  - unfold mbind, M_bind. destruct (1 <? _);
      [destruct (multi _ _ _ _ w)|destruct (single _ _ _ _ _ w)]; left; eauto.
  - right. split; [by apply dec_stable|done].
Qed.
(** the kit gets the options of one mode. With a chain of models it gets exactly one list of
    endpoints, the cool-down of the configuration, and never a fallback key, whatever keys were
    given; without a chain it gets no endpoints and no cool-down, and the fallback keys when there
    are any. The per-attempt limit goes with the chain only, when it is positive. *)
Theorem kit_options_policy env cfg w :
  let '(opts, _) := kit_options env cfg w in
  length (filter (λ o, is_endpoints o) opts) = (if decide (modelChain cfg = []) then 0 else 1)%nat ∧
  (∀ d, WithModelCooldown d ∈ opts ↔
    modelChain cfg ≠ [] ∧ d = resolveCooldownDuration env (cooldownDuration cfg)) ∧
  (∀ keys, WithFallbackKeys keys ∈ opts ↔
    modelChain cfg = [] ∧ keys = fallbacks cfg ∧ keys ≠ []) ∧
  (∀ d, WithPerAttemptTimeout d ∈ opts ↔
    modelChain cfg ≠ [] ∧ d = perAttemptTimeout cfg ∧ 0 < d) ∧
  (∀ models, WithReasoningEffortModels models ∈ opts ↔
    models = reasoningEffortModels cfg ∧ models ≠ []).
Proof.
  unfold Llm.kit_options. pose proof (mode_options_spec env cfg w) as Hb.
  destruct (mode_options multi single env cfg w) as [base w'] eqn:E.
  erewrite bind_eq by exact E. cbn. unfold effort_options.
  destruct Hb as [[Hc (eps & ->)]|[Hc ->]].
  - unfold chain_options, given. destruct (cooldownObserver cfg), (chainObserver cfg),
      (0 <? perAttemptTimeout cfg) eqn:Hp; repeat case_decide; set_solver by lia.
  - repeat case_decide; set_solver.
Qed.
End Chain.

(** ** The length of the cool-down *)
Definition max_cooldown_seconds : Z := 9223372036.
(** a cool-down is never off: it is positive, whatever [LLM_COOLDOWN_SECONDS] holds (not a
    number, zero, negative), as long as that many seconds fit in a duration. *)
Theorem cooldown_positive env explicit :
  0 < explicit ∨ (∀ n, Atoi env = Some n → n <= max_cooldown_seconds) →
  0 < resolveCooldownDuration env explicit.
Proof.
  unfold resolveCooldownDuration, max_cooldown_seconds. intros Hb.
  destruct (Z.ltb_spec 0 explicit); [done|]. destruct Hb as [Hb|Hb]; [lia|].
  case_decide; [by vm_compute|]. destruct (Atoi env) as [n|]; [|by vm_compute].
  specialize (Hb n eq_refl). destruct (Z.ltb_spec 0 n); [|by vm_compute].
  unfold Second. rewrite wrap64_small; [lia|]. unfold int64_range. lia.
Qed.
Lemma cooldown_positive_witness :
  resolveCooldownDuration (lit "-3") 0 = defaultCooldownDuration ∧
  0 < resolveCooldownDuration (lit "90") 0.
Proof.
  split; [reflexivity|]. apply (cooldown_positive (lit "90") 0). right.
  intros n Hn. assert (n = 90) as -> by (vm_compute in Hn; congruence). vm_compute. discriminate.
Defined.
(** One second more and the duration is negative. *)
Lemma cooldown_overflow : resolveCooldownDuration (lit "9223372037") 0 < 0.
Proof. by vm_compute. Qed.

(** ** Fences *)
Lemma drop_space_snoc rs r : IsSpace r = true →
  drop_space (rs ++ [r]) = drop_space rs ++ [r] ∨
  (drop_space (rs ++ [r]) = [] ∧ drop_space rs = []).
Proof.
  intros Hr. induction rs as [|x rs IH]; simpl; [rewrite Hr; by right|].
  destruct (IsSpace x); [done|by left].
Qed.
Lemma trim_runes_spaces a rs b : IsSpace a = true → IsSpace b = true →
  trim_runes (a :: rs ++ [b]) = trim_runes rs.
Proof.
  intros Ha Hb. unfold trim_runes. simpl. rewrite Ha.
  destruct (drop_space_snoc rs b Hb) as [-> | [-> ->]]; [|done].
  rewrite reverse_app. simpl. by rewrite Hb.
Qed.
Lemma TrimPrefix_app p s : TrimPrefix (p ++ s) p = s.
Proof.
  unfold TrimPrefix. rewrite (proj2 (HasPrefix_spec _ _)) by eauto. by rewrite drop_app_length.
Qed.
Lemma TrimSuffix_app p s : TrimSuffix (s ++ p) p = s.
Proof.
  unfold TrimSuffix, HasSuffix. rewrite (proj2 (HasPrefix_spec _ _)).
  - by rewrite length_app, Nat.add_sub, take_app_length.
  - rewrite reverse_app. eauto.
Qed.

(** a text that the model fences, as JSON or plainly, comes back without its fences and
    without the white space around it. *)
Theorem stripFences_fenced rs :
  valid_runes rs →
  stripFences (fence ++ lit "json" ++ [10] ++ of_runes rs ++ [10] ++ fence) = of_runes (trim_runes rs) ∧
  stripFences (fence ++ [10] ++ of_runes rs ++ [10] ++ fence) = of_runes (trim_runes rs).
Proof.
  intros Hv.
  assert (TrimSpace ([10] ++ of_runes rs ++ [10]) = of_runes (trim_runes rs)) as Ht.
  { replace ([10] ++ of_runes rs ++ [10]) with (of_runes (10 :: rs ++ [10])).
    - rewrite TrimSpace_of_runes, trim_runes_spaces; [done..|].
      constructor; [done|]. apply Forall_app. by repeat constructor.
    - by rewrite of_runes_cons, of_runes_app. }
  assert (∀ s, TrimPrefix ([10] ++ s) fence = [10] ++ s) as Hn by done.
  split; unfold stripFences.
  - rewrite (app_assoc fence), TrimPrefix_app, Hn.
    by rewrite (app_assoc [10]), (app_assoc _ [10] fence), TrimSuffix_app, <- app_assoc.
  - assert (TrimPrefix (fence ++ [10] ++ of_runes rs ++ [10] ++ fence) (fence ++ lit "json") =
      fence ++ [10] ++ of_runes rs ++ [10] ++ fence) as -> by done.
    rewrite TrimPrefix_app. by rewrite (app_assoc [10]), (app_assoc _ [10] fence), TrimSuffix_app, <- app_assoc.
Qed.
Lemma stripFences_fenced_witness :
  valid_runes (lit " {} ") ∧ stripFences (fence ++ lit "json" ++ [10] ++ of_runes (lit " {} ") ++ [10] ++ fence) = lit "{}".
Proof.
  assert (valid_runes (lit " {} ")) as Hv by (repeat constructor).
  split; [exact Hv|]. exact (proj1 (stripFences_fenced (lit " {} ") Hv)).
Defined.

(** ** Witness: a client without a kit *)
#[local] Instance demo_kit : LLMKit () () :=
  {| kit_Complete := λ _ _ _ _ _ w, (Val [], w); kit_CompleteMultimodal := λ _ _ _ _ w, (Val [], w) |}.
#[local] Instance demo_metrics : Metrics () :=
  {| Incr := λ _ _ w, w; ObserveSeconds := λ _ _ _ w, w; GaugeAdd := λ _ _ w, w |}.
Definition demo_client : Client () :=
  {| kit := None; temperature := defaultTemperature; maxTokens := 2000; metrics := true;
     disabled := true; primaryModel := [] |}.
Definition demo_prompts : Prompts :=
  {| RewriteQueryPrompt := λ q, q; PromptBase := λ a b c d, a ++ b ++ c ++ d;
     PromptDeep := λ a b c d, a ++ b ++ c ++ d; ExpandWebQueryPrompt := λ a b c, a ++ b ++ c;
     ExpandQueryPrompt := λ a b c, a ++ b ++ c |}.
Lemma unavailable_silent_witness :
  unavailable demo_client ∧
  RewriteQuery demo_prompts demo_client (Ctx None 0) (lit "q") () = (lit "q", ()).
Proof.
  assert (unavailable demo_client) as Hu by (left; reflexivity). split; [exact Hu|].
  destruct (unavailable_silent demo_client demo_prompts (Ctx None 0) [] (lit "q") [] [] [] 0 () Hu)
    as (_ & _ & _ & Hq & _). exact Hq.
Defined.
