(* ===== verification/Prompts.v ===== *)
(** The prompt templates of package [llm] ([prompt.go]) and the instructions for each kind of query
    ([summarize.go]), as the package sets them. A consumer may replace them, so that the rest of
    the model takes them as arguments. *)
From Stdlib Require Import String.
From S2P Require Import Prelude Unicode Utf8 GoStrings Floats Json Effects TextTools FactVerify Llm.
Local Open Scope Z_scope.

(** A literal in which a tilde stands for a double quote. *)
Definition quoted (s : string) : gostring := (λ c, if c =? 126 then 34 else c) <$> lit s.
(** [fmt.Sprintf] with [%s] and [%d], the arguments as they are printed. *)
Fixpoint Sprintf (format : gostring) (args : list gostring) : gostring :=
  match format with
  | [] => []
  | c :: f =>
      if c =? 37 then
        match f with
        | v :: f =>
            if (v =? 115) || (v =? 100) then
              match args with
              | a :: args => a ++ Sprintf f args
              | [] => lit "%!" ++ v :: lit "(MISSING)" ++ Sprintf f []
              end
            else c :: v :: Sprintf f args
        | [] => lit "%!(NOVERB)"
        end
      else c :: Sprintf f args
  end.

Definition rewrite_template : gostring := quoted "Rewrite the following query into a concise, search-engine-optimized form.
Output ONLY the rewritten query — no explanation, no punctuation at the end, no quotes.
Keep it under 10 words. Use English keywords even if the input is in another language.

Query: %s".
(** The example of an answer in [PromptBase]. *)
Definition base_example : gostring := quoted "{
  ~answer~: ~2-3 sentence plain-text summary. No markdown. No citation markers.~,
  ~facts~: [
    {~point~: ~Specific fact as a complete sentence.~, ~sources~: [1, 2], ~quote~: ~verbatim span from source 1 or 2~},
    {~point~: ~Another specific fact with a number or detail.~, ~sources~: [3], ~quote~: ~verbatim span from source 3~}
  ]
}".
Definition base_template : gostring :=
  quoted "You are a research assistant. Answer the query using ONLY the search results below.

Current date: %s

Respond with valid JSON only (no markdown, no `json` block):
" ++
  base_example ++ quoted "

Rules:
- answer: plain text, 2-3 sentences, NO markdown (no **, ##, -, *), NO [N] citation markers
- facts: 4-8 key points, each a complete informative sentence, with 1-based source indices
- facts should cover the most important, specific information (numbers, names, versions, commands)
- quote: copied character-for-character from ONE of the cited sources, one sentence or less, containing every number that appears in point
- Answer in the SAME LANGUAGE as the query
- Do NOT invent information not present in sources
- If sources conflict, include both versions as separate fact items

%s

Query: %s

Sources:
%s".
(** The example of an answer in [PromptDeep]. *)
Definition deep_example : gostring := quoted "{
  ~answer~: ~3-5 sentence plain-text summary covering the main points. No markdown. No citation markers.~,
  ~facts~: [
    {~point~: ~Specific fact with detail, number, or command.~, ~sources~: [1, 2], ~quote~: ~verbatim span from source 1 or 2~},
    {~point~: ~Another distinct fact.~, ~sources~: [3], ~quote~: ~verbatim span from source 3~}
  ]
}".
Definition deep_template : gostring :=
  quoted "You are a research assistant. Extract all key information from the sources below.

Current date: %s

Respond with valid JSON only (no markdown, no `json` block):
" ++
  deep_example ++ quoted "

Requirements:
- answer: plain text, 3-5 sentences, NO markdown, NO [N] citation markers
- facts: 8-15 key points covering all important details from sources
- Each fact: one complete sentence with specific information (versions, numbers, names, code snippets)
- quote: copied character-for-character from ONE of the cited sources, one sentence or less, containing every number that appears in point
- Include code examples as fact points: {~point~: ~Use 'go build -a' to force rebuild.~, ~sources~: [2], ~quote~: ~run 'go build -a' to force a rebuild~}
- sources array: 1-based indices into the provided Sources list
- Answer in the SAME LANGUAGE as the query
- Do NOT invent information — only use what is in the sources
- Cover different aspects: how it works, why it matters, how to use it, common pitfalls

%s

Query: %s

Sources:
%s".
Definition expand_web_template : gostring := quoted "Generate %d different search query variants to find web pages about: ~%s~

Rules:
- Use different terminology, synonyms, and alternative technical framings
- Cover different angles: conceptual explanations, tutorials, comparisons, official docs
- Keep each query concise (3-8 words)
- CRITICAL: Preserve unambiguous technology names exactly (e.g. ~golang~ NOT ~Go~, ~python~ NOT ~py~, ~nodejs~ NOT ~node~)
- Do NOT add GitHub-specific syntax (no language:X, topic:X)

Return ONLY a JSON array of %d strings, no other text, no markdown.
Example for ~golang HTTP middleware~: [~Go net/http handler chain tutorial~, ~golang web middleware framework examples~]".
Definition expand_template : gostring := quoted "Generate %d different search query variants for finding GitHub repositories related to: ~%s~

Rules:
- Use different terminology, synonyms, alternative technical framings
- Mix natural language with GitHub search syntax (language:X, topic:X, stars:>N)
- Cover different angles: language-specific, domain-focused, use-case-based
- Keep each query concise (2-6 words or tokens)
- CRITICAL: Preserve unambiguous technology names exactly (e.g. ~golang~ NOT ~Go~, ~python~ NOT ~py~)

Return ONLY a JSON array of %d strings, no other text, no markdown.
Example: [~language:go topic:llm-agent~, ~golang autonomous ai workflow~, ~golang orchestration llm tool~]".
Definition default_prompts : Prompts :=
  {| RewriteQueryPrompt := λ query, Sprintf rewrite_template [query];
     PromptBase := λ date instruction query srcs, Sprintf base_template [date; instruction; query; srcs];
     PromptDeep := λ date instruction query srcs, Sprintf deep_template [date; instruction; query; srcs];
     ExpandWebQueryPrompt := λ n query m, Sprintf expand_web_template [n; query; m];
     ExpandQueryPrompt := λ n query m, Sprintf expand_template [n; query; m] |}.
Definition TypeInstructions (t : QueryType) : gostring :=
  match t with
  | QtFact => quoted "FORMAT: One or two sentences with the specific data point requested. Nothing more."
  | QtComparison => quoted "FORMAT: Start with a compact markdown table (5-8 rows max) comparing key criteria. Column headers = the things being compared.
After the table: 1-2 sentences with a practical recommendation (which to choose and when).
IMPORTANT: Keep table cells SHORT (under 15 words each). No paragraphs inside cells."
  | QtList => quoted "FORMAT: Numbered list. Each item: name + one-line description + citation.
Include ALL items found in sources. Order by relevance or popularity."
  | QtHowTo => quoted "FORMAT: Numbered steps. Each step is actionable and specific.
Include commands, code, or URLs where available in sources."
  | QtGeneral => quoted "FORMAT: Direct factual answer. Use bullet points for multiple aspects. Include specific data.
Be practical — if the question implies a choice, give a recommendation."
  end.

(** ** The templates keep what they are given, and their examples are answers *)
Lemma Sprintf_text a f args : 37 ∉ a → Sprintf (a ++ f) args = a ++ Sprintf f args.
Proof.
  intros Ha. induction a as [|c a IH]; [done|]. cbn [app Sprintf].
  rewrite (proj2 (Z.eqb_neq c 37)) by set_solver. by rewrite IH by set_solver.
Qed.
Lemma Sprintf_verb v f arg args : v = 115 ∨ v = 100 → Sprintf (37 :: v :: f) (arg :: args) = arg ++ Sprintf f args.
Proof. by intros [-> | ->]. Qed.
(** The text between the arguments of a template. *)
Fixpoint printed (segs : list gostring) (args : list gostring) : gostring :=
  match segs, args with
  | s :: segs, a :: args => s ++ a ++ printed segs args
  | [s], [] => s
  | _, _ => []
  end.
Fixpoint template (segs : list gostring) : gostring :=
  match segs with [] => [] | [s] => s | s :: segs => s ++ lit "%s" ++ template segs end.
Lemma Sprintf_template segs args :
  Forall (λ s, 37 ∉ s) segs → length segs = S (length args) →
  Sprintf (template segs) args = printed segs args.
Proof.
  intros Hs. revert args. induction Hs as [|s segs Hs Hss IH]; intros args Hl; [done|].
  destruct segs as [|s' segs].
  - destruct args; [|done]. cbn. rewrite <- (app_nil_r s) at 1. rewrite Sprintf_text by done. apply app_nil_r.
  - destruct args as [|a args]; [done|]. change (template (s :: s' :: segs)) with (s ++ 37 :: 115 :: template (s' :: segs)).
    rewrite Sprintf_text, Sprintf_verb by auto. cbn [printed]. by rewrite IH by (simpl in *; lia).
Qed.
Definition split_template (t : gostring) : list gostring :=
  (fix go (fuel : nat) (t : gostring) : list gostring :=
     match fuel with
     | O => [t]
     | S fuel => let '(a, b, found) := Cut t (lit "%s") in if found : bool then a :: go fuel b else [a]
     end) 8%nat t.
(** A summary prompt holds the date, the instruction, the query and the sources verbatim and in this
    order, between texts of its own, whatever percent signs they have. *)
Lemma summary_prompts_verbatim date instruction query srcs :
  PromptBase default_prompts date instruction query srcs =
    printed (split_template base_template) [date; instruction; query; srcs] ∧
  PromptDeep default_prompts date instruction query srcs =
    printed (split_template deep_template) [date; instruction; query; srcs].
Proof.
  split; cbn [default_prompts PromptBase PromptDeep].
  - rewrite <- Sprintf_template; [by replace (template (split_template base_template)) with base_template by by vm_compute| |by vm_compute].
    apply (bool_decide_unpack (Forall (λ s, 37 ∉ s) (split_template base_template))). by vm_compute.
  - rewrite <- Sprintf_template; [by replace (template (split_template deep_template)) with deep_template by by vm_compute| |by vm_compute].
    apply (bool_decide_unpack (Forall (λ s, 37 ∉ s) (split_template deep_template))). by vm_compute.
Qed.
(** The example of an answer in a prompt is one the package reads: its members are the fields of
    [StructuredOutput], so that a model that follows it is understood. *)
Lemma prompt_examples_decode :
  (λ o, (length (Facts o), Sources <$> Facts o, forallb (λ f, bool_decide (Point f ≠ []) && bool_decide (Quote f ≠ [])) (Facts o),
         bool_decide (Answer o ≠ []))) <$>
    Unmarshal zero_StructuredOutput dec_StructuredOutput base_example = Some (2%nat, [[1; 2]; [3]], true, true) ∧
  (λ o, (length (Facts o), Sources <$> Facts o, forallb (λ f, bool_decide (Point f ≠ []) && bool_decide (Quote f ≠ [])) (Facts o),
         bool_decide (Answer o ≠ []))) <$>
    Unmarshal zero_StructuredOutput dec_StructuredOutput deep_example = Some (2%nat, [[1; 2]; [3]], true, true).
Proof. split; vm_compute; reflexivity. Qed.
