(* ===== verification/ParallelFetch.v ===== *)
(** Package [pipeline], [fetch.go]: [ParallelFetch], one goroutine per URL behind a counting
    semaphore. The goroutines are a transition system: a label names who moves, so a schedule is
    a list of labels and running it is a function. What a fetch returns, or the value it panics
    with, comes with the label of its return. *)
From S2P Require Import Prelude Unicode Utf8 GoStrings Effects.
From stdpp Require Import relations.
Local Open Scope nat_scope.

Record FetchResult := { fr_URL : gostring; fr_Content : gostring; fr_Err : option error }.
Definition zero_FetchResult : FetchResult := {| fr_URL := []; fr_Content := []; fr_Err := None |}.

(** [FetchOption]: the concurrency is at least one. *)
Definition WithMaxConcurrency (n : Z) (maxConcurrency : nat) : nat :=
  if (0 <? n)%Z then Z.to_nat n else maxConcurrency.
Definition fetchConfig (opts : list Z) : nat := foldl (λ c n, WithMaxConcurrency n c) 10 opts.

(** How a call of the fetch function ends. *)
Inductive call_outcome := Returned (content : gostring) (err : option error) | Panicked (msg : gostring).
Definition result_of (url : gostring) (o : call_outcome) : FetchResult :=
  match o with
  | Returned content err => {| fr_URL := url; fr_Content := content; fr_Err := err |}
  | Panicked msg => {| fr_URL := url; fr_Content := []; fr_Err := Some (ErrMsg (lit "panic: " ++ msg)) |}
  end.

(** A goroutine: before the semaphore, in the fetch, after its result is stored (by the call or by
    the recovery), after the semaphore is released, after [wg.Done]. *)
Inductive gstate := GWaiting | GRunning | GStored | GReleased | GDone.
#[export] Instance gstate_eq_dec : EqDecision gstate.
Proof. solve_decision. Defined.

Section Fetch.
Variables (urls : list gostring) (cap : nat).

Record state := {
  gs : list gstate;             (* the goroutines spawned so far *)
  sem : nat;                    (* elements in the channel [sem] *)
  wg : nat;                     (* the wait group's counter *)
  slots : list FetchResult;     (* [results] *)
  ret : option (list FetchResult)
}.
Definition init : state :=
  {| gs := []; sem := 0; wg := 0; slots := replicate (length urls) zero_FetchResult; ret := None |}.
Definition move (s : state) (i : nat) (g : gstate) : list gstate := <[i := g]> (gs s).

Inductive action :=
| Spawn                                   (* wg.Add(1); go func ... *)
| AcquireSem (i : nat)                    (* sem <- struct{}{} *)
| Return (i : nat) (o : call_outcome)     (* results[idx] = ... *)
| ReleaseSem (i : nat)                    (* <-sem *)
| WgDone (i : nat)
| Wait.                                   (* wg.Wait(); return results *)

Definition step (a : action) (s : state) : option state :=
  match a with
  | Spawn =>
      if decide (length (gs s) < length urls)
      then Some {| gs := gs s ++ [GWaiting]; sem := sem s; wg := S (wg s); slots := slots s;
                   ret := ret s |}
      else None
  | AcquireSem i =>
      if decide (gs s !! i = Some GWaiting ∧ sem s < cap)
      then Some {| gs := move s i GRunning; sem := S (sem s); wg := wg s; slots := slots s;
                   ret := ret s |}
      else None
  | Return i o =>
      match gs s !! i, urls !! i with
      | Some GRunning, Some u =>
          Some {| gs := move s i GStored; sem := sem s; wg := wg s;
                  slots := <[i := result_of u o]> (slots s); ret := ret s |}
      | _, _ => None
      end
  | ReleaseSem i =>
      match gs s !! i, sem s with
      | Some GStored, S n =>
          Some {| gs := move s i GReleased; sem := n; wg := wg s; slots := slots s; ret := ret s |}
      | _, _ => None
      end
  | WgDone i =>
      match gs s !! i, wg s with
      | Some GReleased, S n =>
          Some {| gs := move s i GDone; sem := sem s; wg := n; slots := slots s; ret := ret s |}
      | _, _ => None
      end
  | Wait =>
      if decide (length (gs s) = length urls ∧ wg s = 0 ∧ ret s = None)
      then Some {| gs := gs s; sem := sem s; wg := wg s; slots := slots s; ret := Some (slots s) |}
      else None
  end.
Fixpoint exec (l : list action) (s : state) : option state :=
  match l with [] => Some s | a :: l => s ← step a s; exec l s end.

(** ** The invariant *)
Definition holds_slot (g : gstate) : bool :=
  match g with GRunning | GStored => true | _ => false end.
Definition finished (g : gstate) : bool := match g with GDone => true | _ => false end.
Definition stored (g : gstate) : bool :=
  match g with GStored | GReleased | GDone => true | _ => false end.
Definition count_g (f : gstate → bool) (l : list gstate) : nat := length (filter (λ g, f g = true) l).

(** What the returns of a schedule say about one goroutine. *)
Definition outcomes (l : list action) (i : nat) : list call_outcome :=
  omap (λ a, match a with Return j o => if decide (j = i) then Some o else None | _ => None end) l.
Definition at_index (l : list action) (i : nat) (g : option gstate) (slot : option FetchResult)
    : Prop :=
  if (match g with Some g => stored g | None => false end)
  then ∃ u o, urls !! i = Some u ∧ outcomes l i = [o] ∧ slot = Some (result_of u o)
  else outcomes l i = [].
Record inv (l : list action) (s : state) : Prop := {
  inv_gs : length (gs s) <= length urls;
  inv_slots : length (slots s) = length urls;
  inv_sem : sem s = count_g holds_slot (gs s);
  inv_cap : sem s <= cap;
  inv_wg : wg s + count_g finished (gs s) = length (gs s);
  inv_at : ∀ i, at_index l i (gs s !! i) (slots s !! i);
  inv_ret : ∀ rs, ret s = Some rs →
    rs = slots s ∧ length (gs s) = length urls ∧ Forall (λ g, g = GDone) (gs s)
}.

Lemma count_g_app f a b : count_g f (a ++ b) = count_g f a + count_g f b.
Proof. unfold count_g. by rewrite filter_app, length_app. Qed.
Lemma count_g_insert f l i g g' : l !! i = Some g →
  count_g f (<[i := g']> l) + (if f g then 1 else 0) = count_g f l + (if f g' then 1 else 0).
Proof.
  intros Hi. rewrite insert_take_drop by (by eapply lookup_lt_Some).
  rewrite <- (take_drop_middle l i g Hi) at 3. rewrite !count_g_app. unfold count_g.
  rewrite !filter_cons. destruct (f g) eqn:E, (f g') eqn:E';
    repeat (case_decide; try congruence); simpl; lia.
Qed.
Lemma count_g_le f l : count_g f l <= length l.
Proof. apply length_filter. Qed.
Lemma count_g_all f l : count_g f l = length l → Forall (λ g, f g = true) l.
Proof.
  unfold count_g. induction l as [|g l IH]; [constructor|]. rewrite filter_cons.
  pose proof (length_filter (λ g, f g = true) l). case_decide; simpl; intros; [|lia].
  constructor; [done|]. apply IH. lia.
Qed.

Lemma init_inv : inv [] init.
Proof.
  split; simpl; try done; [lia|by rewrite length_replicate|lia].
Qed.
Lemma outcomes_snoc l a i : outcomes (l ++ [a]) i = outcomes l i ++ outcomes [a] i.
Proof. apply omap_app. Qed.

(** A goroutine moves without returning: everything but the counters is kept. *)
Lemma move_at l s a i g g' j :
  inv l s → gs s !! i = Some g → stored g' = stored g → (∀ k, outcomes [a] k = []) →
  at_index (l ++ [a]) j (move s i g' !! j) (slots s !! j).
Proof.
  intros Hi Hg Hs Ha. pose proof (inv_at _ _ Hi j) as Hj. unfold at_index in *.
  rewrite outcomes_snoc, Ha, app_nil_r. unfold move. destruct (decide (i = j)) as [<-|Hne].
  - rewrite list_lookup_insert_eq by (by eapply lookup_lt_Some). rewrite Hg in Hj. by rewrite Hs.
  - by rewrite list_lookup_insert_ne.
Qed.
Lemma not_returned l s i g : inv l s → gs s !! i = Some g → g ≠ GDone → ret s = None.
Proof.
  intros Hi Hg Hne. destruct (ret s) as [rs|] eqn:E; [|done].
  destruct (inv_ret _ _ Hi rs E) as (_ & _ & Hd). rewrite Forall_lookup in Hd. by apply Hd in Hg.
Qed.
Lemma move_inv l s a i g g' n m : inv l s → gs s !! i = Some g → g ≠ GDone →
  stored g' = stored g → (∀ k, outcomes [a] k = []) →
  n + (if holds_slot g then 1 else 0) = sem s + (if holds_slot g' then 1 else 0) → n <= cap →
  m + (if finished g' then 1 else 0) = wg s + (if finished g then 1 else 0) →
  inv (l ++ [a]) {| gs := move s i g'; sem := n; wg := m; slots := slots s; ret := ret s |}.
Proof.
  intros Hi Hg Hne Hs Ha Hn Hc Hm. pose proof (not_returned _ _ _ _ Hi Hg Hne) as Hr.
  pose proof (count_g_insert holds_slot (gs s) i g g' Hg).
  pose proof (count_g_insert finished (gs s) i g g' Hg).
  pose proof (inv_sem _ _ Hi). pose proof (inv_wg _ _ Hi).
  split; cbn [gs sem wg slots ret]; unfold move; rewrite ?length_insert.
  - apply Hi.
  - apply Hi.
  - lia.
  - done.
  - lia.
  - intros j. by eapply move_at.
  - by rewrite Hr.
Qed.
Lemma step_inv l s a s' : inv l s → step a s = Some s' → inv (l ++ [a]) s'.
Proof.
  intros Hi Hst. destruct a as [|i|i o|i|i|]; cbn [step] in Hst.
  - case_decide as Hl; [|done]. simplify_eq. destruct Hi as [H1 H2 H3 H4 H5 H6 H7].
    split; cbn [gs sem wg slots ret]; rewrite ?length_app; simpl; try lia; try done.
    + rewrite count_g_app. unfold count_g at 2. simpl. lia.
    + rewrite count_g_app. unfold count_g at 2. simpl. lia.
    + intros j. specialize (H6 j). unfold at_index in *. rewrite outcomes_snoc, app_nil_r.
      destruct (lt_dec j (length (gs s))).
      * by rewrite lookup_app_l.
      * rewrite (lookup_ge_None_2 (gs s)) in H6 by lia. rewrite lookup_app_r by lia.
        destruct (j - length (gs s)) as [|[]]; done.
    + intros rs Hrs. destruct (H7 rs Hrs) as (_ & ? & _). lia.
  - case_decide as Hl; [|done]. simplify_eq. destruct Hl as [Hg Hc].
    eapply move_inv; try done; simpl; lia.
  - destruct (gs s !! i) as [[]|] eqn:Hg; try done. destruct (urls !! i) as [u|] eqn:Hu; [|done].
    simplify_eq. pose proof (not_returned _ _ _ _ Hi Hg ltac:(done)) as Hr.
    pose proof (count_g_insert holds_slot (gs s) i _ GStored Hg).
    pose proof (count_g_insert finished (gs s) i _ GStored Hg).
    destruct Hi as [H1 H2 H3 H4 H5 H6 H7].
    split; cbn [gs sem wg slots ret]; unfold move; rewrite ?length_insert; simpl in *; try done; try lia.
    + intros j. specialize (H6 j). unfold at_index in *. rewrite outcomes_snoc.
      destruct (decide (i = j)) as [<-|Hne].
      * rewrite !list_lookup_insert_eq; [|by rewrite H2; eapply lookup_lt_Some|by eapply lookup_lt_Some].
        rewrite Hg in H6. simpl in *. rewrite H6. exists u, o. by rewrite decide_True.
      * rewrite !list_lookup_insert_ne by done. simpl. rewrite decide_False by done. by rewrite app_nil_r.
    + by rewrite Hr.
  - destruct (gs s !! i) as [[]|] eqn:Hg; try done. destruct (sem s) as [|n] eqn:Hn; [done|]. simplify_eq.
    pose proof (inv_cap _ _ Hi). eapply move_inv; try done; simpl; lia.
  - destruct (gs s !! i) as [[]|] eqn:Hg; try done. destruct (wg s) as [|n] eqn:Hn; [done|]. simplify_eq.
    pose proof (inv_cap _ _ Hi). eapply move_inv; try done; simpl; lia.
  - case_decide as Hl; [|done]. simplify_eq. destruct Hl as (Hl & Hw & Hr).
    destruct Hi as [H1 H2 H3 H4 H5 H6 H7].
    split; cbn [gs sem wg slots ret]; try done.
    + intros j. specialize (H6 j). unfold at_index in *. by rewrite outcomes_snoc, app_nil_r.
    + intros rs [= <-]. split_and!; [done..|]. eapply Forall_impl; [apply (count_g_all finished); lia|].
      by intros [].
Qed.
Lemma exec_inv l k s s' : inv l s → exec k s = Some s' → inv (l ++ k) s'.
Proof.
  revert l s. induction k as [|a k IH]; intros l s Hi He; cbn [exec] in He.
  { simplify_eq. by rewrite app_nil_r. }
  destruct (step a s) as [s1|] eqn:E; [|done]. rewrite cons_middle, app_assoc.
  eapply IH; [by eapply step_inv|done].
Qed.
Lemma reachable_inv l s : exec l init = Some s → inv l s.
Proof. apply (exec_inv [] l init), init_inv. Qed.

(** ** Progress and termination *)
(** What a goroutine, and the system, has left to do. *)
Definition rank (g : gstate) : nat :=
  match g with GWaiting => 4 | GRunning => 3 | GStored => 2 | GReleased => 1 | GDone => 0 end.
Definition measure (s : state) : nat :=
  5 * (length urls - length (gs s)) + sum_list_with rank (gs s) +
  match ret s with None => 1 | Some _ => 0 end.
Lemma step_measure s a s' : step a s = Some s' → measure s' + 1 = measure s.
Proof.
  unfold measure. destruct a as [|i|i o|i|i|]; cbn [step]; intros Hst.
  - case_decide; [|done]. simplify_eq. simpl. rewrite length_app, sum_list_with_app. simpl. lia.
  - case_decide as Hl; [|done]. destruct Hl as [Hg _]. simplify_eq. simpl.
    unfold move. rewrite length_insert. pose proof (sum_list_with_insert rank _ _ _ GRunning Hg). simpl in *. lia.
  - destruct (gs s !! i) as [[]|] eqn:Hg; try done. destruct (urls !! i); [|done]. simplify_eq. simpl.
    unfold move. rewrite length_insert. pose proof (sum_list_with_insert rank _ _ _ GStored Hg). simpl in *. lia.
  - destruct (gs s !! i) as [[]|] eqn:Hg; try done. destruct (sem s); [done|]. simplify_eq. simpl.
    unfold move. rewrite length_insert. pose proof (sum_list_with_insert rank _ _ _ GReleased Hg). simpl in *. lia.
  - destruct (gs s !! i) as [[]|] eqn:Hg; try done. destruct (wg s); [done|]. simplify_eq. simpl.
    unfold move. rewrite length_insert. pose proof (sum_list_with_insert rank _ _ _ GDone Hg). simpl in *. lia.
  - case_decide as Hl; [|done]. destruct Hl as (_ & _ & Hr). simplify_eq. simpl. rewrite Hr. lia.
Qed.
Lemma exec_measure l s s' : exec l s = Some s' → measure s' + length l = measure s.
Proof.
  revert s. induction l as [|a l IH]; intros s He; cbn [exec] in He.
  { simplify_eq. simpl. lia. }
  destruct (step a s) as [s1|] eqn:E; [|done]. apply step_measure in E. apply IH in He. simpl. lia.
Qed.
(** Unless the call has returned, some goroutine can move: a waiting one finds the semaphore free, or
    somebody holds it and can go on. The fetch of a running goroutine is taken to end with [o]. *)
Lemma can_move o l s : 0 < cap → inv l s → ret s = None → ∃ a s', step a s = Some s' ∧
    match a with Return _ o' => o' = o | _ => True end.
Proof.
  intros Hcap Hi Hr. pose proof Hi as [H1 H2 H3 H4 H5 H6 H7].
  destruct (decide (length (gs s) < length urls)) as [Hl|Hl].
  { exists Spawn. cbn [step]. rewrite decide_True by done. eauto. }
  assert (∀ i g, gs s !! i = Some g → g = GRunning ∨ g = GStored ∨ g = GReleased →
    ∃ a s', step a s = Some s' ∧ match a with Return _ o' => o' = o | _ => True end) as Hmove.
  { intros i g Hg [->| [->| ->]].
    - exists (Return i o). cbn [step]. rewrite Hg.
      destruct (lookup_lt_is_Some_2 urls i) as [u ->]; [|eauto].
      apply lookup_lt_Some in Hg. lia.
    - exists (ReleaseSem i). cbn [step]. rewrite Hg. destruct (sem s) eqn:Es; [|eauto].
      pose proof (count_g_insert holds_slot _ _ _ GReleased Hg). simpl in *. lia.
    - exists (WgDone i). cbn [step]. rewrite Hg. destruct (wg s) eqn:Ew; [|eauto].
      pose proof (count_g_insert finished _ _ _ GDone Hg).
      pose proof (count_g_le finished (<[i:=GDone]> (gs s))). rewrite length_insert in *.
      simpl in *. lia. }
  destruct (decide (Exists (λ g, g = GRunning ∨ g = GStored ∨ g = GReleased) (gs s))) as [He|He].
  { apply Exists_exists in He as (g & [i Hg]%list_elem_of_lookup & Hs). by eapply Hmove. }
  destruct (decide (Exists (λ g, g = GWaiting) (gs s))) as [Hw|Hw].
  { apply Exists_exists in Hw as (g & [i Hg]%list_elem_of_lookup & ->).
    exists (AcquireSem i). cbn [step]. rewrite decide_True; [eauto|]. split; [done|].
    assert (count_g holds_slot (gs s) = 0) as Hz; [|lia].
    unfold count_g. apply length_zero_iff_nil.
    destruct (filter _ (gs s)) as [|h k] eqn:Ef; [done|]. exfalso. apply He, Exists_exists.
    assert (h ∈ filter (λ g, holds_slot g = true) (gs s)) as Hin by (rewrite Ef; set_solver).
    apply list_elem_of_filter in Hin as [Hh Hin].
    exists h. split; [done|]. destruct h; naive_solver. }
  exists Wait. cbn [step]. rewrite decide_True; [eauto|].
  split; [lia|]. split; [|done].
  assert (count_g finished (gs s) = length (gs s)) as Hf; [|lia].
  clear -He Hw. induction (gs s) as [|g k IH]; [done|]. unfold count_g in *.
  rewrite Exists_cons in He, Hw. rewrite filter_cons. destruct g; try naive_solver.
Qed.

(** At most [cap] goroutines are between taking and releasing the semaphore. *)
Lemma running_bounded l s :
  exec l init = Some s →
  count_g holds_slot (gs s) <= cap ∧ count_g (λ g, bool_decide (g = GRunning)) (gs s) <= cap.
Proof.
  intros Hi%reachable_inv. pose proof (inv_cap _ _ Hi). pose proof (inv_sem _ _ Hi).
  split; [lia|]. transitivity (count_g holds_slot (gs s)); [|lia]. unfold count_g.
  clear. induction (gs s) as [|g k IH]; [done|]. rewrite !filter_cons.
  destruct g; repeat case_decide; simpl; try lia; try done.
Qed.

(** C13: the fetch always returns: no schedule takes more than five steps per URL and one more, and
    as long as the call has not returned there is a step to take (a fetch that runs may end), so
    there is no deadlock and every maximal schedule ends with the return. *)
Theorem ParallelFetch_returns o l s :
  0 < cap → exec l init = Some s →
  length l <= 5 * length urls + 1 ∧
  ((∃ rs, ret s = Some rs) ∨ ∃ a s', step a s = Some s' ∧
     match a with Return _ o' => o' = o | _ => True end).
Proof.
  intros Hcap He. pose proof (reachable_inv _ _ He) as Hi. apply exec_measure in He.
  split; [unfold measure at 2 in He; simpl in He; lia|].
  destruct (ret s) eqn:Hr; [by left; eauto|right].
  by eapply can_move.
Qed.

(** A returned list has, for each URL, the result of the one return of its goroutine. *)
Lemma returned_results l s rs :
  exec l init = Some s → ret s = Some rs →
  length rs = length urls ∧
  ∀ i u, urls !! i = Some u →
    ∃ o, outcomes l i = [o] ∧ rs !! i = Some (result_of u o).
Proof.
  intros Hi%reachable_inv Hr. destruct Hi as [H1 H2 H3 H4 H5 H6 H7].
  destruct (H7 rs Hr) as (-> & Hl & Hd). split; [done|]. intros i u Hu. specialize (H6 i).
  destruct (lookup_lt_is_Some_2 (gs s) i) as [g Hg]; [rewrite Hl; by eapply lookup_lt_Some|].
  rewrite Forall_lookup in Hd. pose proof (Hd i g Hg) as ->. unfold at_index in H6. rewrite Hg in H6.
  destruct H6 as (u' & o & Hu' & Ho & Hs). simplify_eq. eauto.
Qed.

(** C15: under every schedule at most [cap] goroutines hold the semaphore and so at most [cap] calls of
    the fetch function run at a time; and when the fetch returns it has one result per URL, in the
    order of the URLs, each the outcome of the only call for that URL: its content and error, or
    an error for a call that panicked. *)
Theorem ParallelFetch_results l s :
  exec l init = Some s →
  (count_g holds_slot (gs s) <= cap ∧ count_g (λ g, bool_decide (g = GRunning)) (gs s) <= cap) ∧
  ∀ rs, ret s = Some rs →
    length rs = length urls ∧
    ∀ i u, urls !! i = Some u →
      ∃ o, outcomes l i = [o] ∧ rs !! i = Some (result_of u o).
Proof.
  intros He. split; [by eapply running_bounded|]. intros rs. by apply returned_results.
Qed.
End Fetch.

(** The URLs of what is returned are the URLs asked for. *)
Lemma returned_urls urls cap l s rs :
  exec urls cap l (init urls) = Some s → ret s = Some rs → fr_URL <$> rs = urls.
Proof.
  intros Hi Hr. destruct (returned_results urls cap l s rs Hi Hr) as [Hl Hat].
  apply list_eq_same_length with (length urls); rewrite ?length_fmap; [done..|].
  intros i x u _ Hx Hu. destruct (Hat i u Hu) as (o & _ & Ho).
  rewrite list_lookup_fmap, Ho in Hx. simplify_eq/=. by destruct o.
Qed.

(** ** Witnesses: three URLs, two at a time; the second fetch panics *)
Definition demo_urls : list gostring := [lit "a"; lit "b"; lit "c"].
Definition demo_schedule : list action :=
  [Spawn; Spawn; AcquireSem 1; AcquireSem 0; Spawn; Return 1 (Panicked (lit "boom")); ReleaseSem 1;
   AcquireSem 2; WgDone 1; Return 2 (Returned (lit "C") None); Return 0 (Returned (lit "A") None);
   ReleaseSem 2; ReleaseSem 0; WgDone 0; WgDone 2; Wait].
Definition demo_final : state :=
  default (init demo_urls) (exec demo_urls 2 demo_schedule (init demo_urls)).
Lemma ParallelFetch_returns_witness :
  exec demo_urls 2 demo_schedule (init demo_urls) = Some demo_final ∧ length demo_schedule <= 16.
Proof.
  assert (exec demo_urls 2 demo_schedule (init demo_urls) = Some demo_final) as E
    by (vm_compute; reflexivity).
  split; [exact E|].
  apply (ParallelFetch_returns demo_urls 2 (Returned [] None) demo_schedule demo_final); [lia|exact E].
Defined.
Lemma ParallelFetch_results_witness :
  count_g holds_slot (gs demo_final) <= 2 ∧
  ∃ rs, ret demo_final = Some rs ∧ length rs = 3 ∧
    rs !! 1 = Some (result_of (lit "b") (Panicked (lit "boom"))).
Proof.
  assert (exec demo_urls 2 demo_schedule (init demo_urls) = Some demo_final) as E
    by (vm_compute; reflexivity).
  destruct (ParallelFetch_results demo_urls 2 demo_schedule demo_final E) as [[Hb _] Hr].
  split; [exact Hb|]. eexists. split; [vm_compute; reflexivity|].
  split; [|vm_compute; reflexivity]. apply Hr. vm_compute. reflexivity.
Defined.
