(* ===== verification/Pipeline.v ===== *)
(** Package [pipeline]: the fan-out over the sources ([search.go]), the unique URLs ([convert.go]),
    the run of a query ([run.go]) and the output ([output.go]). The order in which sources answer
    and the schedule of the parallel fetch are parameters. A Go slice of sources is a header into
    a backing array of a heap, because [FormatOutput] writes through it. *)
From S2P Require Import Prelude Unicode Utf8 GoStrings GoUrl Floats Json Effects Results Retry SearchEngines Fanout TextTools FactVerify Llm ParallelFetch.
Local Open Scope Z_scope.

Definition defaultPipelinePerSourceTimeout : Z := 6 * Second.
Definition defaultPipelineEarlyReturnAt : Z := 10.

(** ** Unique URLs *)
Fixpoint unique_loop (seen : gset gostring) (urls : list gostring) (results : list Result)
    : list gostring :=
  match results with
  | [] => urls
  | r :: results =>
      if decide (r_URL r = []) then unique_loop seen urls results
      else if decide (r_URL r ∈ seen) then unique_loop seen urls results
      else unique_loop ({[r_URL r]} ∪ seen) (urls ++ [r_URL r]) results
  end.
Definition uniqueURLs (results : list Result) : list gostring := unique_loop ∅ [] results.

(** ** Output *)
Record SourceItem := { si_Index : Z; si_Title : gostring; si_URL : gostring; si_Snippet : gostring }.
Record OutputOpts := { MaxAnswerChars : Z; MaxSources : Z; IncludeSnippets : bool }.
Definition DefaultOutputOpts : OutputOpts :=
  {| MaxAnswerChars := 3000; MaxSources := 8; IncludeSnippets := false |}.
(** A slice: the array it points into, its offset and its length. *)
Record slice_header := { sh_array : nat; sh_off : nat; sh_len : nat }.
Record SearchOutput := {
  Query : gostring; so_Answer : gostring; so_Facts : list FactItem; so_Sources : option slice_header;
  LLMSkipped : bool; DegradeReason : gostring;
  CoveredAspects : list gostring; IteratedQueries : list gostring
}.
Notation heap := (gmap nat (list SourceItem)).
(** What a slice shows. *)
Definition view (h : heap) (s : option slice_header) : list SourceItem :=
  match s with
  | Some s => take (sh_len s) (drop (sh_off s) (default [] (h !! sh_array s)))
  | None => []
  end.
Definition slice_len (s : option slice_header) : Z :=
  match s with Some s => Z.of_nat (sh_len s) | None => 0 end.

Definition clear_snippet (i : SourceItem) : SourceItem :=
  {| si_Index := si_Index i; si_Title := si_Title i; si_URL := si_URL i; si_Snippet := [] |}.
(** The loop [out.Sources[i].Snippet = ""]: a write through the slice for each index. *)
Definition clear_at (s : slice_header) (h : heap) (i : nat) : heap :=
  alter (alter clear_snippet (sh_off s + i)%nat) (sh_array s) h.
Definition clear_snippets (s : slice_header) (h : heap) : heap :=
  foldl (clear_at s) h (seq 0 (sh_len s)).

Definition set_answer (o : SearchOutput) a : SearchOutput :=
  {| Query := Query o; so_Answer := a; so_Facts := so_Facts o; so_Sources := so_Sources o;
     LLMSkipped := LLMSkipped o; DegradeReason := DegradeReason o;
     CoveredAspects := CoveredAspects o; IteratedQueries := IteratedQueries o |}.
Definition set_sources (o : SearchOutput) s : SearchOutput :=
  {| Query := Query o; so_Answer := so_Answer o; so_Facts := so_Facts o; so_Sources := s;
     LLMSkipped := LLMSkipped o; DegradeReason := DegradeReason o;
     CoveredAspects := CoveredAspects o; IteratedQueries := IteratedQueries o |}.
Definition FormatOutput (out : SearchOutput) (opts : OutputOpts) (h : heap) : SearchOutput * heap :=
  let out := if (0 <? MaxAnswerChars opts) && (MaxAnswerChars opts <? zlen (so_Answer out))
             then set_answer out (take (Z.to_nat (MaxAnswerChars opts)) (so_Answer out) ++ lit "...")
             else out in
  let h := if negb (IncludeSnippets opts)
           then match so_Sources out with Some s => clear_snippets s h | None => h end else h in
  let out := if (0 <? MaxSources opts) && (MaxSources opts <? slice_len (so_Sources out))
             then set_sources out
                    ((λ s, {| sh_array := sh_array s; sh_off := sh_off s;
                              sh_len := Z.to_nat (MaxSources opts) |}) <$> so_Sources out)
             else out in
  (out, h).

(** [BuildSearchOutput]: a fresh array holds the items ([append] grows a nil slice). *)
Definition source_item (i : nat) (r : Result) : SourceItem :=
  {| si_Index := Z.of_nat i + 1; si_Title := r_Title r; si_URL := r_URL r; si_Snippet := r_Content r |}.
Definition BuildSearchOutput (query : gostring) (llmOut : StructuredOutput) (results : list Result)
    (h : heap) : SearchOutput * heap :=
  let a := fresh (dom h) in
  let srcs := if decide (results = []) then None
              else Some {| sh_array := a; sh_off := 0; sh_len := length results |} in
  ({| Query := query; so_Answer := Answer llmOut; so_Facts := Facts llmOut; so_Sources := srcs;
      LLMSkipped := false; DegradeReason := []; CoveredAspects := []; IteratedQueries := [] |},
   if decide (results = []) then h else <[a := imap source_item results]> h).

(** ** The sources *)
Record pipelineSourceResult := {
  ps_name : gostring; ps_results : list Result; ps_err : option error; ps_dur : Z
}.
Section Pipeline.
Context {Kit W : Type} `{Clock W} `{Metrics W} `{LLMKit Kit W}.
Record Source := {
  s_Name : gostring; s_Search : ctx → Results.Query → M W (result (list Result))
}.
Definition text_query (query : gostring) : Results.Query :=
  {| q_Text := query; q_Limit := 0; q_TimeRange := []; q_Language := []; q_Extra := ∅ |}.
(** [took_done]: whether the select takes the answer; [cerr] is the error of the source's context,
    which is done when the select takes the other branch. *)
Definition runPipelineSourceWithTimeout (took_done : bool) (name : gostring)
    (r : result (list Result)) (cerr : error) (d : Z) : pipelineSourceResult :=
  if took_done then
    match r with
    | Val rs => {| ps_name := name; ps_results := rs; ps_err := None; ps_dur := d |}
    | Err e => {| ps_name := name; ps_results := []; ps_err := Some e; ps_dur := d |}
    end
  else {| ps_name := name; ps_results := []; ps_err := Some cerr; ps_dur := d |}.

(** The state of a collection: how often the fan-out was cancelled, and the world. *)
Definition recordPipelineSourceResult (m : bool) (source out : gostring) : M (nat * W) () :=
  modify (prod_map id (if m then Incr (lit "source_result_total")
                                   [(lit "source", source); (lit "outcome", out)] else id)).
Definition collect_pipeline_step (m : bool) (earlyAt : Z) (c : list Result * bool)
    (r : pipelineSourceResult) : M (nat * W) (list Result * bool) :=
  let '(all, cancelled) := c in
  modify (prod_map id (if m then ObserveSeconds (lit "search_source_duration_seconds")
                                   [(lit "source", ps_name r)] (ps_dur r) else id));;
  match ps_err r with
  | Some _ => recordPipelineSourceResult m (ps_name r) (lit "fail");; mret (all, cancelled)
  | None =>
      recordPipelineSourceResult m (ps_name r) (lit "ok");;
      let all := all ++ ps_results r in
      if negb cancelled && (earlyAt <=? zlen all)
      then modify (prod_map S id);; mret (all, true) else mret (all, cancelled)
  end.
Fixpoint collect_pipeline_loop (m : bool) (earlyAt : Z) (c : list Result * bool)
    (ch : list pipelineSourceResult) : M (nat * W) (list Result * bool) :=
  match ch with
  | [] => mret c
  | r :: ch => c ← collect_pipeline_step m earlyAt c r; collect_pipeline_loop m earlyAt c ch
  end.
Definition collectPipelineResults (m : bool) (earlyAt : Z) (ch : list pipelineSourceResult)
    : M (nat * W) (list Result) :=
  c ← collect_pipeline_loop m earlyAt ([], false) ch; mret c.1.
(** The fan-out over the sources, on which [searchSources] is built: the branch of the select is the
    answer or the source's context, whose error is sent. *)
Definition pipeline_fan (m : bool) (earlyAt : Z) (query : gostring)
    : fan_ops W Source pipelineSourceResult (list Result * bool) (nat * W) :=
  {| fo_fn src cx := s_Search src cx (text_query query);
     fo_send b src r c d :=
       runPipelineSourceWithTimeout (match b with TookDone => true | TookCtx => false end)
         (s_Name src) r (match c with Some (e, _) => e | None => ErrMsg [] end) d;
     fo_timeout := CtxDeadlineExceeded;
     fo_none := ([], false);
     fo_receive := collect_pipeline_step m earlyAt;
     fo_enough c := c.2;
     fo_world := snd;
     fo_set_world w s := (s.1, w) |}.

(** ** The pipeline *)
Record Pipeline := {
  p_sources : list Source;
  p_fetchFn : option (ctx → gostring → M W (result gostring));
  p_extractor : option (ctx → gostring → option URL → M W (result gostring));  (* its Content *)
  p_chunker : option (gostring → outcome (list gostring));
  p_filter : option (list gostring → gostring → outcome (list gostring));
  p_llm : option (Client Kit);
  p_metrics : bool; p_maxConc : Z; p_maxTokens : Z; p_charsPerToken : float;
  p_perSourceTimeout : Z; p_earlyReturnAt : Z
}.
Definition POption : Type := Pipeline → Pipeline.
Definition default_pipeline : Pipeline :=
  {| p_sources := []; p_fetchFn := None; p_extractor := None; p_chunker := None; p_filter := None;
     p_llm := None; p_metrics := false; p_maxConc := 10; p_maxTokens := 4096;
     p_charsPerToken := DefaultCharsPerToken; p_perSourceTimeout := 0; p_earlyReturnAt := 0 |}.
Definition NewPipeline (opts : list POption) : Pipeline := foldl (λ p o, o p) default_pipeline opts.
Variable p : Pipeline.

(** What the channel delivers when these sources run under the per-source timeout: the order is the
    scheduler's. *)
Variable source_fan_out : ctx → Z → list Source → Results.Query → M W (list pipelineSourceResult).
Definition uncounted {A} (m : M (nat * W) A) : M W A :=
  λ w, let '(a, (_, w)) := m (O, w) in (a, w).
Definition per_source : Z :=
  if p_perSourceTimeout p =? 0 then defaultPipelinePerSourceTimeout else p_perSourceTimeout p.
Definition early_at : Z :=
  if p_earlyReturnAt p =? 0 then defaultPipelineEarlyReturnAt else p_earlyReturnAt p.
Definition searchSources (cx : ctx) (query : gostring) : M W (list Result) :=
  if decide (p_sources p = []) then mret [] else
  ch ← source_fan_out cx per_source (p_sources p) (text_query query);
  uncounted (collectPipelineResults (p_metrics p) early_at ch).

(** [buildFetchFn]: fetch, extract, chunk and filter one page. A panic of the chunker or the filter
    is recovered by the goroutine that runs this. *)
Definition panicked : call_outcome := Panicked (lit "runtime error").
Definition fetch_one (fetchFn : ctx → gostring → M W (result gostring))
    (extractor : ctx → gostring → option URL → M W (result gostring)) (query : gostring) (cx : ctx)
    (rawURL : gostring) : M W call_outcome :=
  r ← fetchFn cx rawURL;
  match r with
  | Err e => mret (Returned [] (Some e))
  | Val body =>
      x ← extractor cx body (Parse rawURL);
      match x with
      | Err e => mret (Returned [] (Some e))
      | Val content =>
          mret match p_chunker p with
               | None => Returned content None
               | Some chunk =>
                   match chunk content with
                   | Ok [] => Returned [] None
                   | Ok chunks =>
                       match (match p_filter p with Some f => f chunks query | None => Ok chunks end) with
                       | Ok chunks => Returned (Join chunks [10; 10]) None
                       | _ => panicked
                       end
                   | _ => panicked
                   end
               end
      end
  end.
(** The parallel fetch under some schedule: the results for the URLs, given what runs for each and
    the concurrency. *)
Variable parallel : (gostring → M W call_outcome) → nat → list gostring → M W (list FetchResult).

Definition contents_of (rs : list FetchResult) : gmap gostring gostring :=
  foldl (λ m r, if bool_decide (fr_Err r = None) && bool_decide (fr_Content r ≠ [])
                then <[fr_URL r := fr_Content r]> m else m) ∅ rs.
Definition fetch_contents (cx : ctx) (query : gostring) (urls : list gostring)
    : M W (gmap gostring gostring) :=
  match p_fetchFn p, p_extractor p, urls with
  | Some f, Some x, _ :: _ =>
      rs ← parallel (fetch_one f x query cx) (fetchConfig [p_maxConc p]) urls; mret (contents_of rs)
  | _, _, _ => mret ∅
  end.
Variables (pr : Prompts) (nfc : gostring → gostring) (TypeInstructions : QueryType → gostring).
Definition empty_output (query : gostring) : SearchOutput :=
  {| Query := query; so_Answer := []; so_Facts := []; so_Sources := None; LLMSkipped := false;
     DegradeReason := []; CoveredAspects := []; IteratedQueries := [] |}.
Definition lift_heap {A} (m : M W A) : M (heap * W) A :=
  λ hw, let '(a, w) := m hw.2 in (a, (hw.1, w)).
Definition in_heap {A} (f : heap → A * heap) : M (heap * W) A :=
  λ hw, let '(a, h) := f hw.1 in (a, (h, hw.2)).
Definition buildOutput (query : gostring) (out : StructuredOutput) (srcResults : list Result)
    : M (heap * W) (outcome (result SearchOutput)) :=
  o ← in_heap (BuildSearchOutput query out srcResults); mret (Ok (Val o)).
Definition Run (cx : ctx) (query : gostring) : M (heap * W) (outcome (result SearchOutput)) :=
  srcResults ← lift_heap (searchSources cx query);
  if decide (srcResults = []) then mret (Ok (Val (empty_output query))) else
  let urls := uniqueURLs srcResults in
  contents ← lift_heap (fetch_contents cx query urls);
  match p_llm p with
  | Some c =>
      r ← lift_heap (Summarize pr nfc TypeInstructions c cx query (p_maxTokens p)
                       (p_charsPerToken p) srcResults contents);
      match r with
      | Ok (Val out) => buildOutput query out srcResults
      | Ok (Err e) => mret (Ok (Err e))
      | Panic => mret Panic
      | OutOfFuel => mret OutOfFuel
      end
  | None => buildOutput query zero_StructuredOutput srcResults
  end.
End Pipeline.
