(* ===== verification/PipelineSpec.v ===== *)
(** What the pipeline promises: the unique URLs in first-seen order, the collection of the sources'
    answers with its one cancellation, the pages that reach the prompt, the output of a run, and
    what [FormatOutput] does to the caller's slice. *)
From S2P Require Import Prelude Unicode Utf8 GoStrings GoUrl Floats Json Effects Results Retry SearchEngines TextTools FactVerify Llm ParallelFetch Pipeline.
Local Open Scope Z_scope.

(** ** Unique URLs *)
Lemma unique_loop_app seen urls rs rs' :
  unique_loop seen urls (rs ++ rs') =
  unique_loop (seen ∪ list_to_set (r_URL <$> filter (λ r, r_URL r ≠ []) rs)) (unique_loop seen urls rs) rs'.
Proof.
  revert seen urls. induction rs as [|r rs IH]; intros seen urls; simpl.
  { f_equal. set_solver. }
  rewrite filter_cons. repeat case_decide; try done; simpl; rewrite IH; f_equal; set_solver.
Qed.
Lemma unique_loop_prefix seen urls rs : urls `prefix_of` unique_loop seen urls rs.
Proof.
  revert seen urls. induction rs as [|r rs IH]; intros seen urls; simpl; [done|].
  repeat case_decide; eauto. etrans; [|apply IH]. by apply prefix_app_r.
Qed.
(** The set [seen] is what the list holds. *)
Lemma unique_loop_wf seen urls rs :
  NoDup urls → (∀ u, u ∈ seen ↔ u ∈ urls) →
  NoDup (unique_loop seen urls rs) ∧
  ∀ u, u ∈ unique_loop seen urls rs ↔ u ∈ urls ∨ (u ≠ [] ∧ ∃ r, r ∈ rs ∧ r_URL r = u).
Proof.
  revert seen urls. induction rs as [|r rs IH]; intros seen urls Hd Hs; simpl; [set_solver|].
  repeat case_decide.
  - destruct (IH seen urls) as [H1 H2]; try done. split; [done|]. intros u. rewrite H2. set_solver.
  - destruct (IH seen urls) as [H1 H2]; try done. split; [done|]. intros u. rewrite H2. set_solver.
  - destruct (IH ({[r_URL r]} ∪ seen) (urls ++ [r_URL r])) as [H1 H2].
    { apply NoDup_app. set_solver by (apply NoDup_singleton || done). }
    { set_solver. }
    split; [done|]. intros u. rewrite H2. set_solver.
Qed.

(** The URLs that are not empty, each where it is first seen. *)
Fixpoint first_seen (results : list Result) : list gostring :=
  match results with
  | [] => []
  | r :: rs => if decide (r_URL r = []) then first_seen rs
               else r_URL r :: filter (λ u, u ≠ r_URL r) (first_seen rs)
  end.
Lemma unique_loop_first_seen seen urls rs :
  unique_loop seen urls rs = urls ++ filter (λ u, u ∉ seen) (first_seen rs).
Proof.
  revert seen urls. induction rs as [|r rs IH]; intros seen urls; simpl; [by rewrite app_nil_r|].
  destruct (decide (r_URL r = [])); [apply IH|]. rewrite filter_cons, list_filter_filter.
  destruct (decide (r_URL r ∈ seen)) as [Hin|Hin].
  - rewrite (decide_False (P := r_URL r ∉ seen)) by (intros Hn; by apply Hn). rewrite IH. f_equal.
    apply list_filter_iff. set_solver.
  - rewrite decide_True by done. rewrite IH, <- (assoc_L (++)). simpl. do 2 f_equal.
    apply list_filter_iff. set_solver.
Qed.
Lemma uniqueURLs_first_seen results : uniqueURLs results = first_seen results.
Proof.
  unfold uniqueURLs. rewrite unique_loop_first_seen. simpl. generalize (first_seen results).
  intros l. induction l as [|u l IH]; [done|]. rewrite filter_cons, decide_True by set_solver. by rewrite IH.
Qed.

(** [uniqueURLs] lists every non-empty URL of the results once and nothing else, and in the
    order they are first seen: the URLs of a prefix of the results are a prefix of the list. *)
Theorem uniqueURLs_spec results more :
  NoDup (uniqueURLs results) ∧
  (∀ u, u ∈ uniqueURLs results ↔ u ≠ [] ∧ ∃ r, r ∈ results ∧ r_URL r = u) ∧
  uniqueURLs results `prefix_of` uniqueURLs (results ++ more).
Proof.
  unfold uniqueURLs. destruct (unique_loop_wf ∅ [] results) as [H1 H2]; [apply NoDup_nil_2|set_solver|].
  split_and!; [done| |].
  - intros u. rewrite H2. set_solver.
  - rewrite unique_loop_app. apply unique_loop_prefix.
Qed.

(** ** Collecting the sources' answers *)
Section Collect.
Context {W : Type} `{Metrics W}.
Definition succeeded (r : pipelineSourceResult) : bool := bool_decide (ps_err r = None).
Definition ok_results (ch : list pipelineSourceResult) : list Result :=
  concat (ps_results <$> filter succeeded ch).
Definition source_metrics (w : W) (r : pipelineSourceResult) : W :=
  Incr (lit "source_result_total")
    [(lit "source", ps_name r);
     (lit "outcome", if succeeded r then lit "ok" else lit "fail")]
    (ObserveSeconds (lit "search_source_duration_seconds") [(lit "source", ps_name r)] (ps_dur r) w).
Definition pipeline_metrics (m : bool) (w : W) (ch : list pipelineSourceResult) : W :=
  if m then foldl source_metrics w ch else w.
(** Enough results, after at least one success. *)
Definition enough (earlyAt : Z) (n : nat) (ch : list pipelineSourceResult) : bool :=
  existsb succeeded ch && (earlyAt <=? Z.of_nat n + zlen (ok_results ch)).


(** How many cancellations take a collection from one flag to another. *)
Definition cancels (before after : bool) : nat := if negb before && after then 1 else 0.
Lemma cancels_trans a b c : (cancels a (a || b) + cancels (a || b) (a || b || c))%nat = cancels a (a || b || c).
Proof. by destruct a, b, c. Qed.
Definition step_results (r : pipelineSourceResult) : list Result :=
  if succeeded r then ps_results r else [].
Lemma ok_results_cons r ch : ok_results (r :: ch) = step_results r ++ ok_results ch.
Proof. unfold ok_results, step_results. rewrite filter_cons. by destruct (succeeded r). Qed.
Lemma collect_pipeline_step_spec m earlyAt all cancelled r n w :
  let reached := cancelled || succeeded r && (earlyAt <=? zlen (all ++ step_results r)) in
  collect_pipeline_step m earlyAt (all, cancelled) r (n, w) =
  ((all ++ step_results r, reached),
   ((n + cancels cancelled reached)%nat, if m then source_metrics w r else w)).
Proof.
  unfold collect_pipeline_step, recordPipelineSourceResult, source_metrics, step_results, succeeded.
  destruct (ps_err r); simpl.
  - rewrite app_nil_r. destruct cancelled, m; simpl; by rewrite Nat.add_0_r.
  - destruct cancelled, (earlyAt <=? _), m; unfold cancels; simpl;
      by rewrite ?Nat.add_0_r, ?Nat.add_1_r.
Qed.
Lemma no_success ch : existsb succeeded ch = false → ok_results ch = [].
Proof.
  induction ch as [|r ch IH]; [done|]. simpl. intros [Hr Hch]%orb_false_elim.
  rewrite ok_results_cons. unfold step_results. by rewrite Hr, IH.
Qed.
Lemma enough_cons earlyAt all r ch :
  enough earlyAt (length all) (r :: ch) =
  (succeeded r && (earlyAt <=? zlen (all ++ step_results r))) ||
  enough earlyAt (length (all ++ step_results r)) ch.
Proof.
  unfold enough. rewrite ok_results_cons. simpl. unfold step_results, zlen.
  destruct (succeeded r); rewrite ?app_nil_r, ?length_app; [simpl|done].
  destruct (existsb succeeded ch) eqn:E; simpl.
  - apply eq_true_iff_eq. rewrite orb_true_iff, !Z.leb_le. lia.
  - rewrite (no_success ch E), orb_false_r. simpl. by rewrite Nat.add_0_r, Nat2Z.inj_add.
Qed.
Lemma collect_pipeline_loop_spec m earlyAt ch all cancelled n w :
  let reached := cancelled || enough earlyAt (length all) ch in
  collect_pipeline_loop m earlyAt (all, cancelled) ch (n, w) =
  ((all ++ ok_results ch, reached),
   ((n + cancels cancelled reached)%nat, pipeline_metrics m w ch)).
Proof.
  revert all cancelled n w. induction ch as [|r ch IH]; intros all cancelled n w.
  { unfold enough, ok_results, pipeline_metrics, cancels. simpl.
    rewrite app_nil_r, orb_false_r. destruct cancelled, m; simpl; by rewrite Nat.add_0_r. }
  cbn [collect_pipeline_loop]. erewrite bind_eq by apply collect_pipeline_step_spec.
  cbv zeta. rewrite IH. cbv zeta. rewrite enough_cons, ok_results_cons, <- app_assoc, <- orb_assoc.
  rewrite orb_assoc, <- Nat.add_assoc, cancels_trans. by destruct m.
Qed.

(** the pipeline's collection keeps the results of the sources that succeeded, in the order
    they answer, and loses none of those that come after the threshold; the fan-out is cancelled
    exactly once when a success brings the total to the threshold, and never otherwise; each
    source is timed and counted once, as ok or as failed. *)
Theorem collectPipelineResults_spec m earlyAt ch n w :
  collectPipelineResults m earlyAt ch (n, w) =
  (ok_results ch,
   ((n + if existsb succeeded ch && (earlyAt <=? zlen (ok_results ch))%Z then 1 else 0)%nat,
    pipeline_metrics m w ch)).
Proof.
  unfold collectPipelineResults. erewrite bind_eq by apply collect_pipeline_loop_spec.
  unfold cancels, enough. simpl. by rewrite Z.add_0_l.
Qed.
End Collect.

(** ** [FormatOutput] and the caller's slice *)
Definition valid (h : heap) (s : slice_header) : Prop :=
  ∃ items, h !! sh_array s = Some items ∧ (sh_off s + sh_len s <= length items)%nat.
(** The array after its items from [off], [n] of them, are cleared. *)
Definition cleared (off n : nat) (items : list SourceItem) : list SourceItem :=
  take off items ++ (clear_snippet <$> take n (drop off items)) ++ drop (off + n) items.
Lemma clear_snippets_S s h n :
  foldl (clear_at s) h (seq 0 (S n)) = clear_at s (foldl (clear_at s) h (seq 0 n)) n.
Proof. by rewrite seq_S, foldl_snoc. Qed.
Lemma cleared_S off n items : (off + n < length items)%nat →
  alter clear_snippet (off + n)%nat (cleared off n items) = cleared off (S n) items.
Proof.
  intros Hn. destruct (lookup_lt_is_Some_2 items (off + n)%nat) as [x Hx]; [done|].
  unfold cleared. rewrite (drop_S items x (off + n)%nat Hx).
  rewrite (take_S_r (drop off items) n x) by by rewrite lookup_drop.
  rewrite fmap_app, !(assoc (++)), <- Nat.add_succ_r.
  assert (length (take off items ++ (clear_snippet <$> take n (drop off items))) = off + n)%nat as Hl.
  { rewrite length_app, length_fmap, !length_take, length_drop. lia. }
  rewrite <- Hl at 1. rewrite alter_app_r_alt by lia. rewrite Nat.sub_diag.
  by rewrite <- (assoc (++) _ _ (drop _ _)).
Qed.
Lemma clear_snippets_lookup s h items : h !! sh_array s = Some items →
  (sh_off s + sh_len s <= length items)%nat →
  clear_snippets s h = <[sh_array s := cleared (sh_off s) (sh_len s) items]> h.
Proof.
  intros Hh. unfold clear_snippets. induction (sh_len s) as [|n IH]; intros Hl.
  - unfold cleared. simpl. rewrite Nat.add_0_r, take_drop. by rewrite insert_id.
  - rewrite clear_snippets_S, IH by lia. unfold clear_at. rewrite alter_insert_eq.
    by rewrite cleared_S by lia.
Qed.
Lemma view_cleared off n k items : (off + n <= length items)%nat → (k <= n)%nat →
  take k (drop off (cleared off n items)) = clear_snippet <$> take k (drop off items).
Proof.
  intros Hl Hk. unfold cleared. rewrite drop_app_length' by (rewrite length_take; lia).
  rewrite take_app_le by (rewrite length_fmap, length_take, length_drop; lia).
  by rewrite <- fmap_take, take_take, Nat.min_l.
Qed.

Definition cut_answer (opts : OutputOpts) (a : gostring) : gostring :=
  if (0 <? MaxAnswerChars opts) && (MaxAnswerChars opts <? zlen a)
  then take (Z.to_nat (MaxAnswerChars opts)) a ++ lit "..." else a.
Definition kept_sources (opts : OutputOpts) (n : nat) : nat :=
  if 0 <? MaxSources opts then Nat.min (Z.to_nat (MaxSources opts)) n else n.
Definition trim_snippets (opts : OutputOpts) (items : list SourceItem) : list SourceItem :=
  if IncludeSnippets opts then items else clear_snippet <$> items.

(** The heap after the snippets are dealt with, seen through a shorter slice. *)
Lemma view_trimmed opts h s k : valid h s → (k <= sh_len s)%nat →
  view (if negb (IncludeSnippets opts) then clear_snippets s h else h)
    (Some {| sh_array := sh_array s; sh_off := sh_off s; sh_len := k |}) =
  trim_snippets opts (take k (view h (Some s))).
Proof.
  intros (items & Hh & Hl) Hk. unfold trim_snippets. destruct (IncludeSnippets opts); simpl.
  - by rewrite take_take, Nat.min_l.
  - rewrite (clear_snippets_lookup s h items) by done. rewrite lookup_insert_eq, Hh. simpl.
    rewrite view_cleared by done. by rewrite take_take, Nat.min_l.
Qed.
Lemma cut_answer_bound opts a :
  zlen (cut_answer opts a) <= (if 0 <? MaxAnswerChars opts then MaxAnswerChars opts + 3 else zlen a).
Proof.
  unfold cut_answer, zlen. destruct (0 <? _) eqn:H1; [simpl|done].
  destruct (MaxAnswerChars opts <? _) eqn:H2; [|lia]. rewrite length_app, length_take. simpl. lia.
Qed.

Lemma FormatOutput_unfold out opts h s : so_Sources out = Some s →
  FormatOutput out opts h =
  (set_sources (set_answer out (cut_answer opts (so_Answer out)))
     (Some {| sh_array := sh_array s; sh_off := sh_off s; sh_len := kept_sources opts (sh_len s) |}),
   if negb (IncludeSnippets opts) then clear_snippets s h else h).
Proof.
  intros Hs. unfold FormatOutput.
  assert ((if (0 <? MaxAnswerChars opts) && (MaxAnswerChars opts <? zlen (so_Answer out))
           then set_answer out (take (Z.to_nat (MaxAnswerChars opts)) (so_Answer out) ++ lit "...")
           else out) = set_answer out (cut_answer opts (so_Answer out))) as ->.
  { unfold cut_answer. case_match; by destruct out. }
  cbn [so_Sources set_answer]. rewrite Hs. cbn [slice_len fmap option_fmap option_map].
  f_equal. unfold kept_sources.
  destruct (Z.ltb_spec 0 (MaxSources opts)); simpl; [|destruct out, s; simpl in *; by subst].
  destruct (Z.ltb_spec (MaxSources opts) (Z.of_nat (sh_len s))); [by rewrite Nat.min_l by lia|].
  rewrite Nat.min_r by lia. destruct out, s; simpl in *; by subst.
Qed.

(** C20: the formatted output shows at most [MaxSources] of the sources, without their snippets
    unless they are asked for, and at most [MaxAnswerChars] bytes of the answer and an ellipsis;
    everything else passes through. The sources are not copied: the caller's own slice loses
    the snippets too, beyond the cut as well; other arrays are not touched. *)
Theorem FormatOutput_spec out opts h s :
  so_Sources out = Some s → valid h s →
  let '(o, h') := FormatOutput out opts h in
  view h' (so_Sources o) = trim_snippets opts (take (kept_sources opts (sh_len s)) (view h (Some s))) ∧
  view h' (Some s) = trim_snippets opts (view h (Some s)) ∧
  so_Answer o = cut_answer opts (so_Answer out) ∧
  zlen (so_Answer o) <= (if 0 <? MaxAnswerChars opts then MaxAnswerChars opts + 3
                         else zlen (so_Answer out)) ∧
  set_sources (set_answer o (so_Answer out)) (so_Sources out) = out ∧
  ∀ a, a ≠ sh_array s → h' !! a = h !! a.
Proof.
  intros Hs Hv. rewrite (FormatOutput_unfold _ _ _ s) by done.
  split_and!; simpl; [| |done|apply cut_answer_bound|by destruct out|].
  - apply view_trimmed; [done|]. unfold kept_sources. case_match; lia.
  - pose proof (view_trimmed opts h s (sh_len s) Hv (Nat.le_refl _)) as Hl.
    destruct s as [arr off n]. cbn [sh_array sh_off sh_len] in Hl. etrans; [exact Hl|]. f_equal. apply take_ge.
    simpl. rewrite length_take. lia.
  - intros a Ha. destruct (IncludeSnippets opts); [done|]. destruct Hv as (items & Hh & Hle).
    simpl. rewrite (clear_snippets_lookup s h items) by done. by rewrite lookup_insert_ne.
Qed.

(** Two of three sources are kept; the third loses its snippet all the same. *)
Definition demo_item (n : Z) : SourceItem :=
  {| si_Index := n; si_Title := lit "t"; si_URL := lit "u"; si_Snippet := lit "snip" |}.
Definition demo_heap : heap := {[ 0%nat := [demo_item 1; demo_item 2; demo_item 3] ]}.
Definition demo_slice : slice_header := {| sh_array := 0; sh_off := 0; sh_len := 3 |}.
Definition demo_output : SearchOutput :=
  {| Query := lit "q"; so_Answer := lit "an answer"; so_Facts := []; so_Sources := Some demo_slice;
     LLMSkipped := false; DegradeReason := []; CoveredAspects := []; IteratedQueries := [] |}.
Definition demo_opts : OutputOpts :=
  {| MaxAnswerChars := 4; MaxSources := 2; IncludeSnippets := false |}.
Lemma FormatOutput_spec_witness :
  valid demo_heap demo_slice ∧
  let '(o, h') := FormatOutput demo_output demo_opts demo_heap in
  view h' (so_Sources o) = clear_snippet <$> [demo_item 1; demo_item 2] ∧
  view h' (Some demo_slice) = clear_snippet <$> [demo_item 1; demo_item 2; demo_item 3].
Proof.
  assert (valid demo_heap demo_slice) as Hv by (eexists; split; [reflexivity|simpl; lia]).
  split; [exact Hv|].
  destruct (FormatOutput_spec demo_output demo_opts demo_heap demo_slice eq_refl Hv)
    as (H1 & H2 & _).
  split; [exact H1|exact H2].
Defined.

(** ** The pages that reach the prompt *)
Lemma contents_of_snoc rs r :
  contents_of (rs ++ [r]) =
  if bool_decide (fr_Err r = None) && bool_decide (fr_Content r ≠ [])
  then <[fr_URL r := fr_Content r]> (contents_of rs) else contents_of rs.
Proof. unfold contents_of. by rewrite foldl_snoc. Qed.
Lemma contents_of_lookup rs u c : NoDup (fr_URL <$> rs) →
  contents_of rs !! u = Some c ↔
  c ≠ [] ∧ {| fr_URL := u; fr_Content := c; fr_Err := None |} ∈ rs.
Proof.
  induction rs as [|r rs IH] using rev_ind; [set_solver|].
  rewrite fmap_app, NoDup_app. intros (Hd & Hn & _). specialize (IH Hd).
  assert (∀ c, {| fr_URL := u; fr_Content := c; fr_Err := None |} ∈ rs → u ≠ fr_URL r) as Hfresh.
  { intros c' Hc' ->. apply (Hn (fr_URL r)); [|set_solver].
    apply list_elem_of_fmap. eexists. by split; [|exact Hc']. }
  rewrite contents_of_snoc, elem_of_app, list_elem_of_singleton.
  destruct r as [ru rc re]. simpl in *.
  destruct (bool_decide (re = None) && bool_decide (rc ≠ [])) eqn:E.
  - apply andb_true_iff in E as [->%bool_decide_eq_true Hrc%bool_decide_eq_true].
    rewrite lookup_insert. case_decide as Hu; [subst u|]; naive_solver.
  - rewrite IH. apply andb_false_iff in E. rewrite !bool_decide_eq_false in E. naive_solver.
Qed.

(** C19: what the prompt gets for a URL, under every schedule of the parallel fetch of the unique
    URLs: exactly the non-empty text that the one fetch of that URL returned without an error. A
    URL of no result, a failed, panicked or empty fetch has no text. *)
Theorem contents_spec results cap l s rs u c :
  exec (uniqueURLs results) cap l (init (uniqueURLs results)) = Some s → ret s = Some rs →
  contents_of rs !! u = Some c ↔
  c ≠ [] ∧ ∃ i, uniqueURLs results !! i = Some u ∧ outcomes l i = [Returned c None].
Proof.
  intros Hi Hr. pose proof (returned_urls _ _ _ _ _ Hi Hr) as Hurls.
  destruct (returned_results _ _ _ _ _ Hi Hr) as [Hl Hat].
  rewrite contents_of_lookup, list_elem_of_lookup.
  2:{ rewrite Hurls. apply (unique_loop_wf ∅ [] results); [apply NoDup_nil_2|set_solver]. }
  split; intros [Hc (i & H1)]; (split; [done|]; exists i).
  - assert (uniqueURLs results !! i = Some u) as Hu
      by (rewrite <- Hurls, list_lookup_fmap, H1; done).
    split; [done|]. destruct (Hat i u Hu) as (o & Ho & Hx). rewrite H1 in Hx. rewrite Ho.
    destruct o; simplify_eq/=. done.
  - destruct H1 as [Hu Ho]. destruct (Hat i u Hu) as (o & Ho' & Hx). rewrite Ho in Ho'.
    by simplify_eq/=.
Qed.

Definition demo_results : list Result :=
  (λ u, {| r_Title := lit "t"; r_URL := u; r_Content := lit "snip"; r_Score := of_int 1;
           r_Metadata := ∅ |}) <$> [lit "a"; lit "b"; []; lit "a"].
Definition demo_fetches : list action :=
  [Spawn; Spawn; AcquireSem 1; Return 1 (Panicked (lit "boom")); ReleaseSem 1; WgDone 1;
   AcquireSem 0; Return 0 (Returned (lit "A") None); ReleaseSem 0; WgDone 0; Wait].
Definition demo_fetched : state :=
  default (init []) (exec (uniqueURLs demo_results) 1 demo_fetches (init (uniqueURLs demo_results))).
Lemma contents_spec_witness :
  ∃ rs, ret demo_fetched = Some rs ∧ contents_of rs !! lit "a" = Some (lit "A").
Proof.
  eexists. split; [vm_compute; reflexivity|].
  apply (contents_spec demo_results 1 demo_fetches demo_fetched); [vm_compute; reflexivity..|].
  split; [discriminate|]. exists 0%nat. split; vm_compute; reflexivity.
Defined.

(** ** A run *)
Lemma BuildSearchOutput_spec query out results h o h' :
  BuildSearchOutput query out results h = (o, h') →
  o = {| Query := query; so_Answer := Answer out; so_Facts := Facts out; so_Sources := so_Sources o;
         LLMSkipped := false; DegradeReason := []; CoveredAspects := []; IteratedQueries := [] |} ∧
  view h' (so_Sources o) = imap source_item results ∧
  ∀ a items, h !! a = Some items → h' !! a = Some items.
Proof.
  unfold BuildSearchOutput. intros [= <- <-]. case_decide as Hr; simpl; split; [done| |done|].
  - subst. split; [done|]. by intros.
  - rewrite lookup_insert_eq. simpl. rewrite drop_0. split.
    + apply take_ge. by rewrite length_imap.
    + intros a items Ha. rewrite lookup_insert_ne; [done|]. intros <-.
      apply elem_of_dom_2 in Ha. by apply is_fresh in Ha.
Qed.

(** A page of the URL with a text, and the text that is kept: the last one. *)
Definition good_page (u : gostring) (r : FetchResult) : Prop :=
  fr_URL r = u ∧ fr_Err r = None ∧ fr_Content r ≠ [].
#[local] Instance good_page_dec u r : Decision (good_page u r).
Proof. unfold good_page. apply _. Defined.
Lemma contents_of_last rs u : contents_of rs !! u = fr_Content <$> last (filter (good_page u) rs).
Proof.
  induction rs as [|r rs IH] using rev_ind; [done|]. rewrite contents_of_snoc, filter_app.
  rewrite filter_cons, filter_nil. destruct r as [ru rc re].
  destruct (bool_decide _ && bool_decide _) eqn:E.
  - apply andb_true_iff in E as [He%bool_decide_eq_true Hc%bool_decide_eq_true]. simpl in *.
    rewrite lookup_insert. destruct (decide (ru = u)) as [->|Hu].
    + rewrite decide_True by done. by rewrite last_snoc.
    + rewrite decide_False by (intros (? & _); done). by rewrite app_nil_r.
  - rewrite IH. apply andb_false_iff in E. rewrite !bool_decide_eq_false in E. simpl in *.
    rewrite decide_False; [by rewrite app_nil_r|]. intros (_ & ? & ?). simpl in *. naive_solver.
Qed.

Section Run.
Context {Kit W : Type} `{Clock W} `{Metrics W} `{LLMKit Kit W} (p : Pipeline (Kit := Kit) (W := W)).
Variable source_fan_out :
  ctx → Z → list (Source (W := W)) → Results.Query → M W (list pipelineSourceResult).
Variable parallel :
  (gostring → M W call_outcome) → nat → list gostring → M W (list FetchResult).
Variables (pr : Prompts) (nfc : gostring → gostring) (TypeInstructions : QueryType → gostring).
Notation Run := (Run p source_fan_out parallel pr nfc TypeInstructions).
Notation searchSources := (searchSources p source_fan_out).
Notation summarize := (Summarize pr nfc TypeInstructions).

(** The pages of the results: one parallel fetch of the distinct URLs, when there is something to
    fetch and extract them with, keeps for each URL the last text that is not empty and came
    without an error. *)
Definition pages_fetched (cx : ctx) (query : gostring) (results : list Result) (w : W)
    (contents : gmap gostring gostring) (w' : W) : Prop :=
  match p_fetchFn p, p_extractor p with
  | Some f, Some x =>
      if decide (first_seen results = []) then contents = ∅ ∧ w' = w else
      ∃ rs, parallel (fetch_one p f x query cx)
              (if 0 <? p_maxConc p then Z.to_nat (p_maxConc p) else 10) (first_seen results) w = (rs, w') ∧
        ∀ u, contents !! u = fr_Content <$> last (filter (good_page u) rs)
  | _, _ => contents = ∅ ∧ w' = w
  end.
Lemma fetch_contents_pages cx query results w contents w' :
  fetch_contents p parallel cx query (uniqueURLs results) w = (contents, w') →
  pages_fetched cx query results w contents w'.
Proof.
  unfold fetch_contents, pages_fetched. rewrite uniqueURLs_first_seen.
  destruct (p_fetchFn p) as [f|]; [|by intros [= <- <-]].
  destruct (p_extractor p) as [x|]; [|by intros [= <- <-]].
  destruct (first_seen results) as [|u us]; [by intros [= <- <-]|].
  change (fetchConfig [p_maxConc p]) with (if 0 <? p_maxConc p then Z.to_nat (p_maxConc p) else 10%nat).
  unfold mbind, M_bind, mret, M_ret. destruct (parallel _ _ (u :: us) w) as [rs w1] eqn:E. intros [= <- <-].
  rewrite decide_False by done. exists rs. split; [done|]. apply contents_of_last.
Qed.

(** The sources of an output: every result, numbered from 1, with its title, URL and snippet. *)
Definition lists_sources (items : list SourceItem) (results : list Result) : Prop :=
  length items = length results ∧
  ∀ i r, results !! i = Some r →
    items !! i = Some {| si_Index := Z.of_nat i + 1; si_Title := r_Title r; si_URL := r_URL r;
                         si_Snippet := r_Content r |}.
(** What a successful run gives. *)
Definition output_of (query : gostring) (out : StructuredOutput) (results : list Result) (h' : heap)
    (r : outcome (result SearchOutput)) : Prop :=
  ∃ o, r = Ok (Val o) ∧ Query o = query ∧ so_Answer o = Answer out ∧ so_Facts o = Facts out ∧
    LLMSkipped o = false ∧ DegradeReason o = [] ∧ CoveredAspects o = [] ∧ IteratedQueries o = [] ∧
    lists_sources (view h' (so_Sources o)) results.
Lemma buildOutput_spec query out results h (w : W) :
  let '(r, (h', w')) := buildOutput query out results (h, w) in
  (∀ a items, h !! a = Some items → h' !! a = Some items) ∧ w' = w ∧ output_of query out results h' r.
Proof.
  unfold buildOutput. destruct (BuildSearchOutput query out results h) as [o h'] eqn:Eo.
  erewrite bind_eq by (unfold in_heap; cbn [fst snd]; rewrite Eo; reflexivity).
  apply BuildSearchOutput_spec in Eo as (Ho & Hv & Hh). cbn. split; [done|]. split; [done|]. exists o.
  split; [done|]. rewrite Hv. split_and!; try by rewrite Ho.
  split; [apply length_imap|]. intros i r Hi. by rewrite list_lookup_imap, Hi.
Qed.

(** C18: a run that finds nothing gives an empty output and does not fetch or call the language
    model. Otherwise the pages of the distinct non-empty URLs, in the order first seen, are fetched
    once, in parallel, when there is something to fetch and extract them with, and the language
    model, when there is a client, is asked once about the results and the pages' texts; the run
    ends as it does: its error or panic is the run's, and on success the output carries the query,
    its answer and facts, and every result as a source, numbered from 1 in the order collected, with
    its title, URL and snippet. Without a client the answer and the facts are empty. The run
    writes no array that existed before it. *)
Theorem Run_spec cx query h w :
  let '(results, w1) := searchSources cx query w in
  let '(r, (h', w')) := Run cx query (h, w) in
  (∀ a items, h !! a = Some items → h' !! a = Some items) ∧
  if decide (results = []) then
    r = Ok (Val {| Query := query; so_Answer := []; so_Facts := []; so_Sources := None;
                   LLMSkipped := false; DegradeReason := []; CoveredAspects := [];
                   IteratedQueries := [] |}) ∧ h' = h ∧ w' = w1
  else ∃ contents w2, pages_fetched cx query results w1 contents w2 ∧
    match p_llm p with
    | None => output_of query {| Answer := []; Facts := [] |} results h' r ∧ w' = w2
    | Some c => ∃ said,
        summarize c cx query (p_maxTokens p) (p_charsPerToken p) results contents w2 = (said, w') ∧
        match said with
        | Ok (Val out) => output_of query out results h' r
        | Ok (Err e) => r = Ok (Err e)
        | Panic => r = Panic
        | OutOfFuel => r = OutOfFuel
        end
    end.
Proof.
  unfold Pipeline.Run. destruct (searchSources cx query w) as [results w1] eqn:E1.
  erewrite bind_eq by (unfold lift_heap; cbn [fst snd]; rewrite E1; reflexivity).
  cbn [fst]. case_decide as Hr; [done|].
  destruct (fetch_contents p parallel cx query (uniqueURLs results) w1) as [contents w2] eqn:E2.
  erewrite bind_eq by (unfold lift_heap; cbn [fst snd]; rewrite E2; reflexivity). cbn [fst].
  apply fetch_contents_pages in E2.
  destruct (p_llm p) as [c|].
  2:{ pose proof (buildOutput_spec query zero_StructuredOutput results h w2) as Hb.
      destruct (buildOutput _ _ _ _) as [r [h' w']]. destruct Hb as (Hh & -> & Ho).
      split; [done|]. by exists contents, w2. }
  destruct (summarize c cx query (p_maxTokens p) (p_charsPerToken p) results contents w2)
    as [ans w3] eqn:E3.
  erewrite bind_eq by (unfold lift_heap; cbn [fst snd]; rewrite E3; reflexivity). cbn [fst snd].
  destruct ans as [[out|e]| |];
    [|by split; [done|]; exists contents, w2; split; [done|]; eexists; split; [exact E3|]..].
  pose proof (buildOutput_spec query out results h w3) as Hb.
  destruct (buildOutput _ _ _ _) as [r [h' w']]. destruct Hb as (Hh & -> & Ho).
  split; [done|]. exists contents, w2. split; [done|]. by eexists; split; [exact E3|].
Qed.
End Run.
