(* ===== verification/PipelineFanout.v ===== *)
(** The fan-out of [searchSources] of package [pipeline] is one of [Fanout]: what every interleaving
    of the sources collects, and that it ends. *)
From S2P Require Import Prelude Unicode Utf8 GoStrings GoUrl Floats Json Effects Results Retry SearchEngines TextTools FactVerify Llm ParallelFetch Fanout FanoutLemmas Pipeline PipelineSpec.
Local Open Scope Z_scope.

Section PipelineFan.
Context {Kit W : Type} `{Clock W} `{Metrics W}.
Notation Source := (Source (W := W)).
Notation leg := (leg (J := Source) (R := pipelineSourceResult)).
Notation fan_state :=
  (fan_state (J := Source) (R := pipelineSourceResult) (C := list Result * bool) (St := nat * W)).
Variables (m : bool) (earlyAt : Z) (query : gostring) (caller : ctx) (perSrc : Z) (cap : nat).
Notation K := (pipeline_fan m earlyAt query).

(** What a pipeline has collected from [got]. *)
Definition pipeline_spec (got : list pipelineSourceResult) (s0 : nat * W) (c : list Result * bool)
    (s : nat * W) : Prop :=
  c = (ok_results got, enough earlyAt 0 got) ∧ s.1 = (s0.1 + if c.2 then 1 else 0)%nat.
Lemma ok_results_snoc got r : ok_results (got ++ [r]) = ok_results got ++ step_results r.
Proof using Type.
  unfold ok_results, step_results. rewrite filter_app, fmap_app, concat_app, filter_cons, filter_nil.
  destruct (succeeded r); simpl; by rewrite ?app_nil_r.
Qed.
Lemma enough_snoc got r :
  enough earlyAt 0 (got ++ [r]) =
  enough earlyAt 0 got || succeeded r && (earlyAt <=? zlen (ok_results got ++ step_results r)).
Proof using Type.
  unfold enough. rewrite ok_results_snoc, existsb_app. simpl. unfold step_results.
  destruct (succeeded r); rewrite ?orb_false_r, ?app_nil_r; [|done].
  rewrite orb_true_r, zlen_app. simpl. pose proof (zlen_nonneg (ps_results r)).
  destruct (existsb succeeded got); simpl; [|done].
  apply eq_true_iff_eq. rewrite orb_true_iff, !Z.leb_le. lia.
Qed.
Lemma pipeline_laws : fan_laws K pipeline_spec.
Proof using Type.
  split; try done.
  intros got s0 c [n w] r [-> Hn]. simpl in Hn. change (fo_receive K) with (collect_pipeline_step m earlyAt).
  rewrite collect_pipeline_step_spec. cbv zeta. unfold pipeline_spec. cbn [fst snd].
  rewrite ok_results_snoc, enough_snoc. split; [done|]. rewrite Hn. unfold cancels.
  destruct (enough earlyAt 0 got), (succeeded r && _); simpl; lia.
Qed.

(** What a received result can be: the answer of its source's function, its error, or the end of the
    source's context, its own timer's or the common one. *)
Definition ps_arrival (done : option ended) (l : leg) (r : pipelineSourceResult) : Prop :=
  ps_name r = s_Name (l_job l) ∧
  match ps_err r with
  | None => l_fn l = Some (Val (ps_results r))
  | Some e => ps_results r = [] ∧
      (l_fn l = Some (Err e) ∨ e = CtxDeadlineExceeded ∨ ∃ c, done = Some c ∧ e = c.1)
  end.
Lemma ps_send_arrival done (l : leg) b fr c d :
  ready b c (l_fn l) = Some fr → c = None ∨ c = Some (timed_out K) ∨ c = done →
  ps_arrival done l (fo_send K b (l_job l) fr c d).
Proof using Type.
  intros Hready Hc. unfold ps_arrival. destruct b; simpl in *.
  - destruct fr; simpl; [done|]. by repeat split; left.
  - destruct c as [[e cause]|]; [|done]. simpl. split; [done|]. split; [done|]. right.
    destruct Hc as [?|[[= -> ->]| <-]]; [done|by left|]. right. by exists (e, cause).
Qed.
End PipelineFan.

Section Theorems.
Context {Kit W : Type} `{Clock W} `{Metrics W} `{LLMKit Kit W}.
Variables (p : Pipeline (Kit := Kit) (W := W)) (query : gostring) (caller : ctx).
(** The fan-out of [searchSources]: the channel has room for every source. *)
Notation K := (pipeline_fan (p_metrics p) (early_at p) query).
Notation cap := (length (p_sources p)).
Notation frun := (frun K caller (per_source p) cap).
Notation fstep := (fstep K caller (per_source p) cap).
Notation fan_start w := (fanout_init K caller (p_sources p) (O, w)).

(** C9: Every interleaving of the sources of a pipeline - their goroutines, timers, the end of the
    caller's context and the collection that may cancel the rest - that has finished has received
    one result from each source, and [searchSources] returns the results of those that
    succeeded, in the order of arrival; the rest was cancelled at most once, exactly when a success
    had brought the results to the threshold. A received result is the answer or the error of
    its own source's function, or carries no results and the error its context ended with. *)
Theorem pipeline_fan_out w ls s :
  frun ls (fan_start w) = Some s → finished s = true →
  ps_name <$> f_got s ≡ₚ s_Name <$> p_sources p ∧
  (searchSources p (λ _ _ _ _ w, (f_got s, w)) caller query w).1 = (f_col s).1 ∧
  (f_col s).1 = ok_results (f_got s) ∧
  (f_cs s).1 = (if enough (early_at p) 0 (f_got s) then 1 else 0)%nat ∧
  ∀ r, r ∈ f_got s → ∃ l, l ∈ f_legs s ∧ ps_arrival (f_done s) l r.
Proof.
  intros Hrun%(run_any _ _ (pipeline_laws _ _ _)) Hfin.
  pose proof (inv_col _ _ _ _ _ _ _ Hrun) as [Hcol Hn]. rewrite Hcol in Hn. simpl in Hn.
  assert (ps_name <$> f_got s ≡ₚ s_Name <$> p_sources p) as Hnames.
  { revert Hrun Hfin. apply finished_sent. intros b j fr c d. by destruct b, fr, c as [[]|]. }
  split_and!; [done| |by rewrite Hcol|done|].
  - rewrite Hcol. unfold searchSources. case_decide as Hp.
    + rewrite Hp in Hnames. symmetry in Hnames. apply Permutation_nil in Hnames.
      apply fmap_nil_inv in Hnames. by rewrite Hnames.
    + unfold mbind, M_bind, uncounted. by rewrite collectPipelineResults_spec.
  - intros r Hr. destruct (got_sent _ _ _ _ _ _ _ _ Hrun Hr) as (l & b & fr & c & d & Hl & -> & Hb & Hc).
    exists l. split; [done|]. by apply ps_send_arrival.
Qed.

(** [searchSources] returns whatever its sources do: a run of its fan-out is bounded, and from
    every state it can reach it can go on to its end without a source ever answering and
    without the caller's cancelling, only by letting time pass. Once enough results are in, or
    the caller's context has ended, it ends without time passing. *)
Theorem pipeline_fan_out_returns w ls s :
  (∀ w t, ∃ w', now w <= now w' ∧ t <= now w') → frun ls (fan_start w) = Some s →
  (length (filter (λ lb, negb (is_world lb)) ls) <= 5 * cap + 1)%nat ∧
  (∃ ls' s', Forall (λ lb, on_its_own lb = true) ls' ∧ frun ls' s = Some s' ∧ finished s' = true) ∧
  ∀ ls' s', (f_col s).2 = true ∨ is_Some (f_done s) →
    Forall (λ lb, prompt lb = true) ls' → frun ls' s = Some s' →
    (∀ lb, prompt lb = true → fstep lb s' = None) → finished s' = true.
Proof.
  intros Hclock Hrun.
  destruct (legs_return _ _ (pipeline_laws _ _ _) _ _ _ _ _ _ _ Hclock (le_n _) Hrun) as [Hb He].
  split_and!; [done..|]. intros ls' s' Hd Hp Hr Hm.
  by apply (legs_early_return _ _ (pipeline_laws _ _ _) _ _ _ _ _ _ _ _ _ (le_n _) Hrun Hd Hp Hr Hm).
Qed.
End Theorems.

(** ** Two sources: the first answers, the second never does *)
Section Demo.
#[local] Instance demo_clock : Clock Z := {|
  now w := w; ctx_err _ _ := None; wait_or_done _ d w := (None, w + d); random w := (fzero, w);
  retry_hook _ _ _ _ w := w
|}.
#[local] Instance demo_metrics : Metrics Z :=
  {| Incr := λ _ _ w, w; ObserveSeconds := λ _ _ _ w, w; GaugeAdd := λ _ _ w, w |}.
Definition demo_pipeline (early : Z) : Pipeline (Kit := unit) (W := Z) :=
  {| p_sources := [{| s_Name := lit "web"; s_Search := λ _ _, mret (Val [zero_Result; zero_Result]) |};
                   {| s_Name := lit "forum"; s_Search := λ _ _, mret (Val [zero_Result]) |}];
     p_fetchFn := None; p_extractor := None; p_chunker := None; p_filter := None; p_llm := None;
     p_metrics := true; p_maxConc := 10; p_maxTokens := 4096; p_charsPerToken := DefaultCharsPerToken;
     p_perSourceTimeout := 0; p_earlyReturnAt := early |}.
Definition demo_caller : ctx := Ctx (Some (60 * Second)) 0.
Definition demo_fan early := pipeline_fan true (early_at (demo_pipeline early)) (lit "q").
Definition demo_run early :=
  frun (demo_fan early) demo_caller (per_source (demo_pipeline early)) 2.
Definition demo_start := fanout_init (demo_fan 0) demo_caller (p_sources (demo_pipeline 0)) (O, 0).
Definition slow_forum : list (move (W := Z)) :=
  [LStart 1; LStart 0; LFn 0; LSend 0 TookDone; LRecv; LWorld (7 * Second); LTimeout 1;
   LSend 1 TookCtx; LFn 1; LRecv].
Definition first_answers : list (move (W := Z)) := [LStart 0; LStart 1; LFn 0; LSend 0 TookDone; LRecv].

Lemma pipeline_fan_out_witness : ∃ s,
  demo_run 0 slow_forum demo_start = Some s ∧ ps_err <$> f_got s = [None; Some CtxDeadlineExceeded] ∧
  (searchSources (demo_pipeline 0) (λ _ _ _ _ w, (f_got s, w)) demo_caller (lit "q") 0).1 = (f_col s).1 ∧
  length (f_col s).1 = 2%nat.
Proof.
  eexists. split; [vm_compute; reflexivity|]. split; [vm_compute; reflexivity|].
  match goal with |- (searchSources _ (λ _ _ _ _ w, (f_got ?s, w)) _ _ _).1 = _ ∧ _ =>
    pose proof (pipeline_fan_out (demo_pipeline 0) (lit "q") demo_caller 0 slow_forum s eq_refl eq_refl)
      as (_ & Hc & _) end.
  split; [exact Hc|vm_compute; reflexivity].
Defined.
Lemma pipeline_fan_out_returns_witness : ∃ s,
  demo_run 2 first_answers demo_start = Some s ∧ finished s = false ∧
  ∃ ls' s', Forall (λ lb, on_its_own lb = true) ls' ∧ demo_run 2 ls' s = Some s' ∧ finished s' = true.
Proof.
  eexists. split; [vm_compute; reflexivity|]. split; [vm_compute; reflexivity|].
  refine (proj1 (proj2 (pipeline_fan_out_returns (demo_pipeline 2) (lit "q") demo_caller 0 first_answers _ _ _))).
  - intros w t. exists (Z.max w t). cbn. lia.
  - vm_compute. reflexivity.
Defined.
End Demo.
