(* ===== verification/ApiClient.v ===== *)
(** Package [sources]: the JSON API client ([apiclient.go]) and its authentication ([auth.go]). The
    network and the token bucket of golang.org/x/time/rate are operations on the world. *)
From S2P Require Import Prelude Unicode Utf8 GoStrings GoUrl Floats Json JsonEnc Effects Http.
Local Open Scope Z_scope.

Definition defaultClientTimeout : Z := 30 * Second.
Definition maxErrorBodyBytes : nat := 512.

(** ** Authentication *)
(** [Header.Set]: the value replaces what the header had. *)
Definition header_set (k v : gostring) (req : HttpRequest) : HttpRequest :=
  {| rq_method := rq_method req; rq_url := rq_url req;
     rq_headers := filter (λ kv, kv.1 ≠ k) (rq_headers req) ++ [(k, v)]; rq_body := rq_body req |}.
Inductive AuthMethod := NoAuthMethod | BearerAuth (token : gostring).
Definition Apply (a : AuthMethod) (req : HttpRequest) : HttpRequest :=
  match a with
  | NoAuthMethod => req
  | BearerAuth token => header_set (lit "Authorization") (lit "Bearer " ++ token) req
  end.

(** ** Reading a reply *)
(** A reply, its body as a stream: the bytes that arrive, and how reading them ends, at the end of
    the body or in an error. *)
Record ApiReply := { ap_status : Z; ap_data : gostring; ap_end : option error }.
(** The first value of a stream, for [json.Decoder]: what follows it is not looked at. A literal
    or a string is only known to be complete by the byte after it, or the end of the body; a zero
    ends the number it starts. *)
Definition closed (j : json) : bool := match j with JObj _ | JArr _ => true | _ => false end.
Definition first_value (s : gostring) (stop : option error) : option json :=
  match (match skip_ws s with
         | 48 :: ((d :: _) as r) => if between 48 57 d then Some (JNum [48], r)
                                  else read_value (2 * length s + 2) s
         | 45 :: 48 :: ((d :: _) as r) => if between 48 57 d then Some (JNum [45; 48], r)
                                        else read_value (2 * length s + 2) s
         | _ => read_value (2 * length s + 2) s
         end) with
  | Some (j, rest) =>
      if closed j || bool_decide (rest ≠ []) || bool_decide (stop = None) then Some j else None
  | None => None
  end.
Definition Decode {A} (dest : A) (d : dec A) (resp : ApiReply) : result A :=
  match first_value (ap_data resp) (ap_end resp) with
  | None => Err (default (ErrMsg []) (ap_end resp))
  | Some j => match d dest j with Some a => Val a | None => Err (ErrMsg []) end
  end.

Section APIClient.
Context {W : Type}.
Variable http_Stream : ctx → HttpRequest → M W (result ApiReply).
(** [limiter]: waiting for a token, where one is set. *)
Record APIClient := {
  base : gostring; auth : AuthMethod; limiter : option (ctx → M W (option error))
}.
Definition NewAPIClient (base : gostring) (opts : list (APIClient → APIClient)) : APIClient :=
  foldl (λ a o, o a) {| base := base; auth := NoAuthMethod; limiter := None |} opts.
Definition WithAuth (m : AuthMethod) (a : APIClient) : APIClient :=
  {| base := base a; auth := m; limiter := limiter a |}.
Definition WithRateLimit (l : option (ctx → M W (option error))) (a : APIClient) : APIClient :=
  {| base := base a; auth := auth a; limiter := l |}.

(** [do]: the error of a refused reply shows the start of its body, trimmed. *)
Definition api_do {A} (a : APIClient) (cx : ctx) (req : HttpRequest) (dest : A) (d : dec A)
    : M W (result A) :=
  let req := Apply (auth a) req in
  wait ← match limiter a with None => mret None | Some wait => wait cx end;
  match wait with
  | Some e => mret (Err (Wrapped (lit "sources: rate limit") e))
  | None =>
      r ← http_Stream cx req;
      mret match r with
           | Err e => Err (Wrapped (lit "sources: request") e)
           | Val resp =>
               if (ap_status resp <? 200) || (300 <=? ap_status resp) then
                 Err (ErrMsg (lit "sources: HTTP " ++ Itoa (ap_status resp) ++ lit ": " ++
                              TrimSpace (take maxErrorBodyBytes (ap_data resp))))
               else match Decode dest d resp with
                    | Err e => Err (Wrapped (lit "sources: decode response") e)
                    | Val v => Val v
                    end
           end
  end.
Definition build_request {A} (req : option HttpRequest) (k : HttpRequest → M W (result A))
    : M W (result A) :=
  match req with
  | None => mret (Err (Wrapped (lit "sources: build request") (ErrMsg [])))
  | Some req => k req
  end.
(** The parameters, each key with its values. *)
Definition Get_ {A} (a : APIClient) (cx : ctx) (path : gostring)
    (params : list (gostring * list gostring)) (dest : A) (d : dec A) : M W (result A) :=
  let target := base a ++ path in
  let target := match params with
                | [] => target
                | _ => target ++ lit "?" ++
                       EncodeQuery (params ≫= λ kvs, (λ v, (kvs.1, v)) <$> kvs.2)
                end in
  build_request (NewRequest (lit "GET") target [] []) (λ req, api_do a cx req dest d).
Definition Post {A} (a : APIClient) (cx : ctx) (path : gostring) (body : json) (dest : A) (d : dec A)
    : M W (result A) :=
  build_request
    (NewRequest (lit "POST") (base a ++ path) [(lit "Content-Type", lit "application/json")] (Marshal body))
    (λ req, api_do a cx req dest d).

(** ** A call goes round *)
(** An object is read from a stream as soon as it is closed. *)
Lemma first_value_object kvs rest stop : plain (JObj kvs) →
  first_value (Marshal (JObj kvs) ++ rest) stop = Some (sanitized (JObj kvs)).
Proof.
  intros Hp. unfold first_value. rewrite skip_ws_Marshal by done.
  assert (∃ t, Marshal (JObj kvs) = 123 :: t) as (t & Et) by (eexists; reflexivity).
  assert (read_value (2 * length (Marshal (JObj kvs) ++ rest) + 2) (Marshal (JObj kvs) ++ rest) =
          Some (sanitized (JObj kvs), rest)) as Hr.
  { replace (2 * length (Marshal (JObj kvs) ++ rest) + 2)%nat
      with (S (2 * length (Marshal (JObj kvs) ++ rest) + 1)) by lia.
    apply reads_object; [|done|rewrite length_app; lia].
    apply Forall_forall. intros kv _. apply reads_all. }
  revert Hr. rewrite Et. cbn [app]. intros ->. done.
Qed.
Lemma Decode_object {A} (dest : A) d status kvs rest stop : plain (JObj kvs) →
  Decode dest d {| ap_status := status; ap_data := Marshal (JObj kvs) ++ rest; ap_end := stop |} =
  match d dest (sanitized (JObj kvs)) with Some v => Val v | None => Err (ErrMsg []) end.
Proof. intros. unfold Decode. cbn [ap_data ap_end]. by rewrite first_value_object. Qed.

Definition waits (a : APIClient) (cx : ctx) : M W (option error) :=
  match limiter a with None => mret None | Some wait => wait cx end.
Definition post_request (a : APIClient) (path : gostring) (body : json) : HttpRequest :=
  Apply (auth a) {| rq_method := lit "POST"; rq_url := base a ++ path;
                    rq_headers := [(lit "Content-Type", lit "application/json")];
                    rq_body := Marshal body |}.
(** a call goes round: the body of the request reads back as the value that was posted, under its
    content type and the client's credentials; and an object in a reply of the 200s is decoded,
    whatever follows it and even if the body then breaks off. Without a token nothing is sent. *)
Theorem Post_roundtrip {A} (a : APIClient) cx path body (dest : A) d w w1 :
  Parse (base a ++ path) ≠ None → plain body →
  parse_json (rq_body (post_request a path body)) = Some (sanitized body) ∧
  (lit "Content-Type", lit "application/json") ∈ rq_headers (post_request a path body) ∧
  (∀ token, auth a = BearerAuth token →
     (lit "Authorization", lit "Bearer " ++ token) ∈ rq_headers (post_request a path body)) ∧
  (∀ e, waits a cx w = (Some e, w1) →
     Post a cx path body dest d w = (Err (Wrapped (lit "sources: rate limit") e), w1)) ∧
  (∀ status kvs rest stop w2, waits a cx w = (None, w1) → 200 <= status < 300 → plain (JObj kvs) →
     http_Stream cx (post_request a path body) w1 =
       (Val {| ap_status := status; ap_data := Marshal (JObj kvs) ++ rest; ap_end := stop |}, w2) →
     Post a cx path body dest d w =
       (match d dest (sanitized (JObj kvs)) with
        | Some v => Val v
        | None => Err (Wrapped (lit "sources: decode response") (ErrMsg []))
        end, w2)).
Proof.
  intros Hu Hb. split_and!.
  - replace (rq_body (post_request a path body)) with (Marshal body) by (unfold post_request; by destruct (auth a)).
    by apply parse_Marshal.
  - unfold post_request. destruct (auth a); cbn [Apply header_set rq_headers]; [set_solver|].
    apply elem_of_app. left. apply list_elem_of_filter. split; [by vm_compute|set_solver].
  - intros token Ha. unfold post_request. rewrite Ha. cbn [Apply header_set rq_headers]. set_solver.
  - intros e Hw. unfold Post, build_request, NewRequest, api_do. destruct (Parse _); [|done].
    fold (waits a cx). unfold mbind, M_bind. by rewrite Hw.
  - intros status kvs rest stop w2 Hw Hs Hp Hh. unfold Post, build_request, NewRequest, api_do.
    destruct (Parse _); [|done]. fold (waits a cx). unfold mbind, M_bind. rewrite Hw.
    fold (post_request a path body). rewrite Hh. unfold mret, M_ret. cbn [ap_status].
    rewrite (proj2 (Z.ltb_ge _ _)), (proj2 (Z.leb_gt _ _)) by lia. cbn [orb].
    rewrite Decode_object by done. by destruct (d dest _).
Qed.
End APIClient.
