(* ===== verification/SearXNG.v ===== *)
(** SearXNG: the client of package [websearch] ([searxng.go]) and its counted wrapper in package
    [search] ([searxng.go]). The HTTP client is a field, as in the code. *)
From S2P Require Import Prelude Unicode Utf8 GoStrings GoUrl Floats Json JsonEnc Effects Results Retry Serp SearchEngines Http ApiClient.
Local Open Scope Z_scope.

(** ** Query values: [Values.Set] replaces what the key had *)
Definition ValuesSet (q : list (gostring * gostring)) (k v : gostring) : list (gostring * gostring) :=
  filter (λ kv, kv.1 ≠ k) q ++ [(k, v)].

(** ** The answer *)
Definition languageAll : gostring := lit "all".
(** [Metadata] is a raw message: any value. *)
Record searxngRawResult := {
  sr_Title : gostring; sr_URL : gostring; sr_Content : gostring; sr_Score : float;
  sr_Engines : list gostring; sr_Metadata : json
}.
Definition zero_raw : searxngRawResult :=
  {| sr_Title := []; sr_URL := []; sr_Content := []; sr_Score := fzero; sr_Engines := [];
     sr_Metadata := JNull |}.
Definition dec_raw : dec json := λ _ j, Some j.
Definition dec_searxngRawResult : dec searxngRawResult := dec_struct (λ p kvs,
  t ← field (lit "title") dec_string (sr_Title p) kvs;
  u ← field (lit "url") dec_string (sr_URL p) kvs;
  c ← field (lit "content") dec_string (sr_Content p) kvs;
  s ← field (lit "score") dec_float (sr_Score p) kvs;
  e ← field (lit "engines") (dec_list [] dec_string) (sr_Engines p) kvs;
  m ← field (lit "metadata") dec_raw (sr_Metadata p) kvs;
  Some {| sr_Title := t; sr_URL := u; sr_Content := c; sr_Score := s; sr_Engines := e; sr_Metadata := m |}).
Definition dec_searxngResponse : dec (list searxngRawResult) := dec_struct (λ p kvs,
  field (lit "results") (dec_list zero_raw dec_searxngRawResult) p kvs).
(** Decoding an object into a map of strings, its error ignored: a value that is no string leaves
    the empty string. Nothing else is decoded. *)
Definition raw_metadata (j : json) : gmap gostring gostring :=
  match j with
  | JObj kvs => foldl (λ m kv, <[kv.1 := match kv.2 with JStr s => s | _ => [] end]> m) ∅ kvs
  | _ => ∅
  end.
Definition to_result (sr : searxngRawResult) : Result :=
  MkResult (sr_Title sr) (sr_URL sr) (sr_Content sr) (sr_Score sr) (raw_metadata (sr_Metadata sr)).
Definition toResults (r : list searxngRawResult) : list Result := to_result <$> r.

(** ** The client *)
Section SearXNG.
Context {W : Type}.
Notation http_client := (ctx → HttpRequest → M W (result ApiReply)).
Record SearXNG := { sx_baseURL : gostring; sx_httpClient : http_client; sx_maxResults : Z }.
Definition WithSearXNGHTTPClient (c : http_client) (s : SearXNG) : SearXNG :=
  {| sx_baseURL := sx_baseURL s; sx_httpClient := c; sx_maxResults := sx_maxResults s |}.
Definition WithSearXNGMaxResults (n : Z) (s : SearXNG) : SearXNG :=
  {| sx_baseURL := sx_baseURL s; sx_httpClient := sx_httpClient s; sx_maxResults := n |}.
Definition NewSearXNG (DefaultClient : http_client) (baseURL : gostring) (opts : list (SearXNG → SearXNG))
    : SearXNG :=
  foldl (λ s o, o s) {| sx_baseURL := baseURL; sx_httpClient := DefaultClient; sx_maxResults := 0 |} opts.

Definition searxng_params (q : list (gostring * gostring))
    (query language timeRange engines categories : gostring) : list (gostring * gostring) :=
  let q := ValuesSet q (lit "q") query in
  let q := ValuesSet q (lit "format") (lit "json") in
  let q := if bool_decide (language ≠ []) && bool_decide (language ≠ languageAll)
           then ValuesSet q (lit "language") language else q in
  let q := if decide (timeRange = []) then q else ValuesSet q (lit "time_range") timeRange in
  let q := if decide (engines = []) then q else ValuesSet q (lit "engines") engines in
  if decide (categories = []) then q else ValuesSet q (lit "categories") categories.
Definition searxng_url (baseURL query language timeRange engines categories : gostring)
    : option gostring :=
  u ← Parse (baseURL ++ lit "/search");
  Some (URLString (set_RawQuery u
    (EncodeQuery (searxng_params (GoUrl.Query u) query language timeRange engines categories)))).
Definition searxng_classify (r : result ApiReply) : result (list Result) :=
  match r with
  | Err e => Err (Wrapped (lit "searxng http") e)
  | Val resp =>
      if negb (ap_status resp =? StatusOK) then
        Err (ErrMsg (lit "searxng HTTP " ++ Itoa (ap_status resp) ++ lit ": " ++ ap_data resp))
      else match Decode [] dec_searxngResponse resp with
           | Err e => Err (Wrapped (lit "searxng json") e)
           | Val data => Val (toResults data)
           end
  end.
Definition SearchAdvanced (s : SearXNG) (cx : ctx) (query language timeRange engines categories : gostring)
    : M W (result (list Result)) :=
  match searxng_url (sx_baseURL s) query language timeRange engines categories with
  | None => mret (Err (Wrapped (lit "searxng") (ErrMsg [])))
  | Some u =>
      match NewRequest (lit "GET") u [(lit "X-Forwarded-For", lit "127.0.0.1")] [] with
      | None => mret (Err (Wrapped (lit "searxng request") (ErrMsg [])))
      | Some req => r ← sx_httpClient s cx req; mret (searxng_classify r)
      end
  end.
Definition SearXNG_Search (s : SearXNG) (cx : ctx) (query : gostring) (opts : SearchOpts)
    : M W (result (list Result)) :=
  r ← SearchAdvanced s cx query (Language opts) (TimeRange opts) (Engines opts) [];
  mret match r with
       | Err e => Err e
       | Val results =>
           let limit := if Limit opts =? 0 then sx_maxResults s else Limit opts in
           Val (applyLimit results limit)
       end.

(** ** Package [search]: the same client with a registry, which may be nil *)
Record searxngConfig := { sc_httpClient : option http_client; sc_metrics : bool }.
Definition WithHTTPClient (c : http_client) (cfg : searxngConfig) : searxngConfig :=
  {| sc_httpClient := Some c; sc_metrics := sc_metrics cfg |}.
Definition WithMetrics (m : bool) (cfg : searxngConfig) : searxngConfig :=
  {| sc_httpClient := sc_httpClient cfg; sc_metrics := m |}.
Record SearchSearXNG := { inner : SearXNG; sx_metrics : bool }.
Definition NewSearchSearXNG (DefaultClient : http_client) (baseURL : gostring)
    (opts : list (searxngConfig → searxngConfig)) : SearchSearXNG :=
  let cfg := foldl (λ c o, o c) {| sc_httpClient := None; sc_metrics := false |} opts in
  let wsOpts := match sc_httpClient cfg with Some c => [WithSearXNGHTTPClient c] | None => [] end in
  {| inner := NewSearXNG DefaultClient baseURL wsOpts; sx_metrics := sc_metrics cfg |}.
Context `{Metrics W}.
Definition SearchQuery (s : SearchSearXNG) (cx : ctx) (q : Query) : M W (result (list Result)) :=
  when (sx_metrics s) (Incr (lit "search_requests_total") []);;
  let extra k := default [] (q_Extra q !! k) in
  SearchAdvanced (inner s) cx (q_Text q) (q_Language q) (q_TimeRange q) (extra (lit "engines"))
                 (extra (lit "categories")).
Definition SearchSearXNG_Search (s : SearchSearXNG) (cx : ctx)
    (query language timeRange engines : gostring) : M W (result (list Result)) :=
  when (sx_metrics s) (Incr (lit "search_requests_total") []);;
  SearchAdvanced (inner s) cx query language timeRange engines [].
End SearXNG.
