(* ===== verification/SearXNGSpec.v ===== *)
(** The properties of the SearXNG client ([SearXNG]): the request says what was asked, and the
    answer is read as it was written. *)
From S2P Require Import Prelude Unicode Utf8 GoStrings Floats Json JsonEnc Effects Results Retry Serp Engines SearchEngines GoUrl Http ApiClient SearXNG.
Local Open Scope Z_scope.

(** ** Where the service is: a host, and perhaps a port *)
Definition digits_ok (ds : gostring) : bool := forallb (between 48 57) ds.
Record service := { v_scheme : gostring; v_host : gostring; v_port : option gostring }.
Definition hostport (v : service) : gostring :=
  v_host v ++ match v_port v with Some ds => 58 :: ds | None => [] end.
Definition service_url (v : service) : gostring := v_scheme v ++ lit "://" ++ hostport v.
Definition service_ok (v : service) : Prop :=
  (v_scheme v = lit "http" ∨ v_scheme v = lit "https") ∧ v_host v ≠ [] ∧
  Forall (λ c, host_char c = true) (v_host v) ∧
  match v_port v with Some ds => Forall (λ c, between 48 57 c = true) ds | None => True end.

Lemma find_last_no_byte s c : c ∉ s → find_last s [c] = None.
Proof.
  intros Hc. induction s as [|x s IH]; [done|]. cbn [find_last].
  rewrite IH by set_solver. assert (HasPrefix (x :: s) [c] = false) as ->; [|done].
  cbn [HasPrefix]. rewrite (proj2 (Z.eqb_neq _ _)); [done|]. set_solver.
Qed.
Definition hp_char (c : Z) : bool := host_char c || (c =? 58).
Lemma hp_char_spec c : hp_char c = true →
  32 < c ∧ c < 127 ∧ c ∉ [35; 37; 43; 47; 63; 64; 91; 93] ∧ shouldEscape c encodeHost = false.
Proof.
  intros [Hc|Hc%Z.eqb_eq]%orb_true_iff; [|subst; split_and!; [done..|set_solver|reflexivity]].
  apply host_char_spec in Hc as (? & ? & ? & ?). split_and!; [done..|set_solver|done].
Qed.
Lemma hostport_chars v : service_ok v → Forall (λ c, hp_char c = true) (hostport v).
Proof.
  intros (_ & _ & Hh & Hp). unfold hostport. apply Forall_app. split.
  - eapply Forall_impl; [exact Hh|]. intros c Hc. unfold hp_char. by rewrite Hc.
  - destruct (v_port v) as [ds|]; [|constructor]. constructor; [done|].
    eapply Forall_impl; [exact Hp|]. intros c Hc. unfold hp_char, host_char, is_alnum.
    by rewrite Hc, !orb_true_r.
Qed.
Lemma escape_host s : Forall (λ c, hp_char c = true) s →
  escape s encodeHost = s ∧ unescape s encodeHost = Some s.
Proof.
  induction 1 as [|c s Hc _ [IH1 IH2]]; [done|]. apply hp_char_spec in Hc as (H1 & H2 & H3 & H4). split.
  - change (escape (c :: s) encodeHost) with (escape_byte encodeHost c ++ escape s encodeHost).
    rewrite IH1. unfold escape_byte. rewrite H4, (proj2 (Z.eqb_neq c 32)) by lia. done.
  - cbn [unescape]. rewrite (proj2 (Z.eqb_neq c 37)) by set_solver.
    rewrite (proj2 (Z.eqb_neq c 43)) by set_solver. rewrite H4, IH2. cbn [andb].
    by rewrite !andb_false_r.
Qed.
Lemma parse_hostport v : service_ok v → parseAuthority (hostport v) = Some (None, hostport v).
Proof.
  intros Hv. pose proof (hostport_chars v Hv) as Hc. rewrite Forall_forall in Hc.
  assert (∀ c, c ∈ hostport v → c ∉ [64; 91]) as Hn.
  { intros c (_ & _ & Hx & _)%Hc%hp_char_spec. set_solver. }
  unfold parseAuthority, parseHost. change (lit "@") with [64]. change (lit "[") with [91]. change (lit ":") with [58].
  rewrite !find_last_no_byte by (intros Hin%Hn; set_solver).
  assert (unescape (hostport v) encodeHost = Some (hostport v)) as Hu by (apply escape_host; by apply hostport_chars).
  destruct Hv as (_ & _ & Hh & Hp). rewrite Forall_forall in Hh.
  assert (58 ∉ v_host v) as H58.
  { intros Hin%Hh%host_char_spec. set_solver. }
  unfold hostport in *. destruct (v_port v) as [ds|].
  - rewrite find_sub_byte, drop_app_length by done. cbn [validOptionalPort].
    assert (forallb (between 48 57) ds = true) as ->.
    { clear -Hp. induction Hp as [|x l Hx _ IH]; [done|]. cbn. by rewrite Hx. }
    change (58 =? 58) with true. cbn [andb negb]. by rewrite Hu.
  - rewrite app_nil_r in *. rewrite find_sub_no_byte by done. by rewrite Hu.
Qed.
Lemma parse_tail_service v path q : service_ok v → HasPrefix path [47] = true →
  decoded_part path encodePath = Some (path, []) →
  parse_tail (v_scheme v) (lit "//" ++ hostport v ++ path) false q =
  Some (simple_url (v_scheme v) (hostport v) path q).
Proof.
  intros Hv Hs Hp. unfold parse_tail. apply HasPrefix_spec in Hs as [p ->]. cbn [app] in *.
  assert (∀ x, HasPrefix (lit "//" ++ x) (lit "/") = true) as Hp1 by (intros []; done).
  rewrite Hp1. cbn [negb andb].
  assert (v_scheme v ≠ []) as Hne by (by destruct Hv as [[-> | ->] _]).
  rewrite (bool_decide_true (v_scheme v ≠ [])) by done. cbn [orb andb].
  rewrite HasPrefix_app.
  change (drop 2 (lit "//" ++ ?x)) with x. change (lit "/") with [47].
  rewrite find_sub_byte.
  2:{ pose proof (hostport_chars v Hv) as Hc. rewrite Forall_forall in Hc.
      intros (_ & _ & Hx & _)%Hc%hp_char_spec. set_solver. }
  rewrite take_app_length, drop_app_length, parse_hostport by done. cbn [mbind option_bind].
  by rewrite Hp.
Qed.

(** ** The URL of a request *)
Lemma scheme_split v path : service_ok v →
  getScheme (service_url v ++ path) = Some (v_scheme v, lit "//" ++ hostport v ++ path) ∧
  StringsToLower (v_scheme v) = v_scheme v.
Proof.
  intros [[Hs|Hs] _]; unfold service_url; rewrite Hs, <- !(assoc_L (++)); by split; [|vm_compute].
Qed.
Lemma service_chars v path c : service_ok v →
  (∀ c, c ∈ path → 32 < c ∧ c < 127 ∧ c ∉ [35; 63]) →
  c ∈ service_url v ++ path → 32 < c ∧ c < 127 ∧ c ∉ [35; 63].
Proof.
  intros Hv Hp. unfold service_url. rewrite !elem_of_app. intros [[Hc|[Hc|Hc]]|Hc]; [..|by apply Hp].
  - apply (proj1 (Forall_forall (λ c, 32 < c ∧ c < 127 ∧ c ∉ [35; 63]) (v_scheme v))); [|done].
    clear -Hv. destruct Hv as [[-> | ->] _]; by repeat (constructor; [split_and!; [done..|set_solver]|]); constructor.
  - change (lit "://") with [58; 47; 47] in Hc. rewrite !elem_of_cons, elem_of_nil in Hc.
    destruct Hc as [->|[->|[->|[]]]]; (split_and!; [done..|set_solver]).
  - pose proof (hostport_chars v Hv) as Hh. rewrite Forall_forall in Hh.
    apply Hh, hp_char_spec in Hc as (? & ? & ? & _). split_and!; [done..|set_solver].
Qed.
Definition search_path : gostring := lit "/search".
Lemma search_path_ok : HasPrefix search_path [47] = true ∧
  decoded_part search_path encodePath = Some (search_path, []) ∧
  ∀ c, c ∈ search_path → 32 < c ∧ c < 127 ∧ c ∉ [35; 63].
Proof.
  split_and!; [reflexivity|vm_compute; reflexivity|].
  apply Forall_forall. repeat (constructor; [split_and!; [done..|set_solver]|]). constructor.
Qed.
Lemma no_ctl s : (∀ c, c ∈ s → 32 < c ∧ c < 127 ∧ c ∉ [35; 63]) → has_ctl s = false ∧ 35 ∉ s ∧ 63 ∉ s.
Proof.
  intros Hs. split_and!; [apply has_ctl_false; intros c Hc%Hs; lia|intros Hc%Hs; set_solver|intros Hc%Hs; set_solver].
Qed.
Lemma service_facts v : service_ok v →
  has_ctl (service_url v ++ search_path) = false ∧ 35 ∉ service_url v ++ search_path ∧
  63 ∉ lit "//" ++ hostport v ++ search_path.
Proof.
  intros Hv. destruct search_path_ok as (_ & _ & Hp).
  destruct (no_ctl (service_url v ++ search_path)) as (H1 & H2 & H3).
  { intros c. by apply service_chars. }
  split_and!; [done..|]. intros Hin. apply H3. unfold service_url.
  rewrite !elem_of_app in *. change (lit "://") with (58 :: lit "//"). rewrite elem_of_cons. naive_solver.
Qed.
Lemma Parse_service v : service_ok v →
  Parse (service_url v ++ search_path) = Some (simple_url (v_scheme v) (hostport v) search_path []).
Proof.
  intros Hv. destruct (scheme_split v search_path Hv) as [Hg Hl], (service_facts v Hv) as (H1 & H2 & H3).
  eapply Parse_plain; [exact Hg|done..| |].
  - intros E%(f_equal length). unfold service_url, search_path in E. rewrite !length_app in E. simpl in E. lia.
  - rewrite Hl. by apply parse_tail_service; [|apply search_path_ok..].
Qed.
Lemma Parse_service_query v q : service_ok v → q ≠ [] →
  (∀ c, c ∈ q → query_char c = true ∨ c = 38 ∨ c = 61) →
  Parse ((service_url v ++ search_path) ++ 63 :: q) =
  Some (simple_url (v_scheme v) (hostport v) search_path q).
Proof.
  intros Hv Hq Hc. destruct (scheme_split v (search_path ++ 63 :: q) Hv) as [Hg Hl], (service_facts v Hv) as (H1 & H2 & H3).
  eapply Parse_query; [|exact H3|done..| |].
  - rewrite <- (assoc_L (++)), Hg. by rewrite <- !(assoc_L (++)).
  - done.
  - rewrite Hl. by apply parse_tail_service; [|apply search_path_ok..].
Qed.
Lemma URLString_service v q : service_ok v → q ≠ [] →
  URLString (set_RawQuery (simple_url (v_scheme v) (hostport v) search_path []) q) =
  (service_url v ++ search_path) ++ 63 :: q.
Proof.
  intros Hv Hq. assert (v_scheme v ≠ []) as Hs by (by destruct Hv as [[-> | ->] _]).
  assert (hostport v ≠ []) as Hh.
  { destruct Hv as (_ & Hn & _). unfold hostport. by destruct (v_host v). }
  assert (url_head (simple_url (v_scheme v) (hostport v) search_path q) = service_url v) as Hhead.
  { unfold url_head, service_url. cbn [simple_url Scheme Host Path User OmitHost].
    rewrite decide_False, !(bool_decide_true (_ ≠ [])) by done. cbn [orb andb].
    rewrite (proj1 (escape_host _ (hostport_chars v Hv))). by rewrite <- (assoc_L (++)). }
  unfold URLString. change (set_RawQuery (simple_url ?a ?b ?c []) q) with (simple_url a b c q).
  rewrite Hhead. cbn [simple_url Opaque RawQuery Fragment RawFragment ForceQuery Host Scheme Path RawPath].
  change (escaped_part search_path [] encodePath) with search_path.
  rewrite (bool_decide_true (q ≠ [])) by done. change (HasPrefix search_path [47]) with true.
  change (bool_decide ([] ≠ [])) with false. rewrite andb_false_r. cbn [andb orb].
  rewrite !app_nil_r, bool_decide_false; [done|].
  unfold service_url. by destruct (v_scheme v).
Qed.

(** ** The parameters *)
(** A parameter that is sent when it is not empty. *)
Definition param (k v : gostring) : list (gostring * gostring) := if decide (v = []) then [] else [(k, v)].
Definition asked (query language timeRange engines categories : gostring) : list (gostring * gostring) :=
  [(lit "q", query); (lit "format", lit "json")] ++
  param (lit "language") (if decide (language = languageAll) then [] else language) ++
  param (lit "time_range") timeRange ++ param (lit "engines") engines ++
  param (lit "categories") categories.
Lemma ValuesSet_new q k v : k ∉ q.*1 → ValuesSet q k v = q ++ [(k, v)].
Proof.
  intros Hk. unfold ValuesSet. rewrite filter_all; [done|]. apply Forall_forall. intros kv Hin E.
  apply Hk. rewrite <- E. by apply list_elem_of_fmap_2.
Qed.
Lemma params_asked query language timeRange engines categories :
  searxng_params [] query language timeRange engines categories =
  asked query language timeRange engines categories.
Proof.
  unfold searxng_params, asked, param.
  assert ((if bool_decide (language ≠ []) && bool_decide (language ≠ languageAll)
           then ValuesSet (ValuesSet (ValuesSet [] (lit "q") query) (lit "format") (lit "json")) (lit "language") language
           else ValuesSet (ValuesSet [] (lit "q") query) (lit "format") (lit "json")) =
          [(lit "q", query); (lit "format", lit "json")] ++
          (if decide ((if decide (language = languageAll) then [] else language) = []) then []
           else [(lit "language", if decide (language = languageAll) then [] else language)])) as ->.
  { destruct (decide (language = languageAll)) as [->|Hl]; [done|].
    rewrite (bool_decide_true (language ≠ languageAll)), andb_true_r by done.
    case_bool_decide as Hn; [rewrite decide_False by done; done|].
    rewrite decide_True; done. }
  destruct (decide ((if decide (language = languageAll) then [] else language) = []));
    destruct (decide (timeRange = [])), (decide (engines = [])), (decide (categories = [])); reflexivity.
Qed.
Lemma asked_bytes query language timeRange engines categories :
  bytes_ok query → bytes_ok language → bytes_ok timeRange → bytes_ok engines → bytes_ok categories →
  pairs_ok (asked query language timeRange engines categories).
Proof.
  intros Hq Hl Ht He Hc.
  assert (∀ k v, bytes_ok k → bytes_ok v → pairs_ok (param k v)) as Hp.
  { intros k v Hk Hv. unfold param. case_decide; [constructor|]. by repeat constructor. }
  assert (∀ s, forallb (between 0 255) s = true → bytes_ok s) as Hlit.
  { intros s Hs. apply Forall_forall. intros c Hin. rewrite forallb_forall in Hs.
    specialize (Hs c (proj1 (list_elem_of_In _ _) Hin)). unfold between in Hs. lia. }
  unfold asked, pairs_ok. apply Forall_app. split.
  - constructor; [split; [by apply Hlit|done]|]. constructor; [|constructor]. split; by apply Hlit.
  - repeat (apply Forall_app; split); apply Hp; try (by apply Hlit); try done.
    case_decide; [constructor|done].
Qed.

(** ** An answer *)
Record service_row := {
  w_title : gostring; w_url : gostring; w_content : gostring;
  w_score : gostring;                                  (* a number of digits *)
  w_metadata : option (list (gostring * gostring))     (* an object, or else an empty string *)
}.
Definition row_json (r : service_row) : json :=
  JObj [(lit "url", JStr (w_url r)); (lit "title", JStr (w_title r)); (lit "content", JStr (w_content r));
        (lit "score", JNum (w_score r));
        (lit "metadata", match w_metadata r with
                         | Some kvs => JObj ((λ kv, (kv.1, JStr kv.2)) <$> kvs)
                         | None => JStr []
                         end)].
Definition row_ok (r : service_row) : Prop :=
  utf8 (w_title r) ∧ utf8 (w_url r) ∧ utf8 (w_content r) ∧ digits (w_score r) ∧
  is_Some (read_float (w_score r)) ∧
  match w_metadata r with Some kvs => Forall (λ kv, utf8 kv.1 ∧ utf8 kv.2) kvs | None => True end.
(** The last value of a key counts. *)
Definition row_result (r : service_row) : Result :=
  MkResult (w_title r) (w_url r) (w_content r) (default fzero (read_float (w_score r)))
    match w_metadata r with Some kvs => list_to_map (reverse kvs) | None => ∅ end.
Definition answer (rows : list service_row) : json := JObj [(lit "results", JArr (row_json <$> rows))].

Lemma raw_metadata_object kvs : Forall (λ kv, utf8 kv.1 ∧ utf8 kv.2) kvs →
  raw_metadata (sanitized (JObj ((λ kv, (kv.1, JStr kv.2)) <$> kvs))) = list_to_map (reverse kvs).
Proof.
  intros Hk. cbn [sanitized raw_metadata].
  assert (map sanitized_member ((λ kv, (kv.1, JStr kv.2)) <$> kvs) = (λ kv, (kv.1, JStr kv.2)) <$> kvs) as ->.
  { induction Hk as [|[k v] l [Hk1 Hv] _ IH]; [done|]. rewrite fmap_cons. cbn [map fst snd sanitized].
    cbn [fst snd] in *. by rewrite IH, !utf8_sanitize. }
  clear Hk. induction kvs as [|[k v] l IH] using rev_ind; [done|].
  rewrite fmap_app, foldl_app, IH, reverse_app. done.
Qed.
Lemma dec_service_row r : row_ok r →
  to_result <$> dec_searxngRawResult zero_raw (sanitized (row_json r)) = Some (row_result r).
Proof.
  intros (Ht & Hu & Hc & Hd & [f Hf] & Hm). unfold row_json. cbn [sanitized map fst snd].
  rewrite (utf8_sanitize (w_title r)), (utf8_sanitize (w_url r)), (utf8_sanitize (w_content r)) by done.
  set (md := sanitized _).
  assert (dec_searxngRawResult zero_raw
    (JObj [(sanitize (lit "url"), JStr (w_url r)); (sanitize (lit "title"), JStr (w_title r));
           (sanitize (lit "content"), JStr (w_content r)); (sanitize (lit "score"), JNum (w_score r));
           (sanitize (lit "metadata"), md)]) =
    (s ← read_float (w_score r);
     Some {| sr_Title := w_title r; sr_URL := w_url r; sr_Content := w_content r; sr_Score := s;
             sr_Engines := []; sr_Metadata := md |})) as ->.
  { clear. destruct r as [t u c s m]. cbn [w_title w_url w_content w_score]. clearbody md.
    unfold dec_searxngRawResult, dec_struct, field. cbn [foldl fst snd zero_raw].
    repeat match goal with |- context [decide (?a = ?b)] =>
      let d := eval vm_compute in (bool_decide (a = b)) in
      match d with true => rewrite (decide_True (P := a = b)) by (vm_compute; reflexivity)
                 | false => rewrite (decide_False (P := a = b)) by (vm_compute; discriminate) end end.
    cbn [dec_string dec_float dec_raw mbind option_bind]. by destruct (read_float s). }
  rewrite Hf. cbn [mbind option_bind fmap option_fmap option_map]. unfold to_result, row_result. rewrite Hf.
  cbn [sr_Title sr_URL sr_Content sr_Score sr_Metadata default]. do 2 f_equal. subst md.
  destruct (w_metadata r) as [kvs|]; [by apply raw_metadata_object|done].
Qed.
Lemma plain_row r : row_ok r → plain (row_json r).
Proof.
  intros (_ & _ & _ & Hd & _ & _). unfold row_json. apply plain_obj.
  repeat (constructor; [done|]). constructor; [|constructor]. destruct (w_metadata r) as [kvs|]; [|done].
  apply plain_obj, Forall_fmap, Forall_true. done.
Qed.
Lemma classify_answer rows rest stop : Forall row_ok rows →
  searxng_classify (Val {| ap_status := 200; ap_data := Marshal (answer rows) ++ rest; ap_end := stop |}) =
  Val (row_result <$> rows).
Proof.
  intros Hr. unfold searxng_classify. cbn [ap_status]. change (negb (200 =? StatusOK)) with false. cbv iota.
  unfold answer. rewrite Decode_object.
  2: { apply plain_obj. constructor; [|constructor]. apply plain_arr, Forall_fmap.
       eapply Forall_impl; [exact Hr|]. apply plain_row. }
  cbn [sanitized map fst snd].
  assert (∃ raws, mapM (dec_searxngRawResult zero_raw) (sanitized <$> (row_json <$> rows)) = Some raws ∧
                  to_result <$> raws = row_result <$> rows) as (raws & Hm & Hres).
  { induction Hr as [|r rows Hr _ (raws & IH1 & IH2)]; [by exists []|].
    pose proof (dec_service_row r Hr) as Hd. destruct (dec_searxngRawResult _ _) as [raw|] eqn:E; [|done].
    apply (inj Some) in Hd. exists (raw :: raws). rewrite !fmap_cons, IH2, <- Hd. split; [|done].
    change (mapM ?f (?x :: ?l)) with (y ← f x; k ← mapM f l; Some (y :: k)).
    rewrite E. cbn [mbind option_bind]. by rewrite IH1. }
  unfold dec_searxngResponse, dec_struct, field. cbn [foldl fst snd mbind option_bind].
  rewrite decide_True by (vm_compute; reflexivity). cbn [dec_list mbind option_bind].
  change (map sanitized (row_json <$> rows)) with (sanitized <$> (row_json <$> rows)). rewrite Hm.
  unfold toResults. by rewrite Hres.
Qed.

Section Requests.
Context {W : Type}.
Notation http_client := (ctx → HttpRequest → M W (result ApiReply)).
(** C28: A SearXNG search asks for what it was given and reads what is answered. For a service on any
    host and port, and any query, language, time range, engines and categories, one GET request is
    made, with the address that bot detection wants; its URL parses to the service's scheme, host
    and [/search], and its query gives back, each once, the query, the format, and exactly those
    other parameters that are not empty ("all" is no language). An answer with any rows is read to
    these rows in order, whatever follows it: the metadata of a row is its object with the last
    value of each key, and none when the service sent a string. A search keeps at most its limit,
    or else the client's. *)
Theorem SearchAdvanced_roundtrip (s : SearXNG (W := W)) v cx query language timeRange engines categories :
  service_ok v → sx_baseURL s = service_url v →
  bytes_ok query → bytes_ok language → bytes_ok timeRange → bytes_ok engines → bytes_ok categories →
  ∃ url u,
    Parse url = Some u ∧ Scheme u = v_scheme v ∧ Host u = hostport v ∧ Path u = lit "/search" ∧
    GoUrl.Query u ≡ₚ asked query language timeRange engines categories ∧
    (∀ w, SearchAdvanced s cx query language timeRange engines categories w =
       let '(r, w') := sx_httpClient s cx
         {| rq_method := lit "GET"; rq_url := url;
            rq_headers := [(lit "X-Forwarded-For", lit "127.0.0.1")]; rq_body := [] |} w in
       (searxng_classify r, w')) ∧
    (∀ rows rest stop, Forall row_ok rows →
       searxng_classify (Val {| ap_status := 200; ap_data := Marshal (answer rows) ++ rest; ap_end := stop |}) =
       Val (row_result <$> rows)) ∧
    (∀ limit w rs w', SearXNG_Search s cx query
         {| Language := language; TimeRange := timeRange; Region := []; Engines := engines; Limit := limit |} w =
         (Val rs, w') → 0 < (if limit =? 0 then sx_maxResults s else limit) →
       zlen rs <= (if limit =? 0 then sx_maxResults s else limit)).
Proof.
  intros Hv Hs Hq Hl Ht He Hc.
  pose proof (asked_bytes _ _ _ _ _ Hq Hl Ht He Hc) as Hok.
  set (vs := asked query language timeRange engines categories) in *.
  assert (vs ≠ []) as Hvs by done. set (qs := EncodeQuery vs).
  assert (qs ≠ []) as Hqs by (by apply EncodeQuery_nonempty).
  assert (∀ c, c ∈ qs → query_char c = true ∨ c = 38 ∨ c = 61) as Hchars by (intros c; by apply EncodeQuery_char).
  set (u := simple_url (v_scheme v) (hostport v) search_path qs).
  assert (searxng_url (sx_baseURL s) query language timeRange engines categories =
          Some ((service_url v ++ search_path) ++ 63 :: qs)) as Hurl.
  { unfold searxng_url. rewrite Hs. fold search_path. rewrite Parse_service by done. cbn [mbind option_bind].
    change (GoUrl.Query (simple_url _ _ _ [])) with (@nil (gostring * gostring)).
    rewrite params_asked. fold vs qs. by rewrite URLString_service. }
  exists ((service_url v ++ search_path) ++ 63 :: qs), u.
  pose proof (Parse_service_query v qs Hv Hqs Hchars) as Hp. split_and!; [done..| | | |].
  - rewrite (Query_encoded u vs) by done. apply stable_sort_perm.
  - intros w. unfold SearchAdvanced. rewrite Hurl. unfold NewRequest. rewrite Hp. unfold mbind, M_bind, mret, M_ret. done.
  - intros rows rest stop. apply classify_answer.
  - intros limit w rs w'. unfold SearXNG_Search, mbind, M_bind. cbn [Language TimeRange Engines Limit].
    destruct (SearchAdvanced _ _ _ _ _ _ _ w) as [[rs0|e] w1]; [|done]. intros [= <- <-]. apply zlen_applyLimit.
Qed.
End Requests.

(** ** Witness: a service that answers every request with one row, and then breaks off *)
Definition demo_service : service := {| v_scheme := lit "http"; v_host := lit "searx"; v_port := Some (lit "8080") |}.
Definition demo_row : service_row :=
  {| w_title := lit "A & B"; w_url := lit "https://a.example/"; w_content := lit "text"; w_score := lit "3";
     w_metadata := Some [(lit "k", lit "v"); (lit "k", lit "w")] |}.
Definition demo_client : ctx → HttpRequest → M (list HttpRequest) (result ApiReply) := λ _ req w,
  (Val {| ap_status := 200; ap_data := Marshal (answer [demo_row]); ap_end := Some (ErrMsg []) |}, req :: w).
Definition demo_searx : SearXNG := NewSearXNG demo_client (lit "http://searx:8080") [WithSearXNGMaxResults 5].
Lemma SearchAdvanced_roundtrip_witness :
  rq_url <$> (SearchAdvanced demo_searx (Ctx None 0) (lit "a&b c") (lit "all") (lit "day") [] [] []).2 =
    [lit "http://searx:8080/search?format=json&q=a%26b+c&time_range=day"] ∧
  ∃ url u, Parse url = Some u ∧ Path u = lit "/search" ∧
    GoUrl.Query u ≡ₚ [(lit "q", lit "a&b c"); (lit "format", lit "json"); (lit "time_range", lit "day")] ∧
    (SearchAdvanced demo_searx (Ctx None 0) (lit "a&b c") (lit "all") (lit "day") [] [] []).1 =
      Val [row_result demo_row].
Proof.
  split; [vm_compute; reflexivity|].
  assert (∀ l, forallb (between 0 255) l = true → bytes_ok l) as Hb.
  { intros l Hl. apply Forall_forall. intros c Hin. rewrite forallb_forall in Hl.
    specialize (Hl c (proj1 (list_elem_of_In _ _) Hin)). unfold between in Hl. lia. }
  destruct (SearchAdvanced_roundtrip demo_searx demo_service (Ctx None 0) (lit "a&b c") (lit "all") (lit "day") [] [])
    as (url & u & H1 & _ & _ & H2 & H3 & H4 & H5 & _); try (apply Hb; reflexivity); [|reflexivity|].
  { split_and!; [by left|discriminate|..]; repeat (constructor; [reflexivity|]); constructor. }
  exists url, u. split_and!; [exact H1|exact H2|exact H3|].
  rewrite H4. unfold demo_searx. cbn [sx_httpClient NewSearXNG foldl WithSearXNGMaxResults demo_client fst].
  rewrite <- (app_nil_r (Marshal _)). apply (H5 [demo_row]). constructor; [|constructor].
  assert (∀ l, forallb (between 0 127) l = true → utf8 l) as Hu.
  { intros l Hl. apply utf8_ascii. apply Forall_forall. intros c Hin. rewrite forallb_forall in Hl.
    specialize (Hl c (proj1 (list_elem_of_In _ _) Hin)). unfold between in Hl. lia. }
  split_and!; try (apply Hu; reflexivity).
  - split_and!; [discriminate|by repeat constructor|done].
  - vm_compute. by eexists.
  - repeat (constructor; [split; apply Hu; reflexivity|]). constructor.
Defined.
