(* ===== verification/GoSearch.v ===== *)
(** Package [sources/gosearch]: the client of go-search's tools ([client.go], [discover.go]) and the
    reader of its replies ([parse.go]), JSON-RPC in a server-sent event. The availability flag, an
    atomic boolean, is the state of the client. *)
From S2P Require Import Prelude Unicode Utf8 GoStrings GoUrl Floats Json JsonEnc Effects Retry FactVerify Http.
Local Open Scope Z_scope.

Definition maxResponseBytes : Z := 2 * 1024 * 1024.
Definition healthTimeout : Z := 3 * Second.
Record GsResult := { gr_URL : gostring; gr_Title : gostring; gr_Description : gostring;
                     gr_Score : float }.
Definition zero_GsResult : GsResult :=
  {| gr_URL := []; gr_Title := []; gr_Description := []; gr_Score := fzero |}.
Definition dec_GsResult : dec GsResult := dec_struct (λ p kvs,
  u ← field (lit "url") dec_string (gr_URL p) kvs;
  t ← field (lit "title") dec_string (gr_Title p) kvs;
  d ← field (lit "description") dec_string (gr_Description p) kvs;
  s ← field (lit "score") dec_float (gr_Score p) kvs;
  Some {| gr_URL := u; gr_Title := t; gr_Description := d; gr_Score := s |}).

(** ** Reading a reply *)
(** [bufio.ScanLines]: the lines of a text without their end, which may be CR LF. *)
Definition dropCR (line : gostring) : gostring := TrimSuffix line [13].
(** The last [data: ] payload; a line that does not fit the scanner's buffer stops it. *)
Fixpoint sse_loop (lines : list gostring) (lastData : gostring) : result gostring :=
  match lines with
  | [] => Val lastData
  | line :: lines =>
      if maxResponseBytes <=? zlen line
      then Err (Wrapped (lit "read SSE stream") (ErrVar (lit "bufio.Scanner: token too long")))
      else sse_loop lines (match CutPrefix (dropCR line) (lit "data: ") with
                           | Some after => after
                           | None => lastData
                           end)
  end.
Definition extractSSEData (body : result gostring) : result gostring :=
  match body with
  | Err e => Err (Wrapped (lit "read SSE stream") e)
  | Val s =>
      match sse_loop (Split s 10) [] with
      | Err e => Err e
      | Val [] => Err (ErrMsg (lit "no data in SSE response"))
      | Val lastData => Val lastData
      end
  end.

(** The JSON-RPC envelope: the texts of the content, and the error. *)
Definition rpcResponse : Type := list gostring * option (Z * gostring).
Definition dec_content : dec gostring := dec_struct (λ p kvs,
  _ ← field (lit "type") dec_string [] kvs; field (lit "text") dec_string p kvs).
Definition dec_rpcError : dec (Z * gostring) := dec_struct (λ p kvs,
  c ← field (lit "code") dec_int p.1 kvs; m ← field (lit "message") dec_string p.2 kvs; Some (c, m)).
Definition dec_rpcResponse : dec rpcResponse := dec_struct (λ p kvs,
  c ← field (lit "result") (dec_struct (λ c kvs,
        field (lit "content") (dec_list [] dec_content) c kvs)) p.1 kvs;
  e ← field (lit "error") (dec_ptr (0, []) dec_rpcError) p.2 kvs; Some (c, e)).
(** The text of the first content of a reply without an error. *)
Definition rpc_text (data : gostring) : result gostring :=
  match Unmarshal ([], None) dec_rpcResponse data with
  | None => Err (Wrapped (lit "parse rpc response") (ErrMsg []))
  | Some (_, Some (code, message)) =>
      Err (ErrMsg (lit "rpc error " ++ Itoa code ++ lit ": " ++ message))
  | Some ([], None) => Err (ErrMsg (lit "empty content in rpc response"))
  | Some (text :: _, None) => Val text
  end.
Definition dec_output : dec (list GsResult) := dec_struct (λ p kvs,
  field (lit "results") (dec_list zero_GsResult dec_GsResult) p kvs).
Definition parseRPCResponse (data : gostring) : result (list GsResult) :=
  match rpc_text data with
  | Err e => Err e
  | Val text =>
      match Unmarshal [] dec_output text with
      | None => Err (Wrapped (lit "parse search output") (ErrMsg []))
      | Some results => Val results
      end
  end.
(** [pipeline.SearchOutput], of which the sources are kept; the other fields must decode. *)
Definition dec_source : dec GsResult := dec_struct (λ p kvs,
  _ ← field (lit "index") dec_int 0 kvs;
  t ← field (lit "title") dec_string (gr_Title p) kvs;
  u ← field (lit "url") dec_string (gr_URL p) kvs;
  s ← field (lit "snippet") dec_string (gr_Description p) kvs;
  Some {| gr_URL := u; gr_Title := t; gr_Description := s; gr_Score := fzero |}).
Definition dec_SearchOutput : dec (list GsResult) := dec_struct (λ p kvs,
  _ ← field (lit "query") dec_string [] kvs;
  _ ← field (lit "answer") dec_string [] kvs;
  _ ← field (lit "facts") (dec_list zero_FactItem dec_FactItem) [] kvs;
  s ← field (lit "sources") (dec_list zero_GsResult dec_source) p kvs;
  _ ← field (lit "llm_skipped") dec_bool false kvs;
  _ ← field (lit "degrade_reason") dec_string [] kvs;
  _ ← field (lit "covered_aspects") (dec_list [] dec_string) [] kvs;
  _ ← field (lit "iterated_queries") (dec_list [] dec_string) [] kvs;
  Some s).
Definition parseDiscoverResponse (data : gostring) : result (list GsResult) :=
  match rpc_text data with
  | Err e => Err e
  | Val text =>
      match Unmarshal [] dec_SearchOutput text with
      | None => Err (Wrapped (lit "parse search output") (ErrMsg []))
      | Some srcs => Val (filter (λ s, gr_URL s ≠ []) srcs)
      end
  end.

(** ** The client *)
Section Client.
Context {W : Type} `{Clock W} `{HttpClient W}.
(** [c.ok] and the world. *)
Notation St := (bool * W)%type.
Definition set_ok (b : bool) : M St () := modify (λ s, (b, s.2)).
Definition lift_ok {A} (m : M W A) : M St A := λ s, let '(a, w) := m s.2 in (a, (s.1, w)).
(** [NewClient]: the base URL is all that the operations look at. *)
Definition NewClient (baseURL : gostring) : gostring := TrimRightByte baseURL 47.
Definition Available (baseURL : gostring) : M St bool :=
  gets (λ s, bool_decide (baseURL ≠ []) && s.1).
Definition CheckHealth (baseURL : gostring) (cx : ctx) : M St bool :=
  if decide (baseURL = []) then mret false else
  cx ← lift_ok (gets (λ w, WithTimeout cx (now w) healthTimeout));
  match NewRequest (lit "GET") (baseURL ++ lit "/health") [] [] with
  | None => set_ok false;; mret false
  | Some req =>
      r ← lift_ok (http_Do cx req);
      match r with
      | Err _ => set_ok false;; mret false
      | Val resp => let reachable := hr_status resp =? StatusOK in set_ok reachable;; mret reachable
      end
  end.

(** A call of a tool: the members of a map are written in the order of their keys. *)
Definition tool_call (name : gostring) (args : list (gostring * json)) : json :=
  JObj [(lit "id", JNum (lit "1")); (lit "jsonrpc", JStr (lit "2.0"));
        (lit "method", JStr (lit "tools/call"));
        (lit "params", JObj [(lit "arguments", JObj args); (lit "name", JStr name)])].
Definition mcp_headers : list (gostring * gostring) :=
  [(lit "Content-Type", lit "application/json");
   (lit "Accept", lit "application/json, text/event-stream")].
(** What [SearchWithOpts] and [Discover] share: [wrap] is the prefix of the errors. *)
Definition call_tool (wrap : gostring → gostring) (baseURL : gostring) (cx : ctx)
    (call : json) (parse : gostring → result (list GsResult)) : M St (result (list GsResult)) :=
  if decide (baseURL = []) then mret (Err (ErrMsg (lit "go-search client not configured"))) else
  match NewRequest (lit "POST") (baseURL ++ lit "/mcp") mcp_headers (Marshal call) with
  | None => mret (Err (Wrapped (wrap (lit "build request")) (ErrMsg [])))
  | Some req =>
      r ← lift_ok (http_Do cx req);
      match r with
      | Err e => set_ok false;; mret (Err (Wrapped (wrap (lit "go-search request")) e))
      | Val resp =>
          if negb (hr_status resp =? StatusOK) then
            set_ok false;;
            mret (Err (ErrMsg (wrap (lit "go-search returned status ") ++ Itoa (hr_status resp))))
          else
            mret match extractSSEData (hr_body resp) with
                 | Err e => Err (Wrapped (wrap (lit "parse SSE response")) e)
                 | Val jsonData => parse jsonData
                 end
      end
  end.
Record SearchOpts := { o_Source : gostring; IncludeMedia : bool }.
Definition given (name value : gostring) : list (gostring * json) :=
  if decide (value = []) then [] else [(name, JStr value)].
Definition search_args (query timeRange : gostring) (opts : SearchOpts) : list (gostring * json) :=
  (if IncludeMedia opts then [(lit "include_media", JBool true)] else []) ++
  [(lit "query", JStr query)] ++ given (lit "source") (o_Source opts) ++
  given (lit "time_range") timeRange.
Definition SearchWithOpts (baseURL : gostring) (cx : ctx) (query timeRange : gostring)
    (opts : SearchOpts) : M St (result (list GsResult)) :=
  call_tool id baseURL cx (tool_call (lit "raw_web_search") (search_args query timeRange opts))
    parseRPCResponse.
Definition Search (baseURL : gostring) (cx : ctx) (query timeRange : gostring)
    (includeMedia : list bool) : M St (result (list GsResult)) :=
  SearchWithOpts baseURL cx query timeRange
    {| o_Source := []; IncludeMedia := match includeMedia with b :: _ => b | [] => false end |}.
Record DiscoverOpts := { d_Source : gostring; Depth : gostring }.
Definition discover_args (query : gostring) (opts : DiscoverOpts) : list (gostring * json) :=
  given (lit "depth") (Depth opts) ++ [(lit "query", JStr query)] ++
  given (lit "source") (d_Source opts).
Definition Discover (baseURL : gostring) (cx : ctx) (query : gostring) (opts : DiscoverOpts)
    : M St (result (list GsResult)) :=
  call_tool (λ s, lit "discover: " ++ s) baseURL cx
    (tool_call (lit "research") (discover_args query opts)) parseDiscoverResponse.
End Client.
