(* ===== verification/GoSearchSpec.v ===== *)
(** The client of go-search against its server: what is asked reaches the server as it was
    given, a reply framed as the protocol says is read back as the results it carries, and the
    availability flag is the last word of the health checks and of the requests without a reply or
    with a status other than 200. *)
From S2P Require Import Prelude Unicode Utf8 GoStrings GoUrl Floats Json JsonEnc Effects Retry FactVerify Http GoSearch.
Local Open Scope Z_scope.

(** ** Framing *)
Lemma split_go_line x y acc : 10 ∉ x → split_go 10 acc (x ++ 10 :: y) = (acc ++ x) :: split_go 10 [] y.
Proof.
  revert acc. induction x as [|c x IH]; intros acc Hx; simpl; [by rewrite app_nil_r|].
  apply not_elem_of_cons in Hx as [Hc Hx]. rewrite (proj2 (Z.eqb_neq c 10)) by done.
  rewrite IH by done. by rewrite <- app_assoc.
Qed.
Lemma Split_line x y : 10 ∉ x → Split (x ++ 10 :: y) 10 = x :: Split y 10.
Proof. intros Hx. unfold Split. by rewrite split_go_line. Qed.

Lemma CutPrefix_app p s : CutPrefix (p ++ s) p = Some s.
Proof. unfold CutPrefix. by rewrite HasPrefix_app, drop_app_length. Qed.
(** A reply as the protocol frames it. *)
Definition sse_frame (d : gostring) : gostring :=
  lit "event: message" ++ 10 :: (lit "data: " ++ d) ++ 10 :: [10].
Definition frame_fits (d : gostring) : Prop := zlen d + 6 < maxResponseBytes.
Lemma dropCR_printable s : printable s → dropCR s = s.
Proof.
  intros Hs. unfold dropCR, TrimSuffix, HasSuffix. change (reverse [13]) with [13].
  destruct (reverse s) as [|c k] eqn:E; [done|].
  assert (c ∈ s) as Hc by (apply elem_of_reverse; rewrite E; set_solver).
  unfold printable in Hs. rewrite Forall_forall in Hs. specialize (Hs c Hc).
  cbn [HasPrefix]. by rewrite (proj2 (Z.eqb_neq 13 c)) by lia.
Qed.
Lemma extractSSEData_frame d : printable d → d ≠ [] → frame_fits d →
  extractSSEData (Val (sse_frame d)) = Val d.
Proof.
  intros Hp Hd Hl. unfold extractSSEData, sse_frame.
  assert (∀ s, printable s → 10 ∉ s) as Hn.
  { intros s Hs H10. unfold printable in Hs. rewrite Forall_forall in Hs. specialize (Hs 10 H10). lia. }
  assert (printable (lit "data: " ++ d)) as Hpd.
  { apply printable_app. split; [|done]. repeat (constructor; [vm_compute; discriminate|]). constructor. }
  rewrite Split_line by (apply Hn; repeat (constructor; [vm_compute; discriminate|]); constructor).
  rewrite Split_line by by apply Hn. change (Split [10] 10) with [([] : gostring); []].
  cbn [sse_loop]. unfold frame_fits in Hl.
  assert (zlen (lit "data: " ++ d) = zlen d + 6) as Hz by (rewrite zlen_app; unfold zlen at 1; simpl; lia).
  change (maxResponseBytes <=? zlen (lit "event: message")) with false. cbv iota.
  rewrite (proj2 (Z.leb_gt _ _)) by lia. rewrite (dropCR_printable _ Hpd).
  change (CutPrefix (dropCR (lit "event: message")) (lit "data: ")) with (@None gostring). cbv iota.
  rewrite CutPrefix_app.
  change (maxResponseBytes <=? zlen ([] : gostring)) with false. cbv iota.
  change (CutPrefix (dropCR []) (lit "data: ")) with (@None gostring). cbv iota. by destruct d.
Qed.

(** ** A call and its reply *)
(** The documents of a server that answers a search with these results. *)
Definition row (r : GsResult) : json :=
  JObj [(lit "url", JStr (gr_URL r)); (lit "title", JStr (gr_Title r));
        (lit "description", JStr (gr_Description r)); (lit "score", JNum (lit "1"))].
Definition output_json (rs : list GsResult) : json := JObj [(lit "results", JArr (map row rs))].
Definition rpc_reply (text : gostring) : json :=
  JObj [(lit "jsonrpc", JStr (lit "2.0")); (lit "id", JNum (lit "1"));
        (lit "result", JObj [(lit "content", JArr [JObj [(lit "type", JStr (lit "text"));
                                                           (lit "text", JStr text)]])])].
Definition search_reply (rs : list GsResult) : gostring :=
  Marshal (rpc_reply (Marshal (output_json rs))).
Record clean (r : GsResult) : Prop := {
  clean_URL : utf8 (gr_URL r); clean_Title : utf8 (gr_Title r);
  clean_Description : utf8 (gr_Description r); clean_Score : gr_Score r = fone
}.
Lemma digits_one : digits (lit "1").
Proof. split; [done|]. by repeat constructor. Qed.
Lemma plain_output rs : plain (output_json rs).
Proof.
  apply plain_obj. constructor; [|constructor]. apply plain_arr, Forall_fmap, Forall_forall.
  intros r _. apply plain_obj. repeat (constructor; [done|]). constructor; [|constructor].
  apply digits_one.
Qed.
Lemma plain_reply text : plain (rpc_reply text).
Proof. repeat split; try done; try apply digits_one. Qed.
Lemma dec_row r : clean r → dec_GsResult zero_GsResult (sanitized (row r)) = Some r.
Proof.
  intros [H1 H2 H3 H4]. unfold row. cbn [sanitized map]. cbn [fst snd sanitized].
  rewrite (utf8_sanitize (gr_URL r)), (utf8_sanitize (gr_Title r)),
    (utf8_sanitize (gr_Description r)) by done.
  destruct r as [u t d s]. cbn [gr_URL gr_Title gr_Description gr_Score] in *. subst s. vm_compute. reflexivity.
Qed.
Lemma rpc_text_reply text : utf8 text → rpc_text (Marshal (rpc_reply text)) = Val text.
Proof.
  intros Ht. unfold rpc_text. rewrite Unmarshal_Marshal by apply plain_reply.
  unfold rpc_reply. cbn [sanitized map fst snd]. rewrite (utf8_sanitize text) by done.
  vm_compute. reflexivity.
Qed.
Lemma dec_output_rows rs : Forall clean rs →
  dec_output [] (sanitized (output_json rs)) = Some rs.
Proof.
  intros Hc. unfold output_json. cbn [sanitized map fst snd]. unfold dec_output, dec_struct.
  assert (dec_list zero_GsResult dec_GsResult [] (JArr (map sanitized (map row rs))) = Some rs) as Hl.
  { unfold dec_list. induction Hc as [|r rs Hr Hc IH]; [done|]. cbn [map mapM].
    rewrite dec_row by done. cbn [mbind option_bind]. by rewrite IH. }
  unfold field. cbn [foldl fst snd mbind option_bind].
  rewrite decide_True by (vm_compute; reflexivity). done.
Qed.
Lemma parseRPCResponse_reply rs : Forall clean rs → parseRPCResponse (search_reply rs) = Val rs.
Proof.
  intros Hc. unfold parseRPCResponse, search_reply.
  rewrite rpc_text_reply by apply Marshal_utf8, plain_output.
  rewrite Unmarshal_Marshal by apply plain_output. by rewrite dec_output_rows.
Qed.

Lemma sanitized_args query timeRange opts :
  utf8 query → utf8 timeRange → utf8 (o_Source opts) →
  map sanitized_member (search_args query timeRange opts) = search_args query timeRange opts.
Proof.
  intros Hq Ht Ho. unfold search_args, GoSearch.given. rewrite !map_app. f_equal.
  { by destruct (IncludeMedia opts). }
  f_equal; [cbn [map fst snd sanitized]; by rewrite (utf8_sanitize query)|].
  f_equal; case_decide; try done; cbn [map fst snd sanitized];
    [by rewrite (utf8_sanitize (o_Source opts))|by rewrite (utf8_sanitize timeRange)].
Qed.

Section Spec.
Context {W : Type} `{Clock W} `{HttpClient W}.
(** What a server reads in a call of a tool: the protocol, the method, the tool, and the arguments
    of a search. *)
Record call_read := CallRead {
  sc_jsonrpc : gostring; sc_method : gostring; sc_tool : gostring;
  sc_query : gostring; sc_time_range : gostring; sc_source : gostring; sc_include_media : bool
}.
Definition dec_call_read : dec call_read := dec_struct (λ p kvs,
  v ← field (lit "jsonrpc") dec_string (sc_jsonrpc p) kvs;
  m ← field (lit "method") dec_string (sc_method p) kvs;
  field (lit "params") (dec_struct (λ p kvs,
    n ← field (lit "name") dec_string (sc_tool p) kvs;
    field (lit "arguments") (dec_struct (λ p kvs,
      q ← field (lit "query") dec_string (sc_query p) kvs;
      t ← field (lit "time_range") dec_string (sc_time_range p) kvs;
      s ← field (lit "source") dec_string (sc_source p) kvs;
      i ← field (lit "include_media") dec_bool (sc_include_media p) kvs;
      Some (CallRead (sc_jsonrpc p) (sc_method p) (sc_tool p) q t s i)))
      (CallRead (sc_jsonrpc p) (sc_method p) n (sc_query p) (sc_time_range p) (sc_source p) (sc_include_media p)) kvs))
    (CallRead v m (sc_tool p) (sc_query p) (sc_time_range p) (sc_source p) (sc_include_media p)) kvs).
Definition read_call (body : gostring) : option call_read :=
  Unmarshal (CallRead [] [] [] [] [] [] false) dec_call_read body.
(** The request is a search with this query and these options. *)
Definition asks_search (baseURL query timeRange : gostring) (opts : SearchOpts) (req : HttpRequest) : Prop :=
  rq_method req = lit "POST" ∧ rq_url req = baseURL ++ lit "/mcp" ∧
  rq_headers req = [(lit "Content-Type", lit "application/json");
                    (lit "Accept", lit "application/json, text/event-stream")] ∧
  read_call (rq_body req) =
    Some (CallRead (lit "2.0") (lit "tools/call") (lit "raw_web_search") query timeRange
                     (o_Source opts) (IncludeMedia opts)).
Lemma plain_call name args : Forall (λ kv, plain kv.2) args → plain (tool_call name args).
Proof.
  intros Ha. split; [apply digits_one|]. repeat split; try done. by apply plain_obj.
Qed.
Lemma read_search_call query timeRange opts :
  utf8 query → utf8 timeRange → utf8 (o_Source opts) →
  read_call (Marshal (tool_call (lit "raw_web_search") (search_args query timeRange opts))) =
    Some (CallRead (lit "2.0") (lit "tools/call") (lit "raw_web_search") query timeRange
                     (o_Source opts) (IncludeMedia opts)).
Proof.
  intros Hq Ht Ho. unfold read_call. rewrite Unmarshal_Marshal.
  2:{ apply plain_call. unfold search_args, GoSearch.given.
      destruct (IncludeMedia opts); repeat case_decide; by repeat constructor. }
  unfold tool_call. cbn [sanitized map fst snd].
  rewrite (sanitized_args query timeRange opts) by done.
  unfold search_args, GoSearch.given. destruct opts as [src media]. cbn [o_Source IncludeMedia].
  destruct media, (decide (src = [])) as [->|], (decide (timeRange = [])) as [->|]; vm_compute; reflexivity.
Qed.

(** C30: a search goes round: a server that answers a POST to the tools' address whose body reads as a
    call of [raw_web_search] with the query and the options as they were given - any valid text,
    quotes, control characters and all - with results, framed as an event of the protocol
    within the buffer, is asked just that, and the search returns exactly these results and leaves
    the availability as it was. *)
Theorem Search_roundtrip baseURL cx query timeRange opts rs ok w w' :
  baseURL ≠ [] → Parse (baseURL ++ lit "/mcp") ≠ None →
  utf8 query → utf8 timeRange → utf8 (o_Source opts) →
  Forall clean rs → frame_fits (search_reply rs) →
  (∀ req, asks_search baseURL query timeRange opts req →
     http_Do cx req w = (Val {| hr_status := 200; hr_body := Val (sse_frame (search_reply rs)) |}, w')) →
  SearchWithOpts baseURL cx query timeRange opts (ok, w) = (Val rs, (ok, w')).
Proof.
  intros Hb Hu Hq Ht Ho Hc Hf Hdo.
  unfold SearchWithOpts, call_tool. rewrite decide_False by done. unfold NewRequest.
  destruct (Parse (baseURL ++ lit "/mcp")); [|done].
  erewrite bind_eq.
  2:{ unfold lift_ok. cbn [fst snd]. rewrite Hdo; [reflexivity|].
      split_and!; [done..|]. by apply read_search_call. }
  cbn [hr_status hr_body fst snd]. change (negb (200 =? StatusOK)) with false. cbv iota.
  rewrite extractSSEData_frame; [| |by apply Marshal_nonempty, plain_reply|done].
  - by rewrite parseRPCResponse_reply.
  - by apply Marshal_printable, plain_reply.
Qed.

(** ** Availability *)
Inductive op :=
| OpHealth (cx : ctx)
| OpSearch (cx : ctx) (query timeRange : gostring) (opts : SearchOpts)
| OpDiscover (cx : ctx) (query : gostring) (opts : DiscoverOpts).
Definition forget {A} (m : M (bool * W) A) : M (bool * W) () := m ≫= λ _, mret ().
Definition run_op (baseURL : gostring) (o : op) : M (bool * W) () :=
  match o with
  | OpHealth cx => forget (CheckHealth baseURL cx)
  | OpSearch cx q tr opts => forget (SearchWithOpts baseURL cx q tr opts)
  | OpDiscover cx q opts => forget (Discover baseURL cx q opts)
  end.
Definition run_ops (baseURL : gostring) (ops : list op) : M (bool * W) () := mapM_ (run_op baseURL) ops.
(** What the exchange of an operation says of the server: a health check says yes or no; a call
    says no when there is no reply or its status is not 200, and nothing else. *)
Definition call_verdict (baseURL : gostring) (cx : ctx) (call : json) (w : W) : option bool :=
  match NewRequest (lit "POST") (baseURL ++ lit "/mcp") mcp_headers (Marshal call) with
  | None => None
  | Some req => match (http_Do cx req w).1 with
                | Err _ => Some false
                | Val resp => if hr_status resp =? StatusOK then None else Some false
                end
  end.
Definition verdict (baseURL : gostring) (o : op) (w : W) : option bool :=
  if decide (baseURL = []) then None else
  match o with
  | OpHealth cx =>
      match NewRequest (lit "GET") (baseURL ++ lit "/health") [] [] with
      | None => Some false
      | Some req => match (http_Do (WithTimeout cx (now w) healthTimeout) req w).1 with
                    | Err _ => Some false
                    | Val resp => Some (hr_status resp =? StatusOK)
                    end
      end
  | OpSearch cx q tr opts =>
      call_verdict baseURL cx (tool_call (lit "raw_web_search") (search_args q tr opts)) w
  | OpDiscover cx q opts =>
      call_verdict baseURL cx (tool_call (lit "research") (discover_args q opts)) w
  end.
Fixpoint history (baseURL : gostring) (ops : list op) (s : bool * W) : list (option bool) :=
  match ops with
  | [] => []
  | o :: ops => verdict baseURL o s.2 :: history baseURL ops (run_op baseURL o s).2
  end.
Lemma call_tool_flag wrap baseURL cx call parse s : baseURL ≠ [] →
  (call_tool wrap baseURL cx call parse s).2.1 = default s.1 (call_verdict baseURL cx call s.2).
Proof.
  intros Hb. unfold call_tool, call_verdict. rewrite decide_False by done.
  destruct (NewRequest _ _ _ _) as [req|]; [|done].
  unfold lift_ok, mbind, M_bind. destruct (http_Do cx req s.2) as [[resp|e] w']; [|done]. cbn [fst snd].
  by destruct (hr_status resp =? StatusOK).
Qed.
Lemma forget_state {A} (m : M (bool * W) A) s : (forget m s).2 = (m s).2.
Proof. unfold forget, mbind, M_bind. by destruct (m s). Qed.
Lemma run_op_flag baseURL o s : (run_op baseURL o s).2.1 = default s.1 (verdict baseURL o s.2).
Proof.
  unfold verdict. destruct (decide (baseURL = [])) as [->|Hb]; [by destruct o, s|].
  destruct o as [cx|cx q tr opts|cx q opts]; cbn [run_op]; rewrite forget_state;
    [|by apply call_tool_flag..].
  unfold CheckHealth. rewrite decide_False by done. destruct s as [ok w].
  unfold lift_ok, gets, mbind, M_bind. cbn [fst snd].
  destruct (NewRequest _ _ _ _) as [req|]; [|done].
  cbn [fst snd]. by destruct (http_Do _ req w) as [[resp|e] w'].
Qed.

(** The last word of a list of verdicts. *)
Definition says_yes (h : list (option bool)) : Prop :=
  ∃ i, h !! i = Some (Some true) ∧ ∀ j, (i < j)%nat → h !! j ≠ Some (Some false).
Definition never_no (h : list (option bool)) : Prop := ∀ j : nat, h !! j ≠ Some (Some false).
Lemma never_no_cons v h : never_no (v :: h) ↔ v ≠ Some false ∧ never_no h.
Proof.
  split.
  - intros Hn. split; [intros ->; by apply (Hn 0%nat)|]. intros j. apply (Hn (S j)).
  - intros [Hv Hn] [|j]; [naive_solver|apply Hn].
Qed.
Lemma says_yes_cons v h : says_yes (v :: h) ↔ says_yes h ∨ (v = Some true ∧ never_no h).
Proof.
  split.
  - intros ([|i] & Hi & Hl).
    + right. simpl in Hi. split; [congruence|]. intros j. apply (Hl (S j)). lia.
    + left. exists i. split; [done|]. intros j Hj. apply (Hl (S j)). lia.
  - intros [(i & Hi & Hl)|[-> Hn]].
    + exists (S i). split; [done|]. intros [|j] Hj; [lia|]. apply Hl. lia.
    + exists 0%nat. split; [done|]. intros [|j] Hj; [lia|]. apply Hn.
Qed.
Lemma run_ops_flag baseURL ops s :
  (run_ops baseURL ops s).2.1 = true ↔
  says_yes (history baseURL ops s) ∨ (s.1 = true ∧ never_no (history baseURL ops s)).
Proof.
  revert s. induction ops as [|o ops IH]; intros s.
  { simpl. split; [|intros [(i & Hi & _)|[]]; done]. right. by split. }
  cbn [run_ops mapM_ history]. rewrite says_yes_cons, never_no_cons.
  assert ((run_ops baseURL (o :: ops) s).2 = (run_ops baseURL ops (run_op baseURL o s).2).2) as E.
  { unfold run_ops. cbn [mapM_]. unfold mbind, M_bind. by destruct (run_op baseURL o s). }
  unfold run_ops in E, IH. cbn [mapM_] in E. rewrite E, IH, run_op_flag.
  destruct (verdict baseURL o s.2) as [[]|]; naive_solver.
Qed.
Lemma history_true baseURL ops s i : history baseURL ops s !! i = Some (Some true) →
  baseURL ≠ [] ∧ ∃ cx, ops !! i = Some (OpHealth cx).
Proof.
  revert s i. induction ops as [|o ops IH]; intros s i Hi; [done|].
  destruct i as [|i]; [|by apply (IH (run_op baseURL o s).2 i)].
  cbn in Hi. injection Hi as Hv. unfold verdict in Hv. case_decide; [done|].
  split; [done|]. destruct o; [by eexists| |]; unfold call_verdict in Hv; by repeat case_match.
Qed.

(** C32: the availability flag is the last word of the exchanges that decide it: a client that starts
    unavailable is available after any sequence of operations exactly when it has a base URL and
    some health check succeeded after which no health check failed and no search or
    discovery met a transport error or a status other than 200. So a search or a discovery can
    clear the flag - it is not the state at the last health check - but never sets it, and one
    that fails on a reply with status 200, which has no event or a bad document, leaves it. *)
Theorem Available_last_word baseURL ops w :
  let s := (run_ops baseURL ops (false, w)).2 in
  (Available baseURL s).1 = true ↔
  ∃ i cx, ops !! i = Some (OpHealth cx) ∧ history baseURL ops (false, w) !! i = Some (Some true) ∧
    ∀ j, (i < j)%nat → history baseURL ops (false, w) !! j ≠ Some (Some false).
Proof.
  cbn zeta. unfold Available, gets. cbn [fst snd]. rewrite andb_true_iff, bool_decide_eq_true, run_ops_flag.
  split.
  - intros [Hb [(i & Hi & Hl)|[? _]]]; [|done]. destruct (history_true _ _ _ _ Hi) as (_ & cx & Ho). eauto.
  - intros (i & cx & Ho & Hi & Hl). split; [by eapply history_true|]. left. by exists i.
Qed.
End Spec.

(** ** Witness: a server that always answers with one result *)
Definition demo_row : GsResult :=
  {| gr_URL := lit "https://e.org/"; gr_Title := lit "say hi"; gr_Description := []; gr_Score := fone |}.
#[local] Instance demo_http : HttpClient () :=
  {| http_Do _ _ w := (Val {| hr_status := 200; hr_body := Val (sse_frame (search_reply [demo_row])) |}, w) |}.
#[local] Instance demo_clock : Clock () := {|
  now _ := 0; ctx_err _ _ := None; wait_or_done _ _ w := (None, w); random w := (fzero, w);
  retry_hook _ _ _ _ w := w
|}.
Lemma Search_roundtrip_witness :
  SearchWithOpts (lit "http://s") (Ctx None 0) [34; 10] [] {| o_Source := []; IncludeMedia := true |}
    (false, ()) = (Val [demo_row], (false, ())).
Proof.
  assert (∀ s, Forall (λ c, 0 <= c < 128) s → utf8 s) as Ha by exact utf8_ascii.
  apply (Search_roundtrip (lit "http://s") (Ctx None 0) [34; 10] []
           {| o_Source := []; IncludeMedia := true |} [demo_row] false () ()).
  - discriminate.
  - vm_compute. discriminate.
  - apply Ha. repeat (constructor; [lia|]). constructor.
  - apply Ha. constructor.
  - apply Ha. constructor.
  - constructor; [|constructor].
    split; try reflexivity; apply Ha; repeat (constructor; [by vm_compute|]); constructor.
  - vm_compute. reflexivity.
  - reflexivity.
Defined.
