(* ===== verification/Yandex.v ===== *)
(** Package [websearch], the asynchronous Yandex Search API: the search ([yandex.go]), the operation
    it starts and polls ([yandex_poll.go]) and the rows of the decoded document
    ([yandex_parse.go]); [search/yandex.go] counts the request. The ticker is a parameter. *)
From S2P Require Import Prelude Unicode Utf8 GoStrings GoUrl Floats Json JsonEnc Xml Effects GoTime Results Retry Serp Engines SearchEngines Budget Http.
Local Open Scope Z_scope.

Definition yandexAsyncEndpoint : gostring := lit "https://searchapi.api.cloud.yandex.net/v2/web/searchAsync".
Definition yandexOpEndpoint : gostring := lit "https://operation.api.cloud.yandex.net/operations/".
Definition yandexPollInterval : Z := 500 * Millisecond.
Definition yandexMaxPollWait : Z := 10 * Second.
Definition yandexDefaultRegion : gostring := lit "213".
Record YandexConfig := { y_APIKey : gostring; FolderID : gostring; MonthlyLimit : Z }.

(** ** Documents *)
(** [yandexRequest]: the fields in the order of the struct. *)
Definition yandexRequest (query region folder : gostring) : json :=
  let s k v := (lit k, JStr v) in
  JObj [(lit "query", JObj [s "searchType" (lit "SEARCH_TYPE_RU"); s "queryText" query;
                            s "familyMode" (lit "FAMILY_MODE_NONE")]);
        (lit "sortSpec", JObj [s "sortMode" (lit "SORT_MODE_BY_RELEVANCE");
                               s "sortOrder" (lit "SORT_ORDER_DESC")]);
        (lit "groupSpec", JObj [s "groupMode" (lit "GROUP_MODE_DEEP"); s "groupsOnPage" (lit "10");
                                s "docsInGroup" (lit "1")]);
        s "maxPassages" (lit "2"); s "region" region; s "l10N" (lit "LOCALIZATION_RU");
        s "folderId" folder; s "page" (lit "0")].

(** A field of type [json.RawMessage]: the text of the last member of that name. *)
Fixpoint raw_members (fuel : nat) (s : gostring) : list (gostring * gostring) :=
  match fuel with
  | O => []
  | S fuel =>
      match skip_ws s with
      | 34 :: s =>
          match read_string (S (length s)) [] s with
          | Some (k, s) =>
              match skip_ws s with
              | 58 :: s =>
                  let s := skip_ws s in
                  match read_value (2 * length s + 2) s with
                  | Some (_, rest) =>
                      (k, take (length s - length rest) s) ::
                      match skip_ws rest with 44 :: s => raw_members fuel s | _ => [] end
                  | None => []
                  end
              | _ => []
              end
          | None => []
          end
      | _ => []
      end
  end.
Definition raw_field (name s : gostring) : gostring :=
  match skip_ws s with
  | 123 :: s =>
      foldl (λ acc kv, if decide (StringsToLower kv.1 = StringsToLower name) then kv.2 else acc) []
            (raw_members (length s) s)
  | _ => []
  end.
Record yandexOperation := {
  op_ID : gostring; op_Done : bool; op_Response : gostring; op_Error : option (Z * gostring)
}.
Definition dec_yandexError : dec (Z * gostring) := dec_struct (λ p kvs,
  c ← field (lit "code") dec_int p.1 kvs; m ← field (lit "message") dec_string p.2 kvs; Some (c, m)).
Definition zero_op : yandexOperation :=
  {| op_ID := []; op_Done := false; op_Response := []; op_Error := None |}.
Definition dec_yandexOperation (raw : gostring) : dec yandexOperation := dec_struct (λ p kvs,
  i ← field (lit "id") dec_string (op_ID p) kvs;
  d ← field (lit "done") dec_bool (op_Done p) kvs;
  e ← field (lit "error") (dec_ptr (0, []) dec_yandexError) (op_Error p) kvs;
  Some {| op_ID := i; op_Done := d; op_Response := raw; op_Error := e |}).
Definition decode_operation (data : gostring) : option yandexOperation :=
  Unmarshal zero_op (dec_yandexOperation (raw_field (lit "response") data)) data.

Definition yandexExtractResponse (op : yandexOperation) : result gostring :=
  if decide (op_Response op = []) then
    Err (ErrMsg (lit "yandex: empty response in completed operation"))
  else
    match Unmarshal [] (dec_struct (λ p kvs, field (lit "rawData") dec_string p kvs)) (op_Response op) with
    | Some (c :: rawData) =>
        match StdDecode (c :: rawData) with
        | Some data => Val data
        | None => Err (ErrVar (lit "base64.CorruptInputError"))
        end
    | _ =>
        match Unmarshal [] dec_string (op_Response op) with
        | Some xmlStr => Val xmlStr
        | None => Val (op_Response op)
        end
    end.

(** ** The decoded answer *)
Record yandexXMLDoc := {
  x_URL : gostring; x_Title : gostring; x_Headline : gostring; x_Passage : list gostring
}.
(** The error, and the documents of each group. *)
Record yandexXMLResponse := { x_Error : option (Z * gostring); x_Groups : list (list yandexXMLDoc) }.
Definition cleanXMLText (s : gostring) : gostring :=
  TrimSpace (ReplaceAll (ReplaceAll s (lit "<hlword>") []) (lit "</hlword>") []).
Definition yandex_row (doc : yandexXMLDoc) : option Result :=
  if decide (x_URL doc = []) then None else
  let title := cleanXMLText (x_Title doc) in
  let title := if decide (title = []) then x_Headline doc else title in
  let content := if decide (x_Passage doc = []) then x_Headline doc else Join (x_Passage doc) [32] in
  Some (MkResult title (x_URL doc) (cleanXMLText content) directResultScore
                 (engine_meta (lit "yandex"))).

(** The fields of the structures, from the tree of the document. A structure that occurs again is
    filled again: its slices grow, its strings and integers are set anew. *)
Definition xml_doc (n : node) : yandexXMLDoc :=
  {| x_URL := string_field (lit "url") n; x_Title := string_field (lit "title") n;
     x_Headline := string_field (lit "headline") n;
     x_Passage := inner_text <$> below (lit "passage") (children_of (lit "passages") n) |}.
Definition xml_errors (es : list node) : option (option (Z * gostring)) :=
  foldl (λ acc e, p ← acc;
           c ← int_attr (lit "code") (from_option fst 0 p) e; Some (Some (c, inner_text e)))
        (Some None) es.
Definition xml_response (root : node) : option yandexXMLResponse :=
  if decide (local_name root = Some (lit "yandexsearch")) then
    let responses := children_of (lit "response") root in
    e ← xml_errors (below (lit "error") responses);
    Some {| x_Error := e;
            x_Groups := (λ g : node, xml_doc <$> children_of (lit "doc") g) <$>
              below (lit "group") (below (lit "grouping") (below (lit "results") responses)) |}
  else None.

Section Yandex.
Context {W : Type} `{Clock W} `{HttpClient W} `{Metrics W} `{Host W} `{XmlNames}.
Definition ParseYandexXML (data : gostring) : result (list Result) :=
  match xml_Unmarshal xml_response data with
  | None => Err (Wrapped (lit "xml unmarshal") (ErrMsg []))
  | Some resp =>
      match x_Error resp with
      | Some (code, message) => Err (ErrMsg (lit "yandex error " ++ Itoa code ++ lit ": " ++ message))
      | None => Val (x_Groups resp ≫= omap yandex_row)
      end
  end.

(** ** Requests *)
Definition auth (cfg : YandexConfig) : gostring * gostring :=
  (lit "Authorization", lit "Api-Key " ++ y_APIKey cfg).
(** Sending a request and reading the body of a reply with status 200; the texts name the steps in
    the errors. *)
Definition send (request_text http_text read_text status_text : gostring) (cx : ctx) (req : option HttpRequest)
    : M W (result gostring) :=
  match req with
  | None => mret (Err (Wrapped request_text (ErrMsg [])))
  | Some req =>
      r ← http_Do cx req;
      mret match r with
           | Err e => Err (Wrapped http_text e)
           | Val resp =>
               match hr_body resp with
               | Err e => Err (Wrapped read_text e)
               | Val data =>
                   if hr_status resp =? StatusOK then Val data
                   else Err (ErrMsg (status_text ++ Itoa (hr_status resp) ++ lit ": " ++ data))
               end
           end
  end.
Definition yandexStartSearch (cx : ctx) (cfg : YandexConfig) (query region : gostring)
    : M W (result gostring) :=
  r ← send (lit "yandex new request") (lit "yandex http") (lit "yandex read body")
        (lit "yandex async HTTP ") cx
        (NewRequest (lit "POST") yandexAsyncEndpoint
           [auth cfg; (lit "Content-Type", lit "application/json")]
           (Marshal (yandexRequest query region (FolderID cfg))));
  mret match r with
       | Err e => Err e
       | Val data =>
           match decode_operation data with
           | None => Err (Wrapped (lit "yandex json") (ErrMsg []))
           | Some op => if decide (op_ID op = []) then Err (ErrMsg (lit "yandex: empty operation id"))
                        else Val (op_ID op)
           end
       end.
Definition yandexFetchOperation (cx : ctx) (cfg : YandexConfig) (opID : gostring)
    : M W (result yandexOperation) :=
  r ← send (lit "yandex poll request") (lit "yandex poll http") (lit "yandex poll read")
        (lit "yandex poll HTTP ") cx
        (NewRequest (lit "GET") (yandexOpEndpoint ++ opID) [auth cfg] []);
  mret match r with
       | Err e => Err e
       | Val data =>
           match decode_operation data with
           | None => Err (Wrapped (lit "yandex poll json") (ErrMsg []))
           | Some op =>
               match op_Error op with
               | Some (code, message) =>
                   Err (ErrMsg (lit "yandex error " ++ Itoa code ++ lit ": " ++ message))
               | None => Val op
               end
           end
       end.

(** ** Polling *)
(** The select of an iteration: the [n]-th tick of a ticker started at a time, or the error of the
    context, whichever it takes. *)
Variable tick_or_done : Z → nat → ctx → W → option error * W.
Fixpoint poll_loop (fuel : nat) (start : Z) (n : nat) (cx : ctx) (cfg : YandexConfig)
    (opID : gostring) : M W (outcome (result gostring)) :=
  match fuel with
  | O => mret OutOfFuel
  | S fuel =>
      d ← tick_or_done start n cx;
      match d with
      | Some e => mret (Ok (Err e))
      | None =>
          late ← gets (λ w, start + yandexMaxPollWait <? now w);
          if late : bool then
            mret (Ok (Err (ErrMsg (lit "yandex: operation " ++ opID ++ lit " timed out"))))
          else
            r ← yandexFetchOperation cx cfg opID;
            match r with
            | Err e => mret (Ok (Err e))
            | Val op =>
                if op_Done op then mret (Ok (yandexExtractResponse op))
                else poll_loop fuel start (S n) cx cfg opID
            end
      end
  end.
Definition yandexPollOperation (fuel : nat) (cx : ctx) (cfg : YandexConfig) (opID : gostring)
    : M W (outcome (result gostring)) :=
  start ← gets now; poll_loop fuel start 1 cx cfg opID.

(** ** The search; the monthly counter is its state, and the check runs without interruption *)
Definition lift_counter {A} (m : M W A) : M (Monthly.counter * W) A :=
  λ s, let '(a, w) := m s.2 in (a, (s.1, w)).
Definition checked_limit (limit : Z) : M (Monthly.counter * W) bool :=
  λ s, let '(ok, c) := Monthly.yandexCheckLimit limit (Month (localDay s.2)) s.1 in (ok, (c, s.2)).
Definition dated_query (query timeRange : gostring) : M W gostring :=
  gets (λ w, let dateFilter := timeRangeToYandexDate (localDay w) timeRange in
             if decide (dateFilter = []) then query else TrimSpace (query ++ [32] ++ dateFilter)).
Definition yandex_run (fuel : nat) (cx : ctx) (cfg : YandexConfig) (query region : gostring)
    : M W (outcome (result (list Result))) :=
  s ← yandexStartSearch cx cfg query region;
  match s with
  | Err e => mret (Ok (Err (Wrapped (lit "yandex start") e)))
  | Val opID =>
      x ← yandexPollOperation fuel cx cfg opID;
      mret match x with
           | Ok (Err e) => Ok (Err (Wrapped (lit "yandex poll") e))
           | Ok (Val xmlData) =>
               Ok match ParseYandexXML xmlData with
                  | Err e => Err (Wrapped (lit "yandex parse") e)
                  | Val results => Val results
                  end
           | Panic => Panic
           | OutOfFuel => OutOfFuel
           end
  end.
Definition SearchYandexAPI (fuel : nat) (cx : ctx) (cfg : YandexConfig)
    (query region timeRange : gostring) : M (Monthly.counter * W) (outcome (result (list Result))) :=
  if bool_decide (y_APIKey cfg = []) || bool_decide (FolderID cfg = []) then
    mret (Ok (Err (ErrMsg (lit "yandex: api key and folder_id required"))))
  else
    ok ← checked_limit (MonthlyLimit cfg);
    if negb ok then mret (Ok (Val [])) else
    let region := if decide (region = []) then yandexDefaultRegion else region in
    query ← lift_counter (dated_query query timeRange);
    lift_counter (yandex_run fuel cx cfg query region).
(** [search.SearchYandexAPI]: counted. *)
Definition SearchYandexDirect (m : bool) (fuel : nat) (cx : ctx) (cfg : YandexConfig)
    (query region timeRange : gostring) : M (Monthly.counter * W) (outcome (result (list Result))) :=
  lift_counter (when m (Incr (lit "yandex_requests") []));;
  SearchYandexAPI fuel cx cfg query region timeRange.
End Yandex.
