(* ===== verification/YandexSpec.v ===== *)
(** The asynchronous search: polling ends within twenty polls, the documents of the operation are
    read back as they were written, in each of their wrappings, and the monthly limit lets no
    request out once it is spent. *)
From S2P Require Import Prelude Unicode Utf8 GoStrings GoUrl Floats Json JsonEnc Effects GoTime Results Retry Serp Engines SearchEngines Budget Http Yandex.
Local Open Scope Z_scope.

Section Poll.
Context {W : Type} `{Clock W} `{HttpClient W}.
Variable tick_or_done : Z → nat → ctx → W → option error * W.
(** A ticker: its [n]-th tick comes no earlier than [n] intervals after it started. *)
Definition ticks_in_time : Prop := ∀ start n cx w w',
  tick_or_done start n cx w = (None, w') → start + Z.of_nat n * yandexPollInterval <= now w'.
Hypothesis in_time : ticks_in_time.
Notation poll_loop := (poll_loop tick_or_done).

(** What a poll does with the operation it fetched. *)
Lemma poll_loop_S fuel start n cx cfg opID w :
  poll_loop (S fuel) start n cx cfg opID w =
  let '(d, w) := tick_or_done start n cx w in
  match d with
  | Some e => (Ok (Err e), w)
  | None =>
      if start + yandexMaxPollWait <? now w
      then (Ok (Err (ErrMsg (lit "yandex: operation " ++ opID ++ lit " timed out"))), w)
      else let '(r, w) := yandexFetchOperation cx cfg opID w in
           match r with
           | Err e => (Ok (Err e), w)
           | Val op => if op_Done op then (Ok (yandexExtractResponse op), w)
                       else poll_loop fuel start (S n) cx cfg opID w
           end
  end.
Proof.
  cbn [Yandex.poll_loop]. unfold mbind, M_bind, mret, M_ret, gets.
  destruct (tick_or_done start n cx w) as [[e|] w1]; [done|].
  destruct (_ <? now w1); [done|].
  destruct (yandexFetchOperation cx cfg opID w1) as [[op|e] w2]; [|done]. by destruct (op_Done op).
Qed.
Lemma poll_loop_fuel fuel more start n cx cfg opID w :
  (n <= 21)%nat → (21 < fuel + n)%nat →
  poll_loop (fuel + more) start n cx cfg opID w = poll_loop fuel start n cx cfg opID w ∧
  (poll_loop fuel start n cx cfg opID w).1 ≠ OutOfFuel.
Proof.
  revert n w. induction fuel as [|fuel IH]; intros n w Hn Hf; [lia|].
  cbn [Nat.add]. rewrite !poll_loop_S.
  destruct (tick_or_done start n cx w) as [[e|] w1] eqn:Et; [done|]. apply in_time in Et.
  destruct (Z.ltb_spec (start + yandexMaxPollWait) (now w1)) as [|Hlate]; [done|].
  destruct (yandexFetchOperation cx cfg opID w1) as [[op|e] w2]; [|done].
  destruct (op_Done op); [done|]. apply IH; [|lia].
  unfold yandexMaxPollWait, yandexPollInterval, Second, Millisecond in *. lia.
Qed.

(** C33: polling always ends: with a ticker that keeps its interval, twenty-one turns of the loop
    decide it, so an operation is asked for at most twenty times, whatever the server answers;
    more fuel changes nothing. *)
Theorem yandexPollOperation_ends more cx cfg opID w :
  yandexPollOperation tick_or_done (21 + more) cx cfg opID w =
  yandexPollOperation tick_or_done 21 cx cfg opID w ∧
  (yandexPollOperation tick_or_done 21 cx cfg opID w).1 ≠ OutOfFuel.
Proof. unfold yandexPollOperation, gets. apply (poll_loop_fuel 21 more); lia. Qed.
End Poll.

(** ** Base64 *)
Lemma b64_char_value v : 0 <= v < 64 →
  b64_value false (b64_char false v) = Some v ∧ b64_char false v ∉ [10; 13; 61] ∧
  0 <= b64_char false v < 128.
Proof.
  intros Hv. assert (∃ k, (k < 64)%nat ∧ v = Z.of_nat k) as (k & Hk & ->)
    by (exists (Z.to_nat v); lia).
  do 64 (destruct k as [|k]; [split_and!; [reflexivity|set_solver|by vm_compute..]|]). lia.
Qed.
(** An encoding is the characters of some values, then the padding to a multiple of four. *)
Definition encoding_of (s e : gostring) : Prop := ∃ vs pad,
  e = (b64_char false <$> vs) ++ pad ∧ Forall (λ v, 0 <= v < 64) vs ∧ b64_groups vs = Some s ∧
  pad ∈ [[]; [61]; [61; 61]] ∧ zlen e mod 4 = 0.
Lemma b64_encode_shape s : bytes_ok s → encoding_of s (b64_encode s).
Proof.
  remember (length s) as n eqn:Hn. revert s Hn.
  induction (lt_wf n) as [n _ IH]; intros s -> Hs. unfold encoding_of.
  destruct s as [|a [|b [|c s]]]; unfold bytes_ok in Hs; rewrite ?Forall_cons in Hs.
  - exists [], []. split_and!; [done|constructor|done|set_solver|done].
  - exists [a / 4; a mod 4 * 16], [61; 61].
    split_and!; [done|repeat constructor; lia| |set_solver|done]. simpl. do 2 f_equal. lia.
  - exists [a / 4; a mod 4 * 16 + b / 16; b mod 16 * 4], [61].
    split_and!; [done|repeat constructor; lia| |set_solver|done]. simpl. repeat f_equal; lia.
  - destruct (IH (length s)) with (s := s) as (vs & pad & E & Hv & Hg & Hp & Hm);
      [simpl; lia|done|apply Hs|].
    exists (a / 4 :: a mod 4 * 16 + b / 16 :: b mod 16 * 4 + c / 64 :: c mod 64 :: vs), pad.
    split_and!; [by cbn; rewrite E|repeat (constructor; [lia|]); done| |done|].
    + cbn [b64_groups]. rewrite Hg. cbn. repeat f_equal; lia.
    + cbn [b64_encode app]. rewrite !zlen_cons. lia.
Qed.
Lemma b64_body vs : Forall (λ v, 0 <= v < 64) vs →
  mapM (b64_value false) (b64_char false <$> vs) = Some vs ∧
  Forall (λ c, c ∉ [10; 13; 61]) (b64_char false <$> vs).
Proof.
  induction 1 as [|v vs Hv _ [IH1 IH2]]; [by split; [|constructor]|]. cbn.
  destruct (b64_char_value v Hv) as (-> & Hc & _). cbn. rewrite IH1. split; [done|by constructor].
Qed.
(** The padding of a body without equals signs is found. *)
Lemma no_eq_suffix body : Forall (λ c, c ∉ [10; 13; 61]) body → HasSuffix body (lit "=") = false.
Proof.
  intros Hb. unfold HasSuffix. change (reverse (lit "=")) with [61].
  destruct (reverse body) as [|c k] eqn:E; [done|].
  assert (c ∈ body) as Hc by (apply elem_of_reverse; rewrite E; set_solver).
  rewrite Forall_forall in Hb. specialize (Hb c Hc). cbn [HasPrefix].
  by rewrite (proj2 (Z.eqb_neq 61 c)) by set_solver.
Qed.
Lemma HasSuffix_snoc s c p d : HasSuffix (s ++ [c]) (p ++ [d]) = (d =? c) && HasSuffix s p.
Proof. unfold HasSuffix. by rewrite !reverse_snoc. Qed.
Lemma HasSuffix_nil_r s : HasSuffix s [] = true.
Proof. unfold HasSuffix. by destruct (reverse s). Qed.
Lemma padding_found body pad : Forall (λ c, c ∉ [10; 13; 61]) body → pad ∈ [[]; [61]; [61; 61]] →
  (if HasSuffix (body ++ pad) (lit "==") then take (length (body ++ pad) - 2) (body ++ pad)
   else if HasSuffix (body ++ pad) (lit "=") then take (length (body ++ pad) - 1) (body ++ pad)
   else body ++ pad) = body.
Proof.
  intros Hb Hp. pose proof (no_eq_suffix body Hb) as Hn.
  change (lit "==") with (lit "=" ++ [61]). change (lit "=") with ([] ++ [61]) in *.
  rewrite !elem_of_cons, elem_of_nil in Hp. destruct Hp as [->|[->|[->|[]]]].
  - rewrite app_nil_r, Hn. destruct (HasSuffix body (([] ++ [61]) ++ [61])) eqn:E; [|done].
    destruct body as [|c k _] using rev_ind; [done|]. rewrite HasSuffix_snoc in E, Hn.
    rewrite HasSuffix_nil_r, andb_true_r in Hn. by rewrite Hn in E.
  - rewrite !HasSuffix_snoc, Hn, HasSuffix_nil_r. cbn [andb]. rewrite length_app, andb_false_r.
    cbn [length]. by rewrite Nat.add_sub, take_app_length.
  - change [61; 61] with ([61] ++ [61]). rewrite (assoc (++)), !HasSuffix_snoc, HasSuffix_nil_r.
    cbn [andb]. rewrite !length_app. cbn [length].
    change ((61 =? 61) && ((61 =? 61) && true)) with true. cbv iota.
    replace (length body + (1 + 1) - 2)%nat with (length body) by lia. by rewrite take_app_length.
Qed.
Lemma StdDecode_StdEncode s : bytes_ok s → StdDecode (StdEncode s) = Some s.
Proof.
  intros (vs & pad & E & Hv & Hg & Hp & Hm)%b64_encode_shape. unfold StdDecode, StdEncode.
  destruct (b64_body vs Hv) as [Hvs Hb].
  assert (b64_skip (b64_encode s) = b64_encode s) as ->.
  { unfold b64_skip. apply filter_all. rewrite E, Forall_app. split.
    - eapply Forall_impl; [exact Hb|]. set_solver.
    - rewrite !elem_of_cons, elem_of_nil in Hp. destruct Hp as [->|[->|[->|[]]]]; by repeat constructor. }
  rewrite Hm. cbn [negb Z.eqb]. rewrite E, padding_found by done. by rewrite Hvs.
Qed.

Lemma StdEncode_ascii s : bytes_ok s → Forall (λ c, 0 <= c < 128) (StdEncode s).
Proof.
  intros (vs & pad & E & Hv & _ & Hp & _)%b64_encode_shape. unfold StdEncode. rewrite E, Forall_app.
  split; [apply Forall_fmap; eapply Forall_impl; [exact Hv|]|].
  - intros v Hr. by apply b64_char_value.
  - rewrite !elem_of_cons, elem_of_nil in Hp. destruct Hp as [->|[->|[->|[]]]]; by repeat constructor.
Qed.

(** ** The documents of an operation *)
(** What the service writes for an operation. *)
Definition operation_json (id : gostring) (done_ : bool) (response : list (gostring * json)) : json :=
  JObj ([(lit "id", JStr id); (lit "done", JBool done_)] ++ response).
Lemma raw_members_S fuel k v rest : plain v → closes rest →
  raw_members (S fuel) (quote k ++ 58 :: Marshal v ++ rest) =
  (sanitize k, Marshal v) :: match skip_ws rest with 44 :: s => raw_members fuel s | _ => [] end.
Proof.
  intros Hp Hr. destruct (read_quoted k (58 :: Marshal v ++ rest)) as (body & -> & Hb).
  cbn [raw_members skip_ws]. change (json_space 34) with false. cbv iota. rewrite Hb.
  cbn [skip_ws]. change (json_space 58) with false. cbv iota zeta.
  rewrite skip_ws_Marshal by done. rewrite reads_all; [|done|done|rewrite length_app; lia].
  f_equal. f_equal. rewrite length_app, Nat.add_sub. by rewrite take_app_length.
Qed.
(** The raw text of the response member is what was written for it. *)
Lemma raw_response id b v : plain v →
  raw_field (lit "response") (Marshal (operation_json id b [(lit "response", v)])) = Marshal v.
Proof.
  intros Hp. unfold raw_field, operation_json. cbn [app Marshal map Join fst snd].
  cbn [skip_ws]. change (json_space 123) with false. cbv iota.
  repeat first [rewrite <- (app_assoc (A := Z))|rewrite <- (app_comm_cons (A := Z))].
  set (T := quote (lit "id") ++ _).
  assert (∃ f, length T = S (S (S f))) as (f & ->).
  { exists (length T - 3)%nat. unfold T, quote. cbn [app length]. rewrite !length_app. cbn. lia. }
  unfold T. change (quote id) with (Marshal (JStr id)).
  rewrite raw_members_S; [|done|set_solver]. cbn [app skip_ws]. change (json_space 44) with false. cbv iota.
  change (if b then lit "true" else lit "false") with (Marshal (JBool b)).
  rewrite raw_members_S; [|done|set_solver]. cbn [app skip_ws]. change (json_space 44) with false. cbv iota.
  rewrite raw_members_S; [|done|set_solver].
  change (skip_ws [125]) with [125]. cbn [foldl fst snd].
  rewrite (decide_True (P := StringsToLower (sanitize (lit "response")) = _)) by reflexivity. done.
Qed.
Lemma raw_nothing id b : raw_field (lit "response") (Marshal (operation_json id b [])) = [].
Proof.
  unfold raw_field, operation_json. cbn [app Marshal map Join fst snd].
  cbn [skip_ws]. change (json_space 123) with false. cbv iota.
  repeat first [rewrite <- (app_assoc (A := Z))|rewrite <- (app_comm_cons (A := Z))].
  set (T := quote (lit "id") ++ _).
  assert (∃ f, length T = S (S f)) as (f & ->).
  { exists (length T - 2)%nat. unfold T, quote. cbn [app length]. rewrite !length_app. cbn. lia. }
  unfold T. change (quote id) with (Marshal (JStr id)).
  rewrite raw_members_S; [|done|set_solver]. cbn [app skip_ws]. change (json_space 44) with false. cbv iota.
  change (if b then lit "true" else lit "false") with (Marshal (JBool b)).
  rewrite raw_members_S; [|done|set_solver]. reflexivity.
Qed.
Lemma decode_operation_json id b response :
  utf8 id → Forall (λ kv, plain kv.2) response →
  (response = [] ∨ ∃ v, response = [(lit "response", v)]) →
  decode_operation (Marshal (operation_json id b response)) =
  Some {| op_ID := id; op_Done := b; op_Error := None;
          op_Response := match response with [] => [] | kv :: _ => Marshal kv.2 end |}.
Proof.
  intros Hid Hp Hr. unfold decode_operation.
  assert (raw_field (lit "response") (Marshal (operation_json id b response)) =
          match response with [] => [] | kv :: _ => Marshal kv.2 end) as ->.
  { destruct Hr as [->|(v & ->)]; [apply raw_nothing|]. inv_clear Hp. by apply raw_response. }
  rewrite Unmarshal_Marshal.
  2:{ apply plain_obj. cbn [app]. repeat (constructor; [done|]). done. }
  unfold operation_json. cbn [sanitized map app fst snd]. rewrite (utf8_sanitize id) by done.
  destruct Hr as [->|(v & ->)]; cbn [map fst snd].
  - vm_compute. reflexivity.
  - generalize (sanitized v), (Marshal v). intros j raw. vm_compute. reflexivity.
Qed.

(** the finished operation is read back in both of its wrappings: for an operation whose
    response is the document in base64 under [rawData], for any bytes, and for one whose response
    is the document as a JSON string, decoding finds the identifier and that it is done, and the
    extraction gives the document, byte for byte. A response of another shape is passed on as it
    is written, and a finished operation without a response is an error. *)
Theorem operation_roundtrip id d j :
  utf8 id → bytes_ok d → d ≠ [] → utf8 d → plain j → (∃ l, j = JArr l) →
  let written response := Marshal (operation_json id true response) in
  let extracted response :=
    match decode_operation (written response) with
    | Some op => if decide (op_ID op = id ∧ op_Done op = true ∧ op_Error op = None)
                 then Some (yandexExtractResponse op) else None
    | None => None
    end in
  extracted [(lit "response", JObj [(lit "rawData", JStr (StdEncode d))])] = Some (Val d) ∧
  extracted [(lit "response", JStr d)] = Some (Val d) ∧
  extracted [(lit "response", j)] = Some (Val (Marshal j)) ∧
  extracted [] = Some (Err (ErrMsg (lit "yandex: empty response in completed operation"))).
Proof.
  intros Hid Hb Hd Hu Hp Hj written extracted.
  assert (∀ response, Forall (λ kv, plain kv.2) response →
    (response = [] ∨ ∃ v, response = [(lit "response", v)]) →
    extracted response = Some (yandexExtractResponse
      {| op_ID := id; op_Done := true; op_Error := None;
         op_Response := match response with [] => [] | kv :: _ => Marshal kv.2 end |})) as Hx.
  { intros response Hpr Hr. unfold extracted, written. rewrite decode_operation_json by done.
    by rewrite decide_True. }
  assert (∀ v, plain v → extracted [(lit "response", v)] = Some (yandexExtractResponse
      {| op_ID := id; op_Done := true; op_Error := None; op_Response := Marshal v |})) as Hv.
  { intros v Hpv. by rewrite Hx; [|repeat constructor|right; eexists]. }
  split_and!; [rewrite Hv by (repeat constructor)|rewrite Hv by done|rewrite Hv by done|
               by rewrite Hx; [|constructor|left]]; f_equal; unfold yandexExtractResponse;
    cbn [op_Response]; rewrite decide_False by (by apply Marshal_nonempty).
  - rewrite Unmarshal_Marshal by (repeat constructor). cbn [sanitized map fst snd].
    rewrite (utf8_sanitize (StdEncode d)) by (by apply utf8_ascii, StdEncode_ascii).
    pose proof (StdDecode_StdEncode d Hb) as Hdec.
    unfold dec_struct, field. cbn [foldl fst snd mbind option_bind].
    rewrite decide_True by reflexivity. cbn [dec_string].
    destruct (StdEncode d) as [|c e] eqn:E; [vm_compute in Hdec; congruence|]. by rewrite Hdec.
  - rewrite Unmarshal_Marshal by done. cbn [dec_struct sanitized]. 
    rewrite Unmarshal_Marshal by done. cbn [dec_string sanitized]. by rewrite utf8_sanitize.
  - destruct Hj as (l & ->). by rewrite !Unmarshal_Marshal by done.
Qed.

(** ** Witnesses: a service whose operation never finishes, polled every half second *)
#[local] Instance demo_clock : Clock Z := {|
  now w := w; ctx_err _ _ := None; wait_or_done _ d w := (None, w + d); random w := (fzero, w);
  retry_hook _ _ _ _ w := w
|}.
#[local] Instance demo_http : HttpClient Z :=
  {| http_Do _ _ w := (Val {| hr_status := 200;
                              hr_body := Val (Marshal (operation_json (lit "op1") false [])) |}, w) |}.
Definition demo_tick (start : Z) (n : nat) (_ : ctx) (_ : Z) : option error * Z :=
  (None, start + Z.of_nat n * yandexPollInterval).
Definition demo_config : YandexConfig :=
  {| y_APIKey := lit "k"; FolderID := lit "f"; MonthlyLimit := 0 |}.
Lemma yandexPollOperation_ends_witness :
  yandexPollOperation demo_tick 21 (Ctx None 0) demo_config (lit "op1") 0 =
    (Ok (Err (ErrMsg (lit "yandex: operation op1 timed out"))), 10500000000) ∧
  (yandexPollOperation demo_tick 21 (Ctx None 0) demo_config (lit "op1") 0).1 ≠ OutOfFuel.
Proof.
  assert (ticks_in_time demo_tick) as Ht
    by (intros start n cx w w' E; injection E as <-; apply Z.le_refl).
  split; [vm_compute; reflexivity|].
  exact (proj2 (yandexPollOperation_ends demo_tick Ht 0 (Ctx None 0) demo_config (lit "op1") 0)).
Defined.
Lemma operation_roundtrip_witness :
  let response := [(lit "response", JObj [(lit "rawData", JStr (StdEncode (lit "<yandexsearch/>")))])] in
  match decode_operation (Marshal (operation_json (lit "op1") true response)) with
  | Some op => if decide (op_ID op = lit "op1" ∧ op_Done op = true ∧ op_Error op = None)
               then Some (yandexExtractResponse op) else None
  | None => None
  end = Some (Val (lit "<yandexsearch/>")).
Proof.
  assert (∀ s, Forall (λ c, 0 <= c < 128) s → utf8 s) as Ha by exact utf8_ascii.
  refine (proj1 (operation_roundtrip (lit "op1") (lit "<yandexsearch/>") (JArr []) _ _ _ _ I _)).
  - apply Ha. repeat (constructor; [by vm_compute|]). constructor.
  - repeat (constructor; [by vm_compute|]). constructor.
  - discriminate.
  - apply Ha. repeat (constructor; [by vm_compute|]). constructor.
  - exists []. reflexivity.
Defined.
