(* ===== verification/XmlServices.v ===== *)
(** What the XML services answer: the documents of a Yandex search and the entries of an arXiv feed
    as the services write them, and what [ParseYandexXML] and [ParseArxivAtom] make of them. *)
From S2P Require Import Prelude Unicode Utf8 GoStrings Floats Json Effects Results Retry Serp SearchEngines Http KeyedEngines Yandex Xml XmlSpec.
Local Open Scope Z_scope.

(** ** Trees *)
Definition elem (l : gostring) (ks : list node) : node := Elem ([], l) [] ks.
(** A text, which is no node when it is empty. *)
Definition tx (t : gostring) : list node := if decide (t = []) then [] else [Text t].
Definition leaf (l t : gostring) : node := elem l (tx t).
(** A text with highlighted words, each followed by more text. *)
Record mixed := { m_head : gostring; m_rest : list (gostring * gostring) }.
Definition plain_of (m : mixed) : gostring := m_head m ++ (m_rest m ≫= snd).
Definition full_of (m : mixed) : gostring := m_head m ++ (m_rest m ≫= λ p, p.1 ++ p.2).
Definition mixed_nodes (m : mixed) : list node :=
  tx (m_head m) ++ (m_rest m ≫= λ p, leaf (lit "hlword") p.1 :: tx p.2).
Record service_doc := {
  s_url : gostring; s_domain : gostring; s_title : mixed; s_headline : gostring;
  s_passages : list mixed
}.
Definition doc_node (d : service_doc) : node :=
  elem (lit "doc")
    [leaf (lit "url") (s_url d); leaf (lit "domain") (s_domain d);
     elem (lit "title") (mixed_nodes (s_title d)); leaf (lit "headline") (s_headline d);
     elem (lit "passages") ((λ p, elem (lit "passage") (mixed_nodes p)) <$> s_passages d)].
Definition group_node (ds : list service_doc) : node := elem (lit "group") (doc_node <$> ds).
Definition answer_nodes (groups : list (list service_doc)) : list node :=
  [elem (lit "response") [elem (lit "results") [elem (lit "grouping") (group_node <$> groups)]]].
Definition feed_entry (e : arxivEntry) : node :=
  elem (lit "entry")
    ([leaf (lit "id") (ax_ID e); leaf (lit "title") (ax_Title e); leaf (lit "summary") (ax_Summary e)] ++
     ((λ a, elem (lit "author") [leaf (lit "name") a]) <$> ax_Authors e)).

Section Services.
Context `{XmlNames}.
Definition mixed_ok (m : mixed) : bool :=
  chars_ok (m_head m) && forallb (λ p, chars_ok p.1 && chars_ok p.2) (m_rest m).
Definition doc_ok (d : service_doc) : bool :=
  chars_ok (s_url d) && chars_ok (s_domain d) && mixed_ok (s_title d) && chars_ok (s_headline d) &&
  forallb mixed_ok (s_passages d).
Definition entry_ok (e : arxivEntry) : bool :=
  chars_ok (ax_ID e) && chars_ok (ax_Title e) && chars_ok (ax_Summary e) && forallb chars_ok (ax_Authors e).

(** *** They are well formed *)
Lemma wf_tx t ks : chars_ok t = true → starts_with_text ks = false → wf_nodes ks → wf_nodes (tx t ++ ks).
Proof. intros. unfold tx. case_decide; [done|]. by constructor. Qed.
Lemma wf_tx_alone t : chars_ok t = true → wf_nodes (tx t).
Proof. intros. rewrite <- (app_nil_r (tx t)). apply wf_tx; [done..|constructor]. Qed.
Lemma wf_elem_cons l kids ks :
  name_ok ([], l) = true → wf_nodes kids → wf_nodes ks → wf_nodes (elem l kids :: ks).
Proof. intros. by constructor. Qed.
Lemma wf_elems {A} l (f : A → list node) (xs : list A) :
  name_ok ([], l) = true → Forall (λ x, wf_nodes (f x)) xs → wf_nodes ((λ x, elem l (f x)) <$> xs).
Proof. intros Hl Hxs. induction Hxs; [constructor|]. rewrite fmap_cons. by apply wf_elem_cons. Qed.
Lemma wf_mixed m : mixed_ok m = true → wf_nodes (mixed_nodes m).
Proof.
  unfold mixed_ok, mixed_nodes. intros [Hh Hr]%andb_true_iff.
  assert (∀ r, forallb (λ p : gostring * gostring, chars_ok p.1 && chars_ok p.2) r = true →
    wf_nodes (r ≫= λ p, leaf (lit "hlword") p.1 :: tx p.2) ∧
    starts_with_text (r ≫= λ p, leaf (lit "hlword") p.1 :: tx p.2) = false) as Hall.
  { intros r. induction r as [|[h t] r IH]; [by split; [constructor|]|]. cbn [forallb].
    rewrite !andb_true_iff. intros [[Hp1 Hp2] [IH1 IH2]%IH]. rewrite bind_cons. split; [|done].
    apply wf_elem_cons; [reflexivity|by apply wf_tx_alone|]. by apply wf_tx. }
  destruct (Hall _ Hr). by apply wf_tx.
Qed.
Lemma wf_doc d : doc_ok d = true → wf_nodes (kids (doc_node d)).
Proof.
  unfold doc_ok. rewrite !andb_true_iff. intros [[[[H1 H2] H3] H4] H5].
  repeat (apply wf_elem_cons; [reflexivity| |]); try (by apply wf_tx_alone); [by apply wf_mixed| |constructor].
  apply wf_elems; [reflexivity|]. apply Forall_forall. intros m Hm.
  apply wf_mixed. rewrite forallb_forall in H5. apply H5. by apply list_elem_of_In.
Qed.
Lemma wf_answer groups :
  forallb (forallb doc_ok) groups = true → wf_nodes (answer_nodes groups).
Proof.
  intros Hg. repeat (apply wf_elem_cons; [reflexivity| |constructor]).
  rewrite forallb_forall in Hg. apply (wf_elems (lit "group") (fmap doc_node)); [reflexivity|].
  apply Forall_forall. intros ds Hds%list_elem_of_In%Hg. rewrite forallb_forall in Hds.
  apply (wf_elems (lit "doc") (λ d, kids (doc_node d))); [reflexivity|].
  apply Forall_forall. intros d Hd%list_elem_of_In%Hds. by apply wf_doc.
Qed.
Lemma wf_feed es : forallb entry_ok es = true → wf_nodes (feed_entry <$> es).
Proof.
  intros He. rewrite forallb_forall in He.
  apply (wf_elems (lit "entry") (λ e, kids (feed_entry e))); [reflexivity|].
  apply Forall_forall. intros e Hin%list_elem_of_In%He. unfold entry_ok in Hin.
  rewrite !andb_true_iff in Hin. destruct Hin as [[[H1 H2] H3] H4].
  repeat (apply wf_elem_cons; [reflexivity|by apply wf_tx_alone|]).
  apply (wf_elems (lit "author") (λ a, [leaf (lit "name") a])); [reflexivity|].
  rewrite forallb_forall in H4. apply Forall_forall. intros a Ha%list_elem_of_In%H4.
  apply wf_elem_cons; [reflexivity|by apply wf_tx_alone|constructor].
Qed.

(** *** What their fields are *)
Lemma named_same {A} l (f : A → list node) (xs : list A) :
  named l ((λ x, elem l (f x)) <$> xs) = (λ x, elem l (f x)) <$> xs.
Proof.
  unfold named. apply filter_all. apply Forall_fmap, Forall_true. done.
Qed.
Lemma named_other {A} l l' (f : A → list node) (xs : list A) :
  l ≠ l' → named l ((λ x, elem l' (f x)) <$> xs) = [].
Proof.
  intros Hl. induction xs as [|x xs IH]; [done|]. rewrite fmap_cons. unfold named.
  rewrite filter_cons_False; [exact IH|]. simpl. congruence.
Qed.
Lemma named_app l ns ms : named l (ns ++ ms) = named l ns ++ named l ms.
Proof. apply filter_app. Qed.
Lemma texts_tx t ks : texts (tx t ++ ks) = t ++ texts ks.
Proof. unfold tx. case_decide; by subst. Qed.
Lemma texts_mixed m : texts (mixed_nodes m) = plain_of m.
Proof.
  unfold mixed_nodes, plain_of. rewrite texts_tx. f_equal. induction (m_rest m) as [|[h t] r IH]; [done|].
  rewrite !bind_cons, <- app_comm_cons. change (texts (leaf (lit "hlword") (h, t).1 :: ?x)) with (texts x).
  cbn [fst snd]. by rewrite <- IH, <- texts_tx.
Qed.
Definition read_doc (d : service_doc) : yandexXMLDoc :=
  {| x_URL := s_url d; x_Title := plain_of (s_title d); x_Headline := s_headline d;
     x_Passage := plain_of <$> s_passages d |}.
Lemma string_leaf l t ks : texts (kids (leaf l t)) = t ∧ texts (kids (elem l ks)) = texts ks.
Proof. split; [|done]. unfold leaf. cbn [kids elem]. rewrite <- (app_nil_r (tx t)), texts_tx. by rewrite app_nil_r. Qed.
Lemma xml_doc_node d : xml_doc (doc_node d) = read_doc d.
Proof.
  unfold xml_doc, read_doc. f_equal.
  - apply (string_leaf (lit "url") (s_url d) []).
  - apply texts_mixed.
  - apply (string_leaf (lit "headline") (s_headline d) []).
  - unfold below. change (children_of (lit "passages") (doc_node d))
      with [elem (lit "passages") ((λ p, elem (lit "passage") (mixed_nodes p)) <$> s_passages d)].
    cbn [mbind list_bind]. rewrite app_nil_r. unfold children_of. cbn [kids elem].
    rewrite named_same, <- list_fmap_compose. apply list_fmap_ext. intros ? m _. apply texts_mixed.
Qed.
Lemma xml_response_answer groups :
  xml_response (elem (lit "yandexsearch") (answer_nodes groups)) =
  Some {| x_Error := None; x_Groups := (λ ds : list service_doc, read_doc <$> ds) <$> groups |}.
Proof.
  unfold xml_response. rewrite decide_True by reflexivity.
  change (children_of (lit "response") (elem (lit "yandexsearch") (answer_nodes groups)))
    with (answer_nodes groups).
  change (below (lit "error") (answer_nodes groups)) with (@nil node). cbn [xml_errors foldl mbind option_bind].
  do 2 f_equal.
  change (below (lit "group") (below (lit "grouping") (below (lit "results") (answer_nodes groups))))
    with (named (lit "group") (group_node <$> groups) ++ []).
  rewrite app_nil_r. unfold group_node. rewrite (named_same (lit "group") (fmap doc_node)).
  rewrite <- list_fmap_compose. apply list_fmap_ext. intros ? ds _. unfold compose, children_of. cbn [kids elem].
  unfold doc_node. rewrite (named_same (lit "doc") (λ d, kids (doc_node d))).
  rewrite <- list_fmap_compose. apply list_fmap_ext. intros ? d _. apply xml_doc_node.
Qed.
Lemma xml_feed_entries es :
  xml_feed (elem (lit "feed") (feed_entry <$> es)) = Some es.
Proof.
  unfold xml_feed. rewrite decide_True by reflexivity. f_equal. unfold children_of. cbn [kids elem].
  unfold feed_entry. rewrite (named_same (lit "entry") (λ e, kids (feed_entry e))), <- list_fmap_compose.
  rewrite <- (list_fmap_id es) at 2. apply list_fmap_ext. intros ? [t i s a] _. unfold compose, xml_entry.
  unfold string_field, children_of. cbn [kids elem ax_Title ax_ID ax_Summary ax_Authors].
  cbn [feed_entry kids elem ax_Title ax_ID ax_Summary ax_Authors].
  rewrite !named_app, !(named_other _ (lit "author")) by done. rewrite !app_nil_r. unfold id. f_equal.
  - apply (string_leaf (lit "title") t []).
  - apply (string_leaf (lit "id") i []).
  - apply (string_leaf (lit "summary") s []).
  - change (named (lit "author") [leaf (lit "id") i; leaf (lit "title") t; leaf (lit "summary") s])
      with (@nil node). cbn [app].
    rewrite (named_same (lit "author") (λ a, [leaf (lit "name") a])), <- list_fmap_compose.
    rewrite <- (list_fmap_id a) at 2. apply list_fmap_ext. intros ? n _.
    apply (string_leaf (lit "name") n []).
Qed.

(** C26: A Yandex answer is read as it was written, but for what is highlighted: on the XML document
    of any groups of documents, with anything after it, [ParseYandexXML] returns the rows of the
    documents in order, where the title and the passages are the text outside the highlighted
    words - a highlighted word is an element of its own, which a string field skips, so it is
    lost, and the stripping of its tags by [cleanXMLText] comes too late. *)
Theorem ParseYandexXML_answer groups after :
  forallb (forallb doc_ok) groups = true →
  ParseYandexXML (print_document (elem (lit "yandexsearch") (answer_nodes groups)) after) =
  Val (groups ≫= omap (λ d, yandex_row (read_doc d))).
Proof.
  intros Hg. unfold ParseYandexXML, xml_Unmarshal.
  unfold elem at 1. rewrite parse_printed; [|reflexivity|reflexivity|by apply wf_answer].
  cbn [mbind option_bind]. fold (elem (lit "yandexsearch") (answer_nodes groups)). rewrite xml_response_answer. cbn [x_Error x_Groups]. f_equal.
  induction groups as [|ds groups IH]; [done|]. rewrite fmap_cons, !bind_cons, omap_fmap_list.
  f_equal. apply IH. by apply andb_true_iff in Hg as [_ Hg].
Qed.
(** What an entry is worth: nothing without a title - blanks do not count - or an identifier. *)
Definition arxiv_named (e : arxivEntry) : Prop := TrimSpace (ax_Title e) ≠ [] ∧ ax_ID e ≠ [].
#[local] Instance arxiv_named_dec e : Decision (arxiv_named e).
Proof. unfold arxiv_named. apply _. Defined.
(** The line of the authors whose names are not blank, if there are any. *)
Definition author_line (names : list gostring) : gostring :=
  match filter (λ n, n ≠ []) (TrimSpace <$> names) with
  | [] => []
  | known => lit "Authors: " ++ Join known (lit ", ") ++ [10]
  end.
Definition arxiv_result (e : arxivEntry) : Result :=
  MkResult (TrimSpace (ax_Title e)) (TrimSpace (ax_ID e))
    (author_line (ax_Authors e) ++ TrimSpace (ax_Summary e)) directResultScore
    (engine_meta (lit "arxiv")).
Lemma arxiv_row_result e : arxiv_row e = if decide (arxiv_named e) then Some (arxiv_result e) else None.
Proof.
  unfold arxiv_row. destruct (decide (arxiv_named e)) as [[Ht Hi]|Hn].
  - rewrite !bool_decide_false by done. cbn [orb]. unfold arxiv_result, author_line, direct. do 2 f_equal.
    destruct (filter _ (TrimSpace <$> ax_Authors e)) as [|n ns] eqn:E; [done|].
    rewrite decide_False by done. by rewrite <- !(assoc_L (++)).
  - destruct (decide (TrimSpace (ax_Title e) = [])); [by rewrite bool_decide_true|].
    destruct (decide (ax_ID e = [])); [|by destruct Hn].
    by rewrite (bool_decide_true (ax_ID e = [])), orb_true_r.
Qed.
Lemma arxiv_rows_results (es : list arxivEntry) :
  omap arxiv_row es = arxiv_result <$> filter arxiv_named es.
Proof.
  induction es as [|e es IH]; [done|]. rewrite filter_cons.
  change (omap arxiv_row (e :: es)) with
    (match arxiv_row e with Some r => r :: omap arxiv_row es | None => omap arxiv_row es end).
  rewrite IH, arxiv_row_result. by destruct (decide (arxiv_named e)).
Qed.
(** C27: An arXiv feed is read as it was written: [ParseArxivAtom] returns, in order, one result for
    each entry whose title is not blank and whose identifier is not empty, and no other - the
    trimmed title, the trimmed identifier as the URL, and the summary under a line of the authors -
    whatever characters of XML its texts have. *)
Theorem ParseArxivAtom_feed (es : list arxivEntry) after :
  forallb entry_ok es = true →
  ParseArxivAtom (print_document (elem (lit "feed") (feed_entry <$> es)) after) =
    Val (arxiv_result <$> filter arxiv_named es).
Proof.
  intros He. rewrite <- arxiv_rows_results. unfold ParseArxivAtom, xml_Unmarshal.
  unfold elem at 1. rewrite parse_printed; [|reflexivity|reflexivity|by apply wf_feed].
  cbn [mbind option_bind]. fold (elem (lit "feed") (feed_entry <$> es)). by rewrite xml_feed_entries.
Qed.
End Services.

(** ** Witnesses *)
Section Demo.
#[local] Instance ascii_names : XmlNames := {| name_first _ := false; name_second _ := false |}.
(** "Fast <hlword>Rocq</hlword> & co", in a group with a document without an address. *)
Definition demo_doc : service_doc :=
  {| s_url := lit "https://a.example/?x=1&y=2"; s_domain := lit "a.example";
     s_title := {| m_head := lit "Fast "; m_rest := [(lit "Rocq", lit " & co")] |};
     s_headline := lit "<b>"; s_passages := [{| m_head := []; m_rest := [(lit "Rocq", lit " proofs")] |}] |}.
Definition nameless_doc : service_doc :=
  {| s_url := []; s_domain := []; s_title := {| m_head := lit "x"; m_rest := [] |};
     s_headline := []; s_passages := [] |}.
Lemma ParseYandexXML_answer_witness :
  full_of (s_title demo_doc) = lit "Fast Rocq & co" ∧
  ParseYandexXML (print_document (elem (lit "yandexsearch")
    (answer_nodes [[demo_doc]; [nameless_doc]])) [10]) =
  Val [MkResult (lit "Fast  & co") (lit "https://a.example/?x=1&y=2") (lit "proofs") directResultScore
         (engine_meta (lit "yandex"))].
Proof.
  split; [reflexivity|].
  rewrite (ParseYandexXML_answer [[demo_doc]; [nameless_doc]] [10]); [|vm_compute; reflexivity].
  vm_compute. reflexivity.
Defined.
Definition demo_entry : arxivEntry :=
  {| ax_Title := lit " On <sets> "; ax_ID := lit "http://arxiv.org/abs/1"; ax_Summary := lit "A & B";
     ax_Authors := [lit "Ada"; []; lit "Bob"] |}.
Definition nameless_entry : arxivEntry :=
  {| ax_Title := lit "On bags"; ax_ID := []; ax_Summary := []; ax_Authors := [] |}.
Lemma ParseArxivAtom_feed_witness :
  ParseArxivAtom (print_document (elem (lit "feed") (feed_entry <$> [demo_entry; nameless_entry])) []) =
  Val [direct (lit "arxiv") (lit "On <sets>") (lit "http://arxiv.org/abs/1")
         (lit "Authors: Ada, Bob" ++ [10] ++ lit "A & B")].
Proof.
  rewrite (ParseArxivAtom_feed [demo_entry; nameless_entry] []); [|vm_compute; reflexivity].
  vm_compute. reflexivity.
Defined.
End Demo.
