(* ===== verification/Extract.v ===== *)
(** Package [extract]: the chain of extractors ([extractor.go]) with its tiers: trafilatura
    ([trafilatura.go]), goquery ([goquery.go]) and the regular expressions ([regex.go]), and the
    removal of scripts from large pages ([cleanup.go]). The HTML libraries are parameters, as is
    the fallback to a language model; the regular expressions are matched over the runes of the
    page, with Go's case folding. *)
From S2P Require Import Prelude Unicode Utf8 GoStrings GoUrl Effects TextTools.
Local Open Scope Z_scope.

Inductive Format := FormatText | FormatMarkdown | FormatHTML.
Record ExResult := { ex_Title : gostring; ex_Content : gostring; ex_Format : Format }.
Definition DefaultMinExtractChars : Z := 200.
Definition largeBodyThreshold : Z := 500 * 1024.

(** ** Regular expressions over decoded pieces: a rune and the bytes it was read from *)
Definition piece : Type := rune * gostring.
Definition bytes_of (ps : list piece) : gostring := ps ≫= snd.
(** [(?i)] on a letter: its other case, and the two runes that fold to ASCII letters. *)
Definition folds (c : Z) (r : rune) : bool :=
  (r =? c) || (between 97 122 c && (r =? c - 32)) || ((c =? 115) && (r =? 383)) ||
  ((c =? 107) && (r =? 8490)).
Fixpoint literal (pat : gostring) (ps : list piece) : option (list piece) :=
  match pat, ps with
  | [], _ => Some ps
  | c :: pat, p :: ps => if folds c p.1 then literal pat ps else None
  | _ :: _, [] => None
  end.
(** [[^>]*>]: what follows the first closing bracket. *)
Fixpoint after_gt (ps : list piece) : option (list piece) :=
  match ps with [] => None | p :: ps => if p.1 =? 62 then Some ps else after_gt ps end.
Definition open_tag (name : gostring) (ps : list piece) : option (list piece) :=
  r ← literal (60 :: name) ps; after_gt r.
(** [.*?</name>]: what follows the first closing tag. *)
Fixpoint after_close (name : gostring) (ps : list piece) : option (list piece) :=
  match literal ([60; 47] ++ name ++ [62]) ps with
  | Some rest => Some rest
  | None => match ps with [] => None | _ :: ps => after_close name ps end
  end.
(** [(?is)<name[^>]*>.*?</name>], replaced by nothing. The fuel bounds the pieces. *)
Fixpoint remove_go (fuel : nat) (name : gostring) (ps : list piece) : gostring :=
  match fuel, ps with
  | S fuel, p :: ps' =>
      match (r ← open_tag name ps; after_close name r) with
      | Some rest => remove_go fuel name rest
      | None => p.2 ++ remove_go fuel name ps'
      end
  | _, _ => []
  end.
Definition remove_element (s name : gostring) : gostring :=
  let ps := pieces s in remove_go (length ps) name ps.
Definition boilerplate : list gostring :=
  [lit "script"; lit "style"; lit "noscript"; lit "header"; lit "footer"; lit "nav"; lit "aside";
   lit "iframe"].

Fixpoint span_pieces (f : rune → bool) (ps : list piece) : list piece * list piece :=
  match ps with
  | p :: ps' => if f p.1 then let '(a, b) := span_pieces f ps' in (p :: a, b) else ([], ps)
  | [] => ([], [])
  end.
(** The first match at the positions of a page, by what it captures. *)
Fixpoint find_submatch (try : list piece → option gostring) (ps : list piece) : option gostring :=
  match try ps with
  | Some m => Some m
  | None => match ps with [] => None | _ :: ps => find_submatch try ps end
  end.
(** [(?i)<title[^>]*>([^<]+)</title>]. *)
Definition try_title (ps : list piece) : option gostring :=
  r ← open_tag (lit "title") ps;
  let '(text, r) := span_pieces (λ c, negb (c =? 60)) r in
  _ ← literal (lit "</title>") r;
  if decide (text = []) then None else Some (bytes_of text).
(** The positions a greedy [[^>]*] can reach, the last one first. *)
Fixpoint reach (ps : list piece) : list (list piece) :=
  match ps with
  | p :: ps' => if p.1 =? 62 then [ps] else reach ps' ++ [ps]
  | [] => [[]]
  end.
Fixpoint first_of {A B} (f : A → option B) (l : list A) : option B :=
  match l with [] => None | x :: l => match f x with Some y => Some y | None => first_of f l end end.
Definition is_quote (r : rune) : bool := (r =? 34) || (r =? 39).
Definition quote_mark (ps : list piece) : option (list piece) :=
  match ps with p :: ps => if is_quote p.1 then Some ps else None | [] => None end.
(** The [content] attribute: a quote, a non-empty text without quotes, a quote. *)
Definition try_content (ps : list piece) : option gostring :=
  r ← literal (lit "content=") ps; r ← quote_mark r;
  let '(text, r) := span_pieces (λ c, negb (is_quote c)) r in
  _ ← quote_mark r; if decide (text = []) then None else Some (bytes_of text).
(** The [property] attribute with the value [og:title] in quotes, then [[^>]*] and the content. *)
Definition try_property (ps : list piece) : option gostring :=
  r ← literal (lit "property=") ps; r ← quote_mark r; r ← literal (lit "og:title") r;
  r ← quote_mark r; first_of try_content (reach r).
Definition try_og (ps : list piece) : option gostring :=
  r ← literal (lit "<meta") ps; first_of try_property (reach r).

(** [<[^>]+>], replaced by nothing; [inside] is whether the scan is inside a match. *)
Fixpoint strip_html (inside : bool) (s : gostring) : gostring :=
  match s with
  | [] => []
  | c :: s =>
      if inside then strip_html (negb (c =? 62)) s
      else if (c =? 60) && negb (HasPrefix s [62]) && Contains s [62] then strip_html true s
      else c :: strip_html false s
  end.
(** [\s+], replaced by a space. *)
Definition re_space (c : Z) : bool := bool_decide (c ∈ [9; 10; 12; 13; 32]).
Fixpoint collapse_space (s : gostring) : gostring :=
  match s with
  | [] => []
  | c :: s' =>
      if re_space c then
        match s' with
        | d :: _ => if re_space d then collapse_space s' else 32 :: collapse_space s'
        | [] => [32]
        end
      else c :: collapse_space s'
  end.
(** [cleanLines] is the text package's [CleanLines] again. *)
Definition cleanLines (s : gostring) : gostring := CleanLines s.
Definition tidy (s : gostring) : gostring := cleanLines (collapse_space (TrimSpace s)).

(** ** [StripScriptStyle], on the tokens of the page *)
Inductive token_kind := StartTagToken | EndTagToken | OtherToken.
Record token := { tk_kind : token_kind; tk_tag : gostring; tk_raw : gostring }.
Definition is_script (t : token) : bool := bool_decide (tk_tag t ∈ [lit "script"; lit "style"]).
Fixpoint strip_tokens (skip : bool) (ts : list token) : gostring :=
  match ts with
  | [] => []
  | t :: ts =>
      match tk_kind t, is_script t with
      | StartTagToken, true => strip_tokens true ts
      | EndTagToken, true => strip_tokens false ts
      | _, _ => (if skip then [] else tk_raw t) ++ strip_tokens skip ts
      end
  end.

(** ** The HTML libraries *)
Record Trafilatura := {
  tf_ContentText : gostring; tf_Title : gostring;
  tf_ContentNode : option (result gostring)      (* the node and what rendering it gives *)
}.
Class HtmlLib (D : Type) := {
  tokens : gostring → list token;
  trafilatura_Extract : gostring → option URL → result Trafilatura;
  ConvertString : gostring → result gostring;    (* HTML to markdown *)
  NewDocument : gostring → result D;
  TitleText : D → gostring;                      (* the text of the first title element *)
  OgTitles : D → list gostring;                  (* the content attribute of each og:title *)
  Remove : list gostring → D → D;
  Sel : Type;
  FindFirst : list gostring → D → option Sel;
  FindBody : D → Sel;
  MapAttrs : (list (gostring * gostring) → list (gostring * gostring)) → D → D;  (* at each element *)
  Html : D → Sel → gostring;
  Text : D → Sel → gostring
}.
Definition removeSelectors : list gostring :=
  [lit "script"; lit "style"; lit "noscript"; lit "iframe"; lit "svg"; lit "header"; lit "footer";
   lit "nav"; lit "aside"; lit ".advertisement"; lit ".ad"; lit ".sidebar"; lit ".comments";
   lit ".cookie-banner"; lit ".popup"; lit ".modal"; lit ".newsletter-signup"; lit ".social-share";
   lit ".share-buttons"; lit "[role=navigation]"; lit "[role=banner]"; lit "[role=contentinfo]";
   lit "[aria-hidden=true]"; lit "[hidden]"].
Definition contentSelectors : list gostring :=
  [lit "article"; lit "main"; lit ".content"; lit ".post-content"; lit ".article-content";
   lit "#content"].
Definition allowedAttrs (key : gostring) : bool :=
  bool_decide (key ∈ [lit "href"; lit "src"; lit "alt"; lit "title"; lit "lang"; lit "colspan";
                      lit "rowspan"]).

Section Extract.
Context {D W : Type} `{HtmlLib D}.
Record Extractor := {
  maxContentLen : Z; format : Format;
  llmFallback : option (ctx → gostring → M W (result gostring)); minExtractChars : Z
}.
Definition default_extractor : Extractor :=
  {| maxContentLen := 0; format := FormatText; llmFallback := None;
     minExtractChars := DefaultMinExtractChars |}.
Definition NewExtractor (opts : list (Extractor → Extractor)) : Extractor :=
  foldl (λ e o, o e) default_extractor opts.
Implicit Types e : Extractor.

Definition StripScriptStyle (body : gostring) : gostring :=
  if decide (body = []) then body else strip_tokens false (tokens body).
Definition truncate e (s : gostring) : gostring :=
  if (0 <? maxContentLen e) && (maxContentLen e <? zlen s)
  then take (Z.to_nat (maxContentLen e)) s ++ lit "..." else s.

Definition renderContentNode (r : Trafilatura) : gostring :=
  match tf_ContentNode r with
  | Some (Val html) => TrimSpace html
  | _ => []
  end.
Definition renderContentNodeAsMarkdown (r : Trafilatura) : gostring :=
  let raw := renderContentNode r in
  if decide (raw = []) then [] else
  match ConvertString raw with
  | Val md => TrimSpace md
  | Err _ => []
  end.
Definition formatTrafilatura e (r : Trafilatura) (text : gostring) : gostring :=
  let s := match format e with
           | FormatHTML => renderContentNode r
           | FormatMarkdown | FormatText => renderContentNodeAsMarkdown r
           end in
  if decide (s = []) then TrimSpace text else s.
Definition extractTrafilatura e (body : gostring) (pageURL : option URL) : result ExResult :=
  match trafilatura_Extract body pageURL with
  | Err err => Err err
  | Val r => Val {| ex_Title := tf_Title r;
                    ex_Content := truncate e (formatTrafilatura e r (tf_ContentText r));
                    ex_Format := format e |}
  end.
(** The attributes an element keeps, in their order. *)
Definition kept_attrs (attrs : list (gostring * gostring)) : list (gostring * gostring) :=
  foldl (λ kept a, if allowedAttrs a.1 then kept ++ [a] else kept) [] attrs.
Definition stripAttributes (doc : D) : D := MapAttrs kept_attrs doc.
Definition goquery_title (doc : D) : gostring :=
  let title := TitleText doc in
  if decide (title = []) then foldl (λ t c, if decide (t = []) then c else t) [] (OgTitles doc)
  else title.
Definition extractGoquery e (body : gostring) : result ExResult :=
  match NewDocument body with
  | Err err => Err err
  | Val doc =>
      let title := goquery_title doc in
      let doc := Remove removeSelectors doc in
      let sel := match FindFirst contentSelectors doc with Some s => s | None => FindBody doc end in
      let content := match format e with
                     | FormatHTML => TrimSpace (Html (stripAttributes doc) sel)
                     | FormatMarkdown => match ConvertString (Html doc sel) with
                                         | Val md => TrimSpace md
                                         | Err _ => []
                                         end
                     | FormatText => tidy (Text doc sel)
                     end in
      Val {| ex_Title := title; ex_Content := truncate e content; ex_Format := format e |}
  end.
Definition regex_title (raw : gostring) : gostring :=
  let title := match find_submatch try_title (pieces raw) with Some m => TrimSpace m | None => [] end in
  if decide (title = []) then
    match find_submatch try_og (pieces raw) with Some m => TrimSpace m | None => title end
  else title.
(** Its error is always nil. *)
Definition extractRegex e (body : gostring) : result ExResult :=
  Val {| ex_Title := regex_title body;
         ex_Content := truncate e (tidy (strip_html false (foldl remove_element body boilerplate)));
         ex_Format := FormatText |}.

(** Whether a tier's result is returned. *)
Definition accepted e (r : result ExResult) : option ExResult :=
  match r with
  | Val r =>
      if bool_decide (ex_Content r ≠ []) &&
         ((minExtractChars e <=? zlen (ex_Content r)) || bool_decide (llmFallback e = None))
      then Some r else None
  | Err _ => None
  end.
Definition with_content (r : ExResult) (c : gostring) : ExResult :=
  {| ex_Title := ex_Title r; ex_Content := c; ex_Format := ex_Format r |}.
Definition Extract e (cx : ctx) (body : gostring) (pageURL : option URL) : M W (result ExResult) :=
  let body := if largeBodyThreshold <? zlen body then StripScriptStyle body else body in
  match accepted e (extractTrafilatura e body pageURL) with
  | Some r => mret (Val r)
  | None =>
      match accepted e (extractGoquery e body) with
      | Some r => mret (Val r)
      | None =>
          match extractRegex e body with
          | Err err => mret (Err err)
          | Val r =>
              match llmFallback e with
              | Some f =>
                  if zlen (ex_Content r) <? minExtractChars e then
                    c ← f cx body;
                    mret (Val match c with
                              | Val (b :: content) => with_content r (truncate e (b :: content))
                              | _ => r
                              end)
                  else mret (Val r)
              | None => mret (Val r)
              end
          end
      end
  end.
End Extract.
