(* ===== verification/ExtractSpec.v ===== *)
(** The chain of extractors: it always gives a result, its content is bounded, the tiers come in order, and
    the language model is asked only for a page that every tier finds thin. *)
From S2P Require Import Prelude Unicode Utf8 GoStrings GoUrl Effects TextTools Extract.
Local Open Scope Z_scope.

Example strip_ex :
  remove_element (lit "a<SCRIPT x>1<b></Script >2</script>b<script>c") (lit "script") = lit "ab<script>c".
Proof. vm_compute. reflexivity. Qed.
Example title_ex : regex_title (lit "<TITLE a=b> T </title>") = lit "T".
Proof. vm_compute. reflexivity. Qed.

(** ** White space *)
Lemma collapse_no_newline s : 10 ∉ collapse_space s.
Proof.
  induction s as [|c s IH]; cbn [collapse_space]; [set_solver|].
  destruct (re_space c) eqn:E.
  - destruct s as [|d s]; [set_solver by lia|]. destruct (re_space d); [done|]. set_solver by lia.
  - rewrite not_elem_of_cons. split; [|done]. intros <-. by vm_compute in E.
Qed.
Lemma split_go_no_sep cur s : 10 ∉ s → split_go 10 cur s = [cur ++ s].
Proof.
  revert cur. induction s as [|c s IH]; intros cur Hs; simpl; [by rewrite app_nil_r|].
  apply not_elem_of_cons in Hs as [Hc Hs]. rewrite (proj2 (Z.eqb_neq c 10)) by done.
  by rewrite IH, <- app_assoc.
Qed.
(** After the white space is collapsed there is one line: [cleanLines] only trims it. *)
Lemma tidy_one_line s : tidy s = TrimSpace (collapse_space (TrimSpace s)).
Proof.
  unfold tidy, cleanLines, CleanLines, Split.
  rewrite split_go_no_sep by apply collapse_no_newline. cbn [app fmap list_fmap].
  rewrite filter_cons. case_decide as Hd; [done|]. by rewrite Hd.
Qed.

Section Spec.
Context {D W : Type} `{HtmlLib D}.
Implicit Types e : Extractor (W := W).

(** The content at its configured length, if one is set. *)
Definition capped e (s : gostring) : gostring :=
  if decide (0 < maxContentLen e < zlen s) then take (Z.to_nat (maxContentLen e)) s ++ lit "..." else s.
Lemma truncate_capped e s : truncate e s = capped e s.
Proof.
  unfold truncate, capped.
  destruct (Z.ltb_spec 0 (maxContentLen e)), (Z.ltb_spec (maxContentLen e) (zlen s)); simpl;
    by rewrite ?decide_True, ?decide_False by lia.
Qed.
Lemma truncate_bound e s : 0 < maxContentLen e → zlen (truncate e s) <= maxContentLen e + 3.
Proof.
  intros Hm. rewrite truncate_capped. unfold capped, zlen. case_decide as Hl; [|lia].
  rewrite length_app, length_take. simpl. lia.
Qed.
(** The page the tiers work on, and what each of them makes of it. *)
Definition stripped (body : gostring) : gostring :=
  if largeBodyThreshold <? zlen body then StripScriptStyle body else body.
Definition tiers e (body : gostring) (pageURL : option URL) : list (result ExResult) :=
  [extractTrafilatura e (stripped body) pageURL; extractGoquery e (stripped body);
   extractRegex e (stripped body)].
(** A tier that fails or finds little: less than the minimum when there is a language model to
    ask, nothing when there is none. *)
Definition thin e (r : result ExResult) : Prop :=
  match r with
  | Err _ => True
  | Val r => ex_Content r = [] ∨ (llmFallback e ≠ None ∧ zlen (ex_Content r) < minExtractChars e)
  end.
Lemma accepted_spec e r :
  match accepted e r with Some x => r = Val x ∧ ¬ thin e r | None => thin e r end.
Proof.
  unfold accepted, thin. destruct r as [r|err]; [|done].
  destruct (decide (ex_Content r = [])) as [E|E].
  { rewrite bool_decide_false by (by intros []). by left. }
  rewrite bool_decide_true by done. cbn [andb].
  destruct (Z.leb_spec (minExtractChars e) (zlen (ex_Content r))); cbn [orb].
  - split; [done|]. intros [|[_ ?]]; [done|lia].
  - case_bool_decide as Hf; [|by right]. split; [done|]. by intros [|[? _]].
Qed.
Lemma extractRegex_Val e body : ∃ title c,
  extractRegex e body = Val {| ex_Title := title; ex_Content := truncate e c; ex_Format := FormatText |}.
Proof. unfold extractRegex. by do 2 eexists. Qed.
Lemma tiers_bound e body pageURL r : 0 < maxContentLen e → Val r ∈ tiers e body pageURL →
  zlen (ex_Content r) <= maxContentLen e + 3.
Proof.
  intros Hm. unfold tiers. rewrite !elem_of_cons, elem_of_nil.
  intros [E|[E|[E|[]]]].
  - unfold extractTrafilatura in E. destruct (trafilatura_Extract _ _); simplify_eq.
    by apply truncate_bound.
  - unfold extractGoquery in E. destruct (NewDocument _); simplify_eq. by apply truncate_bound.
  - destruct (extractRegex_Val e (stripped body)) as (t & c & Hr). rewrite Hr in E.
    injection E as ->. by apply truncate_bound.
Qed.
(** What is made of a page that is thin in every tier: the result [regex] of the regular
    expressions, with the content the model gives when it is asked and gives one. *)
Definition last_resort e (cx : ctx) (page : gostring) (regex x : ExResult) (w w' : W) : Prop :=
  match llmFallback e with
  | Some f =>
      if decide (zlen (ex_Content regex) < minExtractChars e) then
        ∃ answer, f cx page w = (answer, w') ∧
          ex_Title x = ex_Title regex ∧ ex_Format x = ex_Format regex ∧
          ex_Content x = match answer with
                         | Val content => if decide (content = []) then ex_Content regex
                                          else capped e content
                         | Err _ => ex_Content regex
                         end
      else x = regex ∧ w' = w
  | None => x = regex ∧ w' = w
  end.
(** The last tier, when the others are thin. *)
Lemma last_tier e cx page regex w :
  let '(r, w') := match llmFallback e with
    | Some f =>
        if zlen (ex_Content regex) <? minExtractChars e then
          c ← f cx page;
          mret (Val match c with
                    | Val (b :: content) => with_content regex (truncate e (b :: content))
                    | _ => regex
                    end)
        else mret (Val regex)
    | None => mret (Val regex)
    end w in
  ∃ x, r = Val x ∧ last_resort e cx page regex x w w' ∧
    (x = regex ∨ ∃ c, ex_Content x = truncate e c) ∧ (¬ thin e (Val regex) → x = regex ∧ w' = w).
Proof.
  unfold last_resort, thin. destruct (llmFallback e) as [f|]; [|by exists regex; split_and!; [..|left|]].
  destruct (Z.ltb_spec (zlen (ex_Content regex)) (minExtractChars e)) as [Hl|Hl].
  - unfold mbind, M_bind, mret, M_ret. destruct (f cx page w) as [c w'] eqn:E.
    eexists. split; [done|]. rewrite decide_True by done. split_and!.
    + exists c. split; [done|]. destruct c as [[|b c]|]; simpl; try done.
      split_and!; [done..|]. apply truncate_capped.
    + destruct c as [[|b c]|]; simpl; [by left| |by left]. right. by eexists.
    + intros Hn. destruct Hn. by right.
  - exists regex. rewrite decide_False by lia. by split_and!; [..|left|].
Qed.

(** C29: extraction always gives a result, without an error, and its content is at most the configured
    length and an ellipsis. It is the result of the first tier that is not thin, the model not
    being asked. When all three are thin it is that of the regular expressions, with one exception:
    with a fallback configured, and less content than the minimum, the model is asked once
    about the page, and its answer, cut to the configured length, is the content unless it fails
    or is empty. *)
Theorem Extract_spec e cx body pageURL w :
  let '(r, w') := Extract e cx body pageURL w in
  ∃ x, r = Val x ∧
    (0 < maxContentLen e → zlen (ex_Content x) <= maxContentLen e + 3) ∧
    ((∃ i, tiers e body pageURL !! i = Some (Val x) ∧ ¬ thin e (Val x) ∧ w' = w ∧
        ∀ j t, (j < i)%nat → tiers e body pageURL !! j = Some t → thin e t) ∨
     (Forall (thin e) (tiers e body pageURL) ∧
      ∃ regex, tiers e body pageURL !! 2%nat = Some (Val regex) ∧
        last_resort e cx (stripped body) regex x w w')).
Proof.
  pose proof (tiers_bound e body pageURL) as Hbound.
  unfold Extract. fold (stripped body). unfold tiers in *.
  pose proof (accepted_spec e (extractTrafilatura e (stripped body) pageURL)) as H1.
  destruct (accepted e (extractTrafilatura e (stripped body) pageURL)) as [x|].
  { destruct H1 as [H1 Hn]. rewrite H1 in *. exists x. split; [done|]. split; [intros; apply Hbound; set_solver|].
    left. exists 0%nat. split_and!; [done..|]. intros j t Hj. lia. }
  pose proof (accepted_spec e (extractGoquery e (stripped body))) as H2.
  destruct (accepted e (extractGoquery e (stripped body))) as [x|].
  { destruct H2 as [H2 Hn]. rewrite H2 in *. exists x. split; [done|]. split; [intros; apply Hbound; set_solver|].
    left. exists 1%nat. split_and!; [done..|]. intros [|j] t Hj Ht; [|lia]. by simplify_eq/=. }
  destruct (extractRegex e (stripped body)) as [regex|] eqn:Er.
  2:{ destruct (extractRegex_Val e (stripped body)) as (t & c & Hr). by rewrite Hr in Er. }
  pose proof (last_tier e cx (stripped body) regex w) as Hlast.
  match goal with |- let '(_, _) := ?k in _ => destruct k as [r w'] end.
  destruct Hlast as (x & -> & Hx & Hc & Hn). exists x. split; [done|]. split.
  { intros Hm. destruct Hc as [->|[c ->]]; [apply Hbound; set_solver|by apply truncate_bound]. }
  destruct (accepted e (Val regex)) as [y|] eqn:Ey; pose proof (accepted_spec e (Val regex)) as H3; rewrite Ey in H3.
  - destruct H3 as [[= <-] Ht]. destruct (Hn Ht) as [-> ->]. left. exists 2%nat.
    split_and!; [done..|]. intros [|[|j]] t Hj Hjt; [..|lia]; by simplify_eq/=.
  - right. split; [by rewrite !Forall_cons, Forall_nil|]. by exists regex.
Qed.
End Spec.
