(* ===== verification/Options.v ===== *)
(** The functional options of packages [llm] ([client.go]), [pipeline] ([run.go]) and [extract]
    ([extractor.go]): each sets one field of the configuration it is applied to. Options of the
    same name in two packages, and those that share the name of an option of the kit, have names
    of their own: [WithCooldownObserver], [WithAttemptTimeout] and [WithEffortModels] are
    [WithModelCooldownObserver], [WithPerAttemptTimeout] and [WithReasoningEffortModels]. *)
From coqutil Require Import Datatypes.RecordSetters.
From S2P Require Import Prelude Unicode Utf8 GoStrings GoUrl Floats Json Effects Results Retry SearchEngines TextTools FactVerify Llm LlmSpec Pipeline Extract.
Import RecordSetters.DoubleBraceUpdate.
Local Open Scope Z_scope.

(** ** Package [llm] *)
Section Llm.
Context {W Callback Endpoint : Type}.
Notation Option := (Option_ (Callback := Callback)).
Definition WithAPIBase (url : gostring) : Option := λ c, c{{apiBase := url}}.
Definition WithAPIKey (key : gostring) : Option := λ c, c{{apiKey := key}}.
Definition WithProxyURLs (urls : list gostring) : Option := λ c, c{{proxyURLs := urls}}.
Definition WithProxyKeys (keys : list gostring) : Option := λ c, c{{proxyKeys := keys}}.
Definition WithAPIKeyFallbacks (keys : list gostring) : Option := λ c, c{{fallbacks := keys}}.
Definition WithModel (m : gostring) : Option := λ c, c{{model := m}}.
Definition WithModelFallbackChain (chain : list gostring) : Option := λ c, c{{modelChain := chain}}.
Definition WithModelChainObserver (obs : option Callback)
    : Option := λ c, c{{chainObserver := obs}}.
Definition WithModelFilterObserver (obs : option Callback)
    : Option := λ c, c{{filterObserver := obs}}.
Definition WithCooldownObserver (fn : option Callback) : Option := λ c, c{{cooldownObserver := fn}}.
Definition WithModelCooldownDuration (d : Z) : Option := λ c, c{{cooldownDuration := d}}.
Definition WithAttemptTimeout (d : Z) : Option := λ c, c{{perAttemptTimeout := d}}.
Definition WithEffortModels (models : list gostring)
    : Option := λ c, c{{reasoningEffortModels := models}}.
Definition WithTemperature (t : float) : Option := λ c, c{{c_temperature := t}}.
Definition WithMaxTokens (n : Z) : Option := λ c, c{{c_maxTokens := n}}.
Definition WithLLMMetrics (m : bool) : Option := λ c, c{{c_metrics := m}}.

(** Later options win: the base, key and model that a client is asked with are the last ones given. *)
Lemma applied_app (opts : list Option) o : applied (opts ++ [o]) = o (applied opts).
Proof. unfold applied. by rewrite foldl_app. Qed.
(** A chain of models and keys to fall back on exclude each other, in whatever order they are given:
    the kit never gets the keys then. *)
Lemma chain_excludes_keys multi single env (opts : list Option) keys chain (w w' : W) kos k :
  chain ≠ [] →
  kit_options (Endpoint := Endpoint) multi single env
    (applied (opts ++ [WithModelFallbackChain chain; WithAPIKeyFallbacks keys])) w = (kos, w') →
  WithFallbackKeys k ∉ kos.
Proof.
  intros Hc E. pose proof (kit_options_policy multi single env
    (applied (opts ++ [WithModelFallbackChain chain; WithAPIKeyFallbacks keys])) w) as Hp.
  rewrite E in Hp. destruct Hp as (_ & _ & Hk & _). rewrite Hk. intros [Hn _]. apply Hc.
  rewrite <- Hn. unfold applied. by rewrite foldl_app.
Qed.
End Llm.

(** ** Package [pipeline] *)
Section Pipeline.
Context {Kit W : Type}.
Notation Pipeline := (Pipeline.Pipeline (Kit := Kit) (W := W)).
Notation POption := (Pipeline.POption (Kit := Kit) (W := W)).
Definition WithSources (srcs : list Source) : POption := λ p, p{{p_sources := p_sources p ++ srcs}}.
Definition WithFetchFunc (fn : option (ctx → gostring → M W (result gostring)))
    : POption := λ p, p{{p_fetchFn := fn}}.
Definition WithExtractor (s : option (ctx → gostring → option URL → M W (result gostring)))
    : POption := λ p, p{{p_extractor := s}}.
Definition WithChunker (c : option (gostring → outcome (list gostring)))
    : POption := λ p, p{{p_chunker := c}}.
Definition WithFilter (f : option (list gostring → gostring → outcome (list gostring)))
    : POption := λ p, p{{p_filter := f}}.
Definition WithLLMClient (c : option (Client Kit)) : POption := λ p, p{{p_llm := c}}.
Definition WithPipelineConcurrency (n : Z) : POption := λ p, p{{p_maxConc := n}}.
Definition WithMaxTokenBudget (n : Z) : POption := λ p, p{{p_maxTokens := n}}.
Definition WithCharsPerToken (f : float) : POption := λ p, p{{p_charsPerToken := f}}.
Definition WithPipelineMetrics (m : bool) : POption := λ p, p{{p_metrics := m}}.
Definition WithPerSourceTimeout (d : Z) : POption := λ p, p{{p_perSourceTimeout := d}}.
Definition WithEarlyReturnAt (n : Z) : POption := λ p, p{{p_earlyReturnAt := n}}.

(** Sources add up, in the order of the options; every other option leaves them alone. *)
Lemma NewPipeline_sources (l : list (list Source)) :
  p_sources (NewPipeline (Kit := Kit) (W := W) (WithSources <$> l)) = mjoin l.
Proof.
  unfold NewPipeline. change (mjoin l) with (p_sources (default_pipeline (Kit := Kit) (W := W)) ++ mjoin l).
  generalize (default_pipeline (Kit := Kit) (W := W)).
  induction l as [|x l IH]; intros p; simpl; [by rewrite app_nil_r|]. rewrite IH. apply (eq_sym (app_assoc _ _ _)).
Qed.
End Pipeline.

(** ** Package [extract] *)
Section Extract.
Context {W : Type}.
Notation Extractor := (Extract.Extractor (W := W)).
Definition WithMaxContentLen (n : Z) : Extractor → Extractor := λ e, e{{maxContentLen := n}}.
Definition WithFormat (f : Format) : Extractor → Extractor := λ e, e{{format := f}}.
Definition WithLLMFallback (fn : option (ctx → gostring → M W (result gostring)))
    : Extractor → Extractor := λ e, e{{llmFallback := fn}}.
Definition WithMinExtractChars (n : Z) : Extractor → Extractor := λ e, e{{minExtractChars := n}}.
End Extract.
