(* ===== verification/WebText.v ===== *)
(** Package [webtext]: cleaning ([clean.go]) and truncation ([truncate.go]) of the text of pages. *)
From S2P Require Import Prelude Unicode Utf8 GoStrings Serp TextTools Extract.
Local Open Scope Z_scope.

(** [reHTMLTag] is the expression of package [websearch]. *)
Definition WebCleanHTML (s : gostring) : gostring := TrimSpace (strip_tags false s).
(** [\n\s*\n], replaced by a line end: the match runs to the last line end of the white space. The
    fuel bounds the bytes. *)
Fixpoint empty_lines (fuel : nat) (s : gostring) : gostring :=
  match fuel, s with
  | S fuel, c :: s =>
      match (if c =? 10 then find_last (span re_space s).1 [10] else None) with
      | Some k => 10 :: empty_lines fuel (drop (S k) s)
      | None => c :: empty_lines fuel s
      end
  | _, _ => []
  end.
Definition WebCleanLines (s : gostring) : gostring :=
  let s := empty_lines (length s) s in
  Join (filter (λ l, l ≠ []) (TrimSpace <$> Split s 10)) [10].
(** [\s{2,}], replaced by a space. *)
Fixpoint multi_space (fuel : nat) (s : gostring) : gostring :=
  match fuel, s with
  | S fuel, c :: s' =>
      match span re_space s with
      | (_ :: _ :: _, r) => 32 :: multi_space fuel r
      | _ => c :: multi_space fuel s'
      end
  | _, _ => []
  end.
Definition NormalizeSpaces (s : gostring) : gostring := TrimSpace (multi_space (length s) s).
Example lines_ex : WebCleanLines (lit " a" ++ [10; 32; 10; 10] ++ lit " b " ++ [10] ++ lit "c") =
  lit "a" ++ [10] ++ lit "b" ++ [10] ++ lit "c".
Proof. vm_compute. reflexivity. Qed.
Example spaces_ex : NormalizeSpaces (lit " a b" ++ [9; 32] ++ lit "c ") = lit "a b c".
Proof. vm_compute. reflexivity. Qed.

(** Backing up to a byte that starts a rune. *)
Fixpoint back_up (s : gostring) (n : nat) : nat :=
  match n with
  | O => O
  | S n' =>
      match s !! n with
      | Some b => if Z.land b 192 =? 128 then back_up s n' else n
      | None => n
      end
  end.
Definition WebTruncate (s : gostring) (n : Z) : outcome gostring :=
  if (n <=? 0) || (zlen s <=? n) then Ok s
  else slice s 0 (Z.of_nat (back_up s (Z.to_nat n))).

Lemma back_up_le s n : (back_up s n <= n)%nat.
Proof. induction n as [|n IH]; simpl; [done|]. repeat case_match; lia. Qed.
Lemma back_up_start s n b : s !! back_up s n = Some b → back_up s n ≠ O → Z.land b 192 ≠ 128.
Proof.
  induction n as [|n IH]; simpl; [done|]. destruct (s !! S n) as [c|] eqn:E; [|by rewrite E].
  destruct (Z.eqb_spec (Z.land c 192) 128); [done|]. rewrite E. congruence.
Qed.
(** Truncation never panics; it keeps a text that fits, and otherwise cuts at most at [n] bytes,
    before a byte that continues no rune. *)
Lemma WebTruncate_spec s n : ∃ k, WebTruncate s n = Ok (take k s) ∧
  (0 < n → zlen (take k s) <= n) ∧ (n <= 0 ∨ zlen s <= n → take k s = s) ∧
  ∀ b, s !! k = Some b → (0 < k)%nat → Z.land b 192 ≠ 128.
Proof.
  unfold WebTruncate. destruct (Z.leb_spec n 0) as [Hn|Hn], (Z.leb_spec (zlen s) n) as [Hl|Hl]; cbn [orb].
  1-3: exists (length s); rewrite firstn_all; split_and!; try done; try lia;
    intros b Hb; apply lookup_lt_Some in Hb; lia.
  pose proof (back_up_le s (Z.to_nat n)). exists (back_up s (Z.to_nat n)).
  rewrite slice_prefix by lia. rewrite Nat2Z.id. split_and!; [done| |lia|].
  - intros _. unfold zlen. rewrite length_take. lia.
  - intros b Hb Hk. eapply back_up_start; [done|lia].
Qed.
