(* ===== verification/WebDirect.v ===== *)
(** Package [websearch], the first fan-out over the direct engines ([direct.go]): which engines are
    asked, each behind its optional limiter, and what is collected under the mutex. The scheduler is
    a parameter that delivers the outcomes in the order in which they take the mutex. *)
From S2P Require Import Prelude Unicode Utf8 GoStrings GoUrl Floats Json Xml Effects GoTime Results Retry Serp Engines SearchEngines Budget Http KeyedEngines Direct Yandex.
Local Open Scope Z_scope.

Section WebDirect.
Context {W Node : Type} `{Clock W} `{Host W} `{GoQuery Node} `{HttpClient W} `{Metrics W} `{XmlNames}.
Notation St := (Monthly.counter * W)%type.
Notation Limiter := (option (ctx → M W (option error))).
Variables (utc : W → Z)
          (tick_or_done : Z → nat → ctx → W → option error * W).
Record DirectConfig := {
  d_Browser : option (BrowserDoer W); d_DDG : bool; d_Startpage : bool; d_Brave : bool;
  d_Reddit : bool; d_Bing : bool; d_Yep : bool; d_Yandex : YandexConfig;
  d_DDGLimiter : Limiter; d_StartpageLimiter : Limiter; d_BraveLimiter : Limiter;
  d_RedditLimiter : Limiter; d_BingLimiter : Limiter
}.
Definition startpageDefaultLang : gostring := lit "english".
Implicit Types (cfg : DirectConfig) (b : BrowserDoer W) (cx : ctx) (query : gostring).
Definition with_language (language : gostring) : SearchOpts :=
  {| Language := language; TimeRange := []; Region := []; Engines := []; Limit := 0 |}.
Definition with_limit (n : Z) : SearchOpts :=
  {| Language := []; TimeRange := []; Region := []; Engines := []; Limit := n |}.
Definition runDDGDirect cfg b cx query : M W (result (list Result)) :=
  limited (d_DDGLimiter cfg) cx
    match NewDDG (Some b) None with
    | Err e => mret (Err e)
    | Val ddg => DDG_Search ddg cx query zero_SearchOpts
    end.
Definition runStartpageDirect cfg b cx query (language : gostring) : M W (result (list Result)) :=
  limited (d_StartpageLimiter cfg) cx
    (Startpage_Search (Some b) startpageDefaultLang cx query (with_language language)).
Definition runBraveDirect cfg b cx query : M W (result (list Result)) :=
  limited (d_BraveLimiter cfg) cx (Brave_Search (Some b) cx query zero_SearchOpts).
Definition runBingDirect cfg b cx query : M W (result (list Result)) :=
  limited (d_BingLimiter cfg) cx (Bing_Search (Some b) cx query zero_SearchOpts).
Definition runRedditDirect cfg b cx query : M W (result (list Result)) :=
  limited (d_RedditLimiter cfg) cx (Reddit_Search (Some b) cx query (with_limit 10)).

(** A goroutine of the fan-out; the polling of Yandex has its own outcome and the monthly counter. *)
Definition job : Type := M St (outcome (result (list Result))).
Definition plain_job (m : M W (result (list Result))) : job :=
  λ s, let '(r, w) := m s.2 in (Ok r, (s.1, w)).
Definition when_set (enabled : bool) (j : job) : list job := if enabled then [j] else [].
Definition web_jobs cfg b cx query (language : gostring) : list job :=
  when_set (d_DDG cfg) (plain_job (runDDGDirect cfg b cx query)) ++
  when_set (d_Startpage cfg) (plain_job (runStartpageDirect cfg b cx query language)) ++
  when_set (d_Brave cfg) (plain_job (runBraveDirect cfg b cx query)) ++
  when_set (d_Reddit cfg) (plain_job (runRedditDirect cfg b cx query)) ++
  when_set (d_Bing cfg) (plain_job (runBingDirect cfg b cx query)) ++
  when_set (d_Yep cfg) (plain_job (Yep_Search utc (Some b) cx query zero_SearchOpts)) ++
  when_set (bool_decide (y_APIKey (d_Yandex cfg) ≠ []))
    (SearchYandexAPI tick_or_done 21 cx (d_Yandex cfg) query [] []).

(** [collect]: errors are dropped, results appended. *)
Fixpoint collect (rs : list (outcome (result (list Result)))) : outcome (list Result) :=
  match rs with
  | [] => Ok []
  | r :: rs => let* r := r in let* rest := collect rs in
               Ok (match r with Err _ => [] | Val results => results end ++ rest)
  end.
Variable fan_out : list job → M St (list (outcome (result (list Result)))).
Definition WebSearchDirect cfg cx query (language : gostring) : M St (outcome (list Result)) :=
  match d_Browser cfg with
  | None => mret (Ok [])
  | Some b => rs ← fan_out (web_jobs cfg b cx query language); mret (collect rs)
  end.

(** In whatever order the outcomes arrive, the same results are collected. *)
Lemma collect_perm rs rs' : rs ≡ₚ rs' →
  match collect rs, collect rs' with
  | Ok a, Ok b => a ≡ₚ b
  | Ok _, _ | _, Ok _ => False
  | _, _ => True
  end.
Proof.
  induction 1 as [|r rs rs' _ IH|r1 r2 rs|rs1 rs2 rs3 _ IH1 _ IH2]; simpl; [done|..].
  - destruct r as [r| |], (collect rs), (collect rs'); simpl in *; try done. by rewrite IH.
  - destruct r1 as [r1| |], r2 as [r2| |], (collect rs); simpl; try done.
    rewrite !app_assoc. apply Permutation_app_tail, Permutation_app_comm.
  - destruct (collect rs1), (collect rs2), (collect rs3); try done. by rewrite IH1.
Qed.
End WebDirect.
