(* ===== verification/WebFanout.v ===== *)
(** Package [websearch], the goroutines of [SearchDirect] ([direct.go]) as a transition system: the
    slice of results under its mutex, and the wait group. Every interleaving is one of the
    deliveries that [WebDirect] takes as a parameter, and the search always returns. *)
From S2P Require Import Prelude Mutex Unicode Utf8 GoStrings GoUrl Floats Json Xml Effects GoTime Results Retry Serp Engines SearchEngines Budget Http KeyedEngines Direct Yandex WebDirect.
Local Open Scope Z_scope.

Section Steps.
Context {St : Type}.
Notation answer := (outcome (result (list Result))).
Notation job := (M St answer).

(** A goroutine: before its function returns; at [mu.Lock()] with results; between [mu.Lock()] and
    [mu.Unlock()], where it has read [all]; after [wg.Done()]. *)
Inductive wphase :=
| WPending
| WAnswered (results : list Result)
| WLocked (results all : list Result)
| WDone.
Record wleg := WLeg { w_job : job; w_phase : wphase }.
Definition with_phase (p : wphase) (l : wleg) : wleg := WLeg (w_job l) p.
(** [w_out] is what the call returns, or the panic that ends the program. *)
Record wstate := WState {
  w_legs : list wleg; w_lock : option nat; w_all : list Result; w_st : St;
  w_out : option (outcome (list Result))
}.
Definition winit (js : list job) (st : St) : wstate :=
  WState ((λ j, WLeg j WPending) <$> js) None [] st None.

Inductive wmove :=
| WCall (i : nat)       (* the function of goroutine [i] runs, and its error is dropped *)
| WLock (i : nat)
| WAppend (i : nat)     (* [all = append(all, results...)], and the mutex is released *)
| WReturn.              (* [wg.Wait()] is over *)
Definition is_done (l : wleg) : bool := match w_phase l with WDone => true | _ => false end.
Definition wstep (mv : wmove) (s : wstate) : option wstate :=
  let '(WState legs lock all st out) := s in
  match out with
  | Some _ => None
  | None =>
      match mv with
      | WCall i =>
          l ← legs !! i;
          match w_phase l with
          | WPending =>
              let '(r, st') := w_job l st in
              let put p := <[i := with_phase p l]> legs in
              Some match r with
                   | Ok (Err _) => WState (put WDone) lock all st' None
                   | Ok (Val results) => WState (put (WAnswered results)) lock all st' None
                   | Panic => WState legs lock all st' (Some Panic)
                   | OutOfFuel => WState legs lock all st' (Some OutOfFuel)
                   end
          | _ => None
          end
      | WLock i =>
          l ← legs !! i;
          match w_phase l, lock with
          | WAnswered results, None =>
              Some (WState (<[i := with_phase (WLocked results all) l]> legs) (Some i) all st None)
          | _, _ => None
          end
      | WAppend i =>
          l ← legs !! i;
          match w_phase l with
          | WLocked results seen =>
              Some (WState (<[i := with_phase WDone l]> legs) None (seen ++ results) st None)
          | _ => None
          end
      | WReturn => if forallb is_done legs then Some (WState legs lock all st (Some (Ok all))) else None
      end
  end.
Fixpoint wrun (ls : list wmove) (s : wstate) : option wstate :=
  match ls with [] => Some s | mv :: ls => s' ← wstep mv s; wrun ls s' end.

(** The reference: the functions one after the other. *)
Fixpoint in_turn (js : list job) : M St (list answer) :=
  match js with
  | [] => mret []
  | j :: js => r ← j; rs ← in_turn js; mret (r :: rs)
  end.
Lemma in_turn_snoc js j st rs st' r st'' :
  in_turn js st = (rs, st') → j st' = (r, st'') → in_turn (js ++ [j]) st = (rs ++ [r], st'').
Proof.
  revert st rs. induction js as [|j' js IH]; intros st rs; simpl.
  - intros [= <- <-] Hj. unfold mbind, M_bind. by rewrite Hj.
  - unfold mbind, M_bind. destruct (j' st) as [r' st1]. destruct (in_turn js st1) as [rs1 st2] eqn:E.
    intros [= <- <-] Hj. by rewrite (IH _ _ E Hj).
Qed.
Lemma collect_Ok_snoc rs (r : result (list Result)) all :
  collect (Ok <$> rs) = Ok all →
  collect (Ok <$> (rs ++ [r])) = Ok (all ++ match r with Err _ => [] | Val results => results end).
Proof.
  revert all. induction rs as [|r' rs IH]; intros all; cbn [fmap list_fmap app collect obind].
  - intros [= <-]. by rewrite app_nil_r.
  - destruct (collect (Ok <$> rs)) as [rest| |] eqn:E; try done. cbn [obind]. intros [= <-].
    rewrite (IH _ eq_refl). cbn [obind]. by rewrite app_assoc.
Qed.

(** ** The invariant *)
Definition pending (l : wleg) : option job := match w_phase l with WPending => Some (w_job l) | _ => None end.
Definition held (l : wleg) : option (result (list Result)) :=
  match w_phase l with WAnswered rs | WLocked rs _ => Some (Val rs) | _ => None end.
Definition locked (l : wleg) : Prop := match w_phase l with WLocked _ _ => True | _ => False end.
(** Who has the mutex has read the current slice. *)
Definition seen_ok (all : list Result) (legs : list wleg) : Prop :=
  ∀ i l rs seen, legs !! i = Some l → w_phase l = WLocked rs seen → seen = all.
(** The functions called, in order, have answered; an answer is in [all], dropped, or held. *)
Record winv (js : list job) (st0 : St) (s : wstate) : Prop := {
  wi_answers : ∃ ord rs heard,
    omap pending (w_legs s) ++ ord ≡ₚ js ∧ in_turn ord st0 = (Ok <$> rs, w_st s) ∧
    rs ≡ₚ heard ++ omap held (w_legs s) ∧ collect (Ok <$> heard) = Ok (w_all s);
  wi_lock : lock_ok locked (w_lock s) (w_legs s);
  wi_seen : seen_ok (w_all s) (w_legs s)
}.
Lemma winv_init js st0 : winv js st0 (winit js st0).
Proof.
  assert (∀ (js : list job) i l, ((λ j, WLeg j WPending) <$> js) !! i = Some l → w_phase l = WPending) as Hp.
  { intros js' i l. rewrite list_lookup_fmap. destruct (js' !! i); [|done]. by intros [= <-]. }
  split; simpl.
  - exists [], [], []. rewrite app_nil_r. split_and!; try done; clear Hp.
    + induction js as [|j js IH]; [done|]. cbn. by f_equiv.
    + by induction js.
  - apply lock_ok_free, Forall_lookup. intros i l Hi%Hp. unfold locked. rewrite Hi. intros [].
  - intros i l rs seen Hi%Hp. congruence.
Qed.
Lemma seen_ok_move all legs i l p :
  seen_ok all legs → (∀ rs seen, p = WLocked rs seen → seen = all) →
  seen_ok all (<[i := with_phase p l]> legs).
Proof.
  intros Hs Hp j l' rs seen [[_ ->]|[_ Hj]]%lookup_moved; [apply Hp|by eapply Hs].
Qed.
Lemma seen_ok_leave all legs i l :
  lock_ok locked (Some i) legs → seen_ok all (<[i := with_phase WDone l]> legs).
Proof.
  intros [Hl _] j l' rs seen [[_ ->]|[Hne Hj]]%lookup_moved Hp; [done|].
  assert (Some i = Some j) as [= ->]; [|done]. apply (Hl _ _ Hj). unfold locked. by rewrite Hp.
Qed.
Lemma winv_step js st0 mv s s' :
  winv js st0 s → wstep mv s = Some s' → w_out s' = None → winv js st0 s'.
Proof.
  intros [(ord & rs & heard & Hj & Hr & Hh & Hc) Hl Hs]. destruct s as [legs lock all st [o|]]; [done|].
  simpl in *. destruct mv as [i|i|i|]; simpl.
  4: { by destruct (forallb is_done legs); [intros [= <-]|]. }
  all: destruct (legs !! i) as [l|] eqn:Hi; [|done]; simpl.
  all: destruct (w_phase l) as [|res|res seen|] eqn:Hp; try done.
  - assert (∀ p, p ≠ WPending →
      omap pending (<[i:=with_phase p l]> legs) ++ ord ++ [w_job l] ≡ₚ js) as Hjs.
    { intros p Hn. rewrite <- Hj, app_assoc, (Permutation_app_comm _ [w_job l]). simpl.
      rewrite app_comm_cons. f_equiv. symmetry.
      apply (omap_insert_out pending legs i l); [done|unfold pending; by rewrite Hp|by destruct p]. }
    assert (∀ p, p = WDone ∨ (∃ rs, p = WAnswered rs) →
      lock_ok locked lock (<[i:=with_phase p l]> legs) ∧ seen_ok all (<[i:=with_phase p l]> legs)) as Hk.
    { intros p Hpp. split; [|apply seen_ok_move; naive_solver].
      eapply lock_ok_aside; [done..| |]; unfold locked; [rewrite Hp; tauto|naive_solver]. }
    destruct (w_job l st) as [[[results|e]| |] st'] eqn:Er; [| |by intros [= <-]..];
      intros [= <-] _; split; simpl; try apply Hk; eauto.
    + exists (ord ++ [w_job l]), (rs ++ [Val results]), heard. split_and!; [by apply Hjs| | |done].
      * rewrite fmap_app. by eapply in_turn_snoc.
      * rewrite Hh, (Permutation_app_comm _ [_]). simpl.
        rewrite (omap_insert_perm held legs i l _ (Val results)); [|done|unfold held; by rewrite Hp|done].
        by rewrite Permutation_middle.
    + exists (ord ++ [w_job l]), (rs ++ [Err e]), (heard ++ [Err e]). split_and!; [by apply Hjs| | |].
      * rewrite fmap_app. by eapply in_turn_snoc.
      * rewrite (omap_insert_same held legs i l); [|done|unfold held; by rewrite Hp].
        rewrite Hh, <- !app_assoc. f_equiv. by rewrite Permutation_app_comm.
      * by rewrite (collect_Ok_snoc _ _ _ Hc), app_nil_r.
  - destruct lock; [done|]. intros [= <-] _. split; simpl.
    + exists ord, rs, heard. split_and!; [|done| |done].
      * by rewrite (omap_insert_same pending legs i l) by (try done; unfold pending; by rewrite Hp).
      * by rewrite (omap_insert_same held legs i l) by (try done; unfold held; by rewrite Hp).
    + by eapply lock_ok_enter.
    + apply seen_ok_move; [done|]. by intros ? ? [= _ <-].
  - assert (lock = Some i) as -> by (eapply lock_ok_inside; [done..|]; unfold locked; by rewrite Hp).
    rewrite (Hs _ _ _ _ Hi Hp). intros [= <-] _. split; simpl.
    + exists ord, rs, (heard ++ [Val res]). split_and!; [|done| |].
      * by rewrite (omap_insert_same pending legs i l) by (try done; unfold pending; by rewrite Hp).
      * rewrite Hh, <- app_assoc. f_equiv. simpl.
        apply (omap_insert_out held legs i l); [done|unfold held; by rewrite Hp|done].
      * by rewrite (collect_Ok_snoc _ _ _ Hc).
    + eapply lock_ok_leave; [done..|]. intros [].
    + by apply seen_ok_leave.
Qed.
Lemma wrun_snoc ls mv s : wrun (ls ++ [mv]) s = wrun ls s ≫= wstep mv.
Proof.
  revert s. induction ls as [|m ls IH]; intros s; simpl; [by destruct (wstep mv s)|].
  destruct (wstep m s); [apply IH|done].
Qed.
Lemma wstep_out mv s s' : wstep mv s = Some s' → w_out s = None.
Proof. by destruct s as [legs lock all st []]. Qed.
(** How the search ends. *)
Definition wend (js : list job) (st0 : St) (s : wstate) (o : outcome (list Result)) : Prop :=
  match o with
  | Ok all => ∃ ord heard, ord ≡ₚ js ∧ heard ≡ₚ (in_turn ord st0).1 ∧
                           (in_turn ord st0).2 = w_st s ∧ collect heard = Ok all
  | Panic => ∃ j st, j ∈ js ∧ (j st).1 = Panic
  | OutOfFuel => ∃ j st, j ∈ js ∧ (j st).1 = OutOfFuel
  end.
Lemma done_rest legs : forallb is_done legs = true → omap pending legs = [] ∧ omap held legs = [].
Proof.
  induction legs as [|l legs IH]; [done|]. simpl. intros [Hl Hr]%andb_true_iff.
  destruct (IH Hr) as [IH1 IH2]. unfold is_done in Hl. cbn. unfold pending at 1, held at 1.
  by destruct (w_phase l).
Qed.
Lemma wstep_end js st0 mv s s' o :
  winv js st0 s → wstep mv s = Some s' → w_out s' = Some o → wend js st0 s' o.
Proof.
  intros [(ord & rs & heard & Hj & Hr & Hh & Hc) _ _]. destruct s as [legs lock all st [o'|]]; [done|].
  simpl in *. destruct mv as [i|i|i|]; simpl.
  4: { destruct (forallb is_done legs) eqn:Hd; [|done]. intros [= <-] [= <-].
       destruct (done_rest legs Hd) as [E1 E2]. rewrite E1 in Hj. rewrite E2, app_nil_r in Hh.
       exists ord, (Ok <$> heard). rewrite Hr. split_and!; [done|by rewrite Hh|done|done]. }
  all: destruct (legs !! i) as [l|] eqn:Hi; [|done]; simpl.
  all: destruct (w_phase l) as [|res|res seen|] eqn:Hp; try done.
  2: { destruct lock; [done|]. by intros [= <-]. }
  2: { by intros [= <-]. }
  assert (w_job l ∈ js) as Hin.
  { rewrite <- Hj. apply elem_of_app. left. apply list_elem_of_omap. exists l.
    split; [by eapply list_elem_of_lookup_2|]. unfold pending. by rewrite Hp. }
  destruct (w_job l st) as [[[results|e]| |] st'] eqn:Er; intros [= <-]; try done;
    intros [= <-]; exists (w_job l), st; by rewrite Er.
Qed.
Lemma wrun_inv js st0 ls s :
  wrun ls (winit js st0) = Some s →
  match w_out s with None => winv js st0 s | Some o => wend js st0 s o end.
Proof.
  revert s. induction ls as [|mv ls IH] using rev_ind; intros s; [intros [= <-]; apply winv_init|].
  rewrite wrun_snoc. destruct (wrun ls _) as [s0|]; [|done]. simpl. intros E.
  specialize (IH _ eq_refl). rewrite (wstep_out _ _ _ E) in IH.
  destruct (w_out s) eqn:Ho; [by eapply wstep_end|by eapply winv_step].
Qed.

(** ** The end *)
Definition steps_left (l : wleg) : nat :=
  match w_phase l with WPending => 3 | WAnswered _ => 2 | WLocked _ _ => 1 | WDone => 0 end.
Definition search_left (s : wstate) : nat :=
  sum_list_with steps_left (w_legs s) + match w_out s with None => 1 | Some _ => 0 end.
Lemma wstep_left mv s s' : wstep mv s = Some s' → (search_left s' < search_left s)%nat.
Proof.
  destruct s as [legs lock all st [o|]]; [done|]. unfold search_left. destruct mv as [i|i|i|]; simpl.
  4: { destruct (forallb is_done legs); [|done]. intros [= <-]. simpl. lia. }
  all: destruct (legs !! i) as [l|] eqn:Hi; [|done]; simpl.
  all: assert (∀ p, sum_list_with steps_left (<[i:=with_phase p l]> legs) + steps_left l =
         sum_list_with steps_left legs + steps_left (with_phase p l))%nat as Hs by (intros p; by apply sum_list_insert).
  all: unfold steps_left at 2 4 in Hs; simpl in Hs; destruct (w_phase l) as [|res|res seen|]; try done.
  - destruct (w_job l st) as [[[results|e]| |] st']; intros [= <-]; simpl;
      [pose proof (Hs (WAnswered results))|pose proof (Hs WDone)|..]; simpl in *; lia.
  - destruct lock; [done|]. intros [= <-]. pose proof (Hs (WLocked res all)). simpl in *. lia.
  - intros [= <-]. pose proof (Hs WDone). simpl in *. lia.
Qed.
Lemma wrun_left ls s s' : wrun ls s = Some s' → (length ls + search_left s' <= search_left s)%nat.
Proof.
  revert s. induction ls as [|mv ls IH]; intros s; simpl; [by intros [= ->]|].
  destruct (wstep mv s) as [s1|] eqn:E; [|done]. simpl. intros Hr%IH. apply wstep_left in E. lia.
Qed.
Lemma wprogress js st0 s : winv js st0 s → w_out s = None → ∃ mv, is_Some (wstep mv s).
Proof.
  intros [_ [Hl Ho] _]. destruct s as [legs lock all st out]. simpl in *. intros ->.
  destruct lock as [i|].
  - destruct (lookup_lt_is_Some_2 legs i (Ho i eq_refl)) as [l Hi]. exists (WAppend i). simpl. rewrite Hi.
    pose proof (proj2 (Hl _ _ Hi) eq_refl) as Hk. unfold locked in Hk. simpl.
    destruct (w_phase l); done.
  - destruct (forallb is_done legs) eqn:Hd; [exists WReturn; by eexists|].
    destruct (forallb_false _ _ Hd) as (i & l & Hi & Hf). unfold is_done in Hf.
    destruct (w_phase l) as [|res|res seen|] eqn:Hp; try done.
    + exists (WCall i). simpl. rewrite Hi. simpl. rewrite Hp. destruct (w_job l st). by eexists.
    + exists (WLock i). simpl. rewrite Hi. simpl. rewrite Hp. by eexists.
    + assert (None = Some i); [|done]. apply (Hl _ _ Hi). unfold locked. by rewrite Hp.
Qed.
End Steps.

Section WebFanout.
Context {W Node : Type} `{Clock W} `{Host W} `{GoQuery Node} `{HttpClient W} `{Metrics W} `{XmlNames}.
Variables (utc : W → Z) (tick_or_done : Z → nat → ctx → W → option error * W).
Notation St := (Monthly.counter * W)%type.
Notation web_jobs := (web_jobs utc tick_or_done).

(** C8: The fan-out of SearchDirect of package websearch, for every interleaving of its goroutines. It
    takes at most three steps per engine and one more, and is never stuck: until it returns some
    goroutine can move, so that the mutex is never left locked. It returns the results of every
    engine that answers without an error, none lost and none twice, as the functions would one
    after the other in some order: what it returns is what [WebSearchDirect] collects from one
    outcome of each engine; and it panics only if one of the functions does. *)
Theorem web_fan_out (cfg : DirectConfig) (b : BrowserDoer W) cx query language (st0 : St) ls s :
  d_Browser cfg = Some b →
  let js := web_jobs cfg b cx query language in
  wrun ls (winit js st0) = Some s →
  (length ls <= 3 * length js + 1)%nat ∧
  match w_out s with
  | None => ∃ mv, is_Some (wstep mv s)
  | Some (Ok all) => ∃ ord heard, ord ≡ₚ js ∧ heard ≡ₚ (in_turn ord st0).1 ∧
      WebSearchDirect utc tick_or_done (λ _ _, (heard, (in_turn ord st0).2)) cfg cx query language st0 =
        (Ok all, w_st s)
  | Some Panic => ∃ j st, j ∈ js ∧ (j st).1 = Panic
  | Some OutOfFuel => ∃ j st, j ∈ js ∧ (j st).1 = OutOfFuel
  end.
Proof.
  intros Hb js Hrun. split.
  - pose proof (wrun_left _ _ _ Hrun) as Hl. unfold search_left in Hl. simpl in Hl.
    assert (sum_list_with steps_left ((λ j, WLeg j WPending) <$> js) = 3 * length js)%nat; [|lia].
    clear. induction js as [|j js IH]; [done|]. rewrite fmap_cons. cbn [sum_list_with length]. rewrite IH.
    change (steps_left (WLeg j WPending)) with 3%nat. lia.
  - pose proof (wrun_inv _ _ _ _ Hrun) as Hi. destruct (w_out s) as [[all| |]|] eqn:Ho; [|done..|by eapply wprogress].
    destruct Hi as (ord & heard & Hj & Hh & Hst & Hc). exists ord, heard. split_and!; [done..|].
    unfold WebSearchDirect. rewrite Hb. unfold mbind, M_bind, mret, M_ret. by rewrite Hc, Hst.
Qed.
End WebFanout.

(** ** Brave refused, Reddit and Yep with a result each: Reddit is called first, but Yep gets the
    mutex before it *)
Section Demo.
#[local] Existing Instances demo_clock demo_host demo_html.
#[local] Instance demo_metrics : Metrics unit :=
  {| Incr := λ _ _ w, w; ObserveSeconds := λ _ _ _ w, w; GaugeAdd := λ _ _ w, w |}.
#[local] Instance demo_http : HttpClient unit := {| http_Do := λ _ _ w, (Err CtxCanceled, w) |}.
#[local] Instance demo_names : XmlNames := {| name_first _ := false; name_second _ := false |}.
Definition demo_page (url : gostring) : Z * gostring :=
  if HasPrefix url (lit "https://www.reddit.com/") then
    (200, dq (lit "{'data':{'children':[{'data':{'title':'post','permalink':'/r/a'}}]}}"))
  else if HasPrefix url yepEndpoint then
    (200, dq (lit "['Ok',{'results':[{'url':'https://a.b','title':'page','snippet':'s','type':'Organic'}]}]"))
  else (403, []).
Definition demo_browser : BrowserDoer unit :=
  {| identity := None;
     Do := λ _ url _ _ w, (Val {| rs_data := (demo_page url).2; rs_headers := ∅;
                                  rs_status := (demo_page url).1 |}, w) |}.
Definition demo_web : WebDirect.DirectConfig (W := unit) :=
  {| d_Browser := Some demo_browser; d_DDG := false; d_Startpage := false; d_Brave := true;
     d_Reddit := true; d_Bing := false; d_Yep := true;
     d_Yandex := {| y_APIKey := []; FolderID := []; MonthlyLimit := 0 |};
     d_DDGLimiter := None; d_StartpageLimiter := None; d_BraveLimiter := None;
     d_RedditLimiter := None; d_BingLimiter := None |}.
Definition demo_tick (_ : Z) (_ : nat) (_ : ctx) (w : unit) : option error * unit := (None, w).
Definition demo_start : Monthly.counter * unit := ({| Monthly.count := 0; Monthly.month := 1 |}, ()).
Definition demo_jobs := web_jobs (λ _, 0) demo_tick demo_web demo_browser demo_ctx (lit "q") (lit "en").
Definition yep_overtakes : list wmove :=
  [WCall 1; WCall 2; WLock 2; WCall 0; WAppend 2; WLock 1; WAppend 1; WReturn].
Definition demo_run := wrun yep_overtakes (winit demo_jobs demo_start).
Definition titles (r : option (wstate (St := Monthly.counter * unit))) : option (list gostring) :=
  match r ≫= w_out with Some (Ok all) => Some (r_Title <$> all) | _ => None end.
Lemma web_fan_out_witness : ∃ s all,
  demo_run = Some s ∧ w_out s = Some (Ok all) ∧ r_Title <$> all = [lit "page"; lit "post"] ∧
  ∃ ord heard, ord ≡ₚ demo_jobs ∧
    WebSearchDirect (λ _, 0) demo_tick (λ _ _, (heard, (in_turn ord demo_start).2)) demo_web demo_ctx
      (lit "q") (lit "en") demo_start = (Ok all, w_st s).
Proof.
  assert (titles demo_run = Some [lit "page"; lit "post"]) as T by (vm_compute; reflexivity).
  destruct demo_run as [s|] eqn:E; [|discriminate T].
  pose proof (proj2 (web_fan_out (λ _ : unit, 0) demo_tick demo_web demo_browser demo_ctx (lit "q") (lit "en")
    demo_start yep_overtakes s eq_refl E)) as K.
  unfold titles in T. simpl in T. destruct (w_out s) as [[all| |]|] eqn:Ho; try discriminate T.
  injection T as T. destruct K as (ord & heard & Hj & _ & Hw).
  exists s, all. split; [done|]. split; [exact Ho|]. split; [exact T|].
  exists ord, heard. split; [exact Hj|exact Hw].
Defined.
End Demo.
