(* ===== verification/ImageEngines.v ===== *)
(** Package [imagesearch], the engines: the requests and the readers of [bing.go], [brave.go],
    [ddg.go], [google.go] and [yandex.go], with the headers of [headers.go] and the plain client of
    [doer_http.go]. Regular expressions are matched by hand over bytes; the renderer of pages, the
    entity table of package html and the order in which a map is ranged over are parameters. *)
From S2P Require Import Prelude Unicode Utf8 GoStrings GoUrl Floats Json Effects Results Retry Serp Engines Http.
Local Open Scope Z_scope.

(** ** Regular expressions *)
(** [FindAllStringSubmatchIndex]: the matches of a pattern from left to right, each with where it
    starts, where it ends and what it captures; [try] is the pattern at a position, with the rest.
    One more than the length is enough fuel. *)
Section FindAll.
Context {X : Type} (try : gostring → option (X * gostring)).
Fixpoint find_matches (fuel pos : nat) (s : gostring) : list (nat * nat * X) :=
  match fuel with
  | O => []
  | S fuel =>
      match try s with
      | Some (x, rest) =>
          let stop := (pos + (length s - length rest))%nat in
          (pos, stop, x) :: find_matches fuel stop rest
      | None => match s with [] => [] | _ :: s => find_matches fuel (S pos) s end
      end
  end.
Definition FindAllSubmatch (s : gostring) : list (nat * nat * X) :=
  find_matches (S (length s)) 0 s.
Definition FindSubmatch (s : gostring) : option X := snd <$> head (FindAllSubmatch s).
End FindAll.
(** A value up to the closing quote, and what follows it. *)
Definition quoted (s : gostring) : option (gostring * gostring) :=
  let '(v, r) := span (λ c, negb (c =? 34)) s in
  match r with [] => None | _ :: r => Some (v, r) end.
Definition quoted_nonempty (s : gostring) : option (gostring * gostring) :=
  '(v, r) ← quoted s; if decide (v = []) then None else Some (v, r).
Definition some_digits (s : gostring) : option (gostring * gostring) :=
  let '(v, r) := span (between 48 57) s in if decide (v = []) then None else Some (v, r).
(** [strconv.Atoi] with its error ignored: nothing for a text that is no number, the nearest
    [int] for one out of range. *)
Definition atoi_value (s : gostring) : Z :=
  let '(neg, ds) := match s with
                    | 45 :: s => (true, s) | 43 :: s => (false, s) | _ => (false, s) end in
  match ds, digits_go 0 ds with
  | _ :: _, Some n => Z.max (- 2 ^ 63) (Z.min (2 ^ 63 - 1) (if neg : bool then - n else n))
  | _, _ => 0
  end.

(** ** Headers *)
(** [stealth.ChromeHeaders], whose user agent is always replaced. *)
Definition ChromeHeaders : Headers := list_to_map [
  (lit "accept-language", lit "en-US,en;q=0.9");
  (lit "upgrade-insecure-requests", lit "1");
  (lit "accept", lit "text/html,application/xhtml+xml,application/xml;q=0.9,image/avif,image/webp,image/apng,*/*;q=0.8,application/signed-exchange;v=b3;q=0.7");
  (lit "sec-fetch-site", lit "none");
  (lit "sec-fetch-mode", lit "navigate");
  (lit "sec-fetch-user", lit "?1");
  (lit "sec-fetch-dest", lit "document");
  (lit "accept-encoding", lit "gzip, deflate, br, zstd");
  (lit "priority", lit "u=0, i")].
Definition androidHeaders : Headers := list_to_map [
  (lit "user-agent", lit "NSTN/3.60.474802233.release Dalvik/2.1.0 (Linux; U; Android 12; US) gzip");
  (lit "accept", lit "text/html,application/xhtml+xml,application/xml;q=0.9,*/*;q=0.8");
  (lit "accept-language", lit "en-US,en;q=0.9")].

(** ** Bing *)
Definition bingAsyncURL : gostring := lit "https://www.bing.com/images/async".
Definition bingMaxCount : Z := 35.
(** The attribute [m] that holds an object in braces. *)
Definition bingMAttrRe (s : gostring) : option (gostring * gostring) :=
  r ← CutPrefix s (lit "m=" ++ [34; 123]);
  '(v, r) ← quoted r;
  if decide (last v = Some 125) then Some (123 :: v, r) else None.
Definition image (engine url thumb source title : gostring) (w h : Z) : ImageResult :=
  {| i_URL := url; i_Thumbnail := thumb; i_Source := source; i_Title := title; i_Width := w;
     i_Height := h; i_Engine := engine |}.
Definition dec_bingMAttr : dec (option ImageResult) := dec_struct (λ _ kvs,
  murl ← field (lit "murl") dec_string [] kvs;
  turl ← field (lit "turl") dec_string [] kvs;
  purl ← field (lit "purl") dec_string [] kvs;
  t ← field (lit "t") dec_string [] kvs;
  mw ← field (lit "mw") dec_string [] kvs;
  mh ← field (lit "mh") dec_string [] kvs;
  Some (Some (image (lit "bing") murl turl purl t (atoi_value mw) (atoi_value mh)))).
(** The images with a URL. *)
Definition with_url (r : ImageResult) : option ImageResult :=
  if decide (i_URL r = []) then None else Some r.
Definition bing_image (raw : gostring) : option ImageResult :=
  let jsonStr := ReplaceAll raw (lit "&quot;") [34] in
  let jsonStr := ReplaceAll jsonStr (lit "&amp;") (lit "&") in
  r ← Unmarshal None dec_bingMAttr jsonStr; r ← r; with_url r.
Definition parseBingHTML (html : gostring) : list ImageResult :=
  omap (λ m, bing_image m.2) (FindAllSubmatch bingMAttrRe html).

(** ** Brave *)
Definition braveImagesURL : gostring := lit "https://search.brave.com/images".
Definition braveCookie : gostring :=
  lit "safesearch=off; useLocation=0; summarizer=0; country=us; ui_lang=en-us".
Definition bravePropsRe (s : gostring) : option (gostring * gostring * gostring * gostring) :=
  r ← CutPrefix s (lit "properties:{url:" ++ [34]);
  '(u, r) ← quoted_nonempty r;
  r ← CutPrefix r (lit ",resized:" ++ [34]);
  '(_, r) ← quoted r;
  r ← CutPrefix r (lit ",height:");
  '(h, r) ← some_digits r;
  r ← CutPrefix r (lit ",width:");
  '(w, r) ← some_digits r;
  Some (u, h, w, r).
Definition braveThumbRe (s : gostring) : option (gostring * gostring) :=
  r ← CutPrefix s (lit "thumbnail:{src:" ++ [34]); quoted_nonempty r.
Definition extractLastQuoted (s prefix : gostring) : gostring :=
  match find_last s prefix with
  | None => []
  | Some idx =>
      let rest := drop (idx + length prefix) s in
      match find_sub rest [34] with None => [] | Some stop => take stop rest end
  end.
(** One result: the source and the title before the properties, the thumbnail after them. *)
Definition brave_image (html : gostring) (m : nat * nat * (gostring * gostring * gostring))
    : ImageResult :=
  let '(start, stop, (imgURL, h, w)) := m in
  let prefix := drop (start - 500) (take start html) in
  let thumb := default [] (FindSubmatch braveThumbRe (take 300 (drop stop html))) in
  image (lit "brave") imgURL thumb (extractLastQuoted prefix (lit "{url:" ++ [34]))
    (extractLastQuoted prefix (lit "title:" ++ [34])) (atoi_value w) (atoi_value h).
Definition parseBraveImageHTML (html : gostring) : list ImageResult :=
  brave_image html <$> FindAllSubmatch bravePropsRe html.

(** ** DuckDuckGo *)
Definition ddgImagesHome : gostring := lit "https://duckduckgo.com/".
Definition ddgImagesAPI : gostring := lit "https://duckduckgo.com/i.js".
Definition ddgCookie : gostring := lit "ah=wt-wt; l=wt-wt; p=-1; ad=1".
Definition zero_ImageResult : ImageResult := image [] [] [] [] [] 0 0.
Definition dec_ddgImageResult : dec ImageResult := dec_struct (λ p kvs,
  i ← field (lit "image") dec_string (i_URL p) kvs;
  th ← field (lit "thumbnail") dec_string (i_Thumbnail p) kvs;
  u ← field (lit "url") dec_string (i_Source p) kvs;
  t ← field (lit "title") dec_string (i_Title p) kvs;
  w ← field (lit "width") dec_int (i_Width p) kvs;
  h ← field (lit "height") dec_int (i_Height p) kvs;
  Some (image (lit "ddg") i th u t w h)).
Definition dec_ddgImageResponse : dec (list ImageResult) := dec_struct (λ p kvs,
  field (lit "results") (dec_list zero_ImageResult dec_ddgImageResult) p kvs).
Definition parseDDGImageJSON (data : gostring) : list ImageResult :=
  omap with_url (default [] (Unmarshal [] dec_ddgImageResponse data)).
(** The same three patterns as those of package [websearch]. *)
Definition extractVQD (body : gostring) : gostring := ExtractVQD body.

(** ** Google *)
Definition googleImagesURL : gostring := lit "https://www.google.com/search".
Definition dec_googleMetadata : dec ImageResult := dec_struct (λ p kvs,
  st ← field (lit "result") (dec_struct (λ p kvs,
         s ← field (lit "referrer_url") dec_string p.1 kvs;
         t ← field (lit "page_title") dec_string p.2 kvs; Some (s, t)))
         (i_Source p, i_Title p) kvs;
  o ← field (lit "original_image") (dec_struct (λ p kvs,
        u ← field (lit "url") dec_string p.1.1 kvs;
        w ← field (lit "width") dec_int p.1.2 kvs;
        h ← field (lit "height") dec_int p.2 kvs; Some (u, w, h)))
        (i_URL p, i_Width p, i_Height p) kvs;
  th ← field (lit "thumbnail") (dec_struct (λ p kvs, field (lit "url") dec_string p kvs))
         (i_Thumbnail p) kvs;
  Some (image (lit "google") o.1.1 th st.1 st.2 o.1.2 o.2)).
Definition dec_googleIschj : dec (list ImageResult) := dec_struct (λ p kvs,
  field (lit "ischj") (dec_struct (λ p kvs,
    field (lit "metadata") (dec_list zero_ImageResult dec_googleMetadata) p kvs)) p kvs).
Definition google_marker : gostring := [123; 34] ++ lit "ischj" ++ [34; 58].
Definition parseGoogleImageJSON (data : gostring) : list ImageResult :=
  match find_sub data google_marker with
  | None => []
  | Some idx => omap with_url (default [] (Unmarshal [] dec_googleIschj (drop idx data)))
  end.

(** ** Yandex *)
Definition yandexImagesURL : gostring := lit "https://yandex.ru/images/search".
Definition dataStateRe (s : gostring) : option (gostring * gostring) :=
  r ← CutPrefix s (lit "data-state=" ++ [34]); quoted_nonempty r.
Record yandexEntity := {
  OrigURL : gostring; Image : gostring; OrigWidth : Z; OrigHeight : Z;
  sn_Title : gostring; sn_Domain : gostring; e_URL : gostring
}.
Definition zero_yandexEntity : yandexEntity :=
  {| OrigURL := []; Image := []; OrigWidth := 0; OrigHeight := 0; sn_Title := []; sn_Domain := [];
     e_URL := [] |}.
Definition dec_yandexEntity : dec yandexEntity := dec_struct (λ p kvs,
  o ← field (lit "origUrl") dec_string (OrigURL p) kvs;
  i ← field (lit "image") dec_string (Image p) kvs;
  w ← field (lit "origWidth") dec_int (OrigWidth p) kvs;
  h ← field (lit "origHeight") dec_int (OrigHeight p) kvs;
  sn ← field (lit "snippet") (dec_struct (λ p kvs,
         t ← field (lit "title") dec_string p.1 kvs;
         d ← field (lit "domain") dec_string p.2 kvs; Some (t, d))) (sn_Title p, sn_Domain p) kvs;
  u ← field (lit "url") dec_string (e_URL p) kvs;
  Some {| OrigURL := o; Image := i; OrigWidth := w; OrigHeight := h; sn_Title := sn.1;
          sn_Domain := sn.2; e_URL := u |}).
(** A struct with one field. *)
Definition dec_in {A} (name : gostring) (d : dec A) : dec A := dec_struct (λ p kvs, field name d p kvs).
Definition dec_yandexState : dec (gmap gostring yandexEntity) :=
  dec_in (lit "initialState") (dec_in (lit "serpList") (dec_in (lit "items")
    (dec_in (lit "entities") (dec_map zero_yandexEntity dec_yandexEntity)))).
(** A thumbnail without a scheme gets one. *)
Definition with_scheme (thumb : gostring) : gostring :=
  if bool_decide (thumb ≠ []) && HasPrefix thumb (lit "//") then lit "https:" ++ thumb else thumb.
Definition dec_yandexDup : dec ImageResult := dec_struct (λ p kvs,
  u ← field (lit "url") dec_string (i_URL p) kvs;
  w ← field (lit "w") dec_int (i_Width p) kvs;
  h ← field (lit "h") dec_int (i_Height p) kvs;
  t ← field (lit "title") dec_string (i_Title p) kvs;
  _ ← field (lit "sourceName") dec_string [] kvs;
  s ← field (lit "sourceUrl") dec_string (i_Source p) kvs;
  th ← field (lit "thumb") (dec_in (lit "url") dec_string) (i_Thumbnail p) kvs;
  Some (image (lit "yandex") u th s t w h)).
Definition dec_yandexViewerState : dec (list ImageResult) :=
  dec_in (lit "viewerData") (dec_in (lit "dups") (dec_list zero_ImageResult dec_yandexDup)).
Definition dup_image (d : ImageResult) : option ImageResult :=
  d ← with_url d;
  Some (image (lit "yandex") (i_URL d) (with_scheme (i_Thumbnail d)) (i_Source d) (i_Title d)
              (i_Width d) (i_Height d)).
Definition extractImgURL (rawURL : gostring) : gostring :=
  if decide (rawURL = []) then [] else
  match Parse rawURL with
  | None => []
  | Some u => Get (GoUrl.Query u) (lit "img_url")
  end.
Definition entity_image (e : yandexEntity) : option ImageResult :=
  let source := extractImgURL (e_URL e) in
  let source := if decide (source = []) then lit "https://" ++ sn_Domain e else source in
  with_url (image (lit "yandex") (OrigURL e) (with_scheme (Image e)) source (sn_Title e)
                  (OrigWidth e) (OrigHeight e)).

Section DataState.
Variables (UnescapeString : gostring → gostring)
          (range : gmap gostring yandexEntity → list yandexEntity).
(** One block: its results, or nothing when the loop goes on to the next one. *)
Definition data_state (raw : gostring) : option (list ImageResult) :=
  let decoded := UnescapeString raw in
  entities ← Unmarshal ∅ dec_yandexState decoded;
  if decide (entities = ∅) then
    match omap dup_image (default [] (Unmarshal [] dec_yandexViewerState decoded)) with
    | [] => None
    | results => Some results
    end
  else Some (omap entity_image (range entities)).
Definition parseYandexDataState (pageHTML : gostring) : list ImageResult :=
  default [] (head (omap (λ m, data_state m.2) (FindAllSubmatch dataStateRe pageHTML))).
End DataState.

(** ** The plain client: a [BrowserDoer] over net/http; a reply comes with its headers, whose keys
    are canonical, and the headers of a request are set in some order *)
Section HTTPDoer.
Context {W : Type}.
Variable http_Do_headers : HttpRequest → M W (result (HttpReply * list (gostring * gostring))).
Definition HTTPDoer_Do (method url : gostring) (headers : Headers) (body : option gostring)
    : M W (result Response) :=
  match NewRequest method url (map_to_list headers) (default [] body) with
  | None => mret (Err (ErrMsg []))
  | Some req =>
      r ← http_Do_headers req;
      mret match r with
           | Err e => Err e
           | Val (resp, hdrs) =>
               match hr_body resp with
               | Err e => Err e
               | Val data => Val {| rs_data := data; rs_headers := list_to_map hdrs;
                                    rs_status := hr_status resp |}
               end
           end
  end.
Definition NewHTTPDoer : BrowserDoer W := {| identity := None; Do := HTTPDoer_Do |}.
End HTTPDoer.

(** ** The searches *)
Section Engines.
Context {W : Type} `{Clock W} `{Host W}.
Notation Renderer := (option (ctx → gostring → M W (result gostring))).
Implicit Types (cx : ctx) (doer : BrowserDoer W) (query : gostring) (max : Z).

Definition searchHeadersFor doer : Headers :=
  delete (lit "accept-encoding")
    (<[lit "user-agent" := default default_ua (identity doer)]> ChromeHeaders).
(** The end of every search: at most [max] results; slicing to a negative number panics. *)
Definition cut_max max (results : list ImageResult) : outcome (result (list ImageResult)) :=
  let* rs := (if max <? zlen results then slice results 0 max else Ok results) in Ok (Val rs).
Definition not_done {A} cx (k : M W (outcome (result A))) : M W (outcome (result A)) :=
  err ← gets (ctx_err cx);
  match err with Some e => mret (Ok (Err e)) | None => k end.
(** The reply of a request that must succeed with status 200. *)
Definition page (request status : gostring) (r : result Response) : result gostring :=
  match r with
  | Err e => Err (Wrapped request e)
  | Val rs => if negb (rs_status rs =? 200) then bad_status status (rs_status rs) else Val (rs_data rs)
  end.

Definition bing_url query max : gostring :=
  let count := if bingMaxCount <? max then bingMaxCount else max in
  bingAsyncURL ++ lit "?q=" ++ QueryEscape query ++ lit "&first=0&count=" ++ Itoa count ++
  lit "&mmasync=1".
Definition BingImages_Search cx doer query max : M W (outcome (result (list ImageResult))) :=
  not_done cx (
  r ← Do doer GET (bing_url query max)
        (<[lit "accept-language" := lit "en-US,en;q=0.9"]> (searchHeadersFor doer)) None;
  mret match page (lit "bing request") (lit "bing: status ") r with
       | Err e => Ok (Err e)
       | Val data => cut_max max (parseBingHTML data)
       end).
Definition BraveImages_Search cx doer query max : M W (outcome (result (list ImageResult))) :=
  not_done cx (
  r ← Do doer GET (braveImagesURL ++ lit "?q=" ++ QueryEscape query ++ lit "&source=web")
        (<[lit "cookie" := braveCookie]> (searchHeadersFor doer)) None;
  mret match page (lit "brave images request") (lit "brave images: status ") r with
       | Err e => Ok (Err e)
       | Val data => cut_max max (parseBraveImageHTML data)
       end).
(** The two requests of DuckDuckGo: the page with the token, then the images. *)
Definition ddg_headers doer : Headers :=
  <[lit "cookie" := ddgCookie]> (<[lit "referer" := ddgImagesHome]> (searchHeadersFor doer)).
Definition ddg_img_headers doer : Headers :=
  <[lit "x-requested-with" := lit "XMLHttpRequest"]> (<[lit "sec-fetch-site" := lit "same-origin"]>
  (<[lit "sec-fetch-mode" := lit "cors"]> (ddg_headers doer))).
Definition DdgImages_Search cx doer query max : M W (outcome (result (list ImageResult))) :=
  not_done cx (
  r ← Do doer GET (ddgImagesHome ++ lit "?q=" ++ QueryEscape query ++ lit "&iax=images&ia=images")
        (ddg_headers doer) None;
  match page (lit "ddg vqd request") (lit "ddg vqd: status ") r with
  | Err e => mret (Ok (Err e))
  | Val data =>
      let vqd := extractVQD data in
      if decide (vqd = []) then mret (Ok (Err (ErrMsg (lit "ddg: vqd token not found")))) else
      r ← Do doer GET (ddgImagesAPI ++ lit "?l=wt-wt&o=json&q=" ++ QueryEscape query ++ lit "&vqd=" ++
                       QueryEscape vqd ++ lit "&f=,,,,,&p=1") (ddg_img_headers doer) None;
      mret match page (lit "ddg images request") (lit "ddg images: status ") r with
           | Err e => Ok (Err e)
           | Val imgData => cut_max max (parseDDGImageJSON imgData)
           end
  end).
(** Rendering a page in a browser and reading it. *)
Definition rendered (wrap : gostring) (render : ctx → gostring → M W (result gostring))
    (parse : gostring → list ImageResult) cx (url : gostring) max
    : M W (outcome (result (list ImageResult))) :=
  r ← render cx url;
  mret match r with
       | Err e => Ok (Err (Wrapped wrap e))
       | Val renderedHTML => cut_max max (parse renderedHTML)
       end.
Definition GoogleImages_Search (renderer : Renderer) cx doer query max
    : M W (outcome (result (list ImageResult))) :=
  not_done cx (
  r ← Do doer GET (googleImagesURL ++ lit "?q=" ++ QueryEscape query ++
                   lit "&tbm=isch&asearch=isch&async=_fmt:json,p:1,ijn:0") androidHeaders None;
  let found := match r with
               | Val rs => if rs_status rs =? 200 then parseGoogleImageJSON (rs_data rs) else []
               | Err _ => []
               end in
  match found, renderer with
  | _ :: _, _ => mret (cut_max max found)
  | [], None =>
      mret (Ok match r with
               | Err e => Err (Wrapped (lit "google images request") e)
               | Val rs => Err (ErrMsg (lit "google images: status " ++ Itoa (rs_status rs) ++
                                        lit ", no renderer"))
               end)
  | [], Some render =>
      rendered (lit "google render") render parseGoogleImageJSON cx
        (lit "https://www.google.com/search?q=" ++ QueryEscape query ++ lit "&udm=2") max
  end).

Variables (UnescapeString : gostring → gostring)
          (range : gmap gostring yandexEntity → list yandexEntity).
Definition x_yandex_captcha : gostring := lit "x-yandex-captcha".
Definition YandexImages_Search (renderer : Renderer) cx doer query max
    : M W (outcome (result (list ImageResult))) :=
  not_done cx (
  let parse := parseYandexDataState UnescapeString range in
  let u := yandexImagesURL ++ lit "?text=" ++ QueryEscape query in
  r ← Do doer GET u
        (<[lit "accept-language" := lit "ru-RU,ru;q=0.9,en-US;q=0.8,en;q=0.7"]>
           (searchHeadersFor doer)) None;
  let ok := match r with Val rs => if rs_status rs =? 200 then Some rs else None | Err _ => None end in
  let captcha := match ok with
                 | Some rs => bool_decide (default [] (rs_headers rs !! x_yandex_captcha) ≠ [])
                 | None => false
                 end in
  let found := match ok with
               | Some rs => if captcha then [] else parse (rs_data rs)
               | None => []
               end in
  match found, renderer with
  | _ :: _, _ => mret (cut_max max found)
  | [], None =>
      mret (Ok (Err (ErrMsg (if captcha then lit "yandex: captcha detected, renderer not configured"
                             else lit "yandex: no results from HTTP, renderer not configured"))))
  | [], Some render => rendered (lit "yandex render") render parse cx u max
  end).
End Engines.
