(* ===== verification/ImageEnginesSpec.v ===== *)
(** The contract of the image engines, and the readers on samples of the pages they read. *)
From S2P Require Import Prelude Unicode Utf8 GoStrings GoUrl Floats Json Effects Results Retry Serp Engines Http ImageEngines.
Local Open Scope Z_scope.

(** ** Samples *)
Definition q : gostring := [34].
Example bing_ex : parseBingHTML (lit "<a m=" ++ q ++ lit "{&quot;murl&quot;:&quot;u&quot;,&quot;mw&quot;:&quot;7&quot;}" ++ q ++ lit ">") =
  [image (lit "bing") (lit "u") [] [] [] 7 0].
Proof. vm_compute. reflexivity. Qed.
Example brave_ex : parseBraveImageHTML
  (lit "{url:" ++ q ++ lit "src" ++ q ++ lit ",title:" ++ q ++ lit "T" ++ q ++ lit ",properties:{url:" ++
   q ++ lit "img" ++ q ++ lit ",resized:" ++ q ++ q ++ lit ",height:3,width:99999999999999999999}thumbnail:{src:" ++
   q ++ lit "th" ++ q) =
  [image (lit "brave") (lit "img") (lit "th") (lit "src") (lit "T") (2 ^ 63 - 1) 3].
Proof. vm_compute. reflexivity. Qed.

(** ** Where captures and decoded values come from *)
Lemma find_matches_try {X} (try : gostring → option (X * gostring)) fuel pos s a b x :
  (a, b, x) ∈ find_matches try fuel pos s → ∃ s' rest, try s' = Some (x, rest).
Proof.
  revert pos s. induction fuel as [|fuel IH]; intros pos s Hin; simpl in Hin; [set_solver|].
  destruct (try s) as [[y rest]|] eqn:Ht.
  - apply elem_of_cons in Hin as [?|Hin]; [|by eapply IH]. simplify_eq. eauto.
  - destruct s; [set_solver|by eapply IH].
Qed.
Lemma field_inv {A} (P : A → Prop) name (d : dec A) prev kvs r :
  P prev → (∀ a j b, P a → d a j = Some b → P b) → field name d prev kvs = Some r → P r.
Proof.
  intros Hp Hd. unfold field. revert prev Hp.
  induction kvs as [|kv kvs IH]; intros prev Hp; simpl; [naive_solver|].
  case_decide; [|by apply IH]. destruct (d prev kv.2) as [b|] eqn:Hb.
  - apply IH. by eapply Hd.
  - clear. induction kvs; simpl; done.
Qed.
Lemma dec_list_inv {A} (P : A → Prop) zero (d : dec A) prev j r :
  (∀ j x, d zero j = Some x → P x) → dec_list zero d prev j = Some r → Forall P r.
Proof.
  intros Hd. destruct j; simpl; try done; [by intros [= <-]|].
  intros Hm%mapM_Some. induction Hm; constructor; eauto.
Qed.
Lemma dec_struct_inv {A} (P : A → Prop) (f : A → list (gostring * json) → option A) prev j r :
  P prev → (∀ kvs x, f prev kvs = Some x → P x) → dec_struct f prev j = Some r → P r.
Proof. intros Hp Hf. destruct j; simpl; try done; [by intros [= <-]|apply Hf]. Qed.

(** ** What an engine promises *)
(** An image has a URL and names its engine. *)
Definition image_of (name : gostring) (r : ImageResult) : Prop := i_URL r ≠ [] ∧ i_Engine r = name.
(** What a decoder may leave in a list: without a URL it is dropped. *)
Definition row_of (name : gostring) (r : ImageResult) : Prop := i_URL r = [] ∨ i_Engine r = name.
Lemma with_url_of name r x : row_of name r → with_url r = Some x → image_of name x.
Proof. unfold with_url. case_decide; [done|]. intros [|] ?; simplify_eq; done. Qed.
Lemma rows_images name rs : Forall (row_of name) rs → Forall (image_of name) (omap with_url rs).
Proof.
  intros Hrs. apply Forall_forall. intros x (r & Hin & Hx)%list_elem_of_omap.
  rewrite Forall_forall in Hrs. eapply with_url_of; [by apply Hrs|done].
Qed.
Lemma bing_images html : Forall (image_of (lit "bing")) (parseBingHTML html).
Proof.
  apply Forall_forall. intros x (m & _ & Hx)%list_elem_of_omap. unfold bing_image in Hx.
  destruct (Unmarshal _ _ _) as [[r|]|] eqn:Hu; try done. simpl in Hx.
  eapply (with_url_of _ r); [|done]. right. clear Hx. unfold Unmarshal in Hu.
  destruct (parse_json _) as [j|]; [|done]. simpl in Hu. unfold dec_bingMAttr in Hu.
  destruct j; simpl in Hu; try done. unfold mbind, option_bind in Hu.
  repeat case_match; simplify_eq. done.
Qed.
Lemma brave_images html : Forall (image_of (lit "brave")) (parseBraveImageHTML html).
Proof.
  apply Forall_forall. intros x (m & Hx & Hin)%list_elem_of_fmap.
  destruct m as [[a b] [[u h] w]]. subst x. split; [|done]. simpl. apply find_matches_try in Hin as (s & rest & Ht).
  unfold bravePropsRe, quoted_nonempty, mbind, option_bind in Ht.
  repeat case_match; simplify_eq. done.
Qed.
Lemma decoded_rows name (d : dec (list ImageResult)) s :
  (∀ j rs, d [] j = Some rs → Forall (row_of name) rs) →
  Forall (image_of name) (omap with_url (default [] (Unmarshal [] d s))).
Proof.
  intros Hd. apply rows_images. unfold Unmarshal. destruct (parse_json s) as [j|]; [|constructor].
  simpl. destruct (d [] j) eqn:E; [by eapply Hd|constructor].
Qed.
Lemma zero_row name : row_of name zero_ImageResult.
Proof. by left. Qed.
Lemma ddg_images data : Forall (image_of (lit "ddg")) (parseDDGImageJSON data).
Proof.
  apply decoded_rows. intros j rs. apply (dec_struct_inv (Forall _)); [constructor|].
  intros kvs rs'. apply (field_inv (Forall _)); [constructor|]. intros a j' b _.
  apply dec_list_inv. intros j2 x. apply dec_struct_inv; [apply zero_row|].
  intros k r. unfold mbind, option_bind. repeat case_match; intros; simplify_eq. by right.
Qed.
Lemma google_images data : Forall (image_of (lit "google")) (parseGoogleImageJSON data).
Proof.
  unfold parseGoogleImageJSON. destruct (find_sub _ _) as [n|]; [|constructor].
  apply decoded_rows. intros j rs. apply (dec_struct_inv (Forall _)); [constructor|].
  intros kvs rs'. apply (field_inv (Forall _)); [constructor|]. intros a j1 b Ha.
  apply (dec_struct_inv (Forall _)); [done|].
  intros k rs2. apply (field_inv (Forall _)); [done|]. intros a' j' b' _.
  apply dec_list_inv. intros j2 x. apply dec_struct_inv; [apply zero_row|].
  intros k2 r. unfold mbind, option_bind. repeat case_match; intros; simplify_eq. by right.
Qed.
Lemma yandex_images unescape range html :
  Forall (image_of (lit "yandex")) (parseYandexDataState unescape range html).
Proof.
  unfold parseYandexDataState. destruct (head _) as [rs|] eqn:Hh; [|constructor]. simpl.
  apply head_Some_elem_of in Hh. apply list_elem_of_omap in Hh as (m & _ & Hm).
  assert (∀ d x, dup_image d = Some x → image_of (lit "yandex") x) as Hdup.
  { intros d x. unfold dup_image, with_url. case_decide; [done|]. by intros [= <-]. }
  assert (∀ e x, entity_image e = Some x → image_of (lit "yandex") x) as Hent.
  { intros e x Hx. eapply with_url_of; [|done]. by right. }
  unfold data_state in Hm. destruct (Unmarshal ∅ _ _) as [es|]; [|done]. simpl in Hm.
  case_decide.
  - case_match eqn:E; [done|]. simplify_eq. rewrite <- E. apply Forall_forall.
    intros x (d & _ & Hx)%list_elem_of_omap. eauto.
  - simplify_eq. apply Forall_forall. intros x (e & _ & Hx)%list_elem_of_omap. eauto.
Qed.

Section Contract.
Context {W : Type} `{Clock W} `{Host W}.
Notation search := (ctx → BrowserDoer W → gostring → Z → M W (outcome (result (list ImageResult)))).
(** Nothing is asked once the context is done, the error then being the context's; a search with a
    natural limit never panics; what it finds respects the limit, has a URL and names the engine. *)
Record image_contract (name : gostring) (s : search) : Prop := {
  ic_done cx d q m w e : ctx_err cx w = Some e → s cx d q m w = (Ok (Err e), w);
  ic_total cx d q m w : 0 <= m → ∃ r, (s cx d q m w).1 = Ok r;
  ic_images cx d q m w rs : (s cx d q m w).1 = Ok (Val rs) →
    zlen rs <= m ∧ Forall (image_of name) rs
}.
(** Every search ends in an error or in the cut of a list of images. *)
Definition ends_in (name : gostring) (m : Z) (o : outcome (result (list ImageResult))) : Prop :=
  (∃ e, o = Ok (Err e)) ∨ ∃ rs, Forall (image_of name) rs ∧ o = cut_max m rs.
Lemma cut_max_total m rs : 0 <= m → ∃ r, cut_max m rs = Ok r.
Proof.
  intros Hm. unfold cut_max. destruct (Z.ltb_spec m (zlen rs)); [|by eexists].
  rewrite slice_Ok by lia. by eexists.
Qed.
Lemma cut_max_Val name m rs rs' : Forall (image_of name) rs → cut_max m rs = Ok (Val rs') →
  zlen rs' <= m ∧ Forall (image_of name) rs'.
Proof.
  intros Hrs. unfold cut_max. destruct (Z.ltb_spec m (zlen rs)).
  - destruct (slice rs 0 m) as [k| |] eqn:Hs; simpl; intros; simplify_eq.
    apply slice_inv in Hs as [? ->]. rewrite drop_0, Z.sub_0_r. split; [|by apply Forall_take].
    unfold zlen. rewrite length_take. lia.
  - simpl. intros. by simplify_eq.
Qed.
Lemma contract_intro name (s k : search) :
  (∀ cx d q m w, s cx d q m w = not_done cx (k cx d q m) w) →
  (∀ cx d q m w, ends_in name m (k cx d q m w).1) → image_contract name s.
Proof.
  intros Hs Hk.
  assert (∀ cx d q m w, ends_in name m (s cx d q m w).1) as He.
  { intros. rewrite Hs. unfold not_done, mbind, M_bind, gets. simpl.
    destruct (ctx_err cx w); [left; by eexists|apply Hk]. }
  split.
  - intros cx d q m w e Hc. rewrite Hs. unfold not_done, mbind, M_bind, gets. simpl. by rewrite Hc.
  - intros cx d q m w Hm. destruct (He cx d q m w) as [[e ->]|(rs & _ & ->)]; [by eexists|].
    by apply cut_max_total.
  - intros cx d q m w rs Hv. destruct (He cx d q m w) as [[e E]|(rs0 & Hf & E)]; rewrite E in Hv;
      [done|]. by eapply cut_max_Val.
Qed.
Lemma ends_err name m e : ends_in name m (Ok (Err e)).
Proof. left. by eexists. Qed.
Lemma ends_cut name m rs : Forall (image_of name) rs → ends_in name m (cut_max m rs).
Proof. right. by eexists. Qed.
(** Whatever an effect answers. *)
Lemma ends_bind {A} name m (c : M W A) k w :
  (∀ a w', ends_in name m (k a w').1) → ends_in name m ((x ← c; k x) w).1.
Proof. intros Hk. unfold mbind, M_bind. destruct (c w) as [a w']. apply Hk. Qed.
Lemma rendered_ends name wrap (render : ctx → gostring → M W (result gostring)) parse cx url m w :
  (∀ html, Forall (image_of name) (parse html)) →
  ends_in name m (rendered wrap render parse cx url m w).1.
Proof.
  intros Hp. apply ends_bind. intros [html|e] w'; [apply ends_cut, Hp|apply ends_err].
Qed.
(** The end of the engines with a renderer: what was found, or an error, or the rendered page. *)
Lemma found_ends name wrap (renderer : option (ctx → gostring → M W (result gostring))) parse found
    (o : result (list ImageResult)) cx url m w :
  (∀ html, Forall (image_of name) (parse html)) → Forall (image_of name) found → (∃ e, o = Err e) →
  ends_in name m (match found, renderer with
                  | _ :: _, _ => mret (cut_max m found)
                  | [], None => mret (Ok o)
                  | [], Some render => rendered wrap render parse cx url m
                  end w).1.
Proof.
  intros Hp Hf [e ->]. destruct found; [|by apply ends_cut].
  destruct renderer; [by apply rendered_ends|apply ends_err].
Qed.
Local Ltac ask := apply ends_bind; intros ? ?.
(** C23: the five image engines keep the contract of [ImageEngine], with any client, renderer and
    reader of entities: a done context stops them before any request, a natural limit excludes a
    panic, and every image they return, at most the limit, has a URL and names its engine. *)
Theorem image_engines_contract renderer unescape range :
  image_contract (lit "bing") BingImages_Search ∧
  image_contract (lit "brave") BraveImages_Search ∧
  image_contract (lit "ddg") DdgImages_Search ∧
  image_contract (lit "google") (GoogleImages_Search renderer) ∧
  image_contract (lit "yandex") (YandexImages_Search unescape range renderer).
Proof.
  split_and!; (eapply contract_intro; [intros; reflexivity|]); intros cx d q m w; ask.
  - destruct (page _ _ _); [apply ends_cut, bing_images|apply ends_err].
  - destruct (page _ _ _); [apply ends_cut, brave_images|apply ends_err].
  - destruct (page _ _ _) as [data|e]; [|apply ends_err].
    destruct (decide (extractVQD data = [])) as [E|E]; cbv zeta; [rewrite decide_True by done; apply ends_err|].
    rewrite decide_False by done. ask.
    destruct (page _ _ _); [apply ends_cut, ddg_images|apply ends_err].
  - apply found_ends; [apply google_images| |by destruct a; eexists].
    destruct a as [rs|]; [|constructor]. destruct (_ =? _); [apply google_images|constructor].
  - apply found_ends; [apply yandex_images| |by eexists].
    destruct a as [rs|]; [|constructor]. destruct (_ =? _); [|constructor].
    destruct (bool_decide _); [constructor|apply yandex_images].
Qed.
End Contract.

(** The keys of net/http's headers are canonical, so the plain client never shows the header by
    which a captcha of Yandex is recognised: the page is read as if it were none. *)
Definition canonical (k : gostring) : Prop := match k with [] => True | c :: _ => between 97 122 c = false end.
Lemma captcha_unseen {W} (http : HttpRequest → M W (result (HttpReply * list (gostring * gostring))))
    method url h body w rs w' :
  (∀ req w resp hdrs w', http req w = (Val (resp, hdrs), w') → Forall (λ kv, canonical kv.1) hdrs) →
  HTTPDoer_Do http method url h body w = (Val rs, w') → rs_headers rs !! x_yandex_captcha = None.
Proof.
  intros Hc. unfold HTTPDoer_Do, mbind, M_bind. destruct (NewRequest _ _ _ _) as [req|]; [|done].
  destruct (http req w) as [[[resp hdrs]|e] w1] eqn:E; [|done]. specialize (Hc _ _ _ _ _ E).
  unfold mret, M_ret. destruct (hr_body resp); [|done]. intros [= <- _]. cbn [rs_headers].
  apply not_elem_of_list_to_map. intros (kv & Hk & Hin)%list_elem_of_fmap.
  rewrite Forall_forall in Hc. apply Hc in Hin. rewrite <- Hk in Hin. by vm_compute in Hin.
Qed.
