(* ===== verification/ImageSearch.v ===== *)
(** Package [imagesearch], [search.go]: [MultiSearch.Search], one goroutine per engine, each asking
    its engine up to three times and appending what it finds under a mutex; then the fusion. The
    goroutines are a transition system: a label names who moves, and what a call of an engine
    returns, or that it panics, comes with the label, so any interleaving of the requests and of
    what they do to the network is a schedule. *)
From S2P Require Import Prelude Unicode Utf8 GoStrings Floats Effects Results Fusion.
Local Open Scope nat_scope.

(** What [ImageEngine.Search] returns: the results and the error, side by side. *)
Definition reply : Type := list ImageResult * option error.

(** A goroutine: before the first call; after an error, before the fallback is asked; after no
    results, before the fallback is asked; with results to append; before [wg.Done]; done. *)
Inductive phase := PPrimary | PRetry | PEmpty | PFound (results : list ImageResult) | PExit | PDone.
#[export] Instance ImageResult_eq_dec : EqDecision ImageResult.
Proof. solve_decision. Defined.
#[export] Instance phase_eq_dec : EqDecision phase.
Proof. solve_decision. Defined.

Section MultiSearch.
(** The number of engines, whether [FallbackDoer] is set, and the limit. *)
Variables (engines : nat) (fallback : bool) (max : Z).

(** The goroutine from the test of the error on: the results, or one more call for them. *)
Definition check_empty (results : list ImageResult) : phase :=
  match results with
  | [] => if fallback then PEmpty else PExit
  | _ => PFound results
  end.
(** The return of a call, where the goroutine stands in one. *)
Definition on_reply (p : phase) (r : reply) : option phase :=
  let '(results, err) := r in
  match p with
  | PPrimary => Some match err with
                     | Some _ => if fallback then PRetry else PExit
                     | None => check_empty results
                     end
  | PRetry => Some match err with Some _ => PExit | None => check_empty results end
  | PEmpty => Some match results with [] => PExit | _ => PFound results end
  | _ => None
  end.
(** After [wg.Wait]: the fusion, cut at [max]; slicing to a negative number panics. *)
Definition finish (allSets : list (list ImageResult)) : outcome (list ImageResult) :=
  let* fused := fuseWRR allSets in
  if (max <? zlen fused)%Z then slice fused 0 max else Ok fused.

Record state := {
  gs : list phase;                          (* the goroutines started so far *)
  wg : nat;
  allSets : list (list ImageResult);
  ret : option (outcome (list ImageResult)) (* the return of [Search], or the end of the program *)
}.
Definition init : state := {| gs := []; wg := 0; allSets := []; ret := None |}.
Inductive action :=
| Spawn
| Reply (i : nat) (r : outcome reply)       (* a call of engine [i] returns, or panics *)
| Append (i : nat)
| WgDone (i : nat)
| Wait.
Definition step (a : action) (s : state) : option state :=
  match ret s, a with
  | Some _, _ => None
  | None, Spawn =>
      if decide (length (gs s) < engines)
      then Some {| gs := gs s ++ [PPrimary]; wg := S (wg s); allSets := allSets s; ret := None |}
      else None
  | None, Reply i o =>
      p ← gs s !! i;
      match o with
      | Ok r => p' ← on_reply p r;
                Some {| gs := <[i := p']> (gs s); wg := wg s; allSets := allSets s; ret := None |}
      | _ => _ ← on_reply p ([], None);
             Some {| gs := gs s; wg := wg s; allSets := allSets s; ret := Some Panic |}
      end
  | None, Append i =>
      match gs s !! i with
      | Some (PFound results) =>
          Some {| gs := <[i := PExit]> (gs s); wg := wg s; allSets := allSets s ++ [results];
                  ret := None |}
      | _ => None
      end
  | None, WgDone i =>
      match gs s !! i, wg s with
      | Some PExit, S n =>
          Some {| gs := <[i := PDone]> (gs s); wg := n; allSets := allSets s; ret := None |}
      | _, _ => None
      end
  | None, Wait =>
      if decide (length (gs s) = engines ∧ wg s = 0)
      then Some {| gs := gs s; wg := wg s; allSets := allSets s;
                   ret := Some (if decide (engines = 0) then Ok [] else finish (allSets s)) |}
      else None
  end.
Fixpoint exec (l : list action) (s : state) : option state :=
  match l with [] => Some s | a :: l => s ← step a s; exec l s end.

(** ** What an engine is heard to say *)
(** The replies of one engine, in order. *)
Definition replies (l : list action) (i : nat) : list reply :=
  omap (λ a, match a with
             | Reply j (Ok r) => if decide (j = i) then Some r else None
             | _ => None end) l.
(** What a finished conversation contributes: without a fallback the only reply, if it is no
    error; with one, the first reply that found something, where an error is followed by one call
    of the fallback, and no results by a call of the fallback whose error does not count. *)
Definition heard (cs : list reply) : option (list ImageResult) :=
  match fallback, cs with
  | false, [(_, Some _)] => Some []
  | false, [(rs, None)] => Some rs
  | true, [((_ :: _) as rs, None)] => Some rs
  | true, [([], None); (rs, _)] => Some rs
  | true, [(_, Some _); (_, Some _)] => Some []
  | true, [(_, Some _); ((_ :: _) as rs, None)] => Some rs
  | true, [(_, Some _); ([], None); (rs, _)] => Some rs
  | _, _ => None
  end.
(** Where a goroutine stands after the replies [cs], with [f] appended. *)
Definition at_phase (p : phase) (cs : list reply) (f : list ImageResult) : Prop :=
  match p with
  | PPrimary => cs = [] ∧ f = []
  | PRetry => fallback = true ∧ f = [] ∧ ∃ rs e, cs = [(rs, Some e)]
  | PEmpty => fallback = true ∧ f = [] ∧
      (cs = [([], None)] ∨ ∃ rs e, cs = [(rs, Some e); ([], None)])
  | PFound rs => f = [] ∧ rs ≠ [] ∧ heard cs = Some rs
  | PExit | PDone => heard cs = Some f
  end.
Lemma check_empty_at rs cs :
  (fallback = true → rs = [] → cs = [([], None)] ∨ ∃ rs e, cs = [(rs, Some e); ([], None)]) →
  (fallback = false ∨ rs ≠ [] → heard cs = Some rs) →
  at_phase (check_empty rs) cs [].
Proof.
  intros He Hh. unfold check_empty. destruct rs as [|r rs]; [destruct fallback eqn:E|]; simpl.
  - auto.
  - apply Hh. by left.
  - split_and!; [done..|]. apply Hh. by right.
Qed.
Lemma on_reply_at p r p' cs f : at_phase p cs f → on_reply p r = Some p' →
  at_phase p' (cs ++ [r]) f ∧ f = [].
Proof.
  destruct r as [rs err]. destruct p; simpl; intros Hp Hr; simplify_eq.
  - destruct Hp as [-> ->]. split; [|done]. destruct err as [e|]; simpl.
    + destruct fallback eqn:E; simpl; [eauto 6|]. unfold heard. by rewrite E.
    + apply check_empty_at; [intros _ ->; by left|]. unfold heard.
      destruct fallback, rs; intros [?|?]; done.
  - destruct Hp as (Hf & -> & rs0 & e0 & ->). split; [|done]. destruct err as [e|]; simpl.
    + unfold heard. rewrite Hf. by destruct rs0, rs.
    + apply check_empty_at; [intros _ ->; right; eauto|]. unfold heard. rewrite Hf.
      destruct rs, rs0; intros [?|?]; simpl; done || congruence.
  - destruct Hp as (Hf & -> & Hcs). split; [|done].
    assert (heard (cs ++ [(rs, err)]) = Some rs) as Hh.
    { unfold heard. rewrite Hf. by destruct Hcs as [->|([] & e0 & ->)]; destruct rs, err. }
    destruct rs; [done|]. by split_and!.
Qed.

(** ** The invariant *)
Definition count_done (l : list phase) : nat := length (filter (λ p, p = PDone) l).
Record inv (l : list action) (s : state) (found : list (list ImageResult)) : Prop := {
  inv_len : length found = length (gs s) ∧ length (gs s) <= engines;
  inv_wg : wg s + count_done (gs s) = length (gs s);
  inv_sets : allSets s ≡ₚ filter (λ rs, rs ≠ []) found;
  inv_at : ∀ i p, gs s !! i = Some p → ∃ f, found !! i = Some f ∧ at_phase p (replies l i) f;
  inv_none : ∀ i, gs s !! i = None → replies l i = []
}.
Lemma replies_snoc l a i : replies (l ++ [a]) i = replies l i ++ replies [a] i.
Proof. apply omap_app. Qed.
Lemma count_done_insert l i p p' : l !! i = Some p → p ≠ PDone →
  count_done (<[i := p']> l) = count_done l + (if decide (p' = PDone) then 1 else 0).
Proof.
  intros Hi Hp. unfold count_done. revert i Hi.
  induction l as [|q l IH]; intros [|i] Hi; simplify_eq/=.
  - rewrite !filter_cons. repeat case_decide; simpl; try congruence; lia.
  - rewrite !filter_cons. specialize (IH i Hi). repeat case_decide; simpl in *; lia.
Qed.
Lemma filter_insert_found (found : list (list ImageResult)) i rs : found !! i = Some [] → rs ≠ [] →
  filter (λ rs, rs ≠ []) (<[i := rs]> found) ≡ₚ filter (λ rs, rs ≠ []) found ++ [rs].
Proof.
  intros Hi Hrs. rewrite <- (Permutation_cons_append _ rs). revert i Hi.
  induction found as [|f found IH]; intros [|i] Hi; simplify_eq/=.
  - rewrite !filter_cons. by rewrite decide_True, decide_False by naive_solver.
  - rewrite !filter_cons. case_decide; [|by apply IH]. rewrite IH by done. apply Permutation_swap.
Qed.
Lemma at_phase_done l : count_done l = length l → Forall (λ p, p = PDone) l.
Proof.
  unfold count_done. induction l as [|p l IH]; [constructor|]. rewrite filter_cons.
  pose proof (length_filter (λ p, p = PDone) l). case_decide; simpl; intros; [|lia].
  constructor; [done|]. apply IH. lia.
Qed.
(** A step of goroutine [i], from [p] to [p'], with the found results [found']. *)
Lemma search_move_inv l s a found i p p' found' f' n sets :
  inv l s found → gs s !! i = Some p → p ≠ PDone →
  (∀ j, j ≠ i → replies [a] j = []) →
  length found' = length found → found' !! i = Some f' → (∀ j, j ≠ i → found' !! j = found !! j) →
  at_phase p' (replies (l ++ [a]) i) f' →
  n + (if decide (p' = PDone) then 1 else 0) = wg s →
  sets ≡ₚ filter (λ rs, rs ≠ []) found' →
  inv (l ++ [a]) {| gs := <[i := p']> (gs s); wg := n; allSets := sets; ret := None |} found'.
Proof.
  intros [[H1 H2] H3 H4 H5 H6] Hi Hp Ha Hl Hf Ho Hat Hn Hs. split; cbn [gs wg allSets].
  - rewrite length_insert. lia.
  - rewrite length_insert, (count_done_insert _ _ _ _ Hi Hp). lia.
  - done.
  - intros j q Hj. destruct (decide (j = i)) as [->|Hne].
    + rewrite list_lookup_insert_eq in Hj by (by eapply lookup_lt_Some). simplify_eq. eauto.
    + rewrite list_lookup_insert_ne in Hj by done. destruct (H5 j q Hj) as (f & Hf1 & Hf2).
      exists f. rewrite Ho by done. split; [done|]. by rewrite replies_snoc, Ha, app_nil_r.
  - intros j Hj. destruct (decide (j = i)) as [->|Hne].
    + apply lookup_ge_None in Hj. rewrite length_insert in Hj. apply lookup_lt_Some in Hi. lia.
    + rewrite list_lookup_insert_ne in Hj by done. by rewrite replies_snoc, Ha, app_nil_r, H6.
Qed.
Lemma replies_other i r j : j ≠ i → replies [Reply i (Ok r)] j = [].
Proof. intros. unfold replies. simpl. by rewrite decide_False by done. Qed.
(** A step keeps the invariant, unless it ends the search. *)
Lemma search_step_inv l s a s' found : inv l s found → step a s = Some s' → ret s' = None →
  ∃ found', inv (l ++ [a]) s' found'.
Proof.
  intros Hi Hst Hret. pose proof Hi as [[H1 H2] H3 H4 H5 H6].
  unfold step in Hst. destruct (ret s) as [?|] eqn:Hr; [done|]. destruct a as [|i o|i|i|].
  - case_decide as Hl; [|done]. simplify_eq. exists (found ++ [[]]). split; cbn [gs wg allSets].
    + rewrite !length_app. simpl. lia.
    + unfold count_done. rewrite filter_app, !length_app. simpl. unfold count_done in H3. lia.
    + by rewrite filter_app, app_nil_r.
    + intros j p Hj. rewrite replies_snoc, app_nil_r.
      apply lookup_app_Some in Hj as [Hj|[Hj1 Hj2]].
      * destruct (H5 j p Hj) as (f & Hf & ?). exists f. split; [by apply lookup_app_l_Some|done].
      * apply list_lookup_singleton_Some in Hj2 as [Hj2 <-]. exists []. split.
        { rewrite lookup_app_r by lia. by replace (j - length found) with 0 by lia. }
        split; [|done]. apply H6, lookup_ge_None_2. lia.
    + intros j Hj. rewrite replies_snoc, app_nil_r. apply H6, lookup_ge_None_2.
      apply lookup_ge_None in Hj. rewrite length_app in Hj. lia.
  - destruct (gs s !! i) as [p|] eqn:Hg; [|done]. cbn [mbind option_bind] in Hst.
    destruct o as [r| |]; [|by destruct (on_reply p ([], None)); simpl in Hst; simplify_eq/=..].
    destruct (on_reply p r) as [p'|] eqn:Hp; [|done]. simpl in Hst. simplify_eq.
    destruct (H5 i p Hg) as (f & Hf & Hat). destruct (on_reply_at _ _ _ _ _ Hat Hp) as [Hat' ->].
    exists found. eapply search_move_inv; try done.
    + intros ->. by destruct r.
    + intros j. apply replies_other.
    + rewrite replies_snoc. unfold replies at 2. simpl. by rewrite decide_True.
    + rewrite decide_False; [lia|]. intros ->. destruct r as [rs [e|]], p; simpl in Hp;
        unfold check_empty in Hp; repeat case_match; done.
  - destruct (gs s !! i) as [[]|] eqn:Hg; try done. simplify_eq.
    destruct (H5 i _ Hg) as (f & Hf & -> & Hne & Hh).
    exists (<[i := results]> found). eapply search_move_inv; try done.
    + by rewrite length_insert.
    + rewrite list_lookup_insert_eq; [done|]. by eapply lookup_lt_Some.
    + intros j Hj. by rewrite list_lookup_insert_ne.
    + simpl. by rewrite replies_snoc, app_nil_r.
    + by rewrite filter_insert_found, H4.
  - destruct (gs s !! i) as [[]|] eqn:Hg; try done. destruct (wg s) as [|n] eqn:Hn; [done|].
    simplify_eq. destruct (H5 i _ Hg) as (f & Hf & Hat).
    exists found. eapply search_move_inv; try done.
    + by rewrite replies_snoc, app_nil_r.
    + rewrite decide_True by done. lia.
  - case_decide; simplify_eq.
Qed.
Lemma search_init_inv : inv [] init [].
Proof. by split; simpl; auto with lia. Qed.
Lemma exec_snoc l a s : exec (l ++ [a]) s = s' ← exec l s; step a s'.
Proof.
  revert s. induction l as [|b l IH]; intros s; simpl; [by destruct (step a s)|].
  destruct (step b s); [apply IH|done].
Qed.
Lemma step_ret a s s' : step a s = Some s' → ret s = None.
Proof. unfold step. by destruct (ret s). Qed.
(** A schedule either leaves the search running, with the invariant, or ends it with its last step. *)
Lemma exec_cases l s : exec l init = Some s →
  (ret s = None ∧ ∃ found, inv l s found) ∨
  (∃ l0 a s0 found o, l = l0 ++ [a] ∧ inv l0 s0 found ∧ step a s0 = Some s ∧ ret s = Some o).
Proof.
  revert s. induction l as [|a l IH] using rev_ind; intros s He.
  { simpl in He. simplify_eq. left. split; [done|]. exists []. apply search_init_inv. }
  rewrite exec_snoc in He. destruct (exec l init) as [s0|] eqn:E0; [|done]. simpl in He.
  destruct (IH s0 eq_refl) as [(Hr & found & Hi)|(l0 & b & s1 & found & o & -> & Hi & Hst & Ho)].
  - destruct (ret s) as [o|] eqn:Hs.
    + right. by exists l, a, s0, found, o.
    + left. split; [done|]. by eapply search_step_inv.
  - apply step_ret in He. congruence.
Qed.

Lemma img_contributions_urls sets :
  (λ p, i_URL p.1) <$> img_contributions sets = i_URL <$> mjoin sets.
Proof.
  unfold img_contributions. induction sets as [|set sets IH]; [done|].
  rewrite bind_cons, fmap_app, IH. simpl. rewrite fmap_app. f_equal.
  rewrite <- list_fmap_compose, <- (imap_const i_URL set). unfold indexed. rewrite fmap_imap.
  by apply imap_ext.
Qed.
(** What the fusion returns: every non-empty URL once. *)
Lemma fuseWRR_urls sets : ∃ fused, fuseWRR sets = Ok fused ∧ NoDup (i_URL <$> fused) ∧
  ∀ u, u ∈ i_URL <$> fused ↔ u ≠ [] ∧ u ∈ i_URL <$> mjoin sets.
Proof.
  eexists. split; [apply fuseWRR_reference|].
  rewrite stable_sort_perm. split; [apply NoDup_firsts|]. intros u.
  by rewrite stable_sort_perm, firsts_keys, img_contributions_urls.
Qed.

(** The sets that are left out hold nothing. *)
Lemma mjoin_found (sets found : list (list ImageResult)) u :
  sets ≡ₚ filter (λ rs, rs ≠ []) found →
  u ∈ i_URL <$> mjoin sets ↔ u ∈ i_URL <$> mjoin found.
Proof.
  intros Hs. rewrite !list_elem_of_fmap.
  assert (∀ r, r ∈ mjoin sets ↔ r ∈ mjoin found) as Hr; [|by setoid_rewrite Hr].
  intros r. rewrite !list_elem_of_join. split; intros (rs & Hin & Hrs); exists rs; (split; [done|]).
  - rewrite Hs in Hrs. by apply list_elem_of_filter in Hrs as [_ ?].
  - rewrite Hs. apply list_elem_of_filter. split; [|done]. intros ->. set_solver.
Qed.
(** C21: what a search of several image engines returns, under every schedule in which no engine
    panics: each engine contributes what its conversation with the two clients is heard to say, the
    fallback being asked exactly after an error or after no results; the contributions reach the
    fusion in some order, and the result is the first [max] of it. Which URLs are fused does not
    depend on the schedule: every non-empty one that was found, once. *)
Theorem MultiSearch_spec l s o :
  exec l init = Some s → ret s = Some o → (0 <= max)%Z →
  (∀ i r, Reply i r ∈ l → ∃ x, r = Ok x) →
  ∃ found sets fused,
    length found = engines ∧ (∀ i f, found !! i = Some f → heard (replies l i) = Some f) ∧
    sets ≡ₚ filter (λ rs, rs ≠ []) found ∧ fuseWRR sets = Ok fused ∧
    o = Ok (take (Z.to_nat max) fused) ∧ NoDup (i_URL <$> fused) ∧
    ∀ u, u ∈ i_URL <$> fused ↔ u ≠ [] ∧ u ∈ i_URL <$> mjoin found.
Proof.
  intros He Ho Hmax Hp.
  destruct (exec_cases l s He) as [(Hr & _)|(l0 & a & s0 & found & o' & -> & Hi & Hst & Ho')];
    [congruence|]. replace o' with o in * by congruence. clear Ho'.
  destruct Hi as [[H1 H2] H3 H4 H5 _]. unfold step in Hst.
  destruct (ret s0) eqn:Hr; [done|]. destruct a as [|i r|i|i|].
  - by case_decide; simplify_eq/=.
  - destruct (Hp i r) as [x ->]; [set_solver|].
    destruct (gs s0 !! i) as [p|]; [|done]. simpl in Hst. by destruct (on_reply p x); simplify_eq/=.
  - by destruct (gs s0 !! i) as [[]|]; simplify_eq/=.
  - destruct (gs s0 !! i) as [[]|]; try done. by destruct (wg s0); simplify_eq/=.
  - case_decide as Hc; [|done]. destruct Hc as [Hc Hw]. simplify_eq. simpl in Ho. simplify_eq.
    destruct (fuseWRR_urls (allSets s0)) as (fused & Hf & Hnd & Hu).
    exists found, (allSets s0), fused. split_and!; try done; try lia.
    + intros i f Hfi. assert (count_done (gs s0) = length (gs s0)) as Hall%at_phase_done by lia.
      destruct (lookup_lt_is_Some_2 (gs s0) i) as [p Hg].
      { rewrite <- H1. by eapply lookup_lt_Some. }
      rewrite Forall_lookup in Hall. rewrite (Hall i p Hg) in Hg.
      destruct (H5 i _ Hg) as (f' & Hf' & Hat). rewrite replies_snoc, app_nil_r.
      simpl in Hat. congruence.
    + case_decide as He0.
      * rewrite Hc in H1. rewrite He0 in H1. apply length_zero_iff_nil in H1. subst found.
        symmetry in H4. apply Permutation_nil in H4. rewrite H4 in Hf. simpl in Hf. simplify_eq.
        by rewrite take_nil.
      * unfold finish. rewrite Hf. simpl. unfold zlen.
        destruct (Z.ltb_spec max (Z.of_nat (length fused))).
        { rewrite slice_prefix by (unfold zlen; lia). done. }
        rewrite take_ge by lia. done.
    + intros u. by rewrite Hu, (mjoin_found _ _ _ H4).
Qed.

(** ** Progress and termination *)
Definition rank (p : phase) : nat :=
  match p with PPrimary => 5 | PRetry => 4 | PEmpty => 3 | PFound _ => 2 | PExit => 1 | PDone => 0 end.
Definition measure (s : state) : nat :=
  6 * (engines - length (gs s)) + sum_list_with rank (gs s) +
  match ret s with None => 1 | Some _ => 0 end.
Lemma on_reply_rank p r p' : on_reply p r = Some p' → rank p' < rank p.
Proof.
  destruct r as [rs [e|]], p; simpl; intros; simplify_eq; unfold check_empty;
    repeat case_match; simpl; lia.
Qed.
Lemma search_step_measure s a s' : step a s = Some s' → measure s' < measure s.
Proof.
  unfold step, measure. destruct (ret s) eqn:Hr; [done|]. destruct a as [|i o|i|i|]; intros Hst.
  - case_decide; [|done]. simplify_eq/=. rewrite length_app, sum_list_with_app. simpl. lia.
  - destruct (gs s !! i) as [p|] eqn:Hg; [|done]. simpl in Hst. destruct o as [r| |].
    + destruct (on_reply p r) as [p'|] eqn:Hp; simplify_eq/=. apply on_reply_rank in Hp.
      rewrite length_insert. pose proof (sum_list_with_insert rank _ _ _ p' Hg). lia.
    + destruct p; simplify_eq/=; lia.
    + destruct p; simplify_eq/=; lia.
  - destruct (gs s !! i) as [[]|] eqn:Hg; simplify_eq/=. rewrite length_insert.
    pose proof (sum_list_with_insert rank _ _ _ PExit Hg). simpl in *. lia.
  - destruct (gs s !! i) as [[]|] eqn:Hg; try done. destruct (wg s); simplify_eq/=.
    rewrite length_insert. pose proof (sum_list_with_insert rank _ _ _ PDone Hg). simpl in *. lia.
  - case_decide; simplify_eq/=. lia.
Qed.
Lemma search_exec_measure l s s' : exec l s = Some s' → measure s' + length l <= measure s.
Proof.
  revert s. induction l as [|a l IH]; intros s He; simpl in He; [simplify_eq; simpl; lia|].
  destruct (step a s) as [s1|] eqn:E; [|done]. apply search_step_measure in E. apply IH in He. simpl. lia.
Qed.
Local Ltac go a Hr := exists a; unfold step; rewrite Hr.
Lemma search_can_move r l s found : inv l s found → ret s = None → ∃ a s', step a s = Some s' ∧
  match a with Reply _ r' => r' = Ok r | _ => True end.
Proof.
  intros [[H1 H2] H3 H4 H5 H6] Hr.
  destruct (decide (length (gs s) < engines)) as [Hl|Hl].
  { go Spawn Hr. rewrite decide_True by done. eauto. }
  destruct (decide (Forall (λ p, p = PDone) (gs s))) as [Hall|Hall].
  { go Wait Hr. rewrite decide_True; [eauto|]. split; [lia|].
    assert (count_done (gs s) = length (gs s)) as Hc; [|lia].
    unfold count_done. f_equal. clear -Hall. induction Hall; [done|].
    rewrite filter_cons. case_decide; [by f_equal|done]. }
  apply not_Forall_Exists in Hall; [|solve_decision].
  apply Exists_exists in Hall as (p & [i Hg]%list_elem_of_lookup & Hp).
  destruct p; [..|by destruct Hp].
  1-3: go (Reply i (Ok r)) Hr; rewrite Hg; simpl; destruct r; simpl; eauto.
  - go (Append i) Hr. rewrite Hg. eauto.
  - go (WgDone i) Hr. rewrite Hg. destruct (wg s) eqn:Hw; [|eauto].
    assert (count_done (gs s) = length (gs s)) as Hc%at_phase_done by lia.
    rewrite Forall_lookup in Hc. by apply Hc in Hg.
Qed.
(** the search always returns: no schedule takes more than six steps per engine and one more,
    and while the search has not returned some step can be taken, a call being taken to answer. *)
Theorem MultiSearch_returns r l s :
  exec l init = Some s →
  length l <= 6 * engines + 1 ∧
  ((∃ o, ret s = Some o) ∨ ∃ a s', step a s = Some s' ∧
     match a with Reply _ r' => r' = Ok r | _ => True end).
Proof.
  intros He. split.
  - apply search_exec_measure in He. unfold measure at 2 in He. simpl in He. lia.
  - destruct (exec_cases l s He) as [(Hr & found & Hi)|(l0 & a & s0 & found & o & _ & _ & _ & Hr)];
      [|by left; eauto].
    right. by eapply search_can_move.
Qed.
End MultiSearch.

(** Two engines and a fallback: the first fails, finds nothing on the fallback and is asked there a
    third time; the second finds an image at once. *)
Definition demo_image (u : gostring) : ImageResult :=
  {| i_URL := u; i_Thumbnail := []; i_Source := []; i_Title := []; i_Width := 0; i_Height := 0;
     i_Engine := [] |}.
Definition demo_schedule : list action :=
  [Spawn; Spawn; Reply 0 (Ok ([], Some (ErrMsg []))); Reply 1 (Ok ([demo_image (lit "b")], None));
   Append 1; Reply 0 (Ok ([], None)); WgDone 1; Reply 0 (Ok ([demo_image (lit "a")], None)); Append 0;
   WgDone 0; Wait].
Lemma MultiSearch_spec_witness :
  ∃ s o, exec 2 true 1 demo_schedule init = Some s ∧ ret s = Some o ∧
  ∃ found sets fused,
    length found = 2 ∧
    (∀ i f, found !! i = Some f → heard true (replies demo_schedule i) = Some f) ∧
    sets ≡ₚ filter (λ rs, rs ≠ []) found ∧ fuseWRR sets = Ok fused ∧
    o = Ok (take (Z.to_nat 1) fused) ∧ NoDup (i_URL <$> fused) ∧
    ∀ u, u ∈ i_URL <$> fused ↔ u ≠ [] ∧ u ∈ i_URL <$> mjoin found.
Proof.
  eexists _, _. split; [vm_compute; reflexivity|]. split; [reflexivity|].
  eapply (MultiSearch_spec 2 true 1 demo_schedule); [vm_compute; reflexivity|reflexivity|lia|].
  intros i r. unfold demo_schedule. rewrite !elem_of_cons, elem_of_nil.
  intros [?|[?|[?|[?|[?|[?|[?|[?|[?|[?|[?|[]]]]]]]]]]]]; simplify_eq; eauto.
Defined.
Lemma MultiSearch_returns_witness :
  ∃ s, exec 2 true 1 demo_schedule init = Some s ∧
  length demo_schedule <= 6 * 2 + 1 ∧
  ((∃ o, ret s = Some o) ∨ ∃ a s', step 2 true 1 a s = Some s' ∧
     match a with Reply _ r' => r' = Ok ([], None) | _ => True end).
Proof.
  eexists. split; [vm_compute; reflexivity|].
  apply (MultiSearch_returns 2 true 1 ([], None) demo_schedule). vm_compute. reflexivity.
Defined.
